(* ===== verification/_CoqProject ===== *)
-Q . S2P
Prelude.v
GoString.v
GoPath.v
GoTime.v
Dotenv.v
ConfigModel.v
CloneSave.v
Mapping.v
Base64.v
Crypto.v
NameId.v
Fs.v
Atomic.v
Seal.v
Store.v
Toys.v
SealIds.v
SealRoundtrip.v
SealStable.v
SealStructure.v
StoreInit.v
StoreMigrate.v
StoreSweep.v
Edit.v
Protocol.v
Resolver.v
Agent.v
AgentSealed.v
Shells.v
AgentStop.v
Shim.v
Sha256.v
Sync.v
SyncProtocol.v
GoDuration.v
ConfigPath.v
Rendocs.v
Unlock.v
Bag.v
Gitauth.v
Clone.v
Chpwd.v
Reconcile.v
SyncFile.v
SyncCli.v
Runner.v
Hook.v
HookInstall.v
Discover.v
VersionCheck.v
TuiRefs.v
Tui.v
RemotePair.v
S3.v
Ssh.v
Vault.v
Aws.v
AgentStart.v
Windows.v
Commands.v
TuiWidgets.v
TuiSources.v
TuiTree.v
TuiStack.v
TuiMappings.v
FilePicker.v
TuiSecrets.v
TuiDraw.v
TuiBags.v
TuiRemotes.v
TuiView.v
TuiStart.v
TuiViews.v
TuiWizard.v
Entry.v
