(* ===== verification/Prelude.v ===== *)
(** * Verification development for jitenv

    jitenv keeps secrets in a sealed configuration, holds them in memory in a
    background agent, and puts them into the environment of the commands the user
    mapped.  This library is a shallow embedding of its Go sources (the Linux build, and in
    Windows what the other builds do otherwise) and the theorems that make it correct.  Names follow the sources; each file says
    at its top which sources it models.  Below, paths are relative to src/.

    ** How the program fits together

    config.toml holds sources, mappings and local bags.  [Load] and [DecryptInPlace]
    turn the sealed file and a passphrase into a configuration, [EncryptInPlace] and
    [AtomicSave] turn it back; the migration rewrites older files.  The unlock
    derives the key, migrates, and starts the agent with both.  The agent builds the
    sources and a resolver and serves requests on a socket: which variables a command
    or a file gets, and reloads.  At every prompt the hook asks chpwd what the
    directory wants and links those names, in a directory of the shell's own, to the
    jitenv binary; started under such a name, jitenv is the shim: it finds the real
    command, asks the agent, and becomes that command.  [jitenv run] does the same for
    a file.  The editor, [jitenv clone] and [jitenv bag import] edit the configuration;
    sync carries the sealed file between machines.

    ** What is where

    Language and libraries that the sources call (executable definitions):
    - GoString, GoPath, GoTime, GoDuration, Base64, Sha256: strings, strconv, path/filepath,
      time, time.ParseDuration with its 64-bit overflows, encoding/base64, crypto/sha256;
    - Fs: package os as a state and error monad over a map of paths; every call can fail,
      a write can stop half way, and the state after every call is recorded.

    The configuration:
    - Dotenv (internal/dotenv), ConfigModel (internal/config/config.go, warnings.go),
      Mapping (mapping.go), NameId (nameid.go), ConfigPath (path.go, path_unix.go);
    - Crypto (internal/crypto), Seal (encrypt.go, decrypt.go) with SealIds, SealRoundtrip,
      SealStable and SealStructure about it;
    - Atomic (internal/atomicfile), Store (edit.go, migrate.go, config.go) with StoreInit,
      StoreMigrate and StoreSweep about it; Edit, the steps the editing commands share;
    - CloneSave (tui/save.go:cloneForSave): the copy a save seals, over a heap of the maps and
      slices that a configuration points to.

    The agent and those who use it:
    - Resolver (internal/sources, agent/resolver.go), Protocol (agent/protocol.go), Agent
      (agent/server.go, client.go), Shells (agent/paths*.go, pidfile*.go, socket_unix.go),
      AgentSealed (the composition from a sealed file to a command's variables), AgentStop
      (Shutdown beside the handlers that are still running);
    - AgentStart (agent/daemonize*.go, resolve_exe.go, cli/agent_internal.go and its key and
      environment): the parent that spawns the agent, and the child up to Serve;
    - Vault and Aws (sources/vault, sources/aws): the remote sources;
    - Unlock (internal/unlock), Shim (internal/shim), Runner (internal/run, runnotice,
      agentwarn), Chpwd and Reconcile (internal/chpwd), Hook (internal/shell/render.go),
      HookInstall (internal/shell/install.go and its Linux parts);
    - Windows (the files named _windows.go and _darwin.go): PowerShell wrappers, the start of
      programs and of the agent, the named pipe, the places of files.

    The commands and the editor:
    - Bag (cli/bag.go, bag_import.go), Gitauth (internal/gitauth), Clone (cli/clone.go),
      Discover (internal/discover), VersionCheck (internal/versioncheck), Commands (cli/config.go,
      sources.go, ismapped.go, warnings.go, unlock.go, chpwd_internal.go), Entry (cmd/jitenv,
      cmd/jitenv-hook, cmd/jitenv-tui, cli/hook.go, status.go, lock.go, crypto/passphrase.go);
    - Sync (internal/syncconfig), SyncProtocol (many machines and one remote), SyncFile (the
      file adapter), SyncCli (cli/sync.go); S3 and Ssh (syncadapters/s3, syncadapters/ssh) are
      instances of the engine's [Remote], and share in RemotePair what a pull of two files
      makes of each one's absence;
    - Tui (internal/tui/model.go, save.go, menu.go, confirm.go, quit_confirm.go), TuiRefs
      (references.go and the renames of two screens), TuiWidgets (menus, inputs, forms),
      TuiSources (sources_screen.go, arn_list_screen.go), TuiTree (var_tree_screen.go),
      TuiMappings (mappings_screen.go with the command and discovery screens: a machine over
      the stack of screens, driven by keys), TuiSecrets (secrets_screen.go,
      bag_bulk_import.go), TuiStart (tui.go, settings_screen.go: from the passphrase to the
      first screen, and after the last one);
    - TuiStack (the stack of screens and the messages all families share), TuiBags and
      TuiRemotes (the bag screens and the source screens as machines over that stack),
      FilePicker (file_picker_screen.go), TuiWizard (var_wizard.go, which nothing opens);
    - TuiDraw (layout.go, widgets.go and the widgets' drawing), TuiView (what the bag screens
      show), TuiViews (what the other screens and the root show);
    - Rendocs (internal/rendocs, cmd/render-docs): version pins in the published pages.

    ** What the theorems show

    - A secret survives the way through the disk and is served: sealing and unsealing
      are inverse on whole configurations (SealRoundtrip), what was sealed is what a
      mapped command gets (AgentSealed), the agent a parent started serves the configuration
      it was started for (AgentStart), the resolver's last binding wins (Resolver), and a
      file InitNew wrote unlocks again (StoreInit).
    - A secret goes nowhere else: nothing sensitive is left in the clear by a seal
      (SealRoundtrip), an unauthorised peer learns nothing from any request and the agent
      never serves from two stores (Agent), the shim adds nothing but the agent's
      variables, once per chain of commands (Shim), a wiped store is empty
      (Resolver), a stopped agent has no bag left, unless a reload outlasted the wait
      (AgentStop), a save never seals the configuration the editor goes on with
      (CloneSave), the bag screens draw the same for values of the same length unless
      they are revealed (TuiView), a mapping reaches no path of Vault outside the mount (Vault), and only
      sealed bytes go to S3, never to a bucket found public (S3).
    - Nothing is lost to a crash or a failing call: atomic replacement (Atomic), migration
      with its backup and its sweep (StoreMigrate, StoreSweep), the import, the clone and
      the editor from its opening through every save (Bag, Clone, Tui, TuiStart), the pulled
      file (SyncCli), the two files of a push (SyncFile).
    - Several machines converge and none overwrites what it has not seen (SyncProtocol); a
      push to S3 replaces exactly what its fence judged, with any other user of the
      bucket between its requests (S3), and what was pushed over ssh is what is pulled,
      through the quoting of the remote shell (Ssh).
    - Identifiers and structure survive edits: SealStable, SealStructure, TuiRefs; the mapping
      screens leave no half-made mapping (TuiMappings), no bag or source screen changes the
      configuration without an unsaved mark, but for one (TuiBags, TuiRemotes), the boxes of the variable tree are
      the vars of the mapping (TuiTree), and bulk import in the editor is the import of the
      command line (TuiSecrets).
    - The routing is exact: lookup refines a declarative choice and the anchors never
      hide a command (Mapping), the wrapper directory after a reconcile (Reconcile), the
      anchor file and the shell that reads it (Chpwd), the search for the real command
      (Shim), the startup files (HookInstall); is-mapped, which reads the sealed file without
      the key, gives the agent's answer (Commands).
    - Formats and bounds: Dotenv, Protocol, the retry of Unlock, the cap on handlers (Agent),
      validation as a conjunction of rules (ConfigModel), a cached client of Vault used within its
      lease (Vault), the row under the cursor of the variable tree drawn on any terminal of ten
      lines (TuiViews), a page of the site rendered to itself but for its pins (Rendocs).

    ** Interfaces

    What is not in the repository is a class or an argument, with its documented
    behaviour as named laws: the cipher ([AEAD], [AEADLaws]), Argon2id ([Argon]), random
    bytes ([Rand]: a stream of answers, any of which can be an error), the TOML and JSON
    codecs ([Toml], [NameMapCodec], [Codec], [SyncToml], [CacheCodec]: a decoder undoes the
    encoder on the values in question), doublestar ([ds_match]), net/url ([NetUrl]), the
    remote sources ([Remotes], which [Aws] and [Vault] implement over [AwsApi] and
    [VaultApi]), the sync remote ([Remote]), the S3 service ([S3Api], [S3Laws]) and a host
    reached by ssh ([SshHost], [SshLaws]: what the programs of the two command lines do), the
    drawing library ([Lipgloss]: of its laws only that drawing one line gives one line) and its
    file picker ([Picker]).
    Arguments of single commands are the terminal and the passphrase, git, the system
    calls that start the agent process, the execve, the shell snippets, pwsh, the release
    server, and what a text field of the editor makes of a key.  Toys has concrete instances, and the
    witnesses apply every theorem that has a hypothesis to one.

    A Go map is a [gmap], and ranging over it is [map_range i]: class [MapRange] gives an
    order for each loop [i] of the sources, about which only that it is a permutation
    of the entries is assumed, so every theorem holds for every iteration order.

    ** Fuel and bounds

    - [Mapping.matchAncestor_loop] runs on the length of the path plus three: every round
      shortens the path, and [Lookup_refines] is about that fuel;
    - [NameId.newID_loop] has the 64 attempts of the source, [Fs.create_temp] its 10000;
    - [Gitauth.dedupe_from] tries one name more than there are names, so one is free
      ([dedupe_from_spec]);
    - [GoDuration.components], [Fs.ancestors], [Fs.parse_pattern], [Sha256.blocks] and the string
      loops run on the length of what each round shortens, plus one; [itoa] on the
      number's size in bits;
    - [Fs] follows 40 symbolic links, as Linux does;
    - [AgentStart.readFull] and [await] run on the list of reads and of events that happen,
      so a wait without an end is a list without one;
    - [Rendocs.replace_all] runs on the length of the text ([show_length]: no more spans than
      that), [FilePicker.climb] on the length of the path plus two ([climb_enough]);
    - [Tui.exec] takes its fuel as an argument, the number of nested commands: a session need
      not end, and [exec_honest] holds after any number.

    ** Where the model stands apart from the code

    - A failing [EncryptInPlace] or [DecryptInPlace] gives only the error: its callers drop
      the half-changed argument.  Nil and empty maps are one value.
    - What a command prints is kept when it succeeds, as values; the wording of errors is
      kept as constructors that carry what the wording mentions.
    - File times are whole seconds, durations 64-bit nanoseconds.
    - Paths are plain keys: no mount points, no hard links, and only the last component of
      a path can be a link.
    - Two processes interleave where the code meant them to (locks, sockets, the remote);
      requests to one agent are served one at a time, the number of handlers aside.
    - The two writes of a configuration and its sidecar are separate calls, as in the
      code, and the theorems speak of every point between.
    - In [Tui] a sequence of commands runs in order without other messages between, and
      the screens that are parameters answer keys but do not edit; an edit is a step of
      its own in the life of a session (TuiStart), and what the editing screens do to the
      configuration is the subject of their own files.

    ** Not modelled

    Colours and borders (tui/styles.go), and the texts of the help pages; of the cobra
    commands flags, help and version (cli/root.go and the like); memory locking and the erasing
    of buffers (crypto/mlock*.go); the debug log; the text of the shell snippets, except the
    reader of the anchor file; of the Windows and macOS builds the reader of single keys, the
    dialling of the pipe and the Win32 calls themselves; the e2e harness and packaging.  They
    are outside calls, text or glue. *)

From Stdlib Require Export Ascii ZArith Lia.
From Stdlib Require String.
From stdpp Require Export base gmap sets list strings sorting.

(** Go code that returns [(T, error)] is modelled by [res E T]: the value of
    the success path or the error, never both. *)
Inductive res (E A : Type) : Type :=
| Ok (a : A)
| Err (e : E).
Arguments Ok {E A} a.
Arguments Err {E A} e.

#[export] Instance res_ret E : MRet (res E) := fun A a => Ok a.
#[export] Instance res_bind E : MBind (res E) := fun A B f m =>
  match m with Ok a => f a | Err e => Err e end.
#[export] Instance res_fmap E : FMap (res E) := fun A B f m =>
  match m with Ok a => Ok (f a) | Err e => Err e end.

(** The [err == nil] test of the source. *)
Definition is_ok {E A} (r : res E A) : bool :=
  match r with Ok _ => true | Err _ => false end.

(** The value of a call whose error is dropped ([x, _ := f()]). *)
Definition ok_value {E A} (r : res E A) : option A :=
  match r with Ok a => Some a | Err _ => None end.

(** [fmt.Errorf("...: %w", err)]: the error is wrapped, the value kept. *)
Definition wrap_err {E F A} (f : E -> F) (r : res E A) : res F A :=
  match r with Ok a => Ok a | Err e => Err (f e) end.

Definition of_option {E A} (e : E) (o : option A) : res E A :=
  match o with Some a => Ok a | None => Err e end.

(** Loops with an early error return. *)
Fixpoint res_fold {E A B} (f : B -> A -> res E B) (b : B) (l : list A) : res E B :=
  match l with
  | [] => Ok b
  | a :: l' => match f b a with Ok b' => res_fold f b' l' | Err e => Err e end
  end.

Fixpoint res_map {E A B} (f : A -> res E B) (l : list A) : res E (list B) :=
  match l with
  | [] => Ok []
  | a :: l' =>
      match f a with
      | Err e => Err e
      | Ok b => match res_map f l' with Err e => Err e | Ok bs => Ok (b :: bs) end
      end
  end.

Create HintDb jitenv.

Section ResLemmas.
Context {E A B : Type}.

Lemma res_bind_ok (m : res E A) (f : A -> res E B) b :
  (m ≫= f) = Ok b <-> exists a, m = Ok a /\ f a = Ok b.
Proof.
  destruct m as [a|e]; simpl; split.
  - intros ?; by exists a.
  - by intros (a' & [= <-] & ?).
  - done.
  - by intros (? & ? & ?).
Qed.

Lemma res_fold_app (f : B -> A -> res E B) b l1 l2 :
  res_fold f b (l1 ++ l2) =
  match res_fold f b l1 with Ok b' => res_fold f b' l2 | Err e => Err e end.
Proof.
  revert b. induction l1 as [|a l1 IH]; intros b; simpl; [done|].
  by destruct (f b a).
Qed.

(** Loop invariants of an early-return loop. *)
Lemma res_fold_inv (P : B -> Prop) (f : B -> A -> res E B) b l b' :
  (forall b a b', a ∈ l -> P b -> f b a = Ok b' -> P b') ->
  P b -> res_fold f b l = Ok b' -> P b'.
Proof.
  revert b. induction l as [|a l IH]; intros b Hstep Hb; simpl.
  - congruence.
  - destruct (f b a) as [b1|e] eqn:Hf; [|done].
    apply IH; [|eapply Hstep; eauto; set_solver].
    intros ???? ; eapply Hstep; set_solver.
Qed.

Lemma res_map_Forall2 (f : A -> res E B) l bs :
  res_map f l = Ok bs <-> Forall2 (fun a b => f a = Ok b) l bs.
Proof.
  revert bs. induction l as [|a l IH]; intros bs; simpl.
  - split; [intros [= <-]; constructor | by inversion 1].
  - split.
    + destruct (f a) as [b|] eqn:Hf; [|done].
      destruct (res_map f l) as [bs'|]; [|done].
      intros [= <-]. constructor; [done|]. by apply IH.
    + intros (b & bs' & Hf & HF & ->)%Forall2_cons_inv_l.
      apply IH in HF. by rewrite Hf, HF.
Qed.
End ResLemmas.

(** Case analysis on the guards of translated code. *)
Ltac break_guard :=
  match goal with
  | |- context [if ?b then _ else _] => destruct b eqn:?
  | |- context [match ?x with _ => _ end] => destruct x eqn:?
  end.

Ltac break_guard_in H :=
  match type of H with
  | context [if ?b then _ else _] => destruct b eqn:?
  | context [match ?x with _ => _ end] => destruct x eqn:?
  end.

(** Boolean facts to propositions. *)
Ltac bools :=
  repeat match goal with
  | H : (_ && _) = true |- _ => apply andb_true_iff in H as [??]
  | H : (_ || _) = false |- _ => apply orb_false_iff in H as [??]
  | H : negb _ = true |- _ => apply negb_true_iff in H
  | H : negb _ = false |- _ => apply negb_false_iff in H
  | H : bool_decide _ = true |- _ => apply bool_decide_eq_true in H
  | H : bool_decide _ = false |- _ => apply bool_decide_eq_false in H
  end.

(** Go ranges over a map in an unspecified order.  A model that ranges over a
    map is parameterised by an enumeration and only assumes that it lists
    every entry once; the site number lets two loops use different orders. *)
Class MapRange := {
  map_range : forall {V : Type}, nat -> gmap string V -> list (string * V);
  map_range_perm : forall {V : Type} site (m : gmap string V),
      map_range site m ≡ₚ map_to_list m
}.

(** The enumeration of the map's own order is one such order. *)
Definition map_range_default : MapRange.
Proof. exists (fun V _ m => map_to_list m). done. Defined.

Section MapRangeLemmas.
Context `{MapRange} {V : Type}.
Implicit Types m : gmap string V.

Lemma elem_of_map_range site m k v : (k, v) ∈ map_range site m <-> m !! k = Some v.
Proof. rewrite map_range_perm. apply elem_of_map_to_list. Qed.

Lemma NoDup_map_range_fst site m : NoDup (map_range site m).*1.
Proof. rewrite map_range_perm. apply NoDup_fst_map_to_list. Qed.

Lemma NoDup_map_range site m : NoDup (map_range site m).
Proof. eapply NoDup_fmap_1, NoDup_map_range_fst. Qed.

Lemma list_to_map_map_range site m : list_to_map (map_range site m) = m.
Proof.
  apply map_eq. intros k. apply option_eq. intros v.
  rewrite <- elem_of_list_to_map by apply NoDup_map_range_fst.
  apply elem_of_map_range.
Qed.

(** A loop that copies every entry: those of the map win. *)
Lemma insert_all site m (out : gmap string V) :
  fold_left (fun acc kv => <[kv.1 := kv.2]> acc) (map_range site m) out = m ∪ out.
Proof.
  assert (Hg : forall (l : list (string * V)) (acc : gmap string V), NoDup l.*1 ->
    fold_left (fun acc kv => <[kv.1 := kv.2]> acc) l acc = (list_to_map l : gmap string V) ∪ acc).
  { induction l as [|[k v] l IH]; intros acc Hnd; simpl; [by rewrite (left_id_L ∅ (∪))|].
    apply NoDup_cons in Hnd as [Hk Hnd]. rewrite IH by done. rewrite <- insert_union_l.
    rewrite insert_union_r; [done|]. by apply not_elem_of_list_to_map. }
  rewrite Hg by apply NoDup_map_range_fst. by rewrite list_to_map_map_range.
Qed.

Lemma map_range_nil site m : map_range site m = [] <-> m = ∅.
Proof.
  split; intros Heq.
  - apply map_empty. intros k. apply eq_None_not_Some. intros [v Hv].
    apply (elem_of_map_range site) in Hv. rewrite Heq in Hv. set_solver.
  - pose proof (map_range_perm site m) as Hp.
    rewrite Heq, map_to_list_empty in Hp.
    apply Permutation_nil_r in Hp. by rewrite Heq.
Qed.
End MapRangeLemmas.

#[export] Hint Resolve NoDup_map_range_fst NoDup_map_range : jitenv.

(** Sublists survive reversal. *)
Lemma sublist_rev {A} (l1 l2 : list A) : l1 `sublist_of` l2 -> rev l1 `sublist_of` rev l2.
Proof.
  induction 1; simpl; [done|by apply sublist_app|by apply sublist_inserts_r].
Qed.
