(* ===== verification/GoString.v ===== *)
(** * Go strings

    A Go [string] is a byte sequence: [string] over 8-bit [ascii].  This file
    models the functions of packages [strings] and [strconv] that the sources
    call, with the lemmas the components share.  Predicates that the sources
    write over runes ([for _, r := range s]) and that accept ASCII only are
    modelled over bytes: a byte above 127 always decodes to a rune above 127
    (or to U+FFFD), which those predicates reject as well. *)

From S2P Require Import Prelude.

Declare Scope gostring_scope.
Open Scope gostring_scope.

Definition byte_of (n : nat) : ascii := Ascii.ascii_of_nat n.
Definition NUL : ascii := "000"%char.
Definition TAB : ascii := "009"%char.
Definition LF : ascii := "010"%char.
Definition CR : ascii := "013"%char.
Definition DQUOTE : ascii := "034"%char.
Definition BSLASH : ascii := "092"%char.

(** [string(c)] for a byte. *)
Definition str1 (c : ascii) : string := String c EmptyString.

Definition byte_val (c : ascii) : nat := Ascii.nat_of_ascii c.

(** Byte range tests [lo <= r && r <= hi]. *)
Definition in_range (lo hi : ascii) (c : ascii) : bool :=
  (byte_val lo <=? byte_val c)%nat && (byte_val c <=? byte_val hi)%nat.

Definition is_lower (c : ascii) : bool := in_range "a"%char "z"%char c.
Definition is_upper (c : ascii) : bool := in_range "A"%char "Z"%char c.
Definition is_digit (c : ascii) : bool := in_range "0"%char "9"%char c.
Definition is_hex_lower (c : ascii) : bool := is_digit c || in_range "a"%char "f"%char c.

Definition str_empty (s : string) : bool :=
  match s with EmptyString => true | _ => false end.

Fixpoint forall_bytes (f : ascii -> bool) (s : string) : bool :=
  match s with
  | EmptyString => true
  | String c s' => f c && forall_bytes f s'
  end.

Fixpoint exists_byte (f : ascii -> bool) (s : string) : bool :=
  match s with
  | EmptyString => false
  | String c s' => f c || exists_byte f s'
  end.

(** strings.ContainsRune for an ASCII rune. *)
Definition contains_byte (s : string) (c : ascii) : bool := exists_byte (Ascii.eqb c) s.

(** strings.HasPrefix *)
Fixpoint has_prefix (s p : string) : bool :=
  match p, s with
  | EmptyString, _ => true
  | String c p', String d s' => Ascii.eqb c d && has_prefix s' p'
  | String _ _, EmptyString => false
  end.

(** [s[n:]] and [s[:n]], for [n <= len(s)]. *)
Fixpoint str_drop (n : nat) (s : string) : string :=
  match n, s with
  | O, _ => s
  | S n', String _ s' => str_drop n' s'
  | S _, EmptyString => EmptyString
  end.

Fixpoint str_take (n : nat) (s : string) : string :=
  match n, s with
  | O, _ => EmptyString
  | S n', String c s' => String c (str_take n' s')
  | S _, EmptyString => EmptyString
  end.

(** strings.TrimPrefix *)
Definition trim_prefix (s p : string) : string :=
  if has_prefix s p then str_drop (String.length p) s else s.

(** strings.HasSuffix, strings.TrimSuffix *)
Definition has_suffix (s p : string) : bool :=
  (String.length p <=? String.length s)%nat &&
  bool_decide (str_drop (String.length s - String.length p) s = p).
Definition trim_suffix (s p : string) : string :=
  if has_suffix s p then str_take (String.length s - String.length p) s else s.

(** strings.IndexByte; [None] is -1. *)
Fixpoint index_byte (s : string) (c : ascii) : option nat :=
  match s with
  | EmptyString => None
  | String d s' => if Ascii.eqb d c then Some O else S <$> index_byte s' c
  end.

(** strings.Index *)
Fixpoint index_str (s p : string) : option nat :=
  if has_prefix s p then Some O
  else match s with
       | EmptyString => None
       | String _ s' => S <$> index_str s' p
       end.

Definition contains_str (s p : string) : bool :=
  match index_str s p with Some _ => true | None => false end.

(** strings.Split for a one-byte separator: always at least one element. *)
Fixpoint split_byte (c : ascii) (s : string) : list string :=
  match s with
  | EmptyString => [EmptyString]
  | String d s' =>
      if Ascii.eqb d c then EmptyString :: split_byte c s'
      else match split_byte c s' with
           | [] => [str1 d]
           | h :: t => String d h :: t
           end
  end.

(** strings.Join *)
Fixpoint join (sep : string) (l : list string) : string :=
  match l with
  | [] => EmptyString
  | [x] => x
  | x :: l' => x +:+ sep +:+ join sep l'
  end.

(** strings.TrimLeft and strings.TrimRight with an ASCII cutset, given as a
    predicate on bytes. *)
Fixpoint trim_left (f : ascii -> bool) (s : string) : string :=
  match s with
  | EmptyString => EmptyString
  | String c s' => if f c then trim_left f s' else s
  end.

Fixpoint trim_right (f : ascii -> bool) (s : string) : string :=
  match s with
  | EmptyString => EmptyString
  | String c s' =>
      match trim_right f s' with
      | EmptyString => if f c then EmptyString else str1 c
      | t => String c t
      end
  end.

Definition cutset (cs : string) (c : ascii) : bool := contains_byte cs c.

(** The UTF-8 encodings of the runes with the Unicode White_Space property,
    which is what unicode.IsSpace tests. *)
Definition utf8 (l : list nat) : string :=
  foldr (fun n s => String (byte_of n) s) EmptyString l.

Definition space_seqs : list string :=
  utf8 <$> [[9]; [10]; [11]; [12]; [13]; [32]; [194; 133]; [194; 160];
            [225; 154; 128]; [226; 128; 128]; [226; 128; 129]; [226; 128; 130];
            [226; 128; 131]; [226; 128; 132]; [226; 128; 133]; [226; 128; 134];
            [226; 128; 135]; [226; 128; 136]; [226; 128; 137]; [226; 128; 138];
            [226; 128; 168]; [226; 128; 169]; [226; 128; 175]; [226; 129; 159];
            [227; 128; 128]]%nat.

Definition strip_space (s : string) : option string :=
  (fun p => str_drop (String.length p) s) <$> List.find (has_prefix s) space_seqs.

Fixpoint trim_left_space_fuel (fuel : nat) (s : string) : string :=
  match fuel with
  | O => s
  | S n => match strip_space s with Some s' => trim_left_space_fuel n s' | None => s end
  end.

Definition trim_left_space (s : string) : string :=
  trim_left_space_fuel (String.length s) s.

(** A suffix made of encoded spaces only is what TrimRight removes: an encoded
    space starts with a rune-start byte, so decoding backwards finds it. *)
Fixpoint trim_right_space (s : string) : string :=
  if str_empty (trim_left_space s) then EmptyString
  else match s with
       | EmptyString => EmptyString
       | String c s' => String c (trim_right_space s')
       end.

(** strings.TrimSpace *)
Definition trim_space (s : string) : string := trim_right_space (trim_left_space s).

(** strings.ToLower on ASCII, plus the two non-ASCII runes whose lower case is
    ASCII (U+0130 and U+212A); every other rune stays outside ASCII. *)
Definition lower_byte (c : ascii) : ascii :=
  if is_upper c then byte_of (byte_val c + 32) else c.

Fixpoint to_lower (s : string) : string :=
  match s with
  | EmptyString => EmptyString
  | String c s' =>
      match s' with
      | String d s'' =>
          if Ascii.eqb c (byte_of 196) && Ascii.eqb d (byte_of 176)
          then String "i"%char (to_lower s'')
          else match s'' with
               | String e s3 =>
                   if Ascii.eqb c (byte_of 226) && Ascii.eqb d (byte_of 132)
                      && Ascii.eqb e (byte_of 170)
                   then String "k"%char (to_lower s3)
                   else String (lower_byte c) (to_lower s')
               | EmptyString => String (lower_byte c) (to_lower s')
               end
      | EmptyString => str1 (lower_byte c)
      end
  end.

(** strconv.Itoa, strconv.FormatUint in base 10.  A number has at most as many
    decimal as binary digits, which bounds the fuel. *)
Definition digit_char (n : N) : ascii := Ascii.ascii_of_N (48 + n).

Fixpoint itoa_fuel (fuel : nat) (n : N) (acc : string) : string :=
  match fuel with
  | O => acc
  | S f =>
      let acc' := String (digit_char (n mod 10)) acc in
      if (n <? 10)%N then acc' else itoa_fuel f (n / 10) acc'
  end.

Definition itoa (n : N) : string := itoa_fuel (S (N.size_nat n)) n EmptyString.

(** strconv.Atoi / ParseInt(s, 10, 64): optional sign, at least one decimal
    digit, nothing else, and the value must fit in 64 bits signed. *)
Fixpoint digits_val (acc : Z) (s : string) : option Z :=
  match s with
  | EmptyString => Some acc
  | String c s' =>
      if is_digit c then digits_val (acc * 10 + Z.of_nat (byte_val c - 48)) s' else None
  end.

Definition atoi (s : string) : option Z :=
  let body := match s with
              | String c s' =>
                  if Ascii.eqb c "-"%char || Ascii.eqb c "+"%char then s' else s
              | EmptyString => s
              end in
  let neg := match s with String c _ => Ascii.eqb c "-"%char | EmptyString => false end in
  match body with
  | EmptyString => None
  | _ =>
      v ← digits_val 0 body;
      let z := if neg then Z.opp v else v in
      if (Z.leb (- 2 ^ 63) z && Z.leb z (2 ^ 63 - 1))%Z then Some z else None
  end.

(** strconv.FormatInt(z, 10). *)
Definition format_int (z : Z) : string :=
  if (z <? 0)%Z then String "-"%char (itoa (Z.to_N (- z))) else itoa (Z.to_N z).

(** ** Lemmas *)

#[global] Arguments Ascii.eqb : simpl never.
#[global] Arguments byte_of : simpl never.

Lemma str_app_cons c (s t : string) : String c s +:+ t = String c (s +:+ t).
Proof. done. Qed.

Lemma str_app_nil_l (t : string) : EmptyString +:+ t = t.
Proof. done. Qed.

Lemma str_app_nil_r (s : string) : s +:+ EmptyString = s.
Proof. induction s as [|c s IH]; [done|]. by rewrite str_app_cons, IH. Qed.

Lemma str_app_assoc (s t u : string) : s +:+ (t +:+ u) = (s +:+ t) +:+ u.
Proof. induction s as [|c s IH]; [done|]. by rewrite !str_app_cons, IH. Qed.

Lemma str_length_app (s t : string) :
  String.length (s +:+ t) = (String.length s + String.length t)%nat.
Proof. induction s as [|c s IH]; [done|]. rewrite str_app_cons. simpl. lia. Qed.

Lemma str_app_inj_l (s t u : string) : s +:+ t = s +:+ u <-> t = u.
Proof. split; [|by intros ->]. induction s as [|c s IH]; [done|]. rewrite !str_app_cons. naive_solver. Qed.

Lemma str_empty_spec s : str_empty s = true <-> s = EmptyString.
Proof. by destruct s. Qed.

Lemma str_empty_false s : str_empty s = false <-> s <> EmptyString.
Proof. by destruct s. Qed.

(** Case analysis on [s == ""]. *)
Ltac str_cases s :=
  let H := fresh "Hempty" in
  destruct (str_empty s) eqn:H; [apply str_empty_spec in H|apply str_empty_false in H].

Lemma has_prefix_spec s p : has_prefix s p = true <-> exists t, s = p +:+ t.
Proof.
  revert s. induction p as [|c p IH]; intros s; simpl.
  - split; [intros _; by exists s | destruct s; done].
  - destruct s as [|d s]; [split; [done | by intros [t Ht]]|].
    simpl. rewrite andb_true_iff, Ascii.eqb_eq, IH. split.
    + intros [-> [t ->]]. by exists t.
    + intros [t [= <- ->]]. split; [done | by exists t].
Qed.

Lemma has_prefix_app p t : has_prefix (p +:+ t) p = true.
Proof. apply has_prefix_spec. by exists t. Qed.

Lemma contains_str_app a q b : contains_str (a +:+ q +:+ b) q = true.
Proof.
  unfold contains_str. induction a as [|c a IH].
  - rewrite str_app_nil_l. destruct (q +:+ b) eqn:He; cbn [index_str]; by rewrite <- He, has_prefix_app.
  - rewrite str_app_cons. cbn [index_str]. destruct (has_prefix _ _); [done|]. by destruct (index_str (a +:+ q +:+ b) q).
Qed.

Lemma has_prefix_refl s : has_prefix s s = true.
Proof. rewrite <- (str_app_nil_r s) at 1. apply has_prefix_app. Qed.

Lemma has_prefix_nil s : has_prefix s EmptyString = true.
Proof. by destruct s. Qed.

Lemma has_prefix_trans s p q : has_prefix s p = true -> has_prefix p q = true -> has_prefix s q = true.
Proof.
  rewrite !has_prefix_spec. intros [t ->] [u ->]. exists (u +:+ t). by rewrite str_app_assoc.
Qed.

Lemma str_drop_app p t : str_drop (String.length p) (p +:+ t) = t.
Proof. induction p as [|c p IH]; [done|]. by rewrite str_app_cons. Qed.

Lemma str_take_app p t : str_take (String.length p) (p +:+ t) = p.
Proof. induction p as [|c p IH]; [done|]. rewrite str_app_cons. simpl. by f_equal. Qed.

Lemma str_take_drop n s : str_take n s +:+ str_drop n s = s.
Proof.
  revert s. induction n as [|n IH]; intros s; [done|].
  destruct s as [|c s]; [done|]. simpl. by rewrite str_app_cons, IH.
Qed.

Lemma str_drop_ge n s : (String.length s <= n)%nat -> str_drop n s = EmptyString.
Proof. revert n. induction s as [|c s IH]; intros [|n] Hn; simpl in *; try done; try lia; apply IH; lia. Qed.

Lemma str_length_take n s : (n <= String.length s)%nat -> String.length (str_take n s) = n.
Proof. revert n. induction s as [|c s IH]; intros [|n] Hn; simpl in *; try done; try lia; rewrite IH; lia. Qed.

Lemma str_length_drop n s : String.length (str_drop n s) = (String.length s - n)%nat.
Proof. revert n. induction s as [|c s IH]; intros [|n]; simpl; auto. Qed.

Lemma trim_prefix_app p t : trim_prefix (p +:+ t) p = t.
Proof. unfold trim_prefix. by rewrite has_prefix_app, str_drop_app. Qed.

Lemma forall_bytes_app f s t : forall_bytes f (s +:+ t) = forall_bytes f s && forall_bytes f t.
Proof. induction s as [|c s IH]; [done|]. rewrite str_app_cons. simpl. by rewrite IH, andb_assoc. Qed.

Lemma forall_bytes_impl (f g : ascii -> bool) s :
  (forall c, f c = true -> g c = true) -> forall_bytes f s = true -> forall_bytes g s = true.
Proof. intros Hfg. induction s as [|c s IH]; simpl; [done|]. intros ?; bools. rewrite Hfg, IH; done. Qed.

Lemma exists_byte_forall f s : exists_byte f s = negb (forall_bytes (fun c => negb (f c)) s).
Proof. induction s as [|c s IH]; [done|]. simpl. rewrite IH, negb_andb, negb_involutive. done. Qed.

Lemma contains_byte_app s t c : contains_byte (s +:+ t) c = contains_byte s c || contains_byte t c.
Proof.
  unfold contains_byte. rewrite !exists_byte_forall, forall_bytes_app. by rewrite negb_andb.
Qed.

(** [index_byte] finds the first occurrence. *)
Lemma index_byte_app p c t :
  contains_byte p c = false -> index_byte (p +:+ String c t) c = Some (String.length p).
Proof.
  induction p as [|d p IH]; intros Hp.
  - by rewrite str_app_nil_l; simpl; rewrite Ascii.eqb_refl.
  - rewrite str_app_cons. unfold contains_byte in *. simpl in *. bools.
    rewrite Ascii.eqb_sym. rewrite H, IH; done.
Qed.

Lemma index_byte_Some s c n :
  index_byte s c = Some n ->
  s = str_take n s +:+ String c (str_drop (S n) s) /\ contains_byte (str_take n s) c = false
  /\ (n < String.length s)%nat.
Proof.
  revert n. induction s as [|d s IH]; intros n; [done|]. simpl.
  destruct (Ascii.eqb d c) eqn:Hdc.
  - intros [= <-]. apply Ascii.eqb_eq in Hdc as ->. simpl. repeat split; lia.
  - destruct (index_byte s c) as [m|]; [|done]. simpl. intros [= <-].
    destruct (IH m eq_refl) as (Hs & Hc & Hlt). simpl. repeat split.
    + rewrite str_app_cons. by f_equal.
    + unfold contains_byte in *. simpl. rewrite Ascii.eqb_sym, Hdc. done.
    + lia.
Qed.

Lemma index_byte_None s c : index_byte s c = None <-> contains_byte s c = false.
Proof.
  unfold contains_byte. induction s as [|d s IH]; [done|]. simpl. rewrite (Ascii.eqb_sym c d).
  destruct (Ascii.eqb d c); [done|]. simpl. rewrite <- IH. by destruct (index_byte s c).
Qed.

(** ** Split and join *)

Lemma split_byte_cons_ne c d s :
  Ascii.eqb d c = false ->
  exists h t, split_byte c s = h :: t /\ split_byte c (String d s) = String d h :: t.
Proof.
  intros Hd. simpl. rewrite Hd. destruct (split_byte c s) as [|h t] eqn:Hs; [|by eauto].
  destruct s as [|e s]; simpl in Hs; [done|].
  destruct (Ascii.eqb e c); [done|]. by destruct (split_byte c s).
Qed.

Lemma split_byte_not_nil c s : split_byte c s <> [].
Proof.
  destruct s as [|d s]; [done|]. destruct (Ascii.eqb d c) eqn:Hd.
  - simpl. by rewrite Hd.
  - destruct (split_byte_cons_ne c d s Hd) as (h & t & _ & ->). done.
Qed.

Lemma split_byte_app c p t :
  contains_byte p c = false ->
  split_byte c (p +:+ String c t) = p :: split_byte c t.
Proof.
  unfold contains_byte. induction p as [|d p IH]; intros Hp.
  - rewrite str_app_nil_l. simpl. by rewrite Ascii.eqb_refl.
  - rewrite str_app_cons. simpl in *. bools. rewrite Ascii.eqb_sym, H, IH; done.
Qed.

(** A separator anywhere cuts the pieces in two. *)
Lemma split_byte_mid c a t : split_byte c (a +:+ String c t) = split_byte c a ++ split_byte c t.
Proof.
  induction a as [|d a IH]; [cbn; rewrite str_app_nil_l; cbn; by rewrite Ascii.eqb_refl|].
  rewrite str_app_cons. cbn [split_byte]. destruct (Ascii.eqb d c); [by rewrite IH|]. rewrite IH.
  destruct (split_byte c a) as [|h l] eqn:Ha; [by destruct (split_byte_not_nil c a)|]. done.
Qed.

Lemma split_byte_none c p : contains_byte p c = false -> split_byte c p = [p].
Proof.
  unfold contains_byte. induction p as [|d p IH]; intros Hp; [done|].
  simpl in *. bools. rewrite Ascii.eqb_sym, H, IH; done.
Qed.

Lemma join_cons sep x l : l <> [] -> join sep (x :: l) = x +:+ sep +:+ join sep l.
Proof. by destruct l. Qed.

Lemma split_join c l :
  l <> [] -> Forall (fun x => contains_byte x c = false) l ->
  split_byte c (join (str1 c) l) = l.
Proof.
  intros Hl HF. induction HF as [|x l Hx HF IH]; [done|].
  destruct l as [|y l]; [by apply split_byte_none|].
  rewrite join_cons by done. change (str1 c +:+ ?r) with (String c r).
  rewrite split_byte_app by done. f_equal. by apply IH.
Qed.

Lemma join_split c s : join (str1 c) (split_byte c s) = s.
Proof.
  induction s as [|d s IH]; [done|]. destruct (Ascii.eqb d c) eqn:Hd.
  - simpl. rewrite Hd. rewrite join_cons by apply split_byte_not_nil.
    apply Ascii.eqb_eq in Hd as ->. by rewrite IH.
  - destruct (split_byte_cons_ne c d s Hd) as (h & t & Hs & ->).
    rewrite Hs in IH. destruct t as [|h' t]; simpl in *; [by subst|].
    rewrite str_app_cons. by rewrite IH.
Qed.

Lemma split_byte_Forall c s : Forall (fun x => contains_byte x c = false) (split_byte c s).
Proof.
  induction s as [|d s IH]; [by repeat constructor|]. destruct (Ascii.eqb d c) eqn:Hd.
  - simpl. rewrite Hd. by constructor.
  - destruct (split_byte_cons_ne c d s Hd) as (h & t & Hs & ->). rewrite Hs in IH.
    apply Forall_cons in IH as [Hh Ht]. constructor; [|done].
    unfold contains_byte in *. simpl. by rewrite Ascii.eqb_sym, Hd.
Qed.

(** ** Trimming *)

Lemma trim_left_head f c s : f c = false -> trim_left f (String c s) = String c s.
Proof. intros Hc. simpl. by rewrite Hc. Qed.

Lemma trim_right_last f s c : f c = false -> trim_right f (s +:+ str1 c) = s +:+ str1 c.
Proof.
  intros Hc. induction s as [|d s IH]; [simpl; by rewrite Hc|].
  rewrite str_app_cons. simpl. rewrite IH. by destruct s.
Qed.

Lemma strip_space_head c s :
  forallb (fun p => negb (has_prefix (str1 c) (str_take 1 p))) space_seqs = true ->
  strip_space (String c s) = None.
Proof.
  intros Hc. unfold strip_space.
  destruct (List.find (has_prefix (String c s)) space_seqs) as [p|] eqn:Hf; [|done].
  apply List.find_some in Hf as [Hin Hp]. apply (proj1 (forallb_forall _ _)) with (x := p) in Hc; [|done].
  destruct p as [|d p]; [vm_compute in Hin; intuition done|].
  simpl in Hc, Hp. bools. rewrite H in Hc. done.
Qed.

(** Bytes that neither are nor start an encoded space. *)
Definition plain_byte (c : ascii) : bool :=
  forallb (fun p => negb (has_prefix (str1 c) (str_take 1 p))) space_seqs.

Lemma trim_left_space_plain c s : plain_byte c = true -> trim_left_space (String c s) = String c s.
Proof. intros Hc. unfold trim_left_space. simpl. by rewrite strip_space_head. Qed.

(** ** Decimal numbers *)

Lemma digit_char_digit n : (n < 10)%N -> is_digit (digit_char n) = true /\ byte_val (digit_char n) = (48 + N.to_nat n)%nat.
Proof.
  intros Hn. unfold is_digit, in_range, byte_val, digit_char, Ascii.nat_of_ascii.
  rewrite Ascii.N_ascii_embedding by lia.
  change (N.to_nat (Ascii.N_of_ascii "0")) with 48%nat.
  change (N.to_nat (Ascii.N_of_ascii "9")) with 57%nat.
  split; [|lia]. apply andb_true_iff. split; apply Nat.leb_le; lia.
Qed.

Lemma itoa_fuel_val fuel n :
  (n < 2 ^ N.of_nat fuel)%N ->
  exists k, forall z s, digits_val z (itoa_fuel fuel n s) = digits_val (z * 10 ^ k + Z.of_N n) s /\ (0 <= k)%Z.
Proof.
  revert n. induction fuel as [|f IH]; intros n Hn.
  - exists 0%Z. intros z s. simpl. replace n with 0%N by (simpl in Hn; lia).
    rewrite Z.mul_1_r, Z.add_0_r. done.
  - destruct (N.ltb_spec n 10) as [Hlt|Hge].
    + exists 1%Z. intros z s. simpl. apply N.ltb_lt in Hlt as Hb. rewrite Hb, N.mod_small by done.
      destruct (digit_char_digit n Hlt) as [Hd Hv]. simpl. rewrite Hd, Hv.
      split; [|lia]. f_equal. lia.
    + destruct (IH (n / 10)%N) as [k Hk].
      { apply N.Div0.div_lt_upper_bound. replace (N.of_nat (S f)) with (N.succ (N.of_nat f)) in Hn by lia.
        rewrite N.pow_succ_r' in Hn. lia. }
      exists (k + 1)%Z. intros z s. simpl. apply N.ltb_ge in Hge as Hb. rewrite Hb.
      destruct (Hk z (String (digit_char (n mod 10)) s)) as [-> Hk0].
      destruct (digit_char_digit (n mod 10)) as [Hd Hv]; [by apply N.mod_lt|].
      simpl. rewrite Hd, Hv. split; [|lia]. f_equal.
      rewrite Z.pow_add_r, Z.pow_1_r, Z.mul_assoc by lia.
      pose proof (N.div_mod n 10 ltac:(lia)) as Hdm. clear -Hdm. revert Hdm.
      generalize (n / 10)%N (n mod 10)%N (z * 10 ^ k)%Z. intros q r w ->.
      rewrite N2Z.inj_add, N2Z.inj_mul. replace (Z.of_nat (48 + N.to_nat r - 48)) with (Z.of_N r) by lia.
      change (Z.of_N 10) with 10%Z. ring.
Qed.

Lemma itoa_enough n : (n < 2 ^ N.of_nat (S (N.size_nat n)))%N.
Proof.
  assert (Hp : forall p, (Npos p < 2 ^ N.of_nat (Pos.size_nat p))%N).
  { induction p as [p IH|p IH|]; simpl Pos.size_nat; [| |done];
      rewrite Nat2N.inj_succ, N.pow_succ_r'; lia. }
  rewrite Nat2N.inj_succ, N.pow_succ_r'. destruct n as [|p]; [done|].
  specialize (Hp p). change (N.size_nat (N.pos p)) with (Pos.size_nat p). lia.
Qed.

Lemma digits_val_itoa n : digits_val 0 (itoa n) = Some (Z.of_N n).
Proof.
  destruct (itoa_fuel_val _ n (itoa_enough n)) as [k Hk].
  unfold itoa. destruct (Hk 0%Z EmptyString) as [-> _]. done.
Qed.

Lemma itoa_inj n m : itoa n = itoa m -> n = m.
Proof. intros H. pose proof (digits_val_itoa n). rewrite H, digits_val_itoa in *. simplify_eq. lia. Qed.

Lemma digits_val_all z s v : digits_val z s = Some v -> forall_bytes is_digit s = true.
Proof. revert z. induction s as [|c s IH]; intros z; simpl; [done|]. destruct (is_digit c); [|done]. apply IH. Qed.

Lemma itoa_digits n : forall_bytes is_digit (itoa n) = true.
Proof. eapply digits_val_all, digits_val_itoa. Qed.

Lemma itoa_not_nil n : itoa n <> EmptyString.
Proof.
  unfold itoa. generalize (N.size_nat n) as f. intros f. revert n.
  assert (Hg : forall f n c s, itoa_fuel f n (String c s) <> EmptyString).
  { induction f0 as [|f0 IH]; intros n c s; simpl; [done|]. break_guard; [done|apply IH]. }
  intros n. simpl. break_guard; [done|]. apply Hg.
Qed.

Lemma atoi_digits s v :
  s <> EmptyString -> digits_val 0 s = Some v -> (0 <= v < 2 ^ 63)%Z -> atoi s = Some v.
Proof.
  intros Hs Hv Hr. destruct s as [|c s]; [done|]. unfold atoi.
  assert (Hd : is_digit c = true) by (simpl in Hv; by destruct (is_digit c)).
  destruct (Ascii.eqb_spec c "-") as [->|_]; [done|].
  destruct (Ascii.eqb_spec c "+") as [->|_]; [done|].
  cbn [orb]. rewrite Hv. cbn [mbind option_bind].
  rewrite (proj2 (Z.leb_le _ _)) by lia. rewrite (proj2 (Z.leb_le _ _)) by lia. done.
Qed.

Lemma atoi_itoa n : (n < 2 ^ 63)%N -> atoi (itoa n) = Some (Z.of_N n).
Proof. intros Hn. apply atoi_digits; [apply itoa_not_nil|apply digits_val_itoa|lia]. Qed.

Lemma forall_bytes_not_contains f s c :
  forall_bytes f s = true -> f c = false -> contains_byte s c = false.
Proof.
  intros Hs Hc. induction s as [|d s IH]; [done|]. unfold contains_byte in *. simpl in *. bools.
  destruct (Ascii.eqb_spec c d) as [->|]; [congruence|]. simpl. auto.
Qed.

#[export] Hint Resolve has_prefix_app has_prefix_refl itoa_digits itoa_not_nil split_byte_not_nil : jitenv.

(** ** Trimming strings whose ends are not spaces *)

Fixpoint str_last (s : string) : option ascii :=
  match s with
  | EmptyString => None
  | String c s' => match str_last s' with Some d => Some d | None => Some c end
  end.

Lemma str_last_app s t : str_last (s +:+ t) = match str_last t with Some d => Some d | None => str_last s end.
Proof.
  induction s as [|c s IH]; [rewrite str_app_nil_l; by destruct (str_last t)|].
  rewrite str_app_cons. simpl. rewrite IH. by destruct (str_last t).
Qed.

Lemma not_contains_last s c : contains_byte s c = false -> str_last s <> Some c.
Proof.
  unfold contains_byte. induction s as [|d s IH]; [done|]. simpl. intros ?; bools.
  destruct (str_last s) as [e|]; [intros [= ->]; by apply IH|].
  intros [= ->]. by rewrite Ascii.eqb_refl in H.
Qed.

Lemma str_last_None s : str_last s = None -> s = EmptyString.
Proof. destruct s as [|c s]; [done|]. simpl. by destruct (str_last s). Qed.

(** Bytes that do not end an encoded space. *)
Definition plain_end (c : ascii) : bool :=
  forallb (fun p => negb (bool_decide (str_last p = Some c))) space_seqs.

Lemma strip_space_Some s s' :
  strip_space s = Some s' -> exists p, p ∈ space_seqs /\ s = p +:+ s'.
Proof.
  unfold strip_space. destruct (List.find (has_prefix s) space_seqs) as [p|] eqn:Hf; [|done].
  simpl. intros [= <-]. apply List.find_some in Hf as [Hin Hp].
  apply has_prefix_spec in Hp as [t ->]. exists p. rewrite str_drop_app.
  split; [by apply list_elem_of_In|done].
Qed.

Lemma plain_end_spec c p : plain_end c = true -> p ∈ space_seqs -> str_last p <> Some c.
Proof.
  intros Hc Hp. unfold plain_end in Hc. rewrite forallb_forall in Hc.
  apply list_elem_of_In, Hc in Hp. by bools.
Qed.

Lemma trim_left_space_keeps_last c s :
  plain_end c = true -> str_last s = Some c -> str_last (trim_left_space s) = Some c.
Proof.
  intros Hc. unfold trim_left_space. generalize (String.length s) as n. intros n. revert s.
  induction n as [|n IH]; intros s Hs; simpl; [done|].
  destruct (strip_space s) as [s'|] eqn:Hst; [|done].
  apply strip_space_Some in Hst as (p & Hp & ->). apply IH.
  rewrite str_last_app in Hs. destruct (str_last s'); [done|].
  exfalso. by eapply plain_end_spec.
Qed.

Lemma trim_right_space_last c s : plain_end c = true -> str_last s = Some c -> trim_right_space s = s.
Proof.
  intros Hc. induction s as [|d s IH]; intros Hs; [done|]. cbn [trim_right_space].
  pose proof (trim_left_space_keeps_last c _ Hc Hs) as Hl.
  destruct (trim_left_space (String d s)) as [|e t]; [done|]. simpl str_empty.
  simpl in Hs. destruct (str_last s) as [d'|] eqn:Hd; [by rewrite IH|].
  apply str_last_None in Hd as ->. done.
Qed.

Lemma trim_space_id c d s :
  plain_byte c = true -> plain_end d = true -> str_last (String c s) = Some d ->
  trim_space (String c s) = String c s.
Proof.
  intros Hc Hd Hs. unfold trim_space. rewrite trim_left_space_plain by done.
  by eapply trim_right_space_last.
Qed.

Lemma trim_right_id f c s : f c = false -> str_last s = Some c -> trim_right f s = s.
Proof.
  intros Hc. induction s as [|d s IH]; intros Hs; [done|]. simpl in *.
  destruct (str_last s) as [e|] eqn:He.
  - rewrite IH by done. by destruct s.
  - apply str_last_None in He as ->. simplify_eq. simpl. by rewrite Hc.
Qed.

Lemma str_last_forall f s c : forall_bytes f s = true -> str_last s = Some c -> f c = true.
Proof.
  induction s as [|d s IH]; [done|]. simpl. intros ? Hl; bools.
  destruct (str_last s); [apply IH; congruence|congruence].
Qed.

Lemma str_app_inv_len (a b c d : string) :
  a +:+ b = c +:+ d -> String.length a = String.length c -> a = c /\ b = d.
Proof.
  revert c. induction a as [|x a IH]; intros [|y c] Heq Hl; try done.
  rewrite !str_app_cons in Heq. simplify_eq. simpl in Hl.
  destruct (IH c ltac:(done) ltac:(lia)) as [-> ->]. done.
Qed.

Lemma app_sep_inj (c : ascii) (a a' b b' : string) :
  contains_byte a c = false -> contains_byte a' c = false ->
  a +:+ String c b = a' +:+ String c b' -> a = a' /\ b = b'.
Proof.
  intros Ha Ha' Heq. pose proof (index_byte_app a c b Ha) as H1.
  rewrite Heq, (index_byte_app a' c b' Ha') in H1. injection H1 as Hl.
  apply str_app_inv_len in Heq as [-> [= ->]]; done.
Qed.

(** sort.Strings: byte-wise order. *)
Definition sort_strings (l : list string) : list string := merge_sort String.le l.
