(* ===== verification/GoPath.v ===== *)
(** * Paths

    Packages [path] and [path/filepath] (Unix) as the sources use them: Clean,
    Dir, Base, Join, Abs, SplitList.  The working directory is an argument
    ([None]: os.Getwd failed).  [ToSlash] is the identity on Unix. *)

From S2P Require Import Prelude GoString.

Module GoPath.

Definition SLASH : ascii := "/"%char.

Definition IsAbs (p : string) : bool := has_prefix p "/".

(** One path element against the stack of elements kept so far. *)
Definition clean_step (rooted : bool) (out : list string) (e : string) : list string :=
  if str_empty e || bool_decide (e = ".") then out
  else if bool_decide (e = "..") then
    match out with
    | x :: out' => if bool_decide (x = "..") then ".." :: out else out'
    | [] => if rooted then [] else [".."]
    end
  else e :: out.

Definition clean_comps (p : string) : list string :=
  rev (fold_left (clean_step (IsAbs p)) (split_byte SLASH p) []).

(** filepath.Clean, path.Clean *)
Definition Clean (p : string) : string :=
  if str_empty p then "."
  else if IsAbs p then "/" +:+ join "/" (clean_comps p)
  else match clean_comps p with [] => "." | l => join "/" l end.

(** The directory part up to and including the last slash, and the rest. *)
Fixpoint split_path (p : string) : string * string :=
  match p with
  | EmptyString => (EmptyString, EmptyString)
  | String c p' =>
      let (d, b) := split_path p' in
      if negb (str_empty d) || Ascii.eqb c SLASH then (String c d, b) else (d, String c b)
  end.

(** filepath.Dir, path.Dir *)
Definition Dir (p : string) : string := Clean (split_path p).1.

(** filepath.Base *)
Definition Base (p : string) : string :=
  if str_empty p then "."
  else
    let b := (split_path (trim_right (Ascii.eqb SLASH) p)).2 in
    if str_empty b then "/" else b.

(** From the last dot on, and filepath.Ext. *)
Fixpoint from_last_dot (s : string) : option string :=
  match s with
  | EmptyString => None
  | String c s' => match from_last_dot s' with Some e => Some e | None => if Ascii.eqb c "." then Some s else None end
  end.
Definition Ext (p : string) : string := default EmptyString (from_last_dot (split_path p).2).

(** filepath.Join *)
Fixpoint drop_empty (l : list string) : list string :=
  match l with
  | EmptyString :: l' => drop_empty l'
  | _ => l
  end.

Definition Join (l : list string) : string :=
  match drop_empty l with
  | [] => EmptyString
  | l' => Clean (join "/" l')
  end.

(** filepath.Abs *)
Definition Abs (cwd : option string) (p : string) : option string :=
  if IsAbs p then Some (Clean p) else (fun wd => Join [wd; p]) <$> cwd.

(** filepath.SplitList *)
Definition SplitList (p : string) : list string :=
  if str_empty p then [] else split_byte ":" p.

Definition ToSlash (p : string) : string := p.

Example clean_ex : Clean "/a/./b//../c/" = "/a/c" /\ Clean "../x/.." = ".." /\ Clean "/../" = "/"
  /\ Dir "/a/b" = "/a" /\ Dir "/a" = "/" /\ Dir "a" = "." /\ Base "/a/b/" = "b" /\ Base "//" = "/"
  /\ Join [""; "a"; ""; "b/.."] = "a".
Proof. vm_compute. repeat split. Qed.

(** ** Lemmas *)

Lemma join_split_slash p : join "/" (split_byte SLASH p) = p.
Proof. apply (join_split SLASH). Qed.

Lemma IsAbs_slash r : IsAbs ("/" +:+ r) = true.
Proof. apply has_prefix_app. Qed.

Lemma split_join_slash l :
  l <> [] -> Forall (fun x => contains_byte x SLASH = false) l -> split_byte SLASH (join "/" l) = l.
Proof. apply (split_join SLASH). Qed.

(** A path element: no slash, not empty, not a dot. *)
Definition is_elem (e : string) : Prop :=
  contains_byte e SLASH = false /\ e <> EmptyString /\ e <> ".".

(** The elements of a clean path: ".." only at the front of a relative one. *)
Definition plain_elem (e : string) : Prop := is_elem e /\ e <> "..".

Lemma is_elem_dotdot : is_elem "..".
Proof. done. Qed.
#[local] Hint Resolve is_elem_dotdot : core.

Lemma clean_step_elem rooted out e :
  contains_byte e SLASH = false -> Forall is_elem out -> Forall is_elem (clean_step rooted out e).
Proof.
  intros He Hout. unfold clean_step.
  destruct (str_empty e || bool_decide (e = ".")) eqn:Hsk; [done|]. bools.
  apply str_empty_false in H.
  destruct (bool_decide (e = "..")) eqn:Hdd.
  - destruct out as [|x out]; [destruct rooted; auto|].
    break_guard; [by auto|]. by inversion Hout.
  - bools. constructor; [|done]. done.
Qed.

Lemma clean_step_sublist rooted out e l :
  out `sublist_of` l -> clean_step rooted out e `sublist_of` e :: l.
Proof.
  intros Hl. unfold clean_step. break_guard; [by apply sublist_cons|].
  destruct (bool_decide (e = "..")) eqn:Hdd; bools; subst.
  - destruct out as [|x out].
    + destruct rooted; [apply sublist_nil_l|]. apply sublist_skip, sublist_nil_l.
    + break_guard; [by apply sublist_skip|]. apply sublist_cons.
      etrans; [|exact Hl]. by apply sublist_cons.
  - by apply sublist_skip.
Qed.

Lemma clean_fold_invariant rooted es out l :
  Forall (fun e => contains_byte e SLASH = false) es ->
  Forall is_elem out -> out `sublist_of` l ->
  Forall is_elem (fold_left (clean_step rooted) es out)
  /\ fold_left (clean_step rooted) es out `sublist_of` rev es ++ l.
Proof.
  intros Hes. revert out l. induction Hes as [|e es He _ IH]; intros out l Hout Hl; [done|].
  simpl. destruct (IH (clean_step rooted out e) (e :: l)) as [H1 H2].
  - by apply clean_step_elem.
  - by apply clean_step_sublist.
  - split; [done|]. by rewrite <- app_assoc.
Qed.

Lemma clean_comps_elem p : Forall is_elem (clean_comps p).
Proof.
  unfold clean_comps. apply Forall_rev.
  apply (clean_fold_invariant _ _ [] []); [apply split_byte_Forall|done|done].
Qed.

Lemma clean_comps_sublist p : clean_comps p `sublist_of` split_byte SLASH p.
Proof.
  unfold clean_comps.
  destruct (clean_fold_invariant (IsAbs p) (split_byte SLASH p) [] []) as [_ Hs];
    [apply split_byte_Forall|done|done|].
  rewrite app_nil_r in Hs. apply sublist_rev in Hs. by rewrite rev_involutive in Hs.
Qed.

(** Each element with its separator. *)
Definition weight (l : list string) : nat :=
  foldr (fun e n => (String.length e + 1 + n)%nat) 0%nat l.

Lemma weight_app l1 l2 : weight (l1 ++ l2) = (weight l1 + weight l2)%nat.
Proof. induction l1; simpl; lia. Qed.

Lemma weight_sublist l1 l2 : l1 `sublist_of` l2 -> (weight l1 <= weight l2)%nat /\ (weight l1 = weight l2 -> l1 = l2).
Proof.
  induction 1 as [|x l1 l2 H [IH1 IH2]|x l1 l2 H [IH1 IH2]]; simpl.
  - done.
  - split; [lia|]. intros. f_equal. apply IH2. lia.
  - split; [lia|]. lia.
Qed.

Lemma weight_join l : l <> [] -> (String.length (join "/" l) + 1)%nat = weight l.
Proof.
  induction l as [|x l IH]; [done|]. intros _. destruct l as [|y l]; [simpl; lia|].
  rewrite join_cons, !str_length_app by done. specialize (IH ltac:(done)).
  cbn [weight foldr] in *. unfold weight in IH. simpl in *. lia.
Qed.

Lemma weight_split p : weight (split_byte SLASH p) = (String.length p + 1)%nat.
Proof.
  rewrite <- weight_join by apply split_byte_not_nil. by rewrite join_split_slash.
Qed.

Lemma IsAbs_split p : IsAbs p = true -> exists t, p = String SLASH t /\ split_byte SLASH p = EmptyString :: split_byte SLASH t.
Proof.
  destruct p as [|c p]; [done|]. unfold IsAbs. simpl. rewrite has_prefix_nil, andb_true_r.
  intros <-%Ascii.eqb_eq. by exists p.
Qed.

Lemma sublist_drop_nil l1 l2 :
  Forall is_elem l1 -> l1 `sublist_of` EmptyString :: l2 -> l1 `sublist_of` l2.
Proof.
  intros HF Hs. inversion Hs as [|x l1' l2' H Hx|]; subst; [|done].
  apply Forall_cons in HF as [[_ [Hne _]] _]. done.
Qed.

(** Cleaning never grows a path, and shrinks it unless it was clean. *)
Lemma Clean_shrinks p : p <> EmptyString -> Clean p = p \/ (String.length (Clean p) < String.length p)%nat.
Proof.
  intros Hp. unfold Clean. rewrite (proj2 (str_empty_false p) Hp).
  pose proof (clean_comps_sublist p) as Hs. pose proof (clean_comps_elem p) as HF.
  destruct (IsAbs p) eqn:Ha.
  - destruct (IsAbs_split p Ha) as (t & -> & Hsp). rewrite Hsp in Hs.
    apply sublist_drop_nil in Hs; [|done].
    destruct (weight_sublist _ _ Hs) as [Hle Heq]. rewrite weight_split in Hle, Heq.
    destruct (clean_comps (String SLASH t)) as [|x l] eqn:Hc.
    + destruct t; [by left|right; simpl; lia].
    + rewrite <- Hc in *. assert (Hne : clean_comps (String SLASH t) <> []) by (by rewrite Hc).
      pose proof (weight_join _ Hne) as Hw. rewrite <- Hw in Hle, Heq.
      change ("/" +:+ ?r) with (String SLASH r). simpl.
      destruct (decide (String.length (join "/" (clean_comps (String SLASH t))) = String.length t)) as [He|He].
      * left. f_equal. rewrite Heq by lia. apply join_split_slash.
      * right. lia.
  - destruct (weight_sublist _ _ Hs) as [Hle Heq]. rewrite weight_split in Hle, Heq.
    destruct (clean_comps p) as [|x l] eqn:Hc.
    + destruct p as [|c [|d p]]; [done| |right; simpl; lia].
      left. clear -Hc Ha. unfold clean_comps in Hc. rewrite Ha in Hc.
      assert (Hsp : split_byte SLASH (str1 c) = [str1 c]).
      { apply split_byte_none. unfold contains_byte. simpl. unfold IsAbs in Ha. simpl in Ha.
        rewrite andb_true_r in Ha. by rewrite orb_false_r. }
      change (String c EmptyString) with (str1 c) in *. rewrite Hsp in Hc. simpl in Hc.
      unfold clean_step in Hc. simpl in Hc. repeat (break_guard_in Hc; try done); by bools.
    + rewrite <- Hc in *. assert (Hne : clean_comps p <> []) by (by rewrite Hc).
      pose proof (weight_join _ Hne) as Hw. rewrite <- Hw in Hle, Heq.
      destruct (decide (String.length (join "/" (clean_comps p)) = String.length p)) as [He|He].
      * left. rewrite Heq by lia. apply join_split_slash.
      * right. lia.
Qed.

(** ** Clean is idempotent *)

Definition is_clean (p : string) : Prop := Clean p = p.

(** What the fold keeps when the elements are already those of a clean path. *)
Definition clean_list (rooted : bool) (l : list string) : Prop :=
  exists n k, l = replicate n ".." ++ k /\ Forall plain_elem k /\ (rooted = true -> n = 0%nat).

Lemma clean_step_list rooted out e :
  contains_byte e SLASH = false ->
  clean_list rooted (rev out) -> clean_list rooted (rev (clean_step rooted out e)).
Proof.
  intros He Hout. unfold clean_step.
  destruct (str_empty e || bool_decide (e = ".")) eqn:Hsk; [done|]. bools. apply str_empty_false in H.
  destruct (bool_decide (e = "..")) eqn:Hdd.
  - destruct Hout as (n & k & Hl & Hk & Hn).
    destruct out as [|x out]; simpl in Hl.
    + destruct rooted; [by exists 0%nat, []|]. by exists 1%nat, [].
    + destruct (bool_decide (x = "..")) eqn:Hx; bools; subst.
      * destruct (decide (k = [])) as [->|Hkne].
        -- exists (S n), []. rewrite app_nil_r in *. simpl rev. rewrite Hl.
           split; [by rewrite <- replicate_cons_app|]. split; [done|].
           intros Hr. exfalso. rewrite (Hn Hr) in Hl. by destruct (rev out).
        -- exfalso. destruct (exists_last Hkne) as (k' & y & ->). rewrite app_assoc in Hl.
           apply app_inj_tail in Hl as [_ <-]. apply Forall_app in Hk as [_ Hy].
           apply Forall_cons in Hy as [[_ Hy] _]. done.
      * destruct (decide (k = [])) as [->|Hkne].
        -- exfalso. rewrite app_nil_r in Hl. destruct n as [|n]; [by destruct (rev out)|].
           rewrite replicate_S_end in Hl. apply app_inj_tail in Hl as [_ ->]. done.
        -- destruct (exists_last Hkne) as (k' & y & ->). rewrite app_assoc in Hl.
           apply app_inj_tail in Hl as [-> _]. exists n, k'. apply Forall_app in Hk as [Hk _]. done.
  - bools. destruct Hout as (n & k & Hl & Hk & Hn). exists n, (k ++ [e]). simpl. rewrite Hl, app_assoc.
    split; [done|]. split; [|done]. apply Forall_app. split; [done|]. repeat constructor; done.
Qed.

Lemma clean_comps_list p : clean_list (IsAbs p) (clean_comps p).
Proof.
  unfold clean_comps. pose proof (split_byte_Forall SLASH p) as Hes.
  assert (Hinit : clean_list (IsAbs p) (rev [])) by (by exists 0%nat, []).
  revert Hinit. generalize (@nil string) as out. induction Hes as [|e es He _ IH]; intros out Hout; [done|].
  simpl. by apply IH, clean_step_list.
Qed.

Lemma clean_step_plain rooted out e : plain_elem e -> clean_step rooted out e = e :: out.
Proof.
  intros [[_ [H1 H2]] H3]. unfold clean_step. rewrite (proj2 (str_empty_false e) H1).
  rewrite !bool_decide_eq_false_2 by done. done.
Qed.

Lemma clean_fold_plain rooted l out :
  Forall plain_elem l -> fold_left (clean_step rooted) l out = rev l ++ out.
Proof.
  intros HF. revert out. induction HF as [|e l He _ IH]; intros out; [done|].
  simpl. rewrite clean_step_plain, IH, <- app_assoc by done. done.
Qed.

Lemma clean_fold_list rooted l : clean_list rooted l -> rev (fold_left (clean_step rooted) l []) = l.
Proof.
  intros (n & k & -> & Hk & Hn). rewrite fold_left_app, clean_fold_plain, rev_app_distr, rev_involutive by done.
  f_equal. destruct rooted; [by rewrite Hn|]. clear.
  assert (Hg : forall m, fold_left (clean_step false) (replicate n "..") (replicate m "..") = replicate (n + m) "..").
  { induction n as [|n IH]; intros m; [done|]. simpl.
    replace (clean_step false (replicate m "..") "..") with (replicate (S m) "..") by (by destruct m).
    rewrite IH. by rewrite Nat.add_succ_r. }
  specialize (Hg 0%nat). simpl in Hg. rewrite Hg, Nat.add_0_r.
  clear Hg. induction n as [|n IH]; [done|]. simpl. rewrite IH. by rewrite <- replicate_cons_app.
Qed.

Lemma Forall_elem_noslash l : Forall is_elem l -> Forall (fun x => contains_byte x SLASH = false) l.
Proof. intros HF. eapply Forall_impl; [exact HF|]. by intros ? [? _]. Qed.

Lemma clean_list_elem rooted l : clean_list rooted l -> Forall is_elem l.
Proof.
  intros (n & k & -> & Hk & _). apply Forall_app. split.
  - apply Forall_replicate. done.
  - eapply Forall_impl; [exact Hk|]. by intros ? [? _].
Qed.

Lemma clean_list_true_plain l : clean_list true l <-> Forall plain_elem l.
Proof.
  split.
  - intros (n & k & -> & Hk & Hn). by rewrite Hn.
  - intros Hl. by exists 0%nat, l.
Qed.

(** The clean absolute and relative paths, by their elements. *)
Definition abs_path (l : list string) : string := "/" +:+ join "/" l.

Lemma join_head_abs l : Forall is_elem l -> l <> [] -> IsAbs (join "/" l) = false.
Proof.
  intros HF Hne. destruct l as [|x l]; [done|]. apply Forall_cons in HF as [[Hx [Hxe _]] _].
  destruct x as [|c x]; [done|]. unfold contains_byte in Hx. simpl in Hx. bools.
  assert (Hh : forall t, IsAbs (String c t) = false).
  { intros t. unfold IsAbs. simpl. fold SLASH. by rewrite H. }
  destruct l as [|y l]; [apply Hh|]. simpl join. rewrite str_app_cons. apply Hh.
Qed.

Lemma clean_comps_abs l : clean_list true l -> clean_comps (abs_path l) = l.
Proof.
  intros Hl. pose proof (clean_list_elem _ _ Hl) as HF. unfold clean_comps, abs_path.
  rewrite IsAbs_slash.
  change (split_byte SLASH ("/" +:+ join "/" l)) with (EmptyString :: split_byte SLASH (join "/" l)).
  destruct l as [|x l]; [done|].
  rewrite split_join_slash by (done || by apply Forall_elem_noslash).
  change (rev (fold_left (clean_step true) (x :: l) []) = x :: l). by apply clean_fold_list.
Qed.

Lemma clean_comps_rel l : clean_list false l -> l <> [] -> clean_comps (join "/" l) = l.
Proof.
  intros Hl Hne. pose proof (clean_list_elem _ _ Hl) as HF. unfold clean_comps.
  rewrite join_head_abs by done.
  rewrite split_join_slash by (done || by apply Forall_elem_noslash). by apply clean_fold_list.
Qed.

Lemma Clean_abs_path l : clean_list true l -> Clean (abs_path l) = abs_path l.
Proof.
  intros Hl. unfold Clean. change (str_empty (abs_path l)) with false.
  unfold abs_path at 1. rewrite IsAbs_slash.
  by rewrite clean_comps_abs.
Qed.

(** filepath.Clean is idempotent. *)
Lemma Clean_idemp p : Clean (Clean p) = Clean p.
Proof.
  unfold Clean at 2 3. destruct (str_empty p) eqn:Hp; [done|].
  pose proof (clean_comps_list p) as Hl. destruct (IsAbs p) eqn:Ha.
  - by apply Clean_abs_path.
  - destruct (clean_comps p) as [|x l] eqn:Hc; [done|].
    unfold Clean. pose proof (clean_list_elem _ _ Hl) as HF.
    rewrite join_head_abs by done. rewrite clean_comps_rel by done.
    destruct (str_empty (join "/" (x :: l))) eqn:He; [|done].
    apply str_empty_spec in He. apply Forall_cons in HF as [[_ [Hx _]] _].
    by destruct x, l.
Qed.

(** ** Dir *)

Lemma split_path_spec p d b :
  split_path p = (d, b) ->
  p = d +:+ b /\ contains_byte b SLASH = false /\ (d = EmptyString \/ str_last d = Some SLASH).
Proof.
  revert d b. induction p as [|c p IH]; intros d b; [intros [= <- <-]; auto|].
  simpl. destruct (split_path p) as [d' b']. destruct (IH d' b' eq_refl) as (-> & Hb & Hd).
  destruct (negb (str_empty d') || Ascii.eqb c SLASH) eqn:Hc; intros [= <- <-].
  - rewrite str_app_cons. split; [done|]. split; [done|]. right. simpl.
    destruct Hd as [->|Hd]; [|by rewrite Hd]. simpl in *. by apply Ascii.eqb_eq in Hc as ->.
  - bools. apply str_empty_spec in H as ->. rewrite !str_app_nil_l. split; [done|]. split; [|by left].
    unfold contains_byte in *. simpl. by rewrite Ascii.eqb_sym, H0, Hb.
Qed.

Lemma split_path_app d b :
  (d = EmptyString \/ str_last d = Some SLASH) -> contains_byte b SLASH = false ->
  split_path (d +:+ b) = (d, b).
Proof.
  intros Hd Hb. destruct (split_path (d +:+ b)) as [d' b'] eqn:Hs.
  apply split_path_spec in Hs as (Heq & Hb' & Hd').
  assert (Hlen : forall x y x' y', x +:+ y = x' +:+ y' ->
     (x' = EmptyString \/ str_last x' = Some SLASH) -> contains_byte y SLASH = false ->
     (String.length x' <= String.length x)%nat).
  { intros x y x' y' He Hx' Hy. revert x' He Hx'. induction x as [|c x IH]; intros x' He Hx'.
    - rewrite str_app_nil_l in He. subst y. destruct x' as [|c x']; [done|].
      destruct Hx' as [?|Hx']; [done|]. rewrite contains_byte_app in Hy. bools. exfalso.
      by apply not_contains_last in Hx'.
    - destruct x' as [|c' x']; [simpl; lia|]. rewrite !str_app_cons in He. simplify_eq. simpl.
      destruct x' as [|c'' x']; [simpl; lia|].
      destruct (IH (String c'' x')) as []; try (simpl in *; lia); [done|].
      right. destruct Hx' as [|Hx']; [done|]. simpl in *. by destruct (str_last x'). }
  pose proof (Hlen _ _ _ _ Heq Hd' Hb) as H1. pose proof (Hlen _ _ _ _ (eq_sym Heq) Hd Hb') as H2.
  assert (Hl : String.length d = String.length d') by lia. clear Hlen Hd Hd' H1 H2.
  revert d' Heq Hl. induction d as [|c d IH]; intros [|c' d'] Heq Hl; try done.
  - rewrite !str_app_nil_l in Heq. by subst.
  - rewrite !str_app_cons in Heq. simplify_eq. simpl in Hl.
    assert (Hd : (d', b') = (d, b)) by (apply IH; [done|lia]). by simplify_eq.
Qed.

Lemma join_app_last l x : l <> [] -> join "/" (l ++ [x]) = join "/" l +:+ "/" +:+ x.
Proof.
  induction l as [|y l IH]; [done|]. intros _. destruct l as [|z l]; [done|].
  change ((y :: z :: l) ++ [x]) with (y :: ((z :: l) ++ [x])).
  rewrite join_cons by (by destruct l). rewrite IH by done.
  rewrite (join_cons _ y) by done. by rewrite !str_app_assoc.
Qed.

Lemma Clean_abs_slash l : Forall plain_elem l -> l <> [] -> Clean (abs_path l +:+ "/") = abs_path l.
Proof.
  intros Hl Hne. unfold abs_path at 1. rewrite <- str_app_assoc. unfold Clean.
  rewrite IsAbs_slash. change (str_empty ("/" +:+ (join "/" l +:+ "/"))) with false. cbv iota.
  unfold abs_path. f_equal. f_equal. unfold clean_comps. rewrite IsAbs_slash.
  change (split_byte SLASH ("/" +:+ (join "/" l +:+ "/")))
    with (EmptyString :: split_byte SLASH (join "/" l +:+ "/")).
  assert (HF : Forall is_elem l) by (by apply (clean_list_elem true), clean_list_true_plain).
  replace (join "/" l +:+ "/") with (join "/" (l ++ [EmptyString])) by (by rewrite join_app_last).
  rewrite split_join_slash.
  - change (rev (fold_left (clean_step true) (l ++ [EmptyString]) []) = l).
    rewrite fold_left_app, (clean_fold_plain true l), app_nil_r by done.
    change (rev (rev l) = l). apply rev_involutive.
  - by destruct l.
  - apply Forall_app. split; [by apply Forall_elem_noslash|]. by repeat constructor.
Qed.

(** Dir of a clean absolute path drops the last element. *)
Lemma Dir_abs_path l x : Forall plain_elem (l ++ [x]) -> Dir (abs_path (l ++ [x])) = abs_path l.
Proof.
  intros [Hl Hx]%Forall_app. apply Forall_cons in Hx as [[[Hxs [Hxe _]] _] _].
  unfold Dir. destruct (decide (l = [])) as [->|Hne].
  - unfold abs_path at 1. simpl app. simpl join. rewrite split_path_app by auto. done.
  - unfold abs_path at 1. rewrite join_app_last by done.
    replace ("/" +:+ (join "/" l +:+ ("/" +:+ x))) with ((abs_path l +:+ "/") +:+ x)
      by (unfold abs_path; by rewrite !str_app_assoc).
    rewrite split_path_app; [by apply Clean_abs_slash| |done].
    right. by rewrite str_last_app.
Qed.

Lemma Dir_root : Dir "/" = "/".
Proof. done. Qed.

Lemma Base_abs_path l x : Forall plain_elem (l ++ [x]) -> Base (abs_path (l ++ [x])) = x.
Proof.
  intros Hf. pose proof Hf as [Hl Hx]%Forall_app. apply Forall_cons in Hx as [[[Hxs [Hxe _]] _] _].
  assert (Hsplit : exists d, abs_path (l ++ [x]) = d +:+ x /\ (d = EmptyString \/ str_last d = Some SLASH)).
  { destruct (decide (l = [])) as [->|Hne]; [exists "/"; auto|].
    exists (abs_path l +:+ "/"). unfold abs_path at 1. rewrite join_app_last by done.
    split; [unfold abs_path; by rewrite !str_app_assoc|]. right. by rewrite str_last_app. }
  destruct Hsplit as (d & Hd & Hdl). unfold Base. rewrite Hd.
  destruct (str_last x) as [c|] eqn:Hc; [|by apply str_last_None in Hc].
  assert (Hcs : Ascii.eqb SLASH c = false).
  { apply Ascii.eqb_neq. intros <-. by apply not_contains_last in Hc. }
  rewrite (trim_right_id _ c) by (done || by rewrite str_last_app, Hc).
  rewrite split_path_app by done. simpl snd. rewrite (proj2 (str_empty_false x)) by done.
  destruct (str_empty (d +:+ x)) eqn:He; [|done].
  apply str_empty_spec in He. destruct d; [done|]. done.
Qed.

(** A clean path that ends in a slash is the root. *)
Lemma clean_slash_root p : Clean p = p -> str_last p = Some SLASH -> p = "/".
Proof.
  intros Hc Hl. unfold Clean in Hc. destruct (str_empty p) eqn:He.
  { by subst p. }
  pose proof (clean_comps_elem p) as HF.
  assert (Hj : forall l, Forall is_elem l -> str_last (join "/" l) <> Some SLASH).
  { intros l HFl. induction HFl as [|x l [Hx [Hxe _]] HFl IH]; [done|]. destruct l as [|y l].
    - simpl. by apply not_contains_last.
    - rewrite join_cons, !str_last_app by done.
      destruct (str_last (join "/" (y :: l))) as [c|] eqn:Hy; [congruence|].
      apply str_last_None in Hy. apply Forall_cons in HFl as [[_ [Hye _]] _].
      by destruct y, l. }
  destruct (IsAbs p).
  - destruct (clean_comps p) as [|x l] eqn:Hcc; [by rewrite <- Hc|]. exfalso.
    rewrite <- Hc in Hl. rewrite str_last_app in Hl.
    destruct (str_last (join "/" (x :: l))) as [c|] eqn:Hy; [by eapply Hj; [exact HF|]; congruence|].
    apply str_last_None in Hy. apply Forall_cons in HF as [[_ [Hx _]] _]. by destruct x, l.
  - destruct (clean_comps p) as [|x l] eqn:Hcc; [by subst p|]. exfalso.
    rewrite <- Hc in Hl. by eapply Hj.
Qed.

(** Walking up with Dir: a fixed point, a shorter path, or the relative root. *)
Lemma Dir_progress p :
  Dir p = p \/ (String.length (Dir p) < String.length p)%nat \/ Dir p = ".".
Proof.
  unfold Dir. destruct (split_path p) as [d b] eqn:Hs. simpl fst.
  apply split_path_spec in Hs as (-> & Hb & Hd).
  destruct Hd as [->|Hd]; [by right; right|].
  assert (Hne : d <> EmptyString) by (by intros ->).
  rewrite str_length_app. destruct (Clean_shrinks d Hne) as [Hc|Hc]; [|right; left; lia].
  pose proof (clean_slash_root d Hc Hd) as ->.
  destruct b as [|c b]; [by left|]. right; left. simpl. lia.
Qed.

End GoPath.
