(* ===== verification/GoTime.v ===== *)
(** * UTC timestamps (package time, as the program uses it)

    Seconds since the epoch to and from the two layouts of the program: RFC 3339
    for _meta.migrated_at and the dashed form of backup file names.  Durations are
    nanoseconds in an int64 that wraps around. *)

From S2P Require Import Prelude GoString.

Module GoTime.

Local Open Scope Z_scope.

Record civil := mkCivil { year : Z; month : Z; day : Z; hour : Z; minute : Z; sec : Z }.

(** Days of the 400-year era that starts on March 1st. *)
Definition era_days : Z := 146097.

Definition year_of_era (doe : Z) : Z := (doe - doe / 1460 + doe / 36524 - doe / 146096) / 365.

Definition era_of_day (doe : Z) : Z * Z * Z :=
  let yoe := year_of_era doe in
  let doy := doe - (365 * yoe + yoe / 4 - yoe / 100) in
  let mp := (5 * doy + 2) / 153 in
  (yoe, mp, doy - (153 * mp + 2) / 5 + 1).

Definition day_of_era (yoe mp d : Z) : Z :=
  yoe * 365 + yoe / 4 - yoe / 100 + ((153 * mp + 2) / 5 + d - 1).

(** Days since 1970-01-01 to year, month, day, and back. *)
Definition date_of_days (z : Z) : Z * Z * Z :=
  let z := z + 719468 in
  let '(yoe, mp, d) := era_of_day (z mod era_days) in
  let m := if mp <? 10 then mp + 3 else mp - 9 in
  (yoe + z / era_days * 400 + (if m <=? 2 then 1 else 0), m, d).

Definition days_of_date (y m d : Z) : Z :=
  let y := if m <=? 2 then y - 1 else y in
  let mp := if m >? 2 then m - 3 else m + 9 in
  y / 400 * era_days + day_of_era (y mod 400) mp d - 719468.

Definition utc (t : Z) : civil :=
  let '(y, m, d) := date_of_days (t / 86400) in
  let s := t mod 86400 in
  mkCivil y m d (s / 3600) (s / 60 mod 60) (s mod 60).

Definition unix (c : civil) : Z :=
  days_of_date (year c) (month c) (day c) * 86400 + hour c * 3600 + minute c * 60 + sec c.

(** Zero-padded decimal numbers of a fixed width. *)
Fixpoint pad_num (width : nat) (n : Z) : string :=
  match width with
  | O => EmptyString
  | S w => pad_num w (n / 10) +:+ str1 (byte_of (48 + Z.to_nat (n mod 10)))
  end.

Fixpoint read_num (s : string) (acc : Z) : option Z :=
  match s with
  | EmptyString => Some acc
  | String c s' => if is_digit c then read_num s' (acc * 10 + (Z.of_nat (byte_val c) - 48)) else None
  end.

(** Layout 2006-01-02T15:04:05Z; years of four digits. *)
Definition format_rfc3339 (t : Z) : string :=
  let c := utc t in
  pad_num 4 (year c) +:+ "-" +:+ pad_num 2 (month c) +:+ "-" +:+ pad_num 2 (day c) +:+ "T"
  +:+ pad_num 2 (hour c) +:+ ":" +:+ pad_num 2 (minute c) +:+ ":" +:+ pad_num 2 (sec c) +:+ "Z".

(** Layout 2006-01-02T15-04-05Z. *)
Definition format_dashed (t : Z) : string :=
  let c := utc t in
  pad_num 4 (year c) +:+ "-" +:+ pad_num 2 (month c) +:+ "-" +:+ pad_num 2 (day c) +:+ "T"
  +:+ pad_num 2 (hour c) +:+ "-" +:+ pad_num 2 (minute c) +:+ "-" +:+ pad_num 2 (sec c) +:+ "Z".

Definition is_leap (y : Z) : bool := (y mod 4 =? 0) && (negb (y mod 100 =? 0) || (y mod 400 =? 0)).

Definition days_in (y m : Z) : Z :=
  if m =? 2 then (if is_leap y then 29 else 28)
  else if (m =? 4) || (m =? 6) || (m =? 9) || (m =? 11) then 30 else 31.

(** A number of [width] digits in a range, and what follows it. *)
Definition field (width : nat) (lo hi : Z) (s : string) : option (Z * string) :=
  let f := str_take width s in
  if negb (String.length f =? width)%nat then None
  else n ← read_num f 0; if (lo <=? n) && (n <=? hi) then Some (n, str_drop width s) else None.

Definition lit (c : ascii) (s : string) : option string :=
  match s with String d s' => if Ascii.eqb c d then Some s' else None | EmptyString => None end.

(** The zone: Z, or an offset in hours and minutes; a fraction may precede it. *)
Fixpoint skip_digits (s : string) : string :=
  match s with String c s' => if is_digit c then skip_digits s' else s | EmptyString => s end.

Definition skip_fraction (s : string) : string :=
  match s with
  | String "." (String c s') => if is_digit c then skip_digits s' else s
  | _ => s
  end.

Definition zone (s : string) : option Z :=
  match s with
  | String c s' =>
      if Ascii.eqb c "Z" then (if str_empty s' then Some 0 else None)
      else
        sign ← (if Ascii.eqb c "+" then Some 1 else if Ascii.eqb c "-" then Some (-1) else None);
        '(h, s1) ← field 2 0 23 s'; s2 ← lit ":" s1; '(m, s3) ← field 2 0 59 s2;
        if str_empty s3 then Some (sign * (h * 3600 + m * 60)) else None
  | EmptyString => None
  end.

(** time.Parse(time.RFC3339, s), in whole seconds. *)
Definition parse_rfc3339 (s : string) : option Z :=
  '(y, s) ← field 4 0 9999 s; s ← lit "-" s; '(mo, s) ← field 2 1 12 s; s ← lit "-" s;
  '(d, s) ← field 2 1 (days_in y mo) s; s ← lit "T" s; '(h, s) ← field 2 0 23 s; s ← lit ":" s;
  '(mi, s) ← field 2 0 59 s; s ← lit ":" s; '(se, s) ← field 2 0 59 s;
  z ← zone (skip_fraction s);
  Some (unix (mkCivil y mo d h mi se) - z).

(** ** Durations *)

Definition wrap64 (z : Z) : Z := (z + 2 ^ 63) mod 2 ^ 64 - 2 ^ 63.

Definition Second : Z := 1000000000.
Definition Hour : Z := 3600 * Second.

(** time.Since saturates at the ends of int64. *)
Definition sat64 (z : Z) : Z := Z.max (- 2 ^ 63) (Z.min (2 ^ 63 - 1) z).

(** ** Proofs *)

(** The first day of a year of the era; the era ends with a leap day. *)
Definition year_start (y : Z) : Z := if y =? 400 then era_days else 365 * y + y / 4 - y / 100.

(** The month, counted from March, and the day of a year starting in March. *)
Definition month_of (mp : Z) : Z := if mp <? 10 then mp + 3 else mp - 9.

Definition year_check (y : Z) : bool :=
  (year_of_era (year_start y) =? y) && (year_of_era (year_start (y + 1) - 1) =? y)
  && (year_start (y + 1) - year_start y <=? (if is_leap (y + 1) then 366 else 365)).

Definition doy_check (doy : Z) : bool :=
  let mp := (5 * doy + 2) / 153 in
  let d := doy - (153 * mp + 2) / 5 + 1 in
  (0 <=? mp) && (mp <? 12) && (1 <=? d)
  && (if mp =? 11 then (d <=? (if doy =? 365 then 29 else 28)) else d <=? days_in 1 (month_of mp)).

Fixpoint all_below (n : nat) (i : Z) (f : Z -> bool) : bool :=
  match n with O => true | S n' => f i && all_below n' (i + 1) f end.

Lemma all_below_spec n i f : all_below n i f = true -> forall z, i <= z < i + Z.of_nat n -> f z = true.
Proof.
  revert i. induction n as [|n IH]; intros i; simpl; [lia|]. intros [Hf Ha]%andb_true_iff z Hz.
  destruct (decide (z = i)) as [->|]; [done|]. apply (IH (i + 1)); [done|lia].
Qed.

Lemma years_checked y : 0 <= y < 400 -> year_check y = true.
Proof. apply (all_below_spec 400 0 year_check). vm_compute. reflexivity. Qed.

Lemma doys_checked d : 0 <= d < 366 -> doy_check d = true.
Proof. apply (all_below_spec 366 0 doy_check). vm_compute. reflexivity. Qed.

Ltac zdiv := Z.div_mod_to_equations; lia.

Lemma year_of_era_mono a b : 0 <= a -> a <= b -> b < era_days -> year_of_era a <= year_of_era b.
Proof.
  intros Ha Hab Hb. unfold year_of_era. apply Z.div_le_mono; [lia|].
  assert (Hstep : forall z, 0 <= z -> z + 1 < era_days ->
    z - z / 1460 + z / 36524 - z / 146096 <= z + 1 - (z + 1) / 1460 + (z + 1) / 36524 - (z + 1) / 146096).
  { unfold era_days. intros z Hz Hz1. zdiv. }
  replace b with (a + Z.of_nat (Z.to_nat (b - a))) in Hb |- * by lia.
  induction (Z.to_nat (b - a)) as [|k IH]; [rewrite Z.add_0_r; lia|].
  rewrite Nat2Z.inj_succ in Hb |- *. etrans; [apply IH; lia|].
  replace (a + Z.succ (Z.of_nat k)) with (a + Z.of_nat k + 1) by lia. apply Hstep; lia.
Qed.

Lemma year_of_day doe : 0 <= doe < era_days -> exists y, 0 <= y < 400 /\ year_start y <= doe < year_start (y + 1).
Proof.
  intros Hd.
  assert (Hg : forall k, (k <= 400)%nat -> doe < year_start (Z.of_nat k) ->
    exists y, 0 <= y < Z.of_nat k /\ year_start y <= doe < year_start (y + 1)).
  { induction k as [|k IH]; intros Hk Hlt; [change (year_start (Z.of_nat 0)) with 0 in Hlt; lia|].
    destruct (decide (doe < year_start (Z.of_nat k))) as [H1|H1].
    - destruct (IH ltac:(lia) H1) as (y & ? & ?). exists y. split; [lia|done].
    - exists (Z.of_nat k). split; [lia|]. rewrite Nat2Z.inj_succ in Hlt. unfold Z.succ in Hlt. lia. }
  destruct (Hg 400%nat) as (y & ? & ?); [lia|change (year_start (Z.of_nat 400)) with era_days; lia|]. by exists y.
Qed.

Lemma year_of_era_spec doe : 0 <= doe < era_days ->
  0 <= year_of_era doe < 400 /\ year_start (year_of_era doe) <= doe < year_start (year_of_era doe + 1).
Proof.
  intros Hd. destruct (year_of_day doe Hd) as (y & Hy & Hdoe).
  pose proof (years_checked y Hy) as Hc. unfold year_check in Hc. bools.
  enough (year_of_era doe = y) as -> by done.
  assert (0 <= year_start y) by (unfold year_start; destruct (y =? 400); zdiv).
  assert (year_start (y + 1) <= era_days) by (unfold year_start, era_days; destruct (y + 1 =? 400) eqn:?; zdiv).
  pose proof (year_of_era_mono (year_start y) doe ltac:(lia) ltac:(lia) ltac:(lia)).
  pose proof (year_of_era_mono doe (year_start (y + 1) - 1) ltac:(lia) ltac:(lia) ltac:(lia)). lia.
Qed.

Lemma is_leap_period y k : is_leap (y + k * 400) = is_leap y.
Proof.
  unfold is_leap. replace ((y + k * 400) mod 4) with (y mod 4) by zdiv.
  replace ((y + k * 400) mod 100) with (y mod 100) by zdiv. by rewrite Z_mod_plus_full.
Qed.

Lemma days_in_period y k m : days_in (y + k * 400) m = days_in y m.
Proof. unfold days_in. by rewrite is_leap_period. Qed.

(** The date of a day is a date of the calendar, and determines the day. *)
Lemma date_of_days_spec z :
  let '(y, m, d) := date_of_days z in
  1 <= m <= 12 /\ 1 <= d <= days_in y m /\ days_of_date y m d = z.
Proof.
  unfold date_of_days. set (doe := (z + 719468) mod era_days). set (era := (z + 719468) / era_days).
  assert (Hdoe : 0 <= doe < era_days) by (apply Z.mod_pos_bound; done).
  assert (Hz : z = era * era_days + doe - 719468) by (unfold doe, era, era_days; zdiv).
  pose proof (year_of_era_spec doe Hdoe) as [Hy Hys]. unfold era_of_day. set (yoe := year_of_era doe) in *.
  set (doy := doe - (365 * yoe + yoe / 4 - yoe / 100)).
  pose proof (years_checked yoe Hy) as Hc. unfold year_check in Hc. apply andb_true_iff in Hc as [_ Hlen].
  assert (Hst : year_start yoe = 365 * yoe + yoe / 4 - yoe / 100).
  { unfold year_start. destruct (Z.eqb_spec yoe 400); [lia|done]. }
  rewrite Hst in Hlen. apply Z.leb_le in Hlen.
  assert (Hdoy : 0 <= doy < (if is_leap (yoe + 1) then 366 else 365)) by (unfold doy; lia).
  assert (Hdoy' : 0 <= doy < 366) by (destruct (is_leap _); lia).
  pose proof (doys_checked doy Hdoy') as Hd. unfold doy_check in Hd. cbv zeta in Hd.
  set (mp := (5 * doy + 2) / 153) in *. set (d := doy - (153 * mp + 2) / 5 + 1) in *.
  apply andb_true_iff in Hd as [Hd Hdays]. apply andb_true_iff in Hd as [Hd Hd1].
  apply andb_true_iff in Hd as [Hm0 Hm1]. apply Z.leb_le in Hm0, Hd1. apply Z.ltb_lt in Hm1.
  set (m := if mp <? 10 then mp + 3 else mp - 9).
  assert (Hcase : (mp < 10 /\ m = mp + 3) \/ (10 <= mp /\ m = mp - 9)).
  { unfold m. destruct (Z.ltb_spec mp 10); [left|right]; done. }
  assert (Hm : 1 <= m <= 12) by lia.
  assert (Hmp : (if m >? 2 then m - 3 else m + 9) = mp) by (destruct (Z.gtb_spec m 2); lia).
  split; [done|]. split.
  - split; [done|]. destruct (Z.eqb_spec mp 11) as [H11|H11].
    + assert (m = 2) as -> by lia. change (if 2 <=? 2 then 1 else 0) with 1.
      replace (yoe + era * 400 + 1) with (yoe + 1 + era * 400) by lia. rewrite days_in_period.
      unfold days_in. simpl. destruct (is_leap (yoe + 1)); destruct (Z.eqb_spec doy 365); lia.
    + assert (m <> 2) by lia.
      unfold days_in in *. unfold month_of in Hdays. fold m in Hdays.
      destruct (Z.eqb_spec m 2); [done|]. lia.
  - unfold days_of_date. rewrite Hmp.
    assert (Hyy : (if m <=? 2 then yoe + era * 400 + (if m <=? 2 then 1 else 0) - 1
      else yoe + era * 400 + (if m <=? 2 then 1 else 0)) = yoe + era * 400).
    { destruct (m <=? 2); lia. }
    rewrite Hyy. replace ((yoe + era * 400) / 400) with era by zdiv.
    replace ((yoe + era * 400) mod 400) with yoe by zdiv. unfold day_of_era, d, doy. lia.
Qed.

Lemma utc_spec t :
  let c := utc t in
  unix c = t /\ 1 <= month c <= 12 /\ 1 <= day c <= days_in (year c) (month c)
  /\ 0 <= hour c <= 23 /\ 0 <= minute c <= 59 /\ 0 <= sec c <= 59.
Proof.
  unfold utc. pose proof (date_of_days_spec (t / 86400)) as Hd.
  destruct (date_of_days (t / 86400)) as [[y m] d]. unfold unix. simpl. destruct Hd as (? & ? & ->).
  split; [zdiv|]. repeat split; try lia; zdiv.
Qed.

(** ** Numbers of fixed width *)

Lemma digit_byte n : 0 <= n < 10 -> is_digit (byte_of (48 + Z.to_nat n)) = true
  /\ Z.of_nat (byte_val (byte_of (48 + Z.to_nat n))) - 48 = n.
Proof.
  intros Hn.
  assert (Hall : all_below 10 0 (fun n => is_digit (byte_of (48 + Z.to_nat n))
    && (Z.of_nat (byte_val (byte_of (48 + Z.to_nat n))) - 48 =? n)) = true) by (vm_compute; reflexivity).
  apply (all_below_spec 10 0 _ Hall) in Hn. apply andb_true_iff in Hn as [? ?%Z.eqb_eq]. done.
Qed.

Lemma pad_num_length w n : String.length (pad_num w n) = w.
Proof. revert n. induction w as [|w IH]; intros n; [done|]. cbn [pad_num]. rewrite str_length_app, IH. simpl. lia. Qed.

Lemma read_num_app s c acc n : read_num s acc = Some n -> is_digit c = true ->
  read_num (s +:+ str1 c) acc = Some (n * 10 + (Z.of_nat (byte_val c) - 48)).
Proof.
  revert acc. induction s as [|d s IH]; intros acc; simpl; [intros [= ->] ->; done|].
  destruct (is_digit d); [|done]. apply IH.
Qed.

Lemma read_pad w n : 0 <= n < 10 ^ Z.of_nat w -> read_num (pad_num w n) 0 = Some n.
Proof.
  revert n. induction w as [|w IH]; intros n Hn; [simpl in *; f_equal; lia|]. cbn [pad_num].
  destruct (digit_byte (n mod 10)) as [Hd Hv]; [zdiv|].
  rewrite (read_num_app _ _ _ (n / 10)); [|apply IH|done].
  - rewrite Hv. f_equal. zdiv.
  - rewrite Nat2Z.inj_succ, Z.pow_succ_r in Hn by lia. zdiv.
Qed.

Lemma field_pad w n rest lo hi :
  0 <= n < 10 ^ Z.of_nat w -> lo <= n <= hi -> field w lo hi (pad_num w n +:+ rest) = Some (n, rest).
Proof.
  intros Hn Hr. unfold field.
  pose proof (str_take_app (pad_num w n) rest) as Ht. pose proof (str_drop_app (pad_num w n) rest) as Hd.
  rewrite pad_num_length in Ht, Hd. rewrite Ht, Hd, pad_num_length.
  rewrite Nat.eqb_refl. simpl. rewrite read_pad by done. simpl.
  rewrite (proj2 (Z.leb_le lo n)), (proj2 (Z.leb_le n hi)) by lia. done.
Qed.

Lemma lit_app c rest : lit c (String c EmptyString +:+ rest) = Some rest.
Proof. simpl. by rewrite Ascii.eqb_refl. Qed.

(** Reading a printed timestamp gives the timestamp back. *)
Lemma parse_format t : 0 <= year (utc t) <= 9999 -> parse_rfc3339 (format_rfc3339 t) = Some t.
Proof.
  intros Hy. pose proof (utc_spec t) as (Hu & Hm & Hd & Hh & Hmi & Hs).
  unfold format_rfc3339, parse_rfc3339. destruct (utc t) as [y m d h mi s].
  cbn [year month day hour minute sec] in *.
  assert (Hd31 : days_in y m <= 31).
  { unfold days_in. destruct (m =? 2); [destruct (is_leap y); lia|]. destruct (_ || _); lia. }
  rewrite field_pad by (simpl; lia). cbn [mbind option_bind]. rewrite (lit_app "-"). cbn [mbind option_bind].
  rewrite field_pad by (simpl; lia). cbn [mbind option_bind]. rewrite (lit_app "-"). cbn [mbind option_bind].
  rewrite field_pad by (simpl; lia). cbn [mbind option_bind]. rewrite (lit_app "T"). cbn [mbind option_bind].
  rewrite field_pad by (simpl; lia). cbn [mbind option_bind]. rewrite (lit_app ":"). cbn [mbind option_bind].
  rewrite field_pad by (simpl; lia). cbn [mbind option_bind]. rewrite (lit_app ":"). cbn [mbind option_bind].
  rewrite field_pad by (simpl; lia). cbn [mbind option_bind].
  change (zone (skip_fraction "Z")) with (Some 0). cbn [mbind option_bind]. rewrite Hu. f_equal. lia.
Qed.
End GoTime.
