(* ===== verification/Dotenv.v ===== *)
(** * Dotenv blocks (src/internal/dotenv/dotenv.go)

    The one parser behind [jitenv bag import] and the bulk-import screen:
    lines, comments, the [export] prefix, quoting and escapes, with 1-based
    line numbers on pairs and errors. *)

From S2P Require Import Prelude GoString.

Module Dotenv.

Record Pair := mkPair { Key : string; Value : string; Line : nat }.

Inductive Msg :=
| NoSeparator
| EmptyKey
| InvalidKey (key : string)
| UntermDouble
| UntermSingle.

Record ParseError := mkErr { ELine : nat; EMsg : Msg }.

#[export] Instance Pair_eq_dec : EqDecision Pair.
Proof. solve_decision. Defined.

Definition is_env_head (c : ascii) : bool :=
  Ascii.eqb c "_" || is_lower c || is_upper c.

Definition is_env_tail (c : ascii) : bool := is_env_head c || is_digit c.

Definition isValidEnvKey (s : string) : bool :=
  match s with
  | EmptyString => false
  | String c s' => is_env_head c && forall_bytes is_env_tail s'
  end.

Definition is_blank (c : ascii) : bool := Ascii.eqb c " " || Ascii.eqb c TAB.

Definition stripExport (line : string) : string * bool :=
  if negb (has_prefix line "export") then (line, false)
  else match str_drop 6 line with
       | EmptyString => (line, false)
       | String c _ as rest =>
           if is_blank c then (trim_left is_blank rest, true) else (line, false)
       end.

Definition unescape (c : ascii) : ascii :=
  if Ascii.eqb c "n" then LF
  else if Ascii.eqb c "r" then CR
  else if Ascii.eqb c "t" then TAB
  else c.

(** The scan of a double-quoted value, from the byte after the opening quote. *)
Fixpoint scan_double (s : string) : res Msg string :=
  match s with
  | EmptyString => Err UntermDouble
  | String c s' =>
      let plain :=
        if Ascii.eqb c DQUOTE then Ok EmptyString
        else String c <$> scan_double s' in
      match s' with
      | String d s'' =>
          if Ascii.eqb c BSLASH then String (unescape d) <$> scan_double s'' else plain
      | EmptyString => plain
      end
  end.

Definition unquoteValue (s : string) : res Msg string :=
  match s with
  | EmptyString => Ok EmptyString
  | String c s' =>
      if Ascii.eqb c DQUOTE then scan_double s'
      else if Ascii.eqb c "'" then
        match index_byte s' "'" with
        | None => Err UntermSingle
        | Some n => Ok (str_take n s')
        end
      else
        let s := match index_str s " #" with Some n => str_take n s | None => s end in
        Ok (trim_right is_blank s)
  end.

(** What one line contributes: nothing, a pair or an error. *)
Inductive line_result := Skip | APair (p : Pair) | AnErr (e : ParseError).

Definition parse_line (lineNo : nat) (raw : string) : line_result :=
  let line := trim_space (trim_right (Ascii.eqb CR) raw) in
  if str_empty line || has_prefix line "#" then Skip
  else
    let line := (stripExport line).1 in
    match index_byte line "=" with
    | None => AnErr (mkErr lineNo NoSeparator)
    | Some eq =>
        let key := trim_space (str_take eq line) in
        if str_empty key then AnErr (mkErr lineNo EmptyKey)
        else if negb (isValidEnvKey key) then AnErr (mkErr lineNo (InvalidKey key))
        else
          match unquoteValue (trim_left is_blank (str_drop (S eq) line)) with
          | Err m => AnErr (mkErr lineNo m)
          | Ok val => APair (mkPair key val lineNo)
          end
    end.

Fixpoint parse_lines (lineNo : nat) (lines : list string) : list Pair * list ParseError :=
  match lines with
  | [] => ([], [])
  | raw :: rest =>
      let (pairs, errs) := parse_lines (S lineNo) rest in
      match parse_line lineNo raw with
      | Skip => (pairs, errs)
      | APair p => (p :: pairs, errs)
      | AnErr e => (pairs, e :: errs)
      end
  end.

Definition Parse (input : string) : list Pair * list ParseError :=
  parse_lines 1 (split_byte LF input).

Example parse_example :
  Parse ("# c" +:+ str1 LF +:+ "export A = 'x y' # z" +:+ str1 LF +:+ "B=v #c" +:+ str1 CR +:+ str1 LF +:+ "9=1")
  = ([mkPair "A" "x y" 2; mkPair "B" "v" 3], [mkErr 4 (InvalidKey "9")]).
Proof. vm_compute. reflexivity. Qed.

(** ** A reference printer

    The repository has no dotenv writer; this one renders every key and value
    the parser can produce, with the escapes the parser documents. *)

Definition escape1 (c : ascii) : string :=
  if Ascii.eqb c LF then String BSLASH "n"
  else if Ascii.eqb c CR then String BSLASH "r"
  else if Ascii.eqb c BSLASH then String BSLASH (str1 BSLASH)
  else if Ascii.eqb c DQUOTE then String BSLASH (str1 DQUOTE)
  else str1 c.

Fixpoint escape (s : string) : string :=
  match s with
  | EmptyString => EmptyString
  | String c s' => escape1 c +:+ escape s'
  end.

Definition quote (v : string) : string := String DQUOTE (escape v +:+ str1 DQUOTE).

Definition render_line (kv : string * string) : string := kv.1 +:+ "=" +:+ quote kv.2.

Definition render (kvs : list (string * string)) : string :=
  join (str1 LF) (render_line <$> kvs).

(** ** Scanning what was escaped *)

Lemma scan_double_esc d s :
  scan_double (String BSLASH (String d s)) = String (unescape d) <$> scan_double s.
Proof. done. Qed.

Lemma scan_double_plain c s :
  c <> BSLASH -> c <> DQUOTE -> scan_double (String c s) = String c <$> scan_double s.
Proof.
  intros H1%Ascii.eqb_neq H2%Ascii.eqb_neq. destruct s as [|d s]; cbn [scan_double];
    by rewrite ?H1, H2.
Qed.

Lemma scan_double_close s : scan_double (String DQUOTE s) = Ok EmptyString.
Proof. by destruct s. Qed.

Lemma scan_double_escape v rest :
  scan_double (escape v +:+ String DQUOTE rest) = Ok v.
Proof.
  induction v as [|c v IH]; [apply scan_double_close|]. simpl escape. unfold escape1.
  destruct (Ascii.eqb_spec c LF) as [->|?]; [|destruct (Ascii.eqb_spec c CR) as [->|?];
    [|destruct (Ascii.eqb_spec c BSLASH) as [->|?]; [|destruct (Ascii.eqb_spec c DQUOTE) as [->|?]]]].
  5: { change (str1 c +:+ escape v) with (String c (escape v)). rewrite str_app_cons.
       by rewrite scan_double_plain, IH. }
  all: unfold str1; rewrite !str_app_cons, str_app_nil_l, scan_double_esc, IH; done.
Qed.

Lemma unquote_quote v : unquoteValue (quote v) = Ok v.
Proof. unfold quote. cbn [unquoteValue]. rewrite Ascii.eqb_refl. apply scan_double_escape. Qed.

Lemma escape_no_newline v : contains_byte (escape v) LF = false.
Proof.
  induction v as [|c v IH]; [done|]. simpl escape. rewrite contains_byte_app, IH, orb_false_r.
  unfold escape1. repeat (break_guard; [done|]). unfold contains_byte. simpl.
  rewrite Ascii.eqb_sym. by rewrite Heqb.
Qed.

(** ** Lines of the reference printer *)

Lemma env_tail_plain c :
  is_env_tail c = true ->
  plain_byte c = true /\ plain_end c = true /\ is_blank c = false /\ c <> LF /\ c <> "="%char
  /\ c <> "#"%char.
Proof. destruct c as [[] [] [] [] [] [] [] []]; vm_compute; intuition congruence. Qed.

Lemma valid_key_tail k : isValidEnvKey k = true -> forall_bytes is_env_tail k = true /\ k <> EmptyString.
Proof.
  destruct k as [|c k]; [done|]. simpl. intros ?; bools. split; [|done].
  apply andb_true_iff. split; [|done]. unfold is_env_tail. by rewrite H.
Qed.

Lemma stripExport_key_eq k rest :
  forall_bytes is_env_tail k = true ->
  (stripExport (k +:+ "=" +:+ rest)).1 = k +:+ "=" +:+ rest.
Proof.
  intros Hk. unfold stripExport.
  destruct (has_prefix _ "export") eqn:Hp; [|done]. cbn [negb].
  change 6%nat with (String.length "export").
  assert (Hp' : forall_bytes is_env_tail "export" = true) by done.
  revert Hp Hp'. generalize "export" as p. intros p Hp Hp'.
  assert (exists c t, str_drop (String.length p) (k +:+ "=" +:+ rest) = String c t
                      /\ is_blank c = false) as (c & t & -> & ->); [|done].
  revert k Hk Hp. induction p as [|d p IH]; intros k Hk Hp.
  - destruct k as [|c k]; [by exists "="%char, rest|]. simpl in Hk. bools.
    exists c, (k +:+ "=" +:+ rest). split; [done|]. by apply env_tail_plain.
  - simpl in Hp'. bools. destruct k as [|c k].
    + simpl in Hp. bools. apply Ascii.eqb_eq in H1 as ->. done.
    + rewrite str_app_cons in Hp |- *. simpl in Hk, Hp. bools. simpl. by apply IH.
Qed.

Lemma trim_space_key k : isValidEnvKey k = true -> trim_space k = k.
Proof.
  intros [Hk Hne]%valid_key_tail. destruct k as [|c k]; [done|].
  destruct (str_last (String c k)) as [d|] eqn:Hd; [|by apply str_last_None in Hd].
  pose proof (str_last_forall _ _ _ Hk Hd) as Hd'.
  simpl in Hk. bools. eapply trim_space_id; [by apply env_tail_plain| |done].
  by apply env_tail_plain.
Qed.

Lemma str_last_quote k v : str_last (k +:+ "=" +:+ quote v) = Some DQUOTE.
Proof.
  unfold quote. rewrite !str_last_app. cbn [str_last]. by rewrite str_last_app.
Qed.

Lemma parse_render_line n k v :
  isValidEnvKey k = true -> parse_line n (render_line (k, v)) = APair (mkPair k v n).
Proof.
  intros Hk. pose proof (valid_key_tail k Hk) as [Htail Hne].
  change (render_line (k, v)) with (k +:+ "=" +:+ quote v). unfold parse_line.
  rewrite (trim_right_id _ DQUOTE) by (done || apply str_last_quote).
  assert (Hts : trim_space (k +:+ "=" +:+ quote v) = k +:+ "=" +:+ quote v).
  { destruct k as [|c k]; [done|]. rewrite str_app_cons. simpl in Htail. bools.
    eapply (trim_space_id _ DQUOTE); [by apply env_tail_plain|done|].
    rewrite <- str_app_cons. apply str_last_quote. }
  rewrite Hts.
  assert (str_empty (k +:+ "=" +:+ quote v) || has_prefix (k +:+ "=" +:+ quote v) "#" = false) as ->.
  { destruct k as [|c k]; [done|]. rewrite str_app_cons. simpl in Htail |- *. bools.
    rewrite has_prefix_nil, andb_true_r. apply Ascii.eqb_neq.
    intros <-. by apply env_tail_plain in H. }
  rewrite stripExport_key_eq by done. cbv zeta.
  change ("=" +:+ quote v) with (String "=" (quote v)).
  rewrite index_byte_app by (eapply forall_bytes_not_contains; [exact Htail|done]).
  rewrite str_take_app, trim_space_key by done.
  rewrite (proj2 (str_empty_false k)), Hk by done. cbn [negb].
  replace (str_drop (S (String.length k)) (k +:+ String "=" (quote v))) with (quote v).
  - unfold quote at 1. rewrite trim_left_head by done. fold (quote v). by rewrite unquote_quote.
  - clear. induction k as [|c k IH]; [done|]. rewrite str_app_cons. exact IH.
Qed.

Lemma render_line_no_newline k v :
  isValidEnvKey k = true -> contains_byte (render_line (k, v)) LF = false.
Proof.
  intros [Hk _]%valid_key_tail.
  change (render_line (k, v)) with (k +:+ "=" +:+ String DQUOTE (escape v +:+ str1 DQUOTE)). rewrite !contains_byte_app.
  apply orb_false_iff. split; [by eapply forall_bytes_not_contains|].
  apply orb_false_iff. split; [done|].
  unfold contains_byte. cbn [exists_byte]. fold (contains_byte (escape v +:+ str1 DQUOTE) LF).
  by rewrite contains_byte_app, escape_no_newline.
Qed.

Fixpoint number (n : nat) (kvs : list (string * string)) : list Pair :=
  match kvs with
  | [] => []
  | (k, v) :: rest => mkPair k v n :: number (S n) rest
  end.

Lemma parse_lines_render kvs n :
  Forall (fun kv => isValidEnvKey kv.1 = true) kvs ->
  parse_lines n (render_line <$> kvs) = (number n kvs, []).
Proof.
  intros HF. revert n. induction HF as [|[k v] kvs Hk HF IH]; intros n; [done|].
  cbn [fmap list_fmap parse_lines number]. rewrite IH, parse_render_line; done.
Qed.

(** ** Lines and results *)

Definition result_line (r : line_result) : option nat :=
  match r with Skip => None | APair p => Some (Line p) | AnErr e => Some (ELine e) end.

Lemma parse_line_line n raw m : result_line (parse_line n raw) = Some m -> m = n.
Proof. unfold parse_line. repeat (break_guard; simpl; try congruence). Qed.

Lemma parse_line_valid_key n raw p :
  parse_line n raw = APair p -> isValidEnvKey (Key p) = true /\ Line p = n.
Proof.
  unfold parse_line. intros Hp. repeat (break_guard_in Hp; try done).
  simplify_eq. simpl. by bools.
Qed.

Lemma parse_lines_spec lines n p e :
  parse_lines n lines = (p, e) ->
  p = omap (fun r => match r with APair p => Some p | _ => None end) (imap (fun i => parse_line (n + i)) lines)
  /\ e = omap (fun r => match r with AnErr e => Some e | _ => None end) (imap (fun i => parse_line (n + i)) lines).
Proof.
  revert n p e. induction lines as [|raw lines IH]; intros n p e; [by intros [= <- <-]|].
  cbn [parse_lines imap]. destruct (parse_lines (S n) lines) as [p' e'] eqn:Hrec.
  apply IH in Hrec as [-> ->]. rewrite Nat.add_0_r.
  replace (imap ((fun i => parse_line (n + i)) ∘ S) lines) with (imap (fun i => parse_line (S n + i)) lines).
  2: { apply imap_ext. intros i x _. simpl. by rewrite Nat.add_succ_r. }
  cbn [omap list_omap]. destruct (parse_line n raw); intros [= <- <-]; done.
Qed.

(**  Round trip: every list of bindings with valid keys, whatever bytes the
    values hold (newlines, quotes, backslashes, non-ASCII), printed as
    double-quoted dotenv lines is parsed back unchanged, in order, numbered from
    line 1 and without any error. *)
Theorem parse_render kvs :
  kvs <> [] -> Forall (fun kv => isValidEnvKey kv.1 = true) kvs ->
  Parse (render kvs) = (number 1 kvs, []).
Proof.
  intros Hne HF. unfold Parse, render. rewrite split_join.
  - by apply parse_lines_render.
  - by intros ?%fmap_nil_inv.
  - apply Forall_fmap. eapply Forall_impl; [exact HF|].
    intros [k v] Hk. by apply render_line_no_newline.
Qed.

Lemma parse_render_witness :
  Parse (render [("PATH_1", "a b"); ("_x", str1 LF +:+ str1 DQUOTE +:+ "#")])
  = (number 1 [("PATH_1", "a b"); ("_x", str1 LF +:+ str1 DQUOTE +:+ "#")], []).
Proof. apply parse_render; [done|]. by repeat constructor. Defined.

(**  Every line of the input is accounted for: each pair and each error is
    the result of the line with its 1-based number, every pair has a valid
    environment-variable key, and no line's result is dropped. *)
Theorem parse_lines_accounted input pairs errs :
  Parse input = (pairs, errs) ->
  (forall p, p ∈ pairs -> isValidEnvKey (Key p) = true
                         /\ exists raw, split_byte LF input !! (Line p - 1)%nat = Some raw
                                        /\ parse_line (Line p) raw = APair p)
  /\ (forall e, e ∈ errs -> exists raw, split_byte LF input !! (ELine e - 1)%nat = Some raw
                                        /\ parse_line (ELine e) raw = AnErr e)
  /\ (forall i raw, split_byte LF input !! i = Some raw ->
        match parse_line (S i) raw with
        | Skip => True | APair p => p ∈ pairs | AnErr e => e ∈ errs
        end).
Proof.
  intros Hp. apply parse_lines_spec in Hp as [-> ->]. split; [|split].
  - intros p (r & Hr & Hp)%list_elem_of_omap. destruct r as [|q|]; simplify_eq.
    apply elem_of_lookup_imap in Hr as (i & raw & Hq & Hraw).
    symmetry in Hq. destruct (parse_line_valid_key _ _ _ Hq) as [Hk Hl]. split; [done|].
    exists raw. rewrite Hl. split; [by rewrite Nat.add_comm, Nat.add_sub|done].
  - intros e (r & Hr & He)%list_elem_of_omap. destruct r as [| |q]; simplify_eq.
    apply elem_of_lookup_imap in Hr as (i & raw & Hq & Hraw).
    symmetry in Hq. pose proof (parse_line_line (1 + i) raw (ELine e)) as Hl.
    rewrite Hq in Hl. simpl in Hl. specialize (Hl eq_refl). exists raw. rewrite Hl.
    split; [by simpl; rewrite Nat.sub_0_r|done].
  - intros i raw Hraw.
    assert (Hin : parse_line (S i) raw ∈ imap (fun i => parse_line (1 + i)) (split_byte LF input)).
    { apply elem_of_lookup_imap. by exists i, raw. }
    destruct (parse_line (S i) raw) eqn:Hr; [done| |]; apply list_elem_of_omap; eauto.
Qed.

Lemma parse_lines_accounted_witness :
  let input := "A=1" +:+ str1 LF +:+ "?" in
  Parse input = ([mkPair "A" "1" 1], [mkErr 2 NoSeparator])
  /\ (forall p, p ∈ [mkPair "A" "1" 1] -> isValidEnvKey (Key p) = true
        /\ exists raw, split_byte LF input !! (Line p - 1)%nat = Some raw
                      /\ parse_line (Line p) raw = APair p).
Proof.
  intros input. assert (Hp : Parse input = ([mkPair "A" "1" 1], [mkErr 2 NoSeparator])) by (vm_compute; reflexivity).
  split; [exact Hp|]. exact (proj1 (parse_lines_accounted _ _ _ Hp)).
Defined.

End Dotenv.
