(* ===== verification/ConfigModel.v ===== *)
(** * The configuration (src/internal/config/config.go, warnings.go)

    The parsed config.toml, its structural validation and its advisory
    warnings.  A nil and an empty Go map behave alike in this code and are both
    the empty [gmap]. *)

From S2P Require Import Prelude GoString.

Module Config.

Definition Version : Z := 1.

(** Values of [map[string]any] after TOML decoding.  Nested tables carry their
    entries in iteration order. *)
Inductive any :=
| AStr (s : string)
| AInt (z : Z)
| ABool (b : bool)
| AList (l : list any)
| AMap (m : list (string * any)).

Record Meta := mkMeta {
  KDF : string;
  ArgonTime : Z;
  ArgonMemoryKiB : Z;
  ArgonThreads : Z;
  Salt : string;
  Verify : string;
  NameMapEnv : string;      (* Meta.NameMap: sealed dictionary or empty *)
  MigratedAt : string
}.

Record AgentConfig := mkAgentConfig {
  IdleTimeout : string;
  SocketPath : string;
  PreRunNotice : option bool;
  VersionCheck : option bool
}.

Definition PreRunNoticeEnabled (a : AgentConfig) : bool :=
  match PreRunNotice a with None => true | Some b => b end.

Definition VersionCheckEnabled (a : AgentConfig) : bool :=
  match VersionCheck a with None => true | Some b => b end.

Record SourceConfig := mkSource { Type_ : string; Params : gmap string any }.

Record VarRef := mkVar {
  Name : string;
  Source : string;
  Ref : string;
  Key : string;
  Extra : gmap string string;
  Value : string
}.

Record Mapping := mkMapping {
  Path : string;
  Glob : string;
  CwdGlob : string;
  Commands : list string;
  Vars : list VarRef
}.

(** The decrypted ID-to-name dictionary (nameid.go). *)
Record NameMap := mkNameMap {
  NSources : gmap string string;
  NBags : gmap string string;
  NKeys : gmap string (gmap string string)
}.

Record Config := mkConfig {
  CVersion : Z;
  CMeta : Meta;
  CAgent : AgentConfig;
  Sources : gmap string SourceConfig;
  Mappings : list Mapping;
  Secrets : gmap string (gmap string string);
  IDMap : option NameMap
}.

#[export] Instance VarRef_eq_dec : EqDecision VarRef.
Proof. solve_decision. Defined.

(** Mapping.Kind *)
Definition Kind (m : Mapping) : string :=
  if negb (str_empty (Path m)) then "path"
  else if negb (str_empty (Glob m)) then "glob"
  else if negb (str_empty (CwdGlob m)) then "cwd"
  else "".

Definition is_command_byte (c : ascii) : bool :=
  is_lower c || is_upper c || is_digit c ||
  (Ascii.eqb c "." || Ascii.eqb c "_" || Ascii.eqb c "-" || Ascii.eqb c "+").

Definition isValidCommandName (s : string) : bool :=
  if str_empty s then false else forall_bytes is_command_byte s.

(** ** Validation *)

Inductive ValidateErr :=
| BadVersion (v : Z)
| MissingType (source : string)
| GithubRemoved (source : string)
| NotOneShape (mapping : nat)
| CommandsWithoutCwd (mapping : nat)
| CwdWithoutCommands (mapping : nat)
| EmptyCommand (mapping cmd : nat)
| BadCommand (mapping cmd : nat) (name : string)
| NoVars (mapping : nat)
| ValueNotExclusive (mapping var : nat)
| LiteralNeedsName (mapping var : nat)
| SourceRequired (mapping var : nat)
| NameRequired (mapping var : nat)
| SourceUndefined (mapping var : nat) (source : string).

(** The first error of a loop over an indexed list. *)
Fixpoint first_err {A} (f : nat -> A -> option ValidateErr) (i : nat) (l : list A) : option ValidateErr :=
  match l with
  | [] => None
  | x :: l' => match f i x with Some e => Some e | None => first_err f (S i) l' end
  end.

Definition seq_err (o1 o2 : option ValidateErr) : option ValidateErr :=
  match o1 with Some e => Some e | None => o2 end.

Definition check_source (ns : string * SourceConfig) : option ValidateErr :=
  let (name, s) := ns in
  if str_empty (Type_ s) then Some (MissingType name)
  else if bool_decide (Type_ s = "github") then Some (GithubRemoved name)
  else None.

Definition check_command (i j : nat) (cmd : string) : option ValidateErr :=
  if str_empty cmd then Some (EmptyCommand i j)
  else if negb (isValidCommandName cmd) then Some (BadCommand i j cmd)
  else None.

Definition nonempty_extra (v : VarRef) : bool := negb (bool_decide (Extra v = ∅)).

Definition check_var (i j : nat) (v : VarRef) : option ValidateErr :=
  if negb (str_empty (Value v)) then
    if negb (str_empty (Source v)) || negb (str_empty (Ref v)) || negb (str_empty (Key v))
       || nonempty_extra v
    then Some (ValueNotExclusive i j)
    else if str_empty (Name v) then Some (LiteralNeedsName i j)
    else None
  else if str_empty (Source v) then Some (SourceRequired i j)
  else if str_empty (Name v) && negb (str_empty (Key v)) then Some (NameRequired i j)
  else None.

Definition count_set (m : Mapping) : nat :=
  ((if str_empty (Path m) then 0 else 1) + (if str_empty (Glob m) then 0 else 1)
   + (if str_empty (CwdGlob m) then 0 else 1))%nat.

Definition check_mapping (i : nat) (m : Mapping) : option ValidateErr :=
  if negb (count_set m =? 1)%nat then Some (NotOneShape i)
  else if str_empty (CwdGlob m) && negb (bool_decide (Commands m = [])) then Some (CommandsWithoutCwd i)
  else
    seq_err
      (if negb (str_empty (CwdGlob m)) then
         if bool_decide (Commands m = []) then Some (CwdWithoutCommands i)
         else first_err (check_command i) 0 (Commands m)
       else None)
      (if bool_decide (Vars m = []) then Some (NoVars i)
       else first_err (check_var i) 0 (Vars m)).

Section Validate.
Context `{MapRange}.

Definition ValidateStructure (c : Config) : option ValidateErr :=
  if negb (CVersion c =? Version)%Z then Some (BadVersion (CVersion c))
  else seq_err (first_err (fun _ => check_source) 0 (map_range 0 (Sources c)))
               (first_err check_mapping 0 (Mappings c)).

Definition check_var_post (srcs : gmap string SourceConfig) (i j : nat) (v : VarRef) : option ValidateErr :=
  if negb (str_empty (Value v)) then None
  else match srcs !! Source v with
       | Some _ => None
       | None => Some (SourceUndefined i j (Source v))
       end.

Definition ValidatePost (c : Config) : option ValidateErr :=
  first_err (fun i m => first_err (check_var_post (Sources c) i) 0 (Vars m)) 0 (Mappings c).

Definition Validate (c : Config) : option ValidateErr :=
  seq_err (ValidateStructure c) (ValidatePost c).
End Validate.

(** ** Warnings *)

(** describeVarSource *)
Inductive origin := Literal | FromSource (s : string).

Definition describeVarSource (v : VarRef) : origin :=
  if negb (str_empty (Value v)) then Literal else FromSource (Source v).

Definition sameOrigin (a b : VarRef) : bool :=
  bool_decide (Source a = Source b) && bool_decide (Ref a = Ref b)
  && bool_decide (Key a = Key b) && bool_decide (Value a = Value b).

Record Warning := mkWarning {
  MappingIdx : nat;
  VarIdxA : nat;
  VarIdxB : nat;
  WName : string;
  EffectiveSource : origin;
  ShadowedSource : origin;
  Duplicate : bool
}.

Definition dummy_var : VarRef := mkVar "" "" "" "" ∅ "".

(** The scan of one mapping: [first] maps a name to its first index. *)
Fixpoint warn_vars (mi : nat) (vars : list VarRef) (vi : nat) (rest : list VarRef)
    (first : gmap string nat) : list Warning :=
  match rest with
  | [] => []
  | v :: rest' =>
      if str_empty (Name v) then warn_vars mi vars (S vi) rest' first
      else match first !! Name v with
           | None => warn_vars mi vars (S vi) rest' (<[Name v := vi]> first)
           | Some fi =>
               let a := default dummy_var (vars !! fi) in
               mkWarning mi fi vi (Name v) (describeVarSource v) (describeVarSource a) (sameOrigin a v)
               :: warn_vars mi vars (S vi) rest' first
           end
  end.

Definition Warnings (c : Config) : list Warning :=
  mjoin (imap (fun mi m => warn_vars mi (Vars m) 0 (Vars m) ∅) (Mappings c)).

(** ** What validation means *)

Definition command_ok (cmd : string) : Prop :=
  cmd <> "" /\ forall_bytes is_command_byte cmd = true.

Definition var_shape_ok (v : VarRef) : Prop :=
  (Value v <> "" /\ Source v = "" /\ Ref v = "" /\ Key v = "" /\ Extra v = ∅ /\ Name v <> "")
  \/ (Value v = "" /\ Source v <> "" /\ (Name v <> "" \/ Key v = "")).

Inductive mapping_shape_ok (m : Mapping) : Prop :=
| shape_path : Path m <> "" -> Glob m = "" -> CwdGlob m = "" -> Commands m = [] -> mapping_shape_ok m
| shape_glob : Path m = "" -> Glob m <> "" -> CwdGlob m = "" -> Commands m = [] -> mapping_shape_ok m
| shape_cwd : Path m = "" -> Glob m = "" -> CwdGlob m <> "" -> Commands m <> [] ->
    Forall command_ok (Commands m) -> mapping_shape_ok m.

Definition mapping_ok (m : Mapping) : Prop :=
  mapping_shape_ok m /\ Vars m <> [] /\ Forall var_shape_ok (Vars m).

Record structure_ok (c : Config) : Prop := {
  sok_version : CVersion c = Version;
  sok_sources : map_Forall (fun _ s => Type_ s <> "" /\ Type_ s <> "github") (Sources c);
  sok_mappings : Forall mapping_ok (Mappings c)
}.

Definition var_resolved (srcs : gmap string SourceConfig) (v : VarRef) : Prop :=
  Value v <> "" \/ is_Some (srcs !! Source v).

(** ** Proofs *)

Lemma first_err_None {A} (f : nat -> A -> option ValidateErr) (P : A -> Prop) i l :
  (forall j x, f j x = None <-> P x) -> first_err f i l = None <-> Forall P l.
Proof.
  intros Hf. revert i. induction l as [|x l IH]; intros i; simpl; [done|].
  rewrite Forall_cons, <- (Hf i x), <- (IH (S i)).
  destruct (f i x); naive_solver.
Qed.

Lemma seq_err_None o1 o2 : seq_err o1 o2 = None <-> o1 = None /\ o2 = None.
Proof. destruct o1; naive_solver. Qed.

Lemma check_source_None ns : check_source ns = None <-> Type_ ns.2 <> "" /\ Type_ ns.2 <> "github".
Proof.
  destruct ns as [n s]. unfold check_source. simpl.
  destruct (str_empty (Type_ s)) eqn:He; [apply str_empty_spec in He; naive_solver|].
  apply str_empty_false in He. case_bool_decide; naive_solver.
Qed.

Lemma check_command_None i j cmd : check_command i j cmd = None <-> command_ok cmd.
Proof.
  unfold check_command, command_ok, isValidCommandName.
  destruct (str_empty cmd) eqn:He; [apply str_empty_spec in He; naive_solver|].
  apply str_empty_false in He. destruct (forall_bytes _ _); naive_solver.
Qed.

Lemma check_var_None i j v : check_var i j v = None <-> var_shape_ok v.
Proof.
  unfold check_var, var_shape_ok, nonempty_extra.
  str_cases (Value v); str_cases (Source v); str_cases (Name v); str_cases (Key v);
    str_cases (Ref v); simpl; try case_bool_decide; simpl; naive_solver.
Qed.

Lemma count_set_one m :
  count_set m = 1%nat <->
  (Path m <> "" /\ Glob m = "" /\ CwdGlob m = "") \/ (Path m = "" /\ Glob m <> "" /\ CwdGlob m = "")
  \/ (Path m = "" /\ Glob m = "" /\ CwdGlob m <> "").
Proof.
  unfold count_set. str_cases (Path m); str_cases (Glob m); str_cases (CwdGlob m); naive_solver.
Qed.

Lemma check_mapping_None i m : check_mapping i m = None <-> mapping_ok m.
Proof.
  unfold check_mapping, mapping_ok. rewrite <- (first_err_None (check_var i) var_shape_ok 0)
    by (intros; apply check_var_None).
  pose proof (first_err_None (check_command i) command_ok 0 (Commands m)
                (fun j x => check_command_None i j x)) as Hc.
  assert (Hshape : mapping_shape_ok m <->
    count_set m = 1%nat /\ (CwdGlob m = "" -> Commands m = [])
    /\ (CwdGlob m <> "" -> Commands m <> [] /\ Forall command_ok (Commands m))).
  { rewrite count_set_one. split; [destruct 1; naive_solver|].
    intros ([(?&?&?)|[(?&?&?)|(?&?&?)]] & Hc1 & Hc2); [eapply shape_path|eapply shape_glob|eapply shape_cwd];
      naive_solver. }
  rewrite Hshape, <- Hc. clear Hshape Hc.
  destruct (Nat.eqb_spec (count_set m) 1) as [Hn|Hn]; simpl; [|naive_solver].
  str_cases (CwdGlob m); simpl; repeat case_bool_decide; simpl; rewrite ?seq_err_None; naive_solver.
Qed.

Lemma ValidateStructure_None `{MapRange} c : ValidateStructure c = None <-> structure_ok c.
Proof.
  unfold ValidateStructure.
  pose proof (first_err_None (fun _ => check_source) (fun ns => Type_ ns.2 <> "" /\ Type_ ns.2 <> "github")
    0 (map_range 0 (Sources c)) (fun _ x => check_source_None x)) as Hs.
  pose proof (first_err_None check_mapping mapping_ok 0 (Mappings c) check_mapping_None) as Hm.
  destruct (Z.eqb_spec (CVersion c) Version) as [Hv|Hv]; simpl.
  2: { split; [done|]. by intros [? _ _]. }
  rewrite seq_err_None, Hs, Hm. split.
  - intros [HF ?]. split; [done| |done]. intros n s Hn.
    apply (elem_of_map_range 0) in Hn. rewrite Forall_forall in HF. by apply HF in Hn.
  - intros [_ Hsrc ?]. split; [|done]. apply Forall_forall. intros [n s] Hn.
    apply elem_of_map_range in Hn. by apply Hsrc in Hn.
Qed.

Lemma check_var_post_None srcs i j v : check_var_post srcs i j v = None <-> var_resolved srcs v.
Proof.
  unfold check_var_post, var_resolved. str_cases (Value v); simpl; [|naive_solver].
  destruct (srcs !! Source v); naive_solver.
Qed.

Lemma ValidatePost_None c :
  ValidatePost c = None <-> Forall (fun m => Forall (var_resolved (Sources c)) (Vars m)) (Mappings c).
Proof.
  unfold ValidatePost. apply first_err_None. intros i m. apply first_err_None.
  intros j v. apply check_var_post_None.
Qed.

Lemma Validate_None (R : MapRange) c :
  Validate c = None <->
  structure_ok c /\ Forall (fun m => Forall (var_resolved (Sources c)) (Vars m)) (Mappings c).
Proof. unfold Validate. by rewrite seq_err_None, ValidateStructure_None, ValidatePost_None. Qed.

(** C39.  Validation is complete in both directions: whatever order Go ranges
    over the sources, Config.Validate returns no error exactly when the version
    is the supported one, every source has a type other than the removed one,
    every mapping has exactly one of path, glob and cwd_glob, a command list of
    safe names exactly for cwd_glob, at least one var, only well-shaped vars, and
    every var without a literal value names a defined source. *)
Theorem Validate_complete (R : MapRange) c :
  Validate c = None <->
  structure_ok c /\ Forall (fun m => Forall (var_resolved (Sources c)) (Vars m)) (Mappings c).
Proof. apply Validate_None. Qed.

(** A wrapper command name that passes validation has no byte with a meaning to
    a shell or to the filesystem. *)
Lemma command_ok_no_slash cmd : command_ok cmd -> contains_byte cmd "/" = false.
Proof. intros [_ H]. by eapply forall_bytes_not_contains. Qed.

(** ** Warnings are exactly the shadowed names *)

Definition first_at (vars : list VarRef) (n : string) (i : nat) : Prop :=
  exists v, vars !! i = Some v /\ Name v = n
  /\ forall j w, (j < i)%nat -> vars !! j = Some w -> Name w <> n.

Definition warning_for (mi : nat) (vars : list VarRef) (i j : nat) : option Warning :=
  v ← vars !! j; a ← vars !! i;
  Some (mkWarning mi i j (Name v) (describeVarSource v) (describeVarSource a) (sameOrigin a v)).

(** The map of first declarations after scanning [vi] vars. *)
Definition first_inv (vars : list VarRef) (vi : nat) (first : gmap string nat) : Prop :=
  forall n i, first !! n = Some i <-> (i < vi)%nat /\ n <> "" /\ first_at vars n i.

Lemma first_at_exists vars n j w :
  vars !! j = Some w -> Name w = n -> exists k, (k <= j)%nat /\ first_at vars n k.
Proof.
  revert w. induction j as [j IH] using lt_wf_ind. intros w Hw Hn.
  destruct (decide (Exists (fun x => Name x = n) (take j vars))) as [He|He].
  - apply Exists_exists in He as (x & Hx & Hxn).
    apply list_elem_of_lookup in Hx as (k & Hk). apply lookup_take_Some in Hk as [Hk Hkj].
    destruct (IH k Hkj x Hk Hxn) as (k' & ? & ?). exists k'. split; [lia|done].
  - exists j. split; [lia|]. exists w. split; [done|]. split; [done|]. intros k x Hk Hx Hxn.
    apply He, Exists_exists. exists x. split; [|done].
    apply list_elem_of_lookup. exists k. by apply lookup_take_Some.
Qed.

Lemma first_at_unique vars n i j : first_at vars n i -> first_at vars n j -> i = j.
Proof.
  intros (v & Hv & Hvn & Hi) (w & Hw & Hwn & Hj).
  destruct (lt_eq_lt_dec i j) as [[Hlt|?]|Hlt]; [|done|]; exfalso; naive_solver.
Qed.

Lemma first_inv_step vars vi first v :
  vars !! vi = Some v -> Name v <> "" -> first !! Name v = None ->
  first_inv vars vi first -> first_inv vars (S vi) (<[Name v := vi]> first).
Proof.
  intros Hv Hne Hnone Hinv n i. destruct (decide (n = Name v)) as [->|Hn].
  - assert (Hfirst : first_at vars (Name v) vi).
    { destruct (first_at_exists vars (Name v) vi v Hv eq_refl) as (k & Hk & Hf).
      destruct (decide (k = vi)) as [->|]; [done|]. exfalso.
      assert (first !! Name v = Some k) by (apply Hinv; repeat split; [lia|done|done]). congruence. }
    rewrite lookup_insert_eq. split.
    + intros [= <-]. repeat split; [lia|done|done].
    + intros (_ & _ & Hi). f_equal. by eapply first_at_unique.
  - rewrite lookup_insert_ne by done. rewrite (Hinv n i). split.
    + intros (? & ? & ?). repeat split; [lia|done|done].
    + intros (Hi & ? & Hf). destruct (decide (i = vi)) as [->|]; [|repeat split; [lia|done|done]].
      destruct Hf as (w & Hw & Hwn & _). congruence.
Qed.

Lemma first_inv_skip vars vi first v :
  vars !! vi = Some v -> Name v = "" \/ is_Some (first !! Name v) ->
  first_inv vars vi first -> first_inv vars (S vi) first.
Proof.
  intros Hv Hsk Hinv n i. rewrite (Hinv n i). split; intros (Hi & ? & Hf).
  - repeat split; [lia|done|done].
  - destruct (decide (i = vi)) as [->|]; [|repeat split; [lia|done|done]]. exfalso.
    destruct Hf as (w & Hw & Hwn & Hmin). assert (w = v) as -> by congruence.
    destruct Hsk as [?|[k Hk]]; [congruence|]. rewrite Hwn in Hk.
    apply Hinv in Hk as (Hk & _ & (x & Hx & Hxn & _)). by eapply Hmin.
Qed.

Lemma warn_vars_spec mi vars vi rest first w :
  drop vi vars = rest -> first_inv vars vi first ->
  w ∈ warn_vars mi vars vi rest first <->
  exists i j v, (vi <= j)%nat /\ (i < j)%nat /\ vars !! j = Some v /\ Name v <> ""
    /\ first_at vars (Name v) i /\ warning_for mi vars i j = Some w.
Proof.
  revert vi first. induction rest as [|v rest IH]; intros vi first Hdrop Hinv.
  - split; [set_solver|]. intros (i & j & v & Hj & _ & Hv & _).
    rewrite <- (firstn_skipn vi vars), Hdrop, app_nil_r in Hv.
    apply lookup_take_Some in Hv as [_ ?]. lia.
  - assert (Hv : vars !! vi = Some v).
    { rewrite <- (Nat.add_0_r vi), <- lookup_drop, Hdrop. done. }
    assert (Hd : drop (S vi) vars = rest) by (rewrite (drop_S _ _ _ Hv) in Hdrop; by simplify_eq).
    assert (Hstep : forall fst' (P : Prop), first_inv vars (S vi) fst' ->
      (P <-> exists i, (i < vi)%nat /\ Name v <> "" /\ first_at vars (Name v) i /\ warning_for mi vars i vi = Some w) ->
      (P \/ w ∈ warn_vars mi vars (S vi) rest fst' <->
       exists i j v, (vi <= j)%nat /\ (i < j)%nat /\ vars !! j = Some v /\ Name v <> ""
         /\ first_at vars (Name v) i /\ warning_for mi vars i j = Some w)).
    { intros fst' P Hinv' HP. rewrite (IH _ _ Hd Hinv'), HP. split.
      - intros [(i & ? & ? & ? & ?)|(i & j & x & ? & ?)]; [exists i, vi, v|exists i, j, x];
          naive_solver lia.
      - intros (i & j & x & Hj & Hij & Hx & ?).
        destruct (decide (j = vi)) as [->|]; [left|right; exists i, j, x; naive_solver lia].
        assert (x = v) as -> by congruence. naive_solver. }
    cbn [warn_vars]. str_cases (Name v).
    + rewrite <- (Hstep first False); [tauto| |naive_solver].
      eapply first_inv_skip; eauto.
    + destruct (first !! Name v) as [fi|] eqn:Hf.
      * apply Hinv in Hf as Hf'. destruct Hf' as (Hlt & _ & Hat).
        rewrite elem_of_cons, <- (Hstep first); [reflexivity| |].
        -- eapply first_inv_skip; eauto.
        -- pose proof Hat as (a & Ha & _). rewrite Ha. simpl.
           assert (Hw : warning_for mi vars fi vi = Some
             (mkWarning mi fi vi (Name v) (describeVarSource v) (describeVarSource a) (sameOrigin a v))).
           { unfold warning_for. rewrite Hv. simpl. by rewrite Ha. }
           split; [intros ->; exists fi; done|]. intros (i & ? & ? & Hat' & Hw').
           rewrite (first_at_unique _ _ _ _ Hat' Hat) in Hw'. congruence.
      * rewrite <- (Hstep (<[Name v:=vi]> first) False); [tauto| |].
        -- by apply first_inv_step.
        -- split; [done|]. intros (i & Hi & Hne & Hat & _).
           assert (first !! Name v = Some i) by (by apply Hinv). congruence.
Qed.

(** Config.Warnings is exact: a warning is reported exactly for every var
    of a mapping whose non-empty name an earlier var of the same mapping already
    declared, it points at the first declaration as the shadowed one, and it
    records both origins and whether they coincide. *)
Theorem Warnings_exact c w :
  w ∈ Warnings c <->
  exists mi m i j v, Mappings c !! mi = Some m /\ (i < j)%nat /\ Vars m !! j = Some v /\ Name v <> ""
    /\ first_at (Vars m) (Name v) i /\ warning_for mi (Vars m) i j = Some w.
Proof.
  unfold Warnings. rewrite list_elem_of_join.
  assert (Hinit : forall vars, first_inv vars 0 ∅).
  { intros vars n i. rewrite lookup_empty. split; [done|]. intros [? _]. lia. }
  split.
  - intros (l & Hw & Hl). apply elem_of_lookup_imap in Hl as (mi & m & -> & Hm).
    apply warn_vars_spec in Hw as (i & j & v & _ & ?); [|done|apply Hinit].
    exists mi, m, i, j, v. naive_solver.
  - intros (mi & m & i & j & v & Hm & ?).
    exists (warn_vars mi (Vars m) 0 (Vars m) ∅). split.
    + apply warn_vars_spec; [done|apply Hinit|]. exists i, j, v. split; [lia|naive_solver].
    + apply elem_of_lookup_imap. by exists mi, m.
Qed.

End Config.
