(* ===== verification/CloneSave.v ===== *)
(** * What a save writes through (src/internal/tui/save.go:cloneForSave,
    src/internal/config/encrypt.go:EncryptInPlace)

    The rest of the development treats a configuration as a value.  The program does not: a
    configuration is a struct that points to maps and slices, a save copies some of them and
    seals the copy in place, and what the copy shares with the live configuration would be
    sealed there too.  Here the maps and slices live in a heap: the copy as the code makes
    it, every write that sealing makes through it, and that none of them reaches a cell
    that existed before. *)

From S2P Require Import Prelude GoString ConfigModel.
Import Config.

Module CloneSave.

(** ** The heap *)

Abbreviation loc := positive.

(** The structs with their pointers; a nil map or slice is [None].  The elements of a slice
    of structs are in its cell, the maps they hold are not. *)
Record hsource := mkHSource { htype : string; hparams : option loc }.
Record hvar := mkHVar { hname : string; hvsource : string; href : string; hkey : string; hvalue : string; hextra : option loc }.
Record hmapping := mkHMapping { hpath : string; hglob : string; hcwd : string; hcommands : option loc; hvars : option loc }.

Inductive cell :=
| CParams (m : gmap string any)
| CStrs (m : gmap string string)
| CSources (m : gmap string hsource)
| CBags (m : gmap string (option loc))
| CMappings (l : list hmapping)
| CVars (l : list hvar)
| CCommands (l : list string).

Abbreviation heap := (gmap loc cell).

(** The configuration's own struct; the dictionary is replaced, never written through. *)
Record hconfig := mkHConfig {
  hversion : Z;
  hmeta : Meta;
  hagent : AgentConfig;
  hsources : option loc;
  hmappings : option loc;
  hsecrets : option loc;
  hidmap : option NameMap
}.

(** What a pointer leads to; nil and a cell of another kind read as empty. *)
Definition deref (h : heap) (o : option loc) : option cell := o ≫= fun l => h !! l.
Definition params_at h o := match deref h o with Some (CParams m) => m | _ => ∅ end.
Definition strs_at h o := match deref h o with Some (CStrs m) => m | _ => ∅ end.
Definition sources_at h o := match deref h o with Some (CSources m) => m | _ => ∅ end.
Definition bags_at h o := match deref h o with Some (CBags m) => m | _ => ∅ end.
Definition mappings_at h o := match deref h o with Some (CMappings l) => l | _ => [] end.
Definition vars_at h o := match deref h o with Some (CVars l) => l | _ => [] end.
Definition commands_at h o := match deref h o with Some (CCommands l) => l | _ => [] end.

(** The value a configuration stands for. *)
Definition read_var (h : heap) (v : hvar) : VarRef :=
  mkVar (hname v) (hvsource v) (href v) (hkey v) (strs_at h (hextra v)) (hvalue v).
Definition read_mapping (h : heap) (m : hmapping) : Mapping :=
  mkMapping (hpath m) (hglob m) (hcwd m) (commands_at h (hcommands m)) (read_var h <$> vars_at h (hvars m)).
Definition read (h : heap) (c : hconfig) : Config :=
  mkConfig (hversion c) (hmeta c) (hagent c)
    ((fun s => mkSource (htype s) (params_at h (hparams s))) <$> sources_at h (hsources c))
    (read_mapping h <$> mappings_at h (hmappings c))
    (strs_at h <$> bags_at h (hsecrets c)) (hidmap c).

(** ** The copy *)

(** make: a new cell. *)
Definition H (A : Type) : Type := heap -> A * heap.
Definition make (x : cell) : H (option loc) := fun h => let l := fresh (dom h) in (Some l, <[l := x]> h).

(** A loop over a slice or over what a range yields, building a list. *)
Fixpoint each {A B} (f : A -> H B) (l : list A) : H (list B) := fun h =>
  match l with
  | [] => ([], h)
  | x :: l' => let '(y, h) := f x h in let '(ys, h) := each f l' h in (y :: ys, h)
  end.

Section Copy.
Context `{MapRange}.

Definition copied {V} (site : nat) (m : gmap string V) : gmap string V :=
  fold_left (fun acc kv => <[kv.1 := kv.2]> acc) (map_range site m) ∅.

Definition clone_source (kv : string * hsource) : H (string * hsource) := fun h =>
  match hparams kv.2 with
  | None => (kv, h)
  | p => let '(p', h) := make (CParams (copied 101 (params_at h p))) h in ((kv.1, mkHSource (htype kv.2) p'), h)
  end.
Definition clone_var (v : hvar) : H hvar := fun h =>
  match hextra v with
  | None => (v, h)
  | e => let '(e', h) := make (CStrs (copied 102 (strs_at h e))) h in
         (mkHVar (hname v) (hvsource v) (href v) (hkey v) (hvalue v) e', h)
  end.
Definition clone_mapping (m : hmapping) : H hmapping := fun h =>
  match hvars m with
  | None => (m, h)
  | vs => let '(l, h) := each clone_var (vars_at h vs) h in let '(vs', h) := make (CVars l) h in
          (mkHMapping (hpath m) (hglob m) (hcwd m) (hcommands m) vs', h)
  end.
Definition clone_bag (kv : string * option loc) : H (string * option loc) := fun h =>
  let '(b, h) := make (CStrs (copied 103 (strs_at h kv.2))) h in ((kv.1, b), h).

Definition cloneForSave (c : hconfig) : H hconfig := fun h =>
  let '(ss, h) := match hsources c with
                  | None => (None, h)
                  | s => let '(l, h) := each clone_source (map_range 104 (sources_at h s)) h in make (CSources (list_to_map l)) h
                  end in
  let '(ms, h) := match hmappings c with
                  | None => (None, h)
                  | m => let '(l, h) := each clone_mapping (mappings_at h m) h in make (CMappings l) h
                  end in
  let '(bs, h) := match hsecrets c with
                  | None => (None, h)
                  | b => let '(l, h) := each clone_bag (map_range 105 (bags_at h b)) h in make (CBags (list_to_map l)) h
                  end in
  (mkHConfig (hversion c) (hmeta c) (hagent c) ss ms bs (hidmap c), h).
End Copy.

(** ** The writes of sealing *)

(** The fields of a var that sealing overwrites; its extra map stays the same map. *)
Definition same_extra (v v' : hvar) : Prop := hextra v' = hextra v.

(** Everything EncryptInPlace does to the heap when it is given [c], in whatever order and
    however far it gets: an entry of a source's parameters, the fields of a var, an entry
    of a var's extras, and new maps. *)
Inductive seal_write (c : hconfig) (h : heap) : heap -> Prop :=
| write_param n s l m k v :
    sources_at h (hsources c) !! n = Some s -> hparams s = Some l -> h !! l = Some (CParams m) ->
    seal_write c h (<[l := CParams (<[k := v]> m)]> h)
| write_var i m l vs j v v' :
    mappings_at h (hmappings c) !! i = Some m -> hvars m = Some l -> h !! l = Some (CVars vs) ->
    vs !! j = Some v -> same_extra v v' ->
    seal_write c h (<[l := CVars (<[j := v']> vs)]> h)
| write_extra i m l vs j v le e k x :
    mappings_at h (hmappings c) !! i = Some m -> hvars m = Some l -> h !! l = Some (CVars vs) ->
    vs !! j = Some v -> hextra v = Some le -> h !! le = Some (CStrs e) ->
    seal_write c h (<[le := CStrs (<[k := x]> e)]> h)
| new_map x l : h !! l = None -> seal_write c h (<[l := x]> h).

(** ** What a pointer may lead to *)

Definition cell_pointers (x : cell) : list loc :=
  match x with
  | CSources m => omap (fun kv => hparams kv.2) (map_to_list m)
  | CBags m => omap (fun kv => kv.2) (map_to_list m)
  | CMappings l => omap hcommands l ++ omap hvars l
  | CVars l => omap hextra l
  | _ => []
  end.

(** No pointer dangles: those of the cells and those of the struct itself. *)
Definition closed (h : heap) (c : hconfig) : Prop :=
  (forall l x p, h !! l = Some x -> p ∈ cell_pointers x -> is_Some (h !! p))
  /\ (forall p, hsources c = Some p \/ hmappings c = Some p \/ hsecrets c = Some p -> is_Some (h !! p)).

Lemma deref_mono h h' o : h ⊆ h' -> (forall l, o = Some l -> is_Some (h !! l)) -> deref h' o = deref h o.
Proof.
  intros Hs Ho. destruct o as [l|]; [|done]. destruct (Ho l eq_refl) as [x Hx]. cbn. rewrite Hx. by eapply lookup_weaken.
Qed.

Lemma strs_mono h h' o : h ⊆ h' -> (forall l, o = Some l -> is_Some (h !! l)) -> strs_at h' o = strs_at h o.
Proof. intros Hs Ho. unfold strs_at. by rewrite (deref_mono _ _ _ Hs). Qed.

Lemma closed_at h c o x p : closed h c -> deref h o = Some x -> p ∈ cell_pointers x -> is_Some (h !! p).
Proof. intros [Hc _]. destruct o as [l|]; [|done]. apply Hc. Qed.

Lemma source_pointer h c o n s p : closed h c -> sources_at h o !! n = Some s -> hparams s = Some p -> is_Some (h !! p).
Proof.
  unfold sources_at. intros Hc Hn Hp. destruct (deref h o) as [[| |m| | | |]|] eqn:Hd; try done. apply (closed_at _ _ _ _ _ Hc Hd).
  cbn. apply list_elem_of_omap. exists (n, s). split; [by apply elem_of_map_to_list|done].
Qed.

Lemma bag_pointer h c o n p : closed h c -> bags_at h o !! n = Some (Some p) -> is_Some (h !! p).
Proof.
  unfold bags_at. intros Hc Hn. destruct (deref h o) as [[| | |m| | |]|] eqn:Hd; try done. apply (closed_at _ _ _ _ _ Hc Hd).
  cbn. apply list_elem_of_omap. exists (n, Some p). split; [by apply elem_of_map_to_list|done].
Qed.

Lemma mapping_pointer h c o i m p :
  closed h c -> mappings_at h o !! i = Some m -> hcommands m = Some p \/ hvars m = Some p -> is_Some (h !! p).
Proof.
  unfold mappings_at. intros Hc Hi Hp. destruct (deref h o) as [[| | | |ms| |]|] eqn:Hd; try done. apply (closed_at _ _ _ _ _ Hc Hd).
  cbn. apply elem_of_app. destruct Hp; [left|right]; apply list_elem_of_omap; exists m; by split; [eapply list_elem_of_lookup_2|].
Qed.

Lemma var_pointer h c o j v p : closed h c -> vars_at h o !! j = Some v -> hextra v = Some p -> is_Some (h !! p).
Proof.
  unfold vars_at. intros Hc Hj Hp. destruct (deref h o) as [[| | | | |vs|]|] eqn:Hd; try done. apply (closed_at _ _ _ _ _ Hc Hd).
  cbn. apply list_elem_of_omap. exists v. by split; [eapply list_elem_of_lookup_2|].
Qed.

Lemma read_mono h h' c : closed h c -> h ⊆ h' -> read h' c = read h c.
Proof.
  intros Hc Hs. pose proof (proj2 Hc) as Ht. unfold read. f_equal.
  - replace (sources_at h' (hsources c)) with (sources_at h (hsources c)) by (unfold sources_at; rewrite (deref_mono _ _ _ Hs); auto).
    apply map_fmap_ext. intros n s Hn. f_equal. unfold params_at. rewrite (deref_mono _ _ _ Hs); [done|].
    intros p. by eapply source_pointer.
  - replace (mappings_at h' (hmappings c)) with (mappings_at h (hmappings c)) by (unfold mappings_at; rewrite (deref_mono _ _ _ Hs); auto).
    apply list_fmap_ext. intros i m Hi. unfold read_mapping. f_equal.
    + unfold commands_at. rewrite (deref_mono _ _ _ Hs); [done|]. intros p Hp. eapply mapping_pointer; eauto.
    + replace (vars_at h' (hvars m)) with (vars_at h (hvars m))
        by (unfold vars_at; rewrite (deref_mono _ _ _ Hs); [done|]; intros p Hp; eapply mapping_pointer; eauto).
      apply list_fmap_ext. intros j v Hj. unfold read_var. f_equal. apply strs_mono; [done|]. intros p. by eapply var_pointer.
  - replace (bags_at h' (hsecrets c)) with (bags_at h (hsecrets c)) by (unfold bags_at; rewrite (deref_mono _ _ _ Hs); auto).
    apply map_fmap_ext. intros n o Hn. apply strs_mono; [done|]. intros p ->. by eapply bag_pointer.
Qed.

(** ** What the copy owns *)

Section Owned.
Context `{MapRange} (h0 : heap).

Lemma copied_eq {V} site (m : gmap string V) : copied site m = m.
Proof. unfold copied. by rewrite insert_all, (right_id_L ∅ (∪)). Qed.

(** A cell that was not there before. *)
Definition own (h : heap) (l : loc) : Prop := h0 !! l = None /\ is_Some (h !! l).

Lemma own_mono h h' l : own h l -> h ⊆ h' -> own h' l.
Proof. intros [Hl [x Hx]] Hs. split; [done|]. exists x. by eapply lookup_weaken. Qed.

Lemma make_own x h o h' : make x h = (o, h') -> h0 ⊆ h -> h ⊆ h' /\ exists l, o = Some l /\ own h' l /\ h' !! l = Some x.
Proof.
  intros [= <- <-] Hs. pose proof (is_fresh (dom h)) as Hf. apply not_elem_of_dom in Hf.
  split; [by apply insert_subseteq|]. exists (fresh (dom h)). split; [done|]. split; [|apply lookup_insert_eq]. split.
  - destruct (h0 !! fresh (dom h)) eqn:He; [|done]. by rewrite (lookup_weaken _ _ _ _ He Hs) in Hf.
  - eexists. apply lookup_insert_eq.
Qed.

(** A loop whose steps only add cells, and establish what later cells do not undo. *)
Lemma each_spec {A B} (f : A -> H B) (P : heap -> A -> B -> Prop) l :
  (forall x h y h', x ∈ l -> f x h = (y, h') -> h0 ⊆ h -> h ⊆ h' /\ P h' x y) ->
  (forall h h' x y, P h x y -> h ⊆ h' -> P h' x y) ->
  forall h ys h', each f l h = (ys, h') -> h0 ⊆ h -> h ⊆ h' /\ Forall2 (P h') l ys.
Proof.
  intros Hf Hm. induction l as [|x l IH]; intros h ys h' He Hs; cbn [each] in He; [by injection He as <- <-|].
  destruct (f x h) as [y h1] eqn:Hx, (each f l h1) as [ys' h2] eqn:Hl. injection He as <- <-.
  destruct (Hf x h y h1 ltac:(by left) Hx Hs) as [H1 HP].
  destruct (IH (fun x' h y' h' Hin => Hf x' h y' h' ltac:(by right)) _ _ _ Hl) as [H2 Hys]; [by etrans|].
  split; [by etrans|]. constructor; [by eapply Hm|done].
Qed.

(** A loop whose results go into one more new cell, and a loop that nil skips. *)
Definition filled {B} (h : heap) (o : option loc) (x : list B -> cell) (R : list B -> Prop) : Prop :=
  exists l ys, o = Some l /\ own h l /\ h !! l = Some (x ys) /\ R ys.

Lemma each_make {A B} (f : A -> H B) (P : heap -> A -> B -> Prop) (x : list B -> cell) l :
  (forall a h y h', a ∈ l -> f a h = (y, h') -> h0 ⊆ h -> h ⊆ h' /\ P h' a y) ->
  (forall h h' a y, P h a y -> h ⊆ h' -> P h' a y) ->
  forall h o h', (let '(ys, h) := each f l h in make (x ys) h) = (o, h') -> h0 ⊆ h -> h ⊆ h' /\ filled h' o x (Forall2 (P h') l).
Proof.
  intros Hf Hm h o h' Hr Hs. destruct (each f l h) as [ys h1] eqn:He. destruct (each_spec f P l Hf Hm _ _ _ He Hs) as [H1 Hys].
  destruct (make_own _ _ _ _ Hr) as (H2 & l' & -> & Ho & Hl); [by etrans|]. split; [by etrans|]. exists l', ys. split_and!; [done..|].
  eapply Forall2_impl; [exact Hys|]. intros a y Hay. by eapply Hm.
Qed.

Lemma filled_mono {A B} (P : heap -> A -> B -> Prop) h h' o x l :
  (forall h h' a y, P h a y -> h ⊆ h' -> P h' a y) ->
  filled h o x (Forall2 (P h) l) -> h ⊆ h' -> filled h' o x (Forall2 (P h') l).
Proof.
  intros Hm (p & ys & Hp & Ho & Hl & Hys) Hs. exists p, ys. split_and!; [done|by eapply own_mono|by eapply lookup_weaken|].
  eapply Forall2_impl; [exact Hys|]. intros a y Hay. by eapply Hm.
Qed.

(** What a part of the copy has to do with the part it copies. *)
Definition copy_source (h : heap) (kv kv' : string * hsource) : Prop :=
  kv'.1 = kv.1 /\ htype kv'.2 = htype kv.2 /\ params_at h (hparams kv'.2) = params_at h0 (hparams kv.2)
  /\ forall l, hparams kv'.2 = Some l -> own h l.
Definition copy_var (h : heap) (v v' : hvar) : Prop :=
  read_var h v' = read_var h0 v /\ forall l, hextra v' = Some l -> own h l.
Definition copy_mapping (h : heap) (m m' : hmapping) : Prop :=
  hpath m' = hpath m /\ hglob m' = hglob m /\ hcwd m' = hcwd m /\ hcommands m' = hcommands m
  /\ match hvars m with
     | None => hvars m' = None
     | _ => filled h (hvars m') CVars (Forall2 (copy_var h) (vars_at h0 (hvars m)))
     end.
Definition copy_bag (h : heap) (kv kv' : string * option loc) : Prop :=
  kv'.1 = kv.1 /\ strs_at h kv'.2 = strs_at h0 kv.2 /\ forall l, kv'.2 = Some l -> own h l.

Lemma own_deref h h' o : (forall l, o = Some l -> own h l) -> h ⊆ h' -> deref h' o = deref h o.
Proof. intros Ho Hs. apply deref_mono; [done|]. intros l Hl. by destruct (Ho l Hl). Qed.

Lemma copy_source_mono h h' kv kv' : copy_source h kv kv' -> h ⊆ h' -> copy_source h' kv kv'.
Proof.
  intros (H1 & H2 & H3 & H4) Hs. split_and!; [done..|rewrite <- H3; unfold params_at; by rewrite (own_deref h)|].
  intros l Hl. eapply own_mono; eauto.
Qed.
Lemma copy_var_mono h h' v v' : copy_var h v v' -> h ⊆ h' -> copy_var h' v v'.
Proof.
  intros [H1 H2] Hs. split; [|intros l Hl; eapply own_mono; eauto]. rewrite <- H1. unfold read_var, strs_at. by rewrite (own_deref h).
Qed.
Lemma copy_bag_mono h h' kv kv' : copy_bag h kv kv' -> h ⊆ h' -> copy_bag h' kv kv'.
Proof.
  intros (H1 & H2 & H3) Hs. split_and!; [done|rewrite <- H2; unfold strs_at; by rewrite (own_deref h)|].
  intros l Hl. eapply own_mono; eauto.
Qed.
Lemma copy_mapping_mono h h' m m' : copy_mapping h m m' -> h ⊆ h' -> copy_mapping h' m m'.
Proof.
  intros (H1 & H2 & H3 & H4 & H5) Hs. split_and!; [done..|]. destruct (hvars m) as [l0|]; [|done].
  eapply filled_mono; [apply copy_var_mono|done|done].
Qed.
End Owned.

Section Cloned.
Context `{MapRange} (h0 : heap) (c : hconfig) (Hc : closed h0 c).

Lemma clone_source_spec kv h kv' h' :
  kv ∈ map_range 104 (sources_at h0 (hsources c)) -> clone_source kv h = (kv', h') -> h0 ⊆ h -> h ⊆ h' /\ copy_source h0 h' kv kv'.
Proof.
  intros Hkv Hr Hs. unfold clone_source in Hr. destruct (hparams kv.2) as [l|] eqn:Hp; [|by injection Hr as <- <-; unfold copy_source; rewrite Hp].
  destruct (make _ h) as [o h1] eqn:Hm. injection Hr as <- <-. destruct (make_own h0 _ _ _ _ Hm Hs) as (H1 & l' & -> & Ho & Hl).
  split; [done|]. unfold copy_source. cbn [fst snd htype hparams]. split_and!; [done..| |by intros ? [= <-]].
  unfold params_at at 1. cbn. rewrite Hl, copied_eq, Hp. unfold params_at. rewrite (deref_mono _ _ _ Hs); [done|].
  intros p [= <-]. destruct kv as [n s]. apply elem_of_map_range in Hkv. by eapply source_pointer.
Qed.

Lemma clone_var_spec o v h v' h' :
  v ∈ vars_at h0 o -> clone_var v h = (v', h') -> h0 ⊆ h -> h ⊆ h' /\ copy_var h0 h' v v'.
Proof.
  intros (j & Hj)%list_elem_of_lookup_1 Hr Hs. unfold clone_var in Hr.
  destruct (hextra v) as [l|] eqn:He; [|injection Hr as <- <-; unfold copy_var, read_var; by rewrite He].
  destruct (make _ h) as [e h1] eqn:Hm. injection Hr as <- <-. destruct (make_own h0 _ _ _ _ Hm Hs) as (H1 & l' & -> & Ho & Hl).
  split; [done|]. split; [|by intros ? [= <-]]. unfold read_var. cbn [hname hvsource href hkey hvalue hextra]. f_equal.
  unfold strs_at at 1. cbn. rewrite Hl, copied_eq, He. apply strs_mono; [done|]. intros p [= <-]. by eapply var_pointer.
Qed.

Lemma clone_mapping_spec m h m' h' :
  m ∈ mappings_at h0 (hmappings c) -> clone_mapping m h = (m', h') -> h0 ⊆ h -> h ⊆ h' /\ copy_mapping h0 h' m m'.
Proof.
  intros (i & Hi)%list_elem_of_lookup_1 Hr Hs. unfold clone_mapping in Hr.
  destruct (hvars m) as [l|] eqn:Hv; [|injection Hr as <- <-; unfold copy_mapping; by rewrite Hv].
  assert (Hsame : vars_at h (Some l) = vars_at h0 (Some l)).
  { unfold vars_at. rewrite (deref_mono _ _ _ Hs); [done|]. intros p [= <-]. eapply mapping_pointer; eauto. }
  rewrite Hsame in Hr. destruct (each clone_var (vars_at h0 (Some l)) h) as [vs h1] eqn:He, (make (CVars vs) h1) as [o h2] eqn:Hm.
  injection Hr as <- <-.
  destruct (each_make h0 clone_var (copy_var h0) CVars (vars_at h0 (Some l)) (clone_var_spec (Some l)) (copy_var_mono h0) h o h2) as [H2 Hf];
    [by rewrite He|done|]. split; [done|]. unfold copy_mapping. cbn [hpath hglob hcwd hcommands hvars]. by rewrite Hv.
Qed.

Lemma clone_bag_spec kv h kv' h' :
  kv ∈ map_range 105 (bags_at h0 (hsecrets c)) -> clone_bag kv h = (kv', h') -> h0 ⊆ h -> h ⊆ h' /\ copy_bag h0 h' kv kv'.
Proof.
  intros Hkv Hr Hs. unfold clone_bag in Hr. destruct (make _ h) as [o h1] eqn:Hm. injection Hr as <- <-.
  destruct (make_own h0 _ _ _ _ Hm Hs) as (H1 & l' & -> & Ho & Hl). split; [done|]. split_and!; [done| |by intros ? [= <-]].
  cbn [snd]. unfold strs_at at 1. cbn. rewrite Hl, copied_eq. apply strs_mono; [done|]. intros p Hp.
  destruct kv as [n b]. cbn in Hp. subst. apply elem_of_map_range in Hkv. by eapply bag_pointer.
Qed.

(** The copy as a whole. *)
Definition copy_of (h : heap) (out : hconfig) : Prop :=
  hversion out = hversion c /\ hmeta out = hmeta c /\ hagent out = hagent c /\ hidmap out = hidmap c
  /\ (hsources out = None /\ hsources c = None
      \/ filled h0 h (hsources out) (fun ys => CSources (list_to_map ys)) (Forall2 (copy_source h0 h) (map_range 104 (sources_at h0 (hsources c)))))
  /\ (hmappings out = None /\ hmappings c = None
      \/ filled h0 h (hmappings out) CMappings (Forall2 (copy_mapping h0 h) (mappings_at h0 (hmappings c))))
  /\ (hsecrets out = None /\ hsecrets c = None
      \/ filled h0 h (hsecrets out) (fun ys => CBags (list_to_map ys)) (Forall2 (copy_bag h0 h) (map_range 105 (bags_at h0 (hsecrets c))))).

Lemma cloneForSave_copy out h1 : cloneForSave c h0 = (out, h1) -> h0 ⊆ h1 /\ copy_of h1 out.
Proof.
  intros Hr. unfold cloneForSave in Hr. pose proof (proj2 Hc) as Ht.
  destruct (match hsources c with None => _ | Some _ => _ end) as [ss ha] eqn:Hss.
  destruct (match hmappings c with None => _ | Some _ => _ end) as [ms hb] eqn:Hms.
  destruct (match hsecrets c with None => _ | Some _ => _ end) as [bs hc] eqn:Hbs. injection Hr as <- <-.
  assert (HA : h0 ⊆ ha /\ (ss = None /\ hsources c = None
      \/ filled h0 ha ss (fun ys => CSources (list_to_map ys)) (Forall2 (copy_source h0 ha) (map_range 104 (sources_at h0 (hsources c)))))).
  { destruct (hsources c) as [l|] eqn:Hl; [|injection Hss as <- <-; by auto].
    destruct (each_make h0 clone_source (copy_source h0) (fun ys => CSources (list_to_map ys)) (map_range 104 (sources_at h0 (Some l))))
      with (h := h0) (o := ss) (h' := ha) as [? ?]; [rewrite <- Hl; apply clone_source_spec|apply copy_source_mono|done|done|by auto]. }
  destruct HA as [Ha HA].
  assert (HB : ha ⊆ hb /\ (ms = None /\ hmappings c = None
      \/ filled h0 hb ms CMappings (Forall2 (copy_mapping h0 hb) (mappings_at h0 (hmappings c))))).
  { replace (mappings_at ha (hmappings c)) with (mappings_at h0 (hmappings c)) in Hms
      by (unfold mappings_at; rewrite (deref_mono _ _ _ Ha); auto).
    destruct (hmappings c) as [l|] eqn:Hl; [|injection Hms as <- <-; by auto].
    destruct (each_make h0 clone_mapping (copy_mapping h0) CMappings (mappings_at h0 (Some l)))
      with (h := ha) (o := ms) (h' := hb) as [? ?]; [rewrite <- Hl; apply clone_mapping_spec|apply copy_mapping_mono| |done|by auto].
    replace (mappings_at h0 (Some l)) with (mappings_at ha (Some l)); [done|].
    unfold mappings_at. rewrite (deref_mono _ _ _ Ha); [done|]. intros p [= <-]. auto. }
  destruct HB as [Hb HB]. assert (H0b : h0 ⊆ hb) by by etrans.
  assert (HC : hb ⊆ hc /\ (bs = None /\ hsecrets c = None
      \/ filled h0 hc bs (fun ys => CBags (list_to_map ys)) (Forall2 (copy_bag h0 hc) (map_range 105 (bags_at h0 (hsecrets c)))))).
  { destruct (hsecrets c) as [l|] eqn:Hl; [|injection Hbs as <- <-; by auto].
    destruct (each_make h0 clone_bag (copy_bag h0) (fun ys => CBags (list_to_map ys)) (map_range 105 (bags_at h0 (Some l))))
      with (h := hb) (o := bs) (h' := hc) as [? ?]; [rewrite <- Hl; apply clone_bag_spec|apply copy_bag_mono| |done|by auto].
    replace (bags_at h0 (Some l)) with (bags_at hb (Some l)); [done|].
    unfold bags_at. rewrite (deref_mono _ _ _ H0b); [done|]. intros p [= <-]. auto. }
  destruct HC as [Hcc HC]. assert (Hac : ha ⊆ hc) by by etrans. split; [by etrans|].
  unfold copy_of. cbn [hversion hmeta hagent hsources hmappings hsecrets hidmap]. split_and!; [done..| | |done].
  - destruct HA as [?|HA]; [by left|]. right. eapply filled_mono; [apply copy_source_mono|done|done].
  - destruct HB as [?|HB]; [by left|]. right. eapply filled_mono; [apply copy_mapping_mono|done|done].
Qed.

Lemma copied_map {V W U} site (m : gmap string V) (ys : list (string * W)) (g : V -> U) (g' : W -> U) :
  Forall2 (fun kv kv' => kv'.1 = kv.1 /\ g' kv'.2 = g kv.2) (map_range site m) ys -> g' <$> (list_to_map ys : gmap string W) = g <$> m.
Proof.
  intros Hys. rewrite <- (list_to_map_map_range site m), <- !list_to_map_fmap. f_equal.
  induction Hys as [|[k v] [k' w] l l' [Hk Hg] _ IH]; [done|]. cbn in *. by rewrite Hk, Hg, IH.
Qed.

Lemma copy_reads h out : h0 ⊆ h -> copy_of h out -> read h out = read h0 c.
Proof.
  intros Hs (H1 & H2 & H3 & H4 & Hss & Hms & Hbs). unfold read. rewrite H1, H2, H3, H4. f_equal.
  - destruct Hss as [[-> ->]|(l & ys & -> & _ & Hl & Hys)]; [done|]. unfold sources_at at 1. cbn. rewrite Hl.
    eapply copied_map, Forall2_impl; [exact Hys|]. intros kv kv' (Hk & Ht & Hp & _). split; [done|]. cbn. by rewrite Ht, Hp.
  - destruct Hms as [[-> ->]|(l & ms & -> & _ & Hl & Hys)]; [done|]. unfold mappings_at at 1. cbn. rewrite Hl.
    apply list_eq. intros i. rewrite !list_lookup_fmap. pose proof (proj1 (Forall2_lookup _ _ _) Hys i) as Hi.
    destruct (mappings_at h0 (hmappings c) !! i) as [m|] eqn:Hm, (ms !! i) as [m'|]; inversion Hi as [? ? Hmm|]; subst; [|done].
    destruct Hmm as (Hp & Hg & Hw & Hcm & Hv). cbn. f_equal.
    unfold read_mapping. rewrite Hp, Hg, Hw, Hcm. f_equal.
    + unfold commands_at. rewrite (deref_mono _ _ _ Hs); [done|]. intros p ?. eapply mapping_pointer; eauto.
    + destruct (hvars m) as [lv|]; [|by rewrite Hv]. destruct Hv as (l' & vs & -> & _ & Hl' & Hvs).
      unfold vars_at at 1. cbn. rewrite Hl'. symmetry. apply list_eq_Forall2, Forall2_fmap.
      eapply Forall2_impl; [exact Hvs|]. by intros v v' [-> _].
  - destruct Hbs as [[-> ->]|(l & ys & -> & _ & Hl & Hys)]; [done|]. unfold bags_at at 1. cbn. rewrite Hl.
    eapply copied_map, Forall2_impl; [exact Hys|]. by intros kv kv' (Hk & Hb & _).
Qed.

(** What stays true of the copy while it is sealed. *)
Record owned (out : hconfig) (h : heap) : Prop := {
  ow_frame : h0 ⊆ h;
  ow_sources : forall l, hsources out = Some l -> exists m, h !! l = Some (CSources m)
    /\ forall n s p, m !! n = Some s -> hparams s = Some p -> h0 !! p = None;
  ow_mappings : forall l, hmappings out = Some l -> exists ms, h !! l = Some (CMappings ms)
    /\ forall m p, m ∈ ms -> hvars m = Some p -> h0 !! p = None /\ exists vs, h !! p = Some (CVars vs)
      /\ forall v e, v ∈ vs -> hextra v = Some e -> h0 !! e = None
}.

Lemma copy_owned h out : h0 ⊆ h -> copy_of h out -> owned out h.
Proof.
  intros Hs (_ & _ & _ & _ & Hss & Hms & _). split; [done|..].
  - intros l Hl. destruct Hss as [[? _]|(l' & ys & Hl' & _ & Hc' & Hys)]; [congruence|]. assert (l' = l) as -> by congruence.
    eexists. split; [done|]. intros n s p Hn Hp. apply elem_of_list_to_map_2, list_elem_of_lookup_1 in Hn as [i Hi].
    destruct (Forall2_lookup_r _ _ _ _ _ Hys Hi) as (kv & _ & _ & _ & _ & Ho). by destruct (Ho p Hp).
  - intros l Hl. destruct Hms as [[? _]|(l' & ms & Hl' & _ & Hc' & Hys)]; [congruence|]. assert (l' = l) as -> by congruence.
    exists ms. split; [done|]. intros m p (i & Hi)%list_elem_of_lookup_1 Hp.
    destruct (Forall2_lookup_r _ _ _ _ _ Hys Hi) as (m0 & _ & _ & _ & _ & _ & Hv).
    destruct (hvars m0) as [l0|]; [|congruence]. destruct Hv as (p' & vs & Hp' & [Hn _] & Hvs & Hall).
    assert (p' = p) as -> by congruence. split; [done|]. exists vs. split; [done|].
    intros v e (j & Hj)%list_elem_of_lookup_1 He. destruct (Forall2_lookup_r _ _ _ _ _ Hall Hj) as (v0 & _ & _ & Ho). by destruct (Ho e He).
Qed.

(** A cell changed into one of its kind, whose vars hold the maps they held. *)
Definition like_cell (x y : cell) : Prop :=
  match x, y with
  | CParams _, CParams _ | CStrs _, CStrs _ => True
  | CVars l, CVars l' => forall v, v ∈ l' -> exists v0, v0 ∈ l /\ hextra v = hextra v0
  | _, _ => False
  end.

Lemma owned_write out h l x y : owned out h -> h0 !! l = None -> h !! l = Some x -> like_cell x y -> owned out (<[l := y]> h).
Proof.
  intros [Hf Hs Hm] Hl Hx Hxy. split.
  - by apply insert_subseteq_r.
  - intros p Hp. destruct (Hs p Hp) as (m & Hpm & Hall). exists m. split; [|done].
    rewrite lookup_insert_ne; [done|]. intros ->. rewrite Hx in Hpm. injection Hpm as ->. done.
  - intros p Hp. destruct (Hm p Hp) as (ms & Hpm & Hall). exists ms. split.
    { rewrite lookup_insert_ne; [done|]. intros ->. rewrite Hx in Hpm. injection Hpm as ->. done. }
    intros m q Hmm Hq. destruct (Hall m q Hmm Hq) as (Hn & vs & Hvs & He). split; [done|].
    destruct (decide (q = l)) as [->|Hne]; [|exists vs; by rewrite lookup_insert_ne].
    rewrite Hx in Hvs. injection Hvs as ->. destruct y as [| | | | |vs'|]; try done. exists vs'. split; [by rewrite lookup_insert_eq|].
    intros v e Hv Hve. destruct (Hxy v Hv) as (v0 & Hv0 & He0). apply (He v0); [done|congruence].
Qed.

Lemma owned_new out h l x : owned out h -> h !! l = None -> owned out (<[l := x]> h).
Proof.
  intros [Hf Hs Hm] Hl. assert (Hins : h ⊆ <[l := x]> h) by by apply insert_subseteq. split.
  - by etrans.
  - intros p Hp. destruct (Hs p Hp) as (m & Hpm & Hall). exists m. split; [by eapply lookup_weaken|done].
  - intros p Hp. destruct (Hm p Hp) as (ms & Hpm & Hall). exists ms. split; [by eapply lookup_weaken|].
    intros m q Hmm Hq. destruct (Hall m q Hmm Hq) as (Hn & vs & Hvs & He). split; [done|]. exists vs. split; [by eapply lookup_weaken|done].
Qed.

Lemma owned_step out h h' : owned out h -> seal_write out h h' -> owned out h'.
Proof.
  intros Ho Hw. pose proof Ho as [_ Hs Hm]. destruct Hw as [n s l m k v Hn Hp Hl|i m l vs j v v' Hi Hv Hl Hj He|i m l vs j v le e k x Hi Hv Hl Hj He Hle|x l Hl].
  - apply (owned_write _ _ _ (CParams m)); [done| |done|done]. unfold sources_at in Hn.
    destruct (hsources out) as [ls|] eqn:Hls; [|done]. destruct (Hs ls eq_refl) as (ss & Hss & Hall). cbn in Hn. rewrite Hss in Hn. by eapply Hall.
  - unfold mappings_at in Hi. destruct (hmappings out) as [lm|] eqn:Hlm; [|done]. destruct (Hm lm eq_refl) as (ms & Hms & Hall).
    cbn in Hi. rewrite Hms in Hi. destruct (Hall m l ltac:(by eapply list_elem_of_lookup_2) Hv) as (Hn & _).
    apply (owned_write _ _ _ (CVars vs)); [done..|]. intros w (q & Hq)%list_elem_of_lookup_1.
    destruct (decide (q = j)) as [->|Hqj].
    + rewrite list_lookup_insert_eq in Hq by by eapply lookup_lt_Some. injection Hq as <-. exists v. split; [by eapply list_elem_of_lookup_2|done].
    + rewrite list_lookup_insert_ne in Hq by done. exists w. split; [by eapply list_elem_of_lookup_2|done].
  - unfold mappings_at in Hi. destruct (hmappings out) as [lm|] eqn:Hlm; [|done]. destruct (Hm lm eq_refl) as (ms & Hms & Hall).
    cbn in Hi. rewrite Hms in Hi. destruct (Hall m l ltac:(by eapply list_elem_of_lookup_2) Hv) as (_ & vs' & Hvs' & Hex).
    rewrite Hl in Hvs'. injection Hvs' as <-. apply (owned_write _ _ _ (CStrs e)); [done| |done|done].
    apply (Hex v); [by eapply list_elem_of_lookup_2|done].
  - by apply owned_new.
Qed.
End Cloned.

(** C20.  A save never seals the live configuration.  The copy that a save makes stands for
    the configuration it was made of; and whatever sealing then writes through the copy - in
    any order, and however far it gets before an error -, no map or slice that existed
    before is changed, the commands that the copy shares included: the live configuration
    reads as it did. *)
Theorem save_isolated `{MapRange} h c out h1 h2 :
  closed h c -> cloneForSave c h = (out, h1) -> rtc (seal_write out) h1 h2 ->
  read h1 out = read h c /\ h ⊆ h2 /\ read h2 c = read h c.
Proof.
  intros Hc Hr Hw. destruct (cloneForSave_copy h c Hc out h1 Hr) as [Hs Hco].
  assert (Ho : owned h out h2).
  { pose proof (copy_owned h c h1 out Hs Hco) as Ho. clear Hr Hco Hs. induction Hw as [|x y z Hxy _ IH]; [done|].
    apply IH. by eapply owned_step. }
  split; [by apply copy_reads|]. split; [apply Ho|]. apply read_mono; [done|apply Ho].
Qed.

(** A source with a parameter, a mapping with a command and a var that has an extra, a bag. *)
Definition ex_heap : heap :=
  list_to_map [(1, CSources {["v" := mkHSource "vault" (Some 2)]}); (2, CParams {["token" := AStr "t0ken"]});
    (3, CMappings [mkHMapping "" "" "/w" (Some 7) (Some 4)]); (4, CVars [mkHVar "A" "v" "r" "k" "" (Some 5)]);
    (5, CStrs {["version" := "2"]}); (6, CBags {["b" := Some 8]}); (7, CCommands ["go"]); (8, CStrs {["K" := "s3cret"]})]%positive.
Definition ex_config : hconfig :=
  mkHConfig Version (mkMeta "" 0 0 0 "" "" "" "") (mkAgentConfig "" "" None None) (Some 1%positive) (Some 3%positive) (Some 6%positive) None.
#[local] Existing Instance map_range_default.

Lemma ex_closed : closed ex_heap ex_config.
Proof.
  assert (Hm : map_Forall (fun _ x => Forall (fun p => is_Some (ex_heap !! p)) (cell_pointers x)) ex_heap)
    by (apply (bool_decide_unpack _); vm_compute; exact I).
  split; [|intros p [[= <-]|[[= <-]|[= <-]]]; vm_compute; by eexists].
  intros l x p Hl Hp. by apply (proj1 (Forall_forall _ _) (Hm l x Hl)).
Qed.

(** The copy of the extra map sealed: the copy reads differently, the live one as before. *)
Definition ex_copy : hconfig * heap := cloneForSave ex_config ex_heap.
Definition ex_extra : option loc := vars_at ex_copy.2 (mappings_at ex_copy.2 (hmappings ex_copy.1) !! 0%nat ≫= hvars) !! 0%nat ≫= hextra.
Definition ex_sealed : heap := <[default 1%positive ex_extra := CStrs (<["version" := "enc:v2:x"]> {["version" := "2"]})]> ex_copy.2.
Definition first_extra (c : Config) : option string := Mappings c !! 0%nat ≫= fun m => Vars m !! 0%nat ≫= fun v => Extra v !! "version".

Lemma save_isolated_witness :
  closed ex_heap ex_config /\ rtc (seal_write ex_copy.1) ex_copy.2 ex_sealed
  /\ first_extra (read ex_sealed ex_copy.1) = Some "enc:v2:x" /\ first_extra (read ex_sealed ex_config) = Some "2"
  /\ ex_heap ⊆ ex_sealed /\ read ex_sealed ex_config = read ex_heap ex_config.
Proof.
  assert (Hw : rtc (seal_write ex_copy.1) ex_copy.2 ex_sealed).
  { apply rtc_once. eapply (write_extra _ _ 0 _ _ _ 0); vm_compute; reflexivity. }
  destruct (save_isolated ex_heap ex_config ex_copy.1 ex_copy.2 ex_sealed ex_closed (surjective_pairing ex_copy) Hw) as (_ & Hs & Hr).
  split_and!; [apply ex_closed|done|vm_compute; reflexivity..|done|done].
Defined.
End CloneSave.
