(* ===== verification/Mapping.v ===== *)
(** * The mapping index (src/internal/config/mapping.go)

    Lookup of mappings by path, glob and working directory, the ancestor walk
    of cwd_glob, and the match anchors the shell hooks filter with.  The glob
    matcher (package doublestar) is a parameter [ds_match pattern path]: [None]
    is a pattern error.  The home and working directory are arguments. *)

From S2P Require Import Prelude GoString GoPath ConfigModel.
Import GoPath Config.

Module Mapping.

Record globEntry := mkGlob { gpattern : string; gvars : list VarRef }.
Record cwdGlobEntry := mkCwd { cpattern : string; ccommands : list string; cvars : list VarRef }.

Record Index := mkIndex {
  exact : gmap string (list VarRef);
  globs : list globEntry;
  cwdGlobs : list cwdGlobEntry
}.

Definition empty_index : Index := mkIndex ∅ [] [].

Definition containsString (haystack : list string) (needle : string) : bool :=
  existsb (fun s => bool_decide (s = needle)) haystack.

(** Wildcards of doublestar, outside of an escape. *)
Definition is_meta (c : ascii) : bool :=
  Ascii.eqb c "*" || Ascii.eqb c "?" || Ascii.eqb c "[" || Ascii.eqb c "{".

Fixpoint literalPrefix (pattern : string) : string :=
  match pattern with
  | EmptyString => EmptyString
  | String c p' =>
      let plain := if is_meta c then EmptyString else String c (literalPrefix p') in
      match p' with
      | String d p'' => if Ascii.eqb c BSLASH then String d (literalPrefix p'') else plain
      | EmptyString => plain
      end
  end.

(** The map-as-set deduplication used by Anchors and CwdCommands: first
    occurrences, in order. *)
Fixpoint dedup (seen : gset string) (l : list string) : list string :=
  match l with
  | [] => []
  | x :: l' => if bool_decide (x ∈ seen) then dedup seen l' else x :: dedup ({[x]} ∪ seen) l'
  end.

Section Index.
Context (ds_match : string -> string -> option bool) (home cwd : option string).

Definition matches (pattern s : string) : bool :=
  match ds_match pattern s with Some b => b | None => false end.

Definition expandTilde (p : string) : string :=
  match p with
  | String "~" rest =>
      match home with
      | None | Some EmptyString => p
      | Some h =>
          if str_empty rest then h
          else if has_prefix p "~/" then Join [h; str_drop 2 p]
          else p
      end
  | _ => p
  end.

Definition normalisePattern (p : string) : string :=
  let s := ToSlash (expandTilde p) in
  if (1 <? String.length s)%nat then trim_right (Ascii.eqb SLASH) s else s.

(** [filepath.Abs], falling back to the raw path on error. *)
Definition absOr (p raw : string) : string := default raw (Abs cwd p).

Definition add_mapping (idx : Index) (m : Mapping) : Index :=
  if negb (str_empty (Path m)) then
    let abs := absOr (expandTilde (Path m)) (Path m) in
    mkIndex (<[abs := default [] (exact idx !! abs) ++ Vars m]> (exact idx)) (globs idx) (cwdGlobs idx)
  else if negb (str_empty (Glob m)) then
    mkIndex (exact idx) (globs idx ++ [mkGlob (normalisePattern (Glob m)) (Vars m)]) (cwdGlobs idx)
  else if negb (str_empty (CwdGlob m)) then
    mkIndex (exact idx) (globs idx)
      (cwdGlobs idx ++ [mkCwd (normalisePattern (CwdGlob m)) (Commands m) (Vars m)])
  else idx.

Definition NewIndex (mappings : list Mapping) : Index := fold_left add_mapping mappings empty_index.

Definition Lookup (idx : Index) (absPath : string) : list VarRef :=
  default [] (exact idx !! absPath) ++
  mjoin (gvars <$> filter (fun g => matches (gpattern g) (ToSlash absPath) = true) (globs idx)).

Definition Mapped (idx : Index) (absPath : string) : bool :=
  match exact idx !! absPath with
  | Some _ => true
  | None => existsb (fun g => matches (gpattern g) (ToSlash absPath)) (globs idx)
  end.

(** The walk up the ancestors; [None] is fuel exhausted. *)
Fixpoint matchAncestor_loop (fuel : nat) (pattern cur : string) : option bool :=
  match fuel with
  | O => None
  | S n =>
      if matches pattern cur then Some true
      else
        let parent := Dir cur in
        if bool_decide (parent = cur) then Some false
        else matchAncestor_loop n pattern parent
  end.

Definition ancestor_fuel (abs : string) : nat := (String.length abs + 3)%nat.

Definition matchAncestor (pattern abs : string) : bool :=
  default false (matchAncestor_loop (ancestor_fuel abs) pattern (ToSlash abs)).

Definition absPwd (pwd : string) : string := absOr (expandTilde pwd) pwd.

Definition LookupCwd (idx : Index) (pwd command : string) : list VarRef :=
  mjoin (cvars <$> filter (fun e => containsString (ccommands e) command = true
                                    /\ matchAncestor (cpattern e) (absPwd pwd) = true) (cwdGlobs idx)).

Definition CwdCommands (idx : Index) (pwd : string) : list string :=
  dedup ∅ (mjoin (ccommands <$> filter (fun e => matchAncestor (cpattern e) (absPwd pwd) = true) (cwdGlobs idx))).

Definition MappedCwd (idx : Index) (pwd command : string) : bool :=
  (0 <? length (LookupCwd idx pwd command))%nat.

Definition Anchors `{MapRange} (idx : Index) : list string * list string :=
  (sort_strings (map_range 0 (exact idx)).*1,
   sort_strings (dedup ∅ (literalPrefix ∘ gpattern <$> globs idx))).

(** ** What a mapping covers, declaratively *)

Definition path_hits (m : Mapping) (p : string) : Prop :=
  Path m <> "" /\ absOr (expandTilde (Path m)) (Path m) = p.

Definition glob_hits (m : Mapping) (p : string) : Prop :=
  Path m = "" /\ Glob m <> "" /\ matches (normalisePattern (Glob m)) p = true.

Definition cwd_hits (m : Mapping) (pwd : string) : Prop :=
  Path m = "" /\ Glob m = "" /\ CwdGlob m <> ""
  /\ matchAncestor (normalisePattern (CwdGlob m)) (absPwd pwd) = true.

#[local] Instance path_hits_dec m p : Decision (path_hits m p).
Proof. unfold path_hits. apply _. Defined.
#[local] Instance glob_hits_dec m p : Decision (glob_hits m p).
Proof. unfold glob_hits. apply _. Defined.
#[local] Instance cwd_hits_dec m p : Decision (cwd_hits m p).
Proof. unfold cwd_hits. apply _. Defined.

(** The reference lookup: mappings in declaration order, exact ones first. *)
Definition lookup_spec (ms : list Mapping) (p : string) : list VarRef :=
  mjoin (Vars <$> filter (fun m => path_hits m p) ms) ++
  mjoin (Vars <$> filter (fun m => glob_hits m p) ms).

Definition lookup_cwd_spec (ms : list Mapping) (pwd cmd : string) : list VarRef :=
  mjoin (Vars <$> filter (fun m => cmd ∈ Commands m /\ cwd_hits m pwd) ms).

(** ** Proofs *)

Lemma add_mapping_kinds idx m :
  (Path m <> "" /\ add_mapping idx m =
     mkIndex (<[absOr (expandTilde (Path m)) (Path m) :=
        default [] (exact idx !! absOr (expandTilde (Path m)) (Path m)) ++ Vars m]> (exact idx))
        (globs idx) (cwdGlobs idx))
  \/ (Path m = "" /\ Glob m <> "" /\ add_mapping idx m =
     mkIndex (exact idx) (globs idx ++ [mkGlob (normalisePattern (Glob m)) (Vars m)]) (cwdGlobs idx))
  \/ (Path m = "" /\ Glob m = "" /\ CwdGlob m <> "" /\ add_mapping idx m =
     mkIndex (exact idx) (globs idx)
       (cwdGlobs idx ++ [mkCwd (normalisePattern (CwdGlob m)) (Commands m) (Vars m)]))
  \/ (Path m = "" /\ Glob m = "" /\ CwdGlob m = "" /\ add_mapping idx m = idx).
Proof.
  unfold add_mapping. str_cases (Path m); str_cases (Glob m); str_cases (CwdGlob m); simpl; tauto.
Qed.

Lemma NewIndex_snoc ms m : NewIndex (ms ++ [m]) = add_mapping (NewIndex ms) m.
Proof. unfold NewIndex. by rewrite fold_left_app. Qed.

Lemma exact_spec ms p :
  exact (NewIndex ms) !! p =
  match filter (fun m => path_hits m p) ms with
  | [] => None
  | hs => Some (mjoin (Vars <$> hs))
  end.
Proof.
  induction ms as [|m ms IH] using rev_ind; [done|].
  rewrite NewIndex_snoc, filter_app.
  destruct (add_mapping_kinds (NewIndex ms) m) as
    [(Hp & ->)|[(Hp & Hg & ->)|[(Hp & Hg & Hc & ->)|(Hp & Hg & Hc & ->)]]]; cbn [exact].
  2-4: rewrite (filter_cons_False _ m) by (unfold path_hits; naive_solver);
       by rewrite filter_nil, app_nil_r.
  destruct (decide (absOr (expandTilde (Path m)) (Path m) = p)) as [Heq|Hne].
  - rewrite (filter_cons_True _ m) by (unfold path_hits; naive_solver).
    rewrite Heq, lookup_insert_eq, IH.
    destruct (filter (fun m => path_hits m p) ms) as [|h hs]; [simpl; by rewrite app_nil_r|].
    simpl. rewrite fmap_app, join_app. simpl. by rewrite app_nil_r, app_assoc.
  - rewrite (filter_cons_False _ m) by (unfold path_hits; naive_solver).
    by rewrite filter_nil, app_nil_r, lookup_insert_ne.
Qed.

Lemma globs_spec ms :
  globs (NewIndex ms) =
  (fun m => mkGlob (normalisePattern (Glob m)) (Vars m)) <$> filter (fun m => Path m = "" /\ Glob m <> "") ms.
Proof.
  induction ms as [|m ms IH] using rev_ind; [done|].
  rewrite NewIndex_snoc, filter_app, fmap_app, <- IH.
  destruct (add_mapping_kinds (NewIndex ms) m) as
    [(Hp & ->)|[(Hp & Hg & ->)|[(Hp & Hg & Hc & ->)|(Hp & Hg & Hc & ->)]]]; cbn [globs].
  2: by rewrite (filter_cons_True _ m) by done.
  all: rewrite (filter_cons_False _ m) by naive_solver; by rewrite filter_nil, app_nil_r.
Qed.

Lemma cwdGlobs_spec ms :
  cwdGlobs (NewIndex ms) =
  (fun m => mkCwd (normalisePattern (CwdGlob m)) (Commands m) (Vars m)) <$>
    filter (fun m => Path m = "" /\ Glob m = "" /\ CwdGlob m <> "") ms.
Proof.
  induction ms as [|m ms IH] using rev_ind; [done|].
  rewrite NewIndex_snoc, filter_app, fmap_app, <- IH.
  destruct (add_mapping_kinds (NewIndex ms) m) as
    [(Hp & ->)|[(Hp & Hg & ->)|[(Hp & Hg & Hc & ->)|(Hp & Hg & Hc & ->)]]]; cbn [cwdGlobs].
  3: by rewrite (filter_cons_True _ m) by done.
  all: rewrite (filter_cons_False _ m) by naive_solver; by rewrite filter_nil, app_nil_r.
Qed.

Lemma containsString_spec l x : containsString l x = true <-> x ∈ l.
Proof.
  unfold containsString. rewrite existsb_exists. setoid_rewrite bool_decide_eq_true.
  rewrite list_elem_of_In. naive_solver.
Qed.

(** Filtering the entries built from mappings is filtering the mappings. *)
Lemma join_filter_fmap {B} (f : Mapping -> B) (g : B -> list VarRef) (P Q : Mapping -> Prop) (T : B -> Prop)
    `{!forall m, Decision (P m), !forall m, Decision (Q m), !forall b, Decision (T b)} ms :
  (forall m, g (f m) = Vars m) ->
  (forall m, Q m <-> P m /\ T (f m)) ->
  mjoin (g <$> filter T (f <$> filter P ms)) = mjoin (Vars <$> filter Q ms).
Proof.
  intros Hg HQ. induction ms as [|m ms IH]; [done|]. destruct (decide (P m)) as [HP|HP].
  - rewrite (filter_cons_True P) by done. cbn [fmap list_fmap].
    destruct (decide (T (f m))) as [HT|HT].
    + assert (HQm : Q m) by (by apply HQ).
      rewrite (filter_cons_True T), (filter_cons_True Q) by done.
      cbn [fmap list_fmap]. simpl. by rewrite Hg, IH.
    + assert (HQm : ~ Q m) by (rewrite HQ; tauto).
      rewrite (filter_cons_False T), (filter_cons_False Q) by done. done.
  - assert (HQm : ~ Q m) by (rewrite HQ; tauto).
    rewrite (filter_cons_False P), (filter_cons_False Q) by done. done.
Qed.

(** C38.  The index refines the declarative reading of the mapping list: a lookup
    returns the vars of every path mapping of that path, in declaration order,
    followed by those of every glob mapping that matches, in declaration order;
    and a path is mapped exactly when some mapping covers it. *)
Theorem Lookup_refines ms p :
  Lookup (NewIndex ms) p = lookup_spec ms p
  /\ (Mapped (NewIndex ms) p = true <-> exists m, m ∈ ms /\ (path_hits m p \/ glob_hits m p)).
Proof.
  split.
  - unfold Lookup, lookup_spec, ToSlash. rewrite exact_spec, globs_spec. f_equal.
    + by destruct (filter _ ms).
    + apply (join_filter_fmap (fun m => mkGlob (normalisePattern (Glob m)) (Vars m)) gvars); [done|].
      intros m. unfold glob_hits. simpl. tauto.
  - unfold Mapped, ToSlash. rewrite exact_spec.
    destruct (filter (fun m => path_hits m p) ms) as [|h hs] eqn:Hf.
    + rewrite existsb_exists. split.
      * intros (g & Hg & Hm). apply list_elem_of_In in Hg. rewrite globs_spec in Hg.
        apply list_elem_of_fmap in Hg as (m & -> & Hm').
        apply list_elem_of_filter in Hm' as [[??] ?]. exists m. unfold glob_hits. naive_solver.
      * intros (m & Hm & [Hp|(Hp & Hg & Hmatch)]).
        { exfalso. assert (Hin : m ∈ filter (fun m => path_hits m p) ms)
            by (by apply list_elem_of_filter). rewrite Hf in Hin. set_solver. }
        exists (mkGlob (normalisePattern (Glob m)) (Vars m)). split; [|done].
        apply list_elem_of_In. rewrite globs_spec. apply list_elem_of_fmap. exists m.
        split; [done|]. by apply list_elem_of_filter.
    + split; [|done]. intros _. assert (Hin : h ∈ filter (fun m => path_hits m p) ms)
        by (rewrite Hf; set_solver).
      apply list_elem_of_filter in Hin as [??]. exists h. auto.
Qed.

(** ** The ancestor walk *)

Lemma matchAncestor_loop_enough pattern cur n :
  (String.length cur + 2 < n)%nat -> is_Some (matchAncestor_loop n pattern cur).
Proof.
  revert n. induction cur as [cur IH] using (induction_ltof1 _ String.length).
  intros n Hn. destruct n as [|n]; [lia|]. simpl.
  destruct (matches pattern cur); [by eauto|].
  case_bool_decide as Hd; [by eauto|].
  destruct (Dir_progress cur) as [?|[Hlt|Hdot]]; [done| |].
  - apply IH; [done|lia].
  - rewrite Hdot. destruct n as [|n]; [lia|]. simpl.
    destruct (matches pattern "."); by eauto.
Qed.

(** Proper ancestors-or-self of a clean absolute path, deepest first. *)
Fixpoint prefixes_desc (l : list string) : list (list string) :=
  match l with
  | [] => [[]]
  | x :: l' => (cons x <$> prefixes_desc l') ++ [[]]
  end.

Lemma prefixes_desc_snoc l x : prefixes_desc (l ++ [x]) = (l ++ [x]) :: prefixes_desc l.
Proof. induction l as [|y l IH]; [done|]. simpl. by rewrite IH. Qed.

Lemma elem_of_prefixes_desc l k : k ∈ prefixes_desc l <-> k `prefix_of` l.
Proof.
  induction l as [|x l IH] using rev_ind.
  - simpl. rewrite list_elem_of_singleton. split; [by intros ->|]. by intros ?%prefix_nil_inv.
  - rewrite prefixes_desc_snoc, elem_of_cons, IH. split.
    + intros [->|[t ->]]; [done|]. exists (t ++ [x]). by rewrite app_assoc.
    + intros [t Ht]. destruct t as [|y t _] using rev_ind; [left; by rewrite app_nil_r in Ht|].
      rewrite app_assoc in Ht. apply app_inj_tail in Ht as [-> _]. right. by exists t.
Qed.

Lemma matchAncestor_loop_abs pattern l n :
  Forall plain_elem l ->
  matchAncestor_loop (length l + 1 + n) pattern (abs_path l) =
  Some (existsb (fun k => matches pattern (abs_path k)) (prefixes_desc l)).
Proof.
  revert n. induction l as [|x l IH] using rev_ind; intros n HF.
  - simpl. by destruct (matches pattern (abs_path [])).
  - rewrite prefixes_desc_snoc, length_app. cbn [existsb].
    replace (length l + length [x] + 1 + n)%nat with (S (length l + 1 + n)) by (simpl; lia).
    cbn [matchAncestor_loop]. destruct (matches pattern (abs_path (l ++ [x]))); [done|]. simpl orb.
    rewrite Dir_abs_path by done. rewrite bool_decide_eq_false_2.
    + apply IH. by apply Forall_app in HF as [? _].
    + intros He. pose proof HF as HF'. apply Forall_app in HF as [Hl _].
      apply (f_equal clean_comps) in He.
      rewrite !clean_comps_abs in He by (by apply clean_list_true_plain).
      apply (f_equal length) in He. rewrite length_app in He. simpl in He. lia.
Qed.

Lemma abs_path_length l : (length l <= String.length (abs_path l))%nat.
Proof.
  unfold abs_path. rewrite str_length_app. simpl. induction l as [|x l IH]; [simpl; lia|].
  destruct l as [|y l]; [simpl; lia|]. rewrite join_cons, !str_length_app by done. simpl in *. lia.
Qed.

(**  The ancestor walk terminates on every path, clean or not, relative or
    absolute: its fuel, the length of the path plus three, is never exhausted. *)
Theorem matchAncestor_terminates pattern abs :
  is_Some (matchAncestor_loop (ancestor_fuel abs) pattern (ToSlash abs)).
Proof. apply matchAncestor_loop_enough. unfold ToSlash, ancestor_fuel. lia. Qed.

(**  On a clean absolute path the walk decides whether the pattern matches
    the path or one of its ancestors up to the root. *)
Theorem matchAncestor_abs pattern l :
  Forall plain_elem l ->
  matchAncestor pattern (abs_path l) = true <->
  exists k, k `prefix_of` l /\ matches pattern (abs_path k) = true.
Proof.
  intros HF. unfold matchAncestor, ancestor_fuel, ToSlash.
  pose proof (abs_path_length l) as Hlen.
  replace (String.length (abs_path l) + 3)%nat
    with (length l + 1 + (String.length (abs_path l) + 2 - length l))%nat by lia.
  rewrite matchAncestor_loop_abs by done. simpl. rewrite existsb_exists.
  setoid_rewrite <- list_elem_of_In. by setoid_rewrite elem_of_prefixes_desc.
Qed.

(** ** cwd_glob lookups *)

Lemma LookupCwd_spec ms pwd cmd : LookupCwd (NewIndex ms) pwd cmd = lookup_cwd_spec ms pwd cmd.
Proof.
  unfold LookupCwd, lookup_cwd_spec. rewrite cwdGlobs_spec.
  apply (join_filter_fmap (fun m => mkCwd (normalisePattern (CwdGlob m)) (Commands m) (Vars m)) cvars);
    [done|].
  intros m. unfold cwd_hits. simpl. rewrite containsString_spec. tauto.
Qed.

Lemma dedup_spec seen l x : x ∈ dedup seen l <-> x ∈ l /\ x ∉ seen.
Proof.
  revert seen. induction l as [|y l IH]; intros seen; simpl; [set_solver|].
  case_bool_decide as Hy; rewrite ?elem_of_cons, IH, ?elem_of_cons, ?not_elem_of_union, ?not_elem_of_singleton.
  - split; [tauto|]. intros [[->|?] ?]; done.
  - destruct (decide (x = y)) as [->|]; tauto.
Qed.

Lemma dedup_NoDup seen l : NoDup (dedup seen l).
Proof.
  revert seen. induction l as [|y l IH]; intros seen; simpl; [constructor|].
  case_bool_decide; [done|]. constructor; [|done]. rewrite dedup_spec. set_solver.
Qed.

Lemma CwdCommands_spec ms pwd cmd :
  cmd ∈ CwdCommands (NewIndex ms) pwd <-> exists m, m ∈ ms /\ cwd_hits m pwd /\ cmd ∈ Commands m.
Proof.
  unfold CwdCommands. rewrite dedup_spec, list_elem_of_join, cwdGlobs_spec.
  split.
  - intros [(cs & Hcmd & Hcs) _]. apply list_elem_of_fmap in Hcs as (e & -> & He).
    apply list_elem_of_filter in He as [Hm He]. apply list_elem_of_fmap in He as (m & -> & Hin).
    apply list_elem_of_filter in Hin as [(?&?&?) ?]. exists m. unfold cwd_hits. naive_solver.
  - intros (m & Hm & (Hp & Hg & Hc & Hmatch) & Hcmd). split; [|set_solver].
    exists (Commands m). split; [done|].
    apply list_elem_of_fmap. exists (mkCwd (normalisePattern (CwdGlob m)) (Commands m) (Vars m)).
    split; [done|]. apply list_elem_of_filter. split; [done|].
    apply list_elem_of_fmap. exists m. split; [done|]. by apply list_elem_of_filter.
Qed.

(** The wrapper set and the injection decision agree: a (directory,
    command) pair has vars exactly when some cwd_glob mapping that covers the
    directory lists the command and has vars; every such command is in the list
    of wrappers for that directory; and that list names each command once. *)
Theorem cwd_wrappers_cover ms pwd cmd :
  LookupCwd (NewIndex ms) pwd cmd = lookup_cwd_spec ms pwd cmd
  /\ (MappedCwd (NewIndex ms) pwd cmd = true ->
      cmd ∈ CwdCommands (NewIndex ms) pwd)
  /\ (cmd ∈ CwdCommands (NewIndex ms) pwd ->
      Forall (fun m => Vars m <> []) ms -> MappedCwd (NewIndex ms) pwd cmd = true)
  /\ NoDup (CwdCommands (NewIndex ms) pwd).
Proof.
  split; [apply LookupCwd_spec|]. split; [|split; [|apply dedup_NoDup]].
  - unfold MappedCwd. rewrite Nat.ltb_lt, LookupCwd_spec. intros Hlen.
    destruct (lookup_cwd_spec ms pwd cmd) as [|v vs] eqn:Hl; [simpl in Hlen; lia|].
    assert (Hv : v ∈ lookup_cwd_spec ms pwd cmd) by (rewrite Hl; set_solver).
    unfold lookup_cwd_spec in Hv. apply list_elem_of_join in Hv as (w & _ & Hw).
    apply list_elem_of_fmap in Hw as (m & -> & Hm). apply list_elem_of_filter in Hm as [[??] ?].
    apply CwdCommands_spec. eauto.
  - intros (m & Hm & Hhit & Hcmd)%CwdCommands_spec HF. unfold MappedCwd.
    rewrite Nat.ltb_lt, LookupCwd_spec. rewrite Forall_forall in HF. specialize (HF m Hm).
    destruct (Vars m) as [|v vs] eqn:Hv; [done|].
    assert (Hin : v ∈ lookup_cwd_spec ms pwd cmd).
    { unfold lookup_cwd_spec. apply list_elem_of_join. exists (Vars m). split; [rewrite Hv; set_solver|].
      apply list_elem_of_fmap. exists m. split; [done|]. by apply list_elem_of_filter. }
    destruct (lookup_cwd_spec ms pwd cmd); [set_solver|simpl; lia].
Qed.

(** ** Match anchors *)

Section Anchors.
Context `{MapRange}.

(** Documented matching of literal characters: a character that is no
    wildcard stands for itself, also when escaped; the one exception is a
    slash in front of a two-star component, which may match zero segments. *)
Hypothesis ds_plain : forall c rest s,
  is_meta c = false -> c <> BSLASH -> ds_match (String c rest) s = Some true ->
  (exists s', s = String c s' /\ ds_match rest s' = Some true)
  \/ (c = SLASH /\ has_prefix rest "**" = true /\ s = EmptyString).
Hypothesis ds_escape : forall c rest s,
  ds_match (String BSLASH (String c rest)) s = Some true ->
  exists s', s = String c s' /\ ds_match rest s' = Some true.
Hypothesis ds_trailing : forall s, ds_match (str1 BSLASH) s <> Some true.

Lemma literalPrefix_meta c p : is_meta c = true -> literalPrefix (String c p) = EmptyString.
Proof.
  intros Hc. simpl. rewrite Hc. destruct p as [|d p]; [done|].
  destruct (Ascii.eqb_spec c BSLASH) as [->|]; done.
Qed.

Lemma literalPrefix_necessary pattern s :
  ds_match pattern s = Some true ->
  has_prefix s (literalPrefix pattern) = true \/ literalPrefix pattern = s +:+ "/".
Proof.
  revert s. induction pattern as [pattern IH] using (induction_ltof1 _ String.length).
  unfold ltof in IH. intros s Hm. destruct pattern as [|c p]; [left; apply has_prefix_nil|].
  destruct (is_meta c) eqn:Hc; [left; rewrite literalPrefix_meta by done; apply has_prefix_nil|].
  destruct (Ascii.eqb_spec c BSLASH) as [->|Hb].
  - destruct p as [|d p]; [by apply ds_trailing in Hm|].
    apply ds_escape in Hm as (s' & -> & Hm). simpl literalPrefix.
    destruct (IH p ltac:(simpl; lia) s' Hm) as [Hp|Hp].
    + left. simpl. by rewrite Ascii.eqb_refl.
    + right. by rewrite Hp.
  - assert (Hlp : literalPrefix (String c p) = String c (literalPrefix p)).
    { simpl. rewrite Hc. apply Ascii.eqb_neq in Hb. rewrite Hb. by destruct p. }
    rewrite Hlp. destruct (ds_plain c p s Hc Hb Hm) as [(s' & -> & Hm')|(-> & Hp & ->)].
    + destruct (IH p ltac:(simpl; lia) s' Hm') as [Hp|Hp].
      * left. simpl. by rewrite Ascii.eqb_refl.
      * right. by rewrite Hp.
    + right. destruct p as [|d p]; [done|]. simpl in Hp. bools.
      apply Ascii.eqb_eq in H0 as <-. by rewrite literalPrefix_meta.
Qed.

(**  The hook's fork-free filter is conservative: under the documented
    meaning of literal characters, every mapped path is an exact anchor or
    starts with a prefix anchor -- except that a glob ending in a two-star
    component also maps the directory in front of it, whose path is the anchor
    without its final slash.  The anchor lists are sorted, hence the same for
    every order in which Go ranges over the index. *)
Theorem Anchors_conservative ms p :
  Mapped (NewIndex ms) p = true ->
  p ∈ (Anchors (NewIndex ms)).1
  \/ exists q, q ∈ (Anchors (NewIndex ms)).2 /\ (has_prefix p q = true \/ q = p +:+ "/").
Proof.
  unfold Mapped, Anchors, sort_strings, ToSlash. cbn [fst snd]. intros Hm.
  destruct (exact (NewIndex ms) !! p) as [vs|] eqn:He.
  - left. rewrite merge_sort_Permutation. apply list_elem_of_fmap. exists (p, vs).
    split; [done|]. by apply elem_of_map_range.
  - right. apply existsb_exists in Hm as (g & Hg & Hmatch). apply list_elem_of_In in Hg.
    exists (literalPrefix (gpattern g)). split.
    + rewrite merge_sort_Permutation. apply dedup_spec. split; [|set_solver].
      apply list_elem_of_fmap. by exists g.
    + apply literalPrefix_necessary. unfold matches in Hmatch.
      by destruct (ds_match (gpattern g) p) as [[]|].
Qed.
End Anchors.

Lemma Anchors_order_independent (R1 R2 : MapRange) idx : @Anchors R1 idx = @Anchors R2 idx.
Proof.
  unfold Anchors, sort_strings. f_equal.
  apply (Sorted_unique String.le); [apply Sorted_merge_sort, _|apply Sorted_merge_sort, _|].
  rewrite !merge_sort_Permutation. apply fmap_Permutation.
  by rewrite !map_range_perm.
Qed.
End Index.

(** ** A concrete matcher

    Literals, escapes and a final two-star component: enough of the documented
    syntax to instantiate the matcher's hypotheses. *)

Fixpoint lit_match (pattern s : string) : bool :=
  match pattern with
  | EmptyString => str_empty s
  | String c p' =>
      if bool_decide (pattern = "**") then true
      else if Ascii.eqb c BSLASH then
        match p', s with
        | String d p'', String e s' => Ascii.eqb d e && lit_match p'' s'
        | _, _ => false
        end
      else if is_meta c then false
      else if Ascii.eqb c SLASH && bool_decide (p' = "**") then str_empty s || has_prefix s "/"
      else match s with
           | String e s' => Ascii.eqb c e && lit_match p' s'
           | EmptyString => false
           end
  end.

Definition lit_ds (pattern s : string) : option bool := Some (lit_match pattern s).

Lemma lit_ds_plain c rest s :
  is_meta c = false -> c <> BSLASH -> lit_ds (String c rest) s = Some true ->
  (exists s', s = String c s' /\ lit_ds rest s' = Some true)
  \/ (c = SLASH /\ has_prefix rest "**" = true /\ s = EmptyString).
Proof.
  unfold lit_ds. intros Hc Hb%Ascii.eqb_neq [= Hm]. cbn [lit_match] in Hm. rewrite Hb, Hc in Hm.
  case_bool_decide as Hss; [simplify_eq; done|].
  destruct (Ascii.eqb c SLASH && bool_decide (rest = "**")) eqn:Hr.
  - bools. subst rest. apply Ascii.eqb_eq in H as ->. destruct s as [|e s]; [by right|]. left.
    simpl in Hm. rewrite has_prefix_nil, andb_true_r in Hm. apply Ascii.eqb_eq in Hm as <-. by exists s.
  - destruct s as [|e s]; [done|]. bools. apply Ascii.eqb_eq in H as ->. left. exists s. by rewrite H0.
Qed.

Lemma lit_ds_escape c rest s :
  lit_ds (String BSLASH (String c rest)) s = Some true ->
  exists s', s = String c s' /\ lit_ds rest s' = Some true.
Proof.
  unfold lit_ds. intros [= Hm]. destruct s as [|e s]; [done|].
  change (Ascii.eqb c e && lit_match rest s = true) in Hm. bools. apply Ascii.eqb_eq in H as ->.
  exists s. by rewrite H0.
Qed.

Lemma lit_ds_trailing s : lit_ds (str1 BSLASH) s <> Some true.
Proof. by destruct s. Qed.

Definition tool_glob : Mapping := mkMapping "" "/opt/tool/**" "" [] [mkVar "A" "local" "b" "k" ∅ ""].

#[local] Existing Instance map_range_default.

Lemma Anchors_conservative_witness :
  Mapped lit_ds (NewIndex None None [tool_glob]) "/opt/tool/bin/x" = true
  /\ ("/opt/tool/bin/x" ∈ (Anchors (NewIndex None None [tool_glob])).1
      \/ exists q, q ∈ (Anchors (NewIndex None None [tool_glob])).2
                   /\ (has_prefix "/opt/tool/bin/x" q = true \/ q = "/opt/tool/bin/x" +:+ "/")).
Proof.
  split; [vm_compute; reflexivity|].
  apply (Anchors_conservative lit_ds None None lit_ds_plain lit_ds_escape lit_ds_trailing).
  vm_compute. reflexivity.
Defined.

(** The exception is real: the directory a two-star glob maps is neither an
    exact anchor nor under a prefix anchor, so the hook never asks about it. *)
Lemma Anchors_miss_root :
  Mapped lit_ds (NewIndex None None [tool_glob]) "/opt/tool" = true
  /\ Anchors (NewIndex None None [tool_glob]) = ([], ["/opt/tool/"])
  /\ has_prefix "/opt/tool" "/opt/tool/" = false.
Proof. vm_compute. auto. Qed.

Lemma matchAncestor_abs_witness :
  Forall plain_elem ["work"; "acme"; "api"]
  /\ (matchAncestor lit_ds "/work/acme" (abs_path ["work"; "acme"; "api"]) = true <->
      exists k, k `prefix_of` ["work"; "acme"; "api"] /\ matches lit_ds "/work/acme" (abs_path k) = true).
Proof.
  assert (HF : Forall plain_elem ["work"; "acme"; "api"]) by (repeat constructor; done).
  split; [exact HF|]. exact (matchAncestor_abs lit_ds "/work/acme" _ HF).
Defined.

End Mapping.
