(* ===== verification/Base64.v ===== *)
(** * Standard base64

    [base64.StdEncoding] as the envelopes use it: padded encoding, and the
    decoder of the Go library, which skips CR and LF and ignores the spare low
    bits of a padded final group. *)

From S2P Require Import Prelude GoString.

Module Base64.

Definition alphabet : string := "ABCDEFGHIJKLMNOPQRSTUVWXYZabcdefghijklmnopqrstuvwxyz0123456789+/".

Definition enc_char (n : N) : ascii := default "A"%char (String.get (N.to_nat n) alphabet).

Definition dec_char (c : ascii) : option N := N.of_nat <$> index_byte alphabet c.

Definition byteN (c : ascii) : N := Ascii.N_of_ascii c.
Definition charN (n : N) : ascii := Ascii.ascii_of_N n.

Definition PAD : ascii := "="%char.

Fixpoint encode (s : string) : string :=
  match s with
  | EmptyString => EmptyString
  | String x EmptyString =>
      let a := byteN x in
      String (enc_char (a / 4)) (String (enc_char (a mod 4 * 16)) (String PAD (str1 PAD)))
  | String x (String y EmptyString) =>
      let a := byteN x in let b := byteN y in
      String (enc_char (a / 4)) (String (enc_char (a mod 4 * 16 + b / 16))
        (String (enc_char (b mod 16 * 4)) (str1 PAD)))
  | String x (String y (String z rest)) =>
      let a := byteN x in let b := byteN y in let c := byteN z in
      String (enc_char (a / 4)) (String (enc_char (a mod 4 * 16 + b / 16))
        (String (enc_char (b mod 16 * 4 + c / 64)) (String (enc_char (c mod 64)) (encode rest))))
  end.

Fixpoint skip_newlines (s : string) : string :=
  match s with
  | EmptyString => EmptyString
  | String c s' =>
      if Ascii.eqb c CR || Ascii.eqb c LF then skip_newlines s' else String c (skip_newlines s')
  end.

(** Groups of four; padding only in the last one. *)
Fixpoint decode_groups (s : string) : option string :=
  match s with
  | EmptyString => Some EmptyString
  | String w (String x (String y (String z rest))) =>
      a ← dec_char w; b ← dec_char x;
      let o1 := charN (a * 4 + b / 16) in
      if Ascii.eqb y PAD then
        if Ascii.eqb z PAD && str_empty rest then Some (str1 o1) else None
      else
        c ← dec_char y;
        let o2 := charN (b mod 16 * 16 + c / 4) in
        if Ascii.eqb z PAD then
          if str_empty rest then Some (String o1 (str1 o2)) else None
        else
          d ← dec_char z;
          (fun t => String o1 (String o2 (String (charN (c mod 4 * 64 + d)) t))) <$> decode_groups rest
  | _ => None
  end.

Definition decode (s : string) : option string := decode_groups (skip_newlines s).

Example encode_ex : encode "hello" = "aGVsbG8=" /\ decode "aGVs
bG8=" = Some "hello" /\ decode "aGVsbG8" = None.
Proof. vm_compute. auto. Qed.

(** ** Round trip *)

#[local] Ltac Zify.zify_post_hook ::= Z.div_mod_to_equations.

(** [lia] with the remainders of [N] written out. *)
Ltac nlia := rewrite ?N.Div0.mod_eq in *; lia.

Definition sextets : list N := N.of_nat <$> seq 0 64.

Lemma sextet_check :
  forallb (fun n => bool_decide (dec_char (enc_char n) = Some n) && negb (Ascii.eqb (enc_char n) PAD)
                    && negb (Ascii.eqb (enc_char n) CR || Ascii.eqb (enc_char n) LF)) sextets = true.
Proof. vm_compute. reflexivity. Qed.

Lemma sextet_ok n :
  (n < 64)%N ->
  dec_char (enc_char n) = Some n /\ Ascii.eqb (enc_char n) PAD = false
  /\ Ascii.eqb (enc_char n) CR || Ascii.eqb (enc_char n) LF = false.
Proof.
  intros Hn. assert (Hin : n ∈ sextets).
  { apply list_elem_of_fmap. exists (N.to_nat n). split; [lia|]. apply elem_of_seq. lia. }
  apply list_elem_of_In in Hin. pose proof (proj1 (forallb_forall _ _) sextet_check n Hin) as Hc.
  cbv beta in Hc. bools. split; [done|]. split; [done|]. by apply orb_false_iff.
Qed.

Lemma byteN_lt x : (byteN x < 256)%N.
Proof. apply Ascii.N_ascii_bounded. Qed.

Lemma charN_byteN x : charN (byteN x) = x.
Proof. apply Ascii.ascii_N_embedding. Qed.

Lemma skip_newlines_sextet n s : (n < 64)%N -> skip_newlines (String (enc_char n) s) = String (enc_char n) (skip_newlines s).
Proof. intros Hn. simpl. destruct (sextet_ok n Hn) as (_ & _ & ->). done. Qed.

Lemma skip_newlines_pad s : skip_newlines (String PAD s) = String PAD (skip_newlines s).
Proof. done. Qed.

(** Strong induction over three bytes at a time. *)
Lemma string_ind3 (P : string -> Prop) :
  P EmptyString -> (forall x, P (str1 x)) -> (forall x y, P (String x (str1 y))) ->
  (forall x y z s, P s -> P (String x (String y (String z s)))) -> forall s, P s.
Proof.
  intros H0 H1 H2 H3. fix IH 1. intros [|x [|y [|z s]]]; [done|apply H1|apply H2|]. apply H3, IH.
Qed.

Lemma encode_no_newline s : skip_newlines (encode s) = encode s.
Proof.
  induction s as [|x|x y|x y z s IH] using string_ind3; [done|..]; unfold str1; cbn [encode];
    pose proof (byteN_lt x); try pose proof (byteN_lt y); try pose proof (byteN_lt z);
    unfold str1; repeat first [rewrite skip_newlines_sextet by nlia | rewrite skip_newlines_pad].
  - done.
  - done.
  - by rewrite IH.
Qed.

Lemma byte_pieces1 a : (a < 256 -> a / 4 * 4 + a mod 4 * 16 / 16 = a)%N.
Proof. intros. nlia. Qed.

Lemma byte_pieces1' a b :
  (a < 256 -> b < 256 -> a / 4 * 4 + (a mod 4 * 16 + b / 16) / 16 = a)%N.
Proof. intros. nlia. Qed.

Lemma byte_pieces2 a b :
  (a < 256 -> b < 256 -> (a mod 4 * 16 + b / 16) mod 16 * 16 + b mod 16 * 4 / 4 = b)%N.
Proof. intros. nlia. Qed.

Lemma byte_pieces2' a b c :
  (a < 256 -> b < 256 -> c < 256 ->
   (a mod 4 * 16 + b / 16) mod 16 * 16 + (b mod 16 * 4 + c / 64) / 4 = b)%N.
Proof. intros. nlia. Qed.

Lemma byte_pieces3 b c :
  (b < 256 -> c < 256 -> (b mod 16 * 4 + c / 64) mod 4 * 64 + c mod 64 = c)%N.
Proof. intros. nlia. Qed.

Lemma decode_groups_encode s : decode_groups (encode s) = Some s.
Proof.
  induction s as [|x|x y|x y z s IH] using string_ind3; [done|..]; unfold str1; cbn [encode decode_groups].
  - pose proof (byteN_lt x). destruct (sextet_ok (byteN x / 4)%N ltac:(nlia)) as (-> & _ & _).
    destruct (sextet_ok (byteN x mod 4 * 16)%N ltac:(nlia)) as (-> & _ & _).
    cbn [mbind option_bind]. rewrite byte_pieces1, charN_byteN by done. done.
  - pose proof (byteN_lt x). pose proof (byteN_lt y).
    destruct (sextet_ok (byteN x / 4)%N ltac:(nlia)) as (-> & _ & _).
    destruct (sextet_ok (byteN x mod 4 * 16 + byteN y / 16)%N ltac:(nlia)) as (-> & _ & _).
    destruct (sextet_ok (byteN y mod 16 * 4)%N ltac:(nlia)) as (-> & -> & _).
    cbn [mbind option_bind]. rewrite byte_pieces1', byte_pieces2, !charN_byteN by done. done.
  - pose proof (byteN_lt x). pose proof (byteN_lt y). pose proof (byteN_lt z).
    destruct (sextet_ok (byteN x / 4)%N ltac:(nlia)) as (-> & _ & _).
    destruct (sextet_ok (byteN x mod 4 * 16 + byteN y / 16)%N ltac:(nlia)) as (-> & _ & _).
    destruct (sextet_ok (byteN y mod 16 * 4 + byteN z / 64)%N ltac:(nlia)) as (-> & -> & _).
    destruct (sextet_ok (byteN z mod 64)%N ltac:(nlia)) as (-> & -> & _).
    cbn [mbind option_bind].
    rewrite byte_pieces1', byte_pieces2', byte_pieces3, !charN_byteN, IH by done. done.
Qed.

(** Decoding an encoding gives the bytes back. *)
Lemma decode_encode s : decode (encode s) = Some s.
Proof. unfold decode. by rewrite encode_no_newline, decode_groups_encode. Qed.

End Base64.
