(* ===== verification/Crypto.v ===== *)
(** * Sealed fields (src/internal/crypto/aead.go, envelope.go, kdf.go)

    XChaCha20-Poly1305 and Argon2id (golang.org/x/crypto) are interfaces with
    the laws their documentation promises.  [rand.Read] is a stream of answers:
    [rand_read i n] is what the i-th call of a run returns for n bytes, [None]
    an error; code that draws randomness threads the call counter. *)

From S2P Require Import Prelude GoString Base64 ConfigModel.
Import Config.

Module Crypto.

(** ** Randomness and errors *)

Class Rand := rand_read : nat -> nat -> option string.

(** A computation that draws random bytes and may fail. *)
Definition R (E A : Type) : Type := nat -> res E (A * nat).

#[export] Instance R_ret E : MRet (R E) := fun A a n => Ok (a, n).
#[export] Instance R_bind E : MBind (R E) := fun A B f m n =>
  match m n with Ok (a, n') => f a n' | Err e => Err e end.

Definition R_err {E A} (e : E) : R E A := fun _ => Err e.
Definition R_lift {E A} (r : res E A) : R E A := fun n =>
  match r with Ok a => Ok (a, n) | Err e => Err e end.

Fixpoint R_fold {E A B} (f : B -> A -> R E B) (b : B) (l : list A) : R E B :=
  match l with
  | [] => mret b
  | a :: l' => b' ← f b a; R_fold f b' l'
  end.

Inductive CErr :=
| BadKeyLen (n : nat)
| RandFailed
| EmptyAD
| NotEnvelope
| BadBase64
| TooShort
| AuthFailed
| EmptyCtx
| AADPanic
| At (path : string) (e : CErr).

(** ** The ciphers *)

Definition KeyLen : nat := 32.
Definition SaltLen : nat := 16.
Definition NonceSize : nat := 24.
Definition Overhead : nat := 16.

Class AEAD := {
  aead_seal : string -> string -> string -> string -> string;   (* key nonce plaintext ad *)
  aead_open : string -> string -> string -> string -> option string
}.

(** What the cipher's documentation promises: opening what was sealed gives the
    plaintext, a ciphertext carries at least the tag, and it opens under no
    other associated data. *)
Class AEADLaws `{AEAD} : Prop := {
  aead_open_seal : forall k n pt ad, aead_open k n (aead_seal k n pt ad) ad = Some pt;
  aead_seal_length : forall k n pt ad, (Overhead <= String.length (aead_seal k n pt ad))%nat;
  aead_binds_ad : forall k n pt ad ad' pt',
      aead_open k n (aead_seal k n pt ad) ad' = Some pt' -> ad' = ad
}.

Class RandLaws `{Rand} : Prop := {
  rand_length : forall i n s, rand_read i n = Some s -> String.length s = n
}.

Definition rand_bytes `{Rand} (n : nat) : R CErr string := fun i =>
  match rand_read i n with Some s => Ok (s, S i) | None => Err RandFailed end.

(** ** Envelopes *)

Definition EnvelopePrefix : string := "enc:v2:".
Definition EnvelopeLegacyV1Prefix : string := "enc:v1:".

Definition IsEnvelope (s : string) : bool :=
  has_prefix s EnvelopePrefix || has_prefix s EnvelopeLegacyV1Prefix.

(** [None] is the panic on an empty part. *)
Definition AAD (parts : list string) : option string :=
  if bool_decide (parts = []) || existsb str_empty parts then None else Some (join "." parts).

Section Envelope.
Context `{AEAD, Rand}.

Definition Seal (key plaintext ad : string) : R CErr string :=
  if negb (String.length key =? KeyLen)%nat then R_err (BadKeyLen (String.length key))
  else nonce ← rand_bytes NonceSize; mret (nonce +:+ aead_seal key nonce plaintext ad).

Definition Open (key blob ad : string) : res CErr string :=
  if negb (String.length key =? KeyLen)%nat then Err (BadKeyLen (String.length key))
  else if (String.length blob <? NonceSize + Overhead)%nat then Err TooShort
  else match aead_open key (str_take NonceSize blob) (str_drop NonceSize blob) ad with
       | Some pt => Ok pt
       | None => Err AuthFailed
       end.

Definition EncryptField (key plaintext ad : string) : R CErr string :=
  if str_empty ad then R_err EmptyAD
  else blob ← Seal key plaintext ad; mret (EnvelopePrefix +:+ Base64.encode blob).

(** EncryptFieldBytes differs from EncryptField in the Go type only. *)
Definition EncryptFieldBytes (key plaintext ad : string) : R CErr string :=
  if str_empty ad then R_err EmptyAD
  else blob ← Seal key plaintext ad; mret (EnvelopePrefix +:+ Base64.encode blob).

Definition DecryptField (key env ad : string) : res CErr string :=
  if has_prefix env EnvelopePrefix then
    if str_empty ad then Err EmptyAD
    else match Base64.decode (trim_prefix env EnvelopePrefix) with
         | None => Err BadBase64
         | Some blob => Open key blob ad
         end
  else if has_prefix env EnvelopeLegacyV1Prefix then
    match Base64.decode (trim_prefix env EnvelopeLegacyV1Prefix) with
    | None => Err BadBase64
    | Some blob => Open key blob EmptyString
    end
  else Err NotEnvelope.

Definition DecryptFieldBytes (key env ad : string) : res CErr string :=
  if has_prefix env EnvelopePrefix then
    if str_empty ad then Err EmptyAD
    else match Base64.decode (trim_prefix env EnvelopePrefix) with
         | None => Err BadBase64
         | Some blob => Open key blob ad
         end
  else if has_prefix env EnvelopeLegacyV1Prefix then
    match Base64.decode (trim_prefix env EnvelopeLegacyV1Prefix) with
    | None => Err BadBase64
    | Some blob => Open key blob EmptyString
    end
  else Err NotEnvelope.

(** The elements of a list value: strings only, under "ctx[i]". *)
Definition decrypt_item (key ctx : string) (i : nat) (item : any) : res CErr any :=
  match item with
  | AStr s =>
      if IsEnvelope s then
        let path := ctx +:+ "[" +:+ itoa (N.of_nat i) +:+ "]" in
        wrap_err (At path) (AStr <$> DecryptField key s path)
      else Ok item
  | _ => Ok item
  end.

Fixpoint decrypt_items (key ctx : string) (i : nat) (l : list any) : res CErr (list any) :=
  match l with
  | [] => Ok []
  | x :: l' => y ← decrypt_item key ctx i x; ys ← decrypt_items key ctx (S i) l'; Ok (y :: ys)
  end.

(** One value whose own context is [ctx]; a nested table recurses. *)
Fixpoint decrypt_any (key ctx : string) (v : any) : res CErr any :=
  match v with
  | AStr s =>
      if IsEnvelope s then wrap_err (At ctx) (AStr <$> DecryptField key s ctx) else Ok v
  | AMap m =>
      AMap <$> (fix go (m : list (string * any)) : res CErr (list (string * any)) :=
        match m with
        | [] => Ok []
        | (k, x) :: m' =>
            y ← decrypt_any key (ctx +:+ "." +:+ k) x; m'' ← go m'; Ok ((k, y) :: m'')
        end) m
  | AList l => AList <$> decrypt_items key ctx 0 l
  | _ => Ok v
  end.

Definition DecryptStringsInPlace `{MapRange} (key : string) (m : gmap string any) (ctx : string)
    : res CErr (gmap string any) :=
  if str_empty ctx then Err EmptyCtx
  else res_fold (fun acc kv => v ← decrypt_any key (ctx +:+ "." +:+ kv.1) kv.2; Ok (<[kv.1 := v]> acc))
                m (map_range 1 m).

(** ** Proofs *)

Lemma R_bind_ok {E A B} (m : R E A) (f : A -> R E B) n b n' :
  (m ≫= f) n = Ok (b, n') <-> exists a n1, m n = Ok (a, n1) /\ f a n1 = Ok (b, n').
Proof.
  unfold mbind, R_bind. destruct (m n) as [[a n1]|e]; split; try done.
  - intros ?. by exists a, n1.
  - by intros (? & ? & [= <- <-] & ?).
  - by intros (? & ? & ? & ?).
Qed.

Lemma Seal_inv key pt ad n blob n' :
  Seal key pt ad n = Ok (blob, n') ->
  String.length key = KeyLen /\ exists nonce, rand_read n NonceSize = Some nonce
    /\ blob = nonce +:+ aead_seal key nonce pt ad /\ n' = S n.
Proof.
  unfold Seal. destruct (Nat.eqb_spec (String.length key) KeyLen) as [Hk|]; simpl; [|done].
  intros (nonce & n1 & Hr & Hb)%R_bind_ok. unfold rand_bytes in Hr.
  destruct (rand_read n NonceSize) as [s|]; [|done]. simplify_eq. inversion Hb; subst.
  split; [done|]. by exists nonce.
Qed.

Lemma Seal_total key pt ad n nonce :
  String.length key = KeyLen -> rand_read n NonceSize = Some nonce ->
  Seal key pt ad n = Ok (nonce +:+ aead_seal key nonce pt ad, S n).
Proof.
  intros Hk Hr. unfold Seal. rewrite Hk. simpl. unfold mbind, R_bind, rand_bytes. by rewrite Hr.
Qed.

Context {Laws : AEADLaws} {RLaws : RandLaws}.

Lemma Open_Seal key pt ad n blob n' ad' :
  Seal key pt ad n = Ok (blob, n') ->
  (ad' = ad -> Open key blob ad' = Ok pt) /\ (forall pt', Open key blob ad' = Ok pt' -> ad' = ad).
Proof.
  intros (Hk & nonce & Hr & -> & _)%Seal_inv. pose proof (rand_length _ _ _ Hr) as Hn.
  unfold Open. rewrite Hk. cbn [Nat.eqb negb KeyLen].
  assert (Hl : (String.length (nonce +:+ aead_seal key nonce pt ad) <? NonceSize + Overhead)%nat = false).
  { apply Nat.ltb_ge. rewrite str_length_app, Hn. pose proof (aead_seal_length key nonce pt ad). lia. }
  rewrite Hl. simpl negb. cbv iota.
  pose proof (str_take_app nonce (aead_seal key nonce pt ad)) as Ht.
  pose proof (str_drop_app nonce (aead_seal key nonce pt ad)) as Hd.
  rewrite Hn in Ht, Hd. rewrite Ht, Hd. split.
  - intros ->. by rewrite aead_open_seal.
  - intros pt'. destruct (aead_open key nonce _ ad') as [p|] eqn:Ho; [|done].
    intros _. by eapply aead_binds_ad.
Qed.

Lemma EncryptField_inv key pt ad n env n' :
  EncryptField key pt ad n = Ok (env, n') ->
  ad <> "" /\ exists blob, Seal key pt ad n = Ok (blob, n') /\ env = EnvelopePrefix +:+ Base64.encode blob.
Proof.
  unfold EncryptField. str_cases ad; [done|].
  intros (blob & n1 & Hs & Hm)%R_bind_ok. inversion Hm; subst. split; [done|]. by exists blob.
Qed.

Lemma DecryptField_v2 key blob ad :
  DecryptField key (EnvelopePrefix +:+ Base64.encode blob) ad =
  if str_empty ad then Err EmptyAD else Open key blob ad.
Proof.
  unfold DecryptField. by rewrite has_prefix_app, trim_prefix_app, Base64.decode_encode.
Qed.

(**  A sealed field is an envelope, opens to its plaintext under the key and
    the slot it was sealed for, and opens under no other slot. *)
Theorem EncryptField_roundtrip key pt ad n env n' :
  EncryptField key pt ad n = Ok (env, n') ->
  IsEnvelope env = true
  /\ DecryptField key env ad = Ok pt
  /\ forall ad' pt', DecryptField key env ad' = Ok pt' -> ad' = ad.
Proof.
  intros (Hne & blob & Hs & ->)%EncryptField_inv. split; [|split].
  - unfold IsEnvelope. by rewrite has_prefix_app.
  - rewrite DecryptField_v2. apply str_empty_false in Hne. rewrite Hne.
    by apply (Open_Seal key pt ad n blob n' ad Hs).
  - intros ad' pt'. rewrite DecryptField_v2. str_cases ad'; [done|]. intros Ho.
    by apply (Open_Seal key pt ad n blob n' ad' Hs) in Ho.
Qed.

Lemma EncryptField_total key pt ad n nonce :
  String.length key = KeyLen -> ad <> "" -> rand_read n NonceSize = Some nonce ->
  exists env, EncryptField key pt ad n = Ok (env, S n).
Proof.
  intros Hk Had Hr. unfold EncryptField. apply str_empty_false in Had. rewrite Had.
  unfold mbind, R_bind. rewrite (Seal_total _ _ _ _ nonce) by done. by eexists.
Qed.
End Envelope.

(** ** A concrete cipher

    Satisfies the interface, for the witnesses: the ciphertext carries the
    associated data and the key next to the plaintext, in full. *)

Fixpoint pad (n : nat) : string := match n with O => EmptyString | S n' => String "0"%char (pad n') end.

Definition toy_seal (k n pt ad : string) : string :=
  pad 16 +:+ itoa (N.of_nat (String.length ad)) +:+ ":" +:+ ad +:+ k +:+ pt.

Definition toy_open (k n ct ad : string) : option string :=
  let p := pad 16 +:+ itoa (N.of_nat (String.length ad)) +:+ ":" +:+ ad +:+ k in
  if has_prefix ct p then Some (str_drop (String.length p) ct) else None.

Definition toy_aead : AEAD := {| aead_seal := toy_seal; aead_open := toy_open |}.

#[export] Instance toy_laws : @AEADLaws toy_aead.
Proof.
  constructor; cbn [aead_seal aead_open toy_aead]; unfold toy_seal, toy_open.
  - intros k n pt ad.
    replace (pad 16 +:+ itoa (N.of_nat (String.length ad)) +:+ ":" +:+ ad +:+ k +:+ pt)
      with ((pad 16 +:+ itoa (N.of_nat (String.length ad)) +:+ ":" +:+ ad +:+ k) +:+ pt) by (by rewrite !str_app_assoc).
    by rewrite has_prefix_app, str_drop_app.
  - intros. rewrite !str_length_app. unfold Overhead. simpl. lia.
  - intros k n pt ad ad' pt'. destruct (has_prefix _ _) eqn:Hp; [|done]. intros _.
    apply has_prefix_spec in Hp as [t Ht]. rewrite <- !str_app_assoc in Ht.
    apply str_app_inj_l in Ht.
    assert (Hdig : forall m, contains_byte (itoa m) ":" = false).
    { intros m. eapply forall_bytes_not_contains; [apply itoa_digits|done]. }
    apply (app_sep_inj ":"%char) in Ht as [Hlen Hrest]; [|apply Hdig|apply Hdig].
    apply itoa_inj in Hlen. apply str_app_inv_len in Hrest as [-> _]; [done|lia].
Qed.

(** Random bytes that never repeat within a run, for the witnesses. *)
Fixpoint counter_bytes (i n : nat) : string :=
  match n with
  | O => EmptyString
  | S n' => String (byte_of (i mod 256)) (counter_bytes (i / 256) n')
  end.

Definition toy_rand : Rand := fun i n => Some (counter_bytes i n).

#[export] Instance toy_rand_laws : @RandLaws toy_rand.
Proof.
  constructor. unfold rand_read, toy_rand. intros i n s [= <-].
  revert i. induction n as [|n IH]; intros i; simpl; [done|]. by rewrite IH.
Qed.

Definition toy_key : string := pad 32.

Lemma EncryptField_roundtrip_witness :
  exists env n', @EncryptField toy_aead toy_rand toy_key "s3cret" "secret.b_0a1b2c.k_000001" 7 = Ok (env, n')
  /\ IsEnvelope env = true
  /\ @DecryptField toy_aead toy_key env "secret.b_0a1b2c.k_000001" = Ok "s3cret"
  /\ forall ad' pt', @DecryptField toy_aead toy_key env ad' = Ok pt' -> ad' = "secret.b_0a1b2c.k_000001".
Proof.
  eexists _, _. split; [vm_compute; reflexivity|].
  eapply (@EncryptField_roundtrip toy_aead toy_rand toy_laws toy_rand_laws).
  instantiate (1 := 8%nat). instantiate (1 := 7%nat). vm_compute. reflexivity.
Defined.

End Crypto.
