(* ===== verification/NameId.v ===== *)
(** * Opaque identifiers (src/internal/config/nameid.go, AAD builders of edit.go)

    Random s_/b_/k_ identifiers, the sealed dictionary that maps them back to
    names, the migration trigger, and the associated-data strings that bind
    every sealed value to its slot. *)

From S2P Require Import Prelude GoString ConfigModel Crypto.
Import Config Crypto.

Module NameId.

Definition idPrefixSource : string := "s_".
Definition idPrefixBag : string := "b_".
Definition idPrefixKey : string := "k_".
Definition idHexLen : nat := 6.

Inductive IErr :=
| ICrypto (e : CErr)
| MintRand
| MintExhausted (prefix : string)
| BadJson.

Definition isID (s prefix : string) : bool :=
  if negb (has_prefix s prefix) then false
  else
    let rest := str_drop (String.length prefix) s in
    if negb (String.length rest =? idHexLen)%nat then false
    else forall_bytes is_hex_lower rest.

Definition IsSourceID (s : string) : bool := isID s idPrefixSource.
Definition IsBagID (s : string) : bool := isID s idPrefixBag.
Definition IsKeyID (s : string) : bool := isID s idPrefixKey.

(** hex.EncodeToString *)
Definition hex_digit (n : nat) : ascii := default "0"%char (String.get n "0123456789abcdef").

Fixpoint hex (s : string) : string :=
  match s with
  | EmptyString => EmptyString
  | String c s' =>
      String (hex_digit (byte_val c / 16)) (String (hex_digit (byte_val c mod 16)) (hex s'))
  end.

Section Mint.
Context `{Rand}.

(** The retry loop of newID: one draw of four bytes per attempt. *)
Fixpoint newID_loop (attempts : nat) (prefix : string) (taken : gset string) : R IErr string :=
  match attempts with
  | O => R_err (MintExhausted prefix)
  | S a => fun n =>
      match rand_read n (idHexLen / 2 + 1) with
      | None => Err MintRand
      | Some buf =>
          let id := prefix +:+ str_take idHexLen (hex buf) in
          if bool_decide (id ∈ taken) then newID_loop a prefix taken (S n) else Ok (id, S n)
      end
  end.

Definition newID (prefix : string) (taken : gset string) : R IErr string :=
  newID_loop 64 prefix taken.
End Mint.

(** Inversion of an ID-to-name map: the first ID met for a name is kept. *)
Definition invert (l : list (string * string)) : gmap string string :=
  fold_left (fun out kv => match out !! kv.2 with Some _ => out | None => <[kv.2 := kv.1]> out end) l ∅.

Definition nameToID `{MapRange} (site : nat) (idToName : gmap string string) : gmap string string :=
  invert (map_range site idToName).

Definition empty_names : NameMap := mkNameMap ∅ ∅ ∅.

(** encoding/json on the dictionary, as far as it is faithful ([codec_ok]: the
    names are valid UTF-8). *)
Class NameMapCodec := {
  marshal : NameMap -> string;
  unmarshal : string -> option NameMap;
  codec_ok : NameMap -> Prop
}.
Class NameMapCodecLaws `{NameMapCodec} : Prop := {
  unmarshal_marshal : forall nm, codec_ok nm -> unmarshal (marshal nm) = Some nm
}.

Definition nameMapAAD : string := "meta.name_map".
Definition metaVerifyAAD : string := "meta.verify".

Section Dictionary.
Context `{AEAD, Rand, NameMapCodec}.

Definition sealNameMap (key : string) (nm : NameMap) : R IErr string := fun n =>
  wrap_err ICrypto (EncryptField key (marshal nm) nameMapAAD n).

Definition openNameMap (key env : string) : res IErr NameMap :=
  if str_empty env then Ok empty_names
  else
    pt ← wrap_err ICrypto (DecryptField key env nameMapAAD);
    of_option BadJson (unmarshal pt).
End Dictionary.

Definition all_ids (c : Config) : bool :=
  forallb (fun kv => IsSourceID kv.1) (map_to_list (Sources c))
  && forallb (fun kv => IsBagID kv.1 && forallb (fun kv' => IsKeyID kv'.1) (map_to_list kv.2))
             (map_to_list (Secrets c)).

(** The order of the ranges does not matter to an all-quantified test. *)
Definition HasOpaqueIDShape (c : Config) : bool := all_ids c.
Definition NeedsIDMigration (c : Config) : bool := negb (HasOpaqueIDShape c).

(** ** Associated data of the slots *)

Definition SourceParamAAD (sourceID paramKey : string) : option string := AAD ["src"; sourceID; paramKey].
Definition SecretAAD (bagID keyID : string) : option string := AAD ["secret"; bagID; keyID].
Definition VarFieldAAD (i j : nat) (field : string) : option string :=
  AAD ["var"; itoa (N.of_nat i); itoa (N.of_nat j); field].
Definition VarExtraAAD (i j : nat) (key : string) : option string :=
  AAD ["var"; itoa (N.of_nat i); itoa (N.of_nat j); "extra"; key].

Inductive var_field := FName | FSource | FRef | FKey | FValue.

Definition field_name (f : var_field) : string :=
  match f with
  | FName => "name" | FSource => "source" | FRef => "ref" | FKey => "key" | FValue => "value"
  end.

Inductive slot :=
| SlotVerify
| SlotNameMap
| SlotParam (sid key : string)
| SlotSecret (bid kid : string)
| SlotVar (i j : nat) (f : var_field)
| SlotExtra (i j : nat) (key : string).

Definition slot_aad (s : slot) : option string :=
  match s with
  | SlotVerify => Some metaVerifyAAD
  | SlotNameMap => Some nameMapAAD
  | SlotParam sid k => SourceParamAAD sid k
  | SlotSecret b k => SecretAAD b k
  | SlotVar i j f => VarFieldAAD i j (field_name f)
  | SlotExtra i j k => VarExtraAAD i j k
  end.

(** The slots of an opaque-ID configuration. *)
Definition slot_ok (s : slot) : Prop :=
  match s with
  | SlotParam sid _ => IsSourceID sid = true
  | SlotSecret b k => IsBagID b = true /\ IsKeyID k = true
  | _ => True
  end.

(** ** Proofs *)

Definition dotless (s : string) : Prop := contains_byte s "." = false.

Lemma isID_dotless s p : isID s p = true -> dotless p -> dotless s.
Proof.
  unfold isID, dotless. destruct (has_prefix s p) eqn:Hp; [|done].
  apply has_prefix_spec in Hp as [t ->]. rewrite str_drop_app. cbn [negb].
  destruct (_ =? _)%nat; [|done]. cbn [negb]. intros Ht Hd. rewrite contains_byte_app, Hd.
  by eapply forall_bytes_not_contains.
Qed.

Lemma itoa_dotless n : dotless (itoa n).
Proof. eapply forall_bytes_not_contains; [apply itoa_digits|done]. Qed.

Lemma AAD_Some parts a : AAD parts = Some a -> a = join "." parts /\ parts <> [] /\ Forall (fun p => p <> "") parts.
Proof.
  unfold AAD. destruct (bool_decide (parts = []) || existsb str_empty parts) eqn:He; [done|].
  intros [= <-]. bools. split; [done|]. split; [done|]. apply Forall_forall. intros p Hp ->.
  assert (existsb str_empty parts = true) by (apply existsb_exists; exists ""; split; [by apply list_elem_of_In|done]).
  congruence.
Qed.

Lemma AAD_total parts : parts <> [] -> Forall (fun p => p <> "") parts -> AAD parts = Some (join "." parts).
Proof.
  intros Hne HF. unfold AAD. rewrite bool_decide_eq_false_2 by done.
  destruct (existsb str_empty parts) eqn:He; [|done]. apply existsb_exists in He as (p & Hp & Hpe).
  apply list_elem_of_In in Hp. rewrite Forall_forall in HF. by apply HF, str_empty_false in Hp; congruence.
Qed.

Lemma join_dot_inj a b l l' :
  dotless a -> dotless b -> l <> [] -> l' <> [] ->
  join "." (a :: l) = join "." (b :: l') -> a = b /\ join "." l = join "." l'.
Proof.
  intros Ha Hb Hl Hl'. rewrite !join_cons by done.
  change ("." +:+ ?r) with (String "." r). by apply app_sep_inj.
Qed.

Lemma join_dot_ne a b l : dotless a -> l <> [] -> join "." [a] <> join "." (b :: l).
Proof.
  intros Ha Hl. rewrite (join_cons "." b l) by done. cbn [join]. unfold dotless in Ha. intros ->.
  rewrite !contains_byte_app in Ha. bools. done.
Qed.

(** The parts of a slot's associated data; all but the last are dotless. *)
Definition slot_parts (s : slot) : list string :=
  match s with
  | SlotVerify => ["meta"; "verify"]
  | SlotNameMap => ["meta"; "name_map"]
  | SlotParam sid k => ["src"; sid; k]
  | SlotSecret b k => ["secret"; b; k]
  | SlotVar i j f => ["var"; itoa (N.of_nat i); itoa (N.of_nat j); field_name f]
  | SlotExtra i j k => ["var"; itoa (N.of_nat i); itoa (N.of_nat j); "extra"; k]
  end.

Lemma slot_aad_parts s a : slot_aad s = Some a -> a = join "." (slot_parts s).
Proof. destruct s; simpl; [by intros [= <-]|by intros [= <-]|..]; by intros [-> _]%AAD_Some. Qed.

Lemma field_dotless f : dotless (field_name f).
Proof. by destruct f. Qed.

Lemma itoa_nat_inj i j : itoa (N.of_nat i) = itoa (N.of_nat j) -> i = j.
Proof. intros ?%itoa_inj. lia. Qed.

(**  No two slots of an opaque-ID configuration share their associated data:
    dots in parameter or extra keys, and indices of any width, cannot make the
    contexts of two different slots collide, so a ciphertext moved to another
    slot is bound to the wrong context. *)
Theorem slot_aad_injective s t a :
  slot_ok s -> slot_ok t -> slot_aad s = Some a -> slot_aad t = Some a -> s = t.
Proof.
  intros Hs Ht Ha Hb. apply slot_aad_parts in Ha as ->. apply slot_aad_parts in Hb. revert Hb.
  pose proof itoa_dotless as Hi. pose proof field_dotless as Hf.
  destruct s as [| |sid k|b k|i j f|i j k], t as [| |sid' k'|b' k'|i' j' f'|i' j' k'];
    try done; cbn [slot_parts slot_ok] in *; intros Heq;
    try (apply join_dot_inj in Heq as [? Heq]; [|done..]; done).
  - apply join_dot_inj in Heq as [_ Heq]; [|done..].
    apply join_dot_inj in Heq as [-> ?]; [|by eapply isID_dotless|by eapply isID_dotless|done..].
    simpl in *. by subst.
  - destruct Hs as [Hb1 _], Ht as [Hb2 _].
    apply join_dot_inj in Heq as [_ Heq]; [|done..].
    apply join_dot_inj in Heq as [-> ?]; [|by eapply isID_dotless|by eapply isID_dotless|done..].
    simpl in *. by subst.
  - apply join_dot_inj in Heq as [_ Heq]; [|done..].
    apply join_dot_inj in Heq as [->%itoa_nat_inj Heq]; [|done..].
    apply join_dot_inj in Heq as [->%itoa_nat_inj Heq]; [|done..].
    simpl in Heq. by destruct f, f'.
  - apply join_dot_inj in Heq as [_ Heq]; [|done..].
    apply join_dot_inj in Heq as [_ Heq]; [|done..].
    apply join_dot_inj in Heq as [_ Heq]; [|done..]. by apply join_dot_ne in Heq.
  - apply join_dot_inj in Heq as [_ Heq]; [|done..].
    apply join_dot_inj in Heq as [_ Heq]; [|done..].
    apply join_dot_inj in Heq as [_ Heq]; [|done..]. symmetry in Heq. by apply join_dot_ne in Heq.
  - apply join_dot_inj in Heq as [_ Heq]; [|done..].
    apply join_dot_inj in Heq as [->%itoa_nat_inj Heq]; [|done..].
    apply join_dot_inj in Heq as [->%itoa_nat_inj Heq]; [|done..].
    apply join_dot_inj in Heq as [_ Heq]; [|done..]. simpl in Heq. by subst.
Qed.

Lemma slot_aad_injective_witness :
  IsSourceID "s_0a1b2c" = true /\ slot_aad (SlotParam "s_0a1b2c" "a.b") = Some "src.s_0a1b2c.a.b"
  /\ SlotParam "s_0a1b2c" "a.b" = SlotParam "s_0a1b2c" "a.b".
Proof.
  split; [reflexivity|]. split; [reflexivity|].
  apply (slot_aad_injective _ _ "src.s_0a1b2c.a.b"); reflexivity.
Defined.

(** ** Minting *)

Lemma hex_digit_ok n : (n < 16)%nat -> is_hex_lower (hex_digit n) = true.
Proof. intros Hn. do 16 (destruct n as [|n]; [done|]). lia. Qed.

Lemma hex_ok s : forall_bytes is_hex_lower (hex s) = true /\ String.length (hex s) = (2 * String.length s)%nat.
Proof.
  induction s as [|c s [IH1 IH2]]; [done|]. cbn [hex forall_bytes String.length].
  assert (Hc : (byte_val c < 256)%nat).
  { unfold byte_val, Ascii.nat_of_ascii. pose proof (Ascii.N_ascii_bounded c). lia. }
  rewrite !hex_digit_ok, IH1, IH2; [split; [done|lia]| |].
  - apply Nat.mod_upper_bound. lia.
  - apply Nat.Div0.div_lt_upper_bound. lia.
Qed.

Lemma forall_bytes_take f n s :
  forall_bytes f s = true -> forall_bytes f (str_take n s) = true.
Proof.
  revert n. induction s as [|c s IH]; intros [|n]; simpl; try done. intros ?; bools. by rewrite H, IH.
Qed.

Lemma isID_app prefix t :
  String.length t = idHexLen -> forall_bytes is_hex_lower t = true -> isID (prefix +:+ t) prefix = true.
Proof.
  intros Hl Ht. unfold isID. rewrite has_prefix_app, str_drop_app, Hl. done.
Qed.

(** newID returns a well-formed identifier of the kind asked for that is not in use. *)
Lemma newID_fresh `{Rand, !RandLaws} prefix taken n id n' :
  newID prefix taken n = Ok (id, n') -> isID id prefix = true /\ id ∉ taken /\ (n < n')%nat.
Proof.
  unfold newID. generalize 64%nat as a. intros a. revert n.
  induction a as [|a IH]; intros n; [done|]. cbn [newID_loop]. change (idHexLen / 2 + 1)%nat with 4%nat.
  destruct (rand_read n 4) as [buf|] eqn:Hr; [|done].
  cbv zeta. remember (prefix +:+ str_take idHexLen (hex buf)) as id0 eqn:Hid.
  case_bool_decide as Hin; [intros Hrec; apply IH in Hrec as (? & ? & ?); repeat split; [done..|lia]|].
  intros [= <- <-]. split; [|split; [done|lia]]. rewrite Hid.
  pose proof (rand_length _ _ _ Hr) as Hl. destruct (hex_ok buf) as [Hh Hlen].
  apply isID_app; [|by apply forall_bytes_take]. apply str_length_take. rewrite Hlen, Hl. unfold idHexLen. lia.
Qed.

Lemma invert_inv l (out : gmap string string) name id :
  fold_left (fun out kv => match out !! kv.2 with Some _ => out | None => <[kv.2 := kv.1]> out end) l out
    !! name = Some id ->
  out !! name = Some id \/ (id, name) ∈ l.
Proof.
  revert out. induction l as [|[k v] l IH]; intros out; [by left|]. simpl. intros Hl.
  apply IH in Hl as [Hl|Hl]; [|right; set_solver].
  destruct (out !! v) eqn:Hv; [by left|].
  apply lookup_insert_Some in Hl as [[<- <-]|[_ ?]]; [right; set_solver|by left].
Qed.

Lemma invert_total l (out : gmap string string) name :
  (exists id, out !! name = Some id \/ (id, name) ∈ l) ->
  is_Some (fold_left (fun out kv => match out !! kv.2 with Some _ => out | None => <[kv.2 := kv.1]> out end) l out
    !! name).
Proof.
  revert out. induction l as [|[k v] l IH]; intros out (id & Hid).
  - destruct Hid as [Hid|Hid]; [by exists id|set_solver].
  - simpl. apply IH. destruct (decide (v = name)) as [->|Hv].
    + destruct (out !! name) as [i|] eqn:Ho; [exists i; by left|]. exists k. left. by rewrite lookup_insert_eq.
    + exists id. destruct Hid as [Hid|Hid]; [left|right; set_solver].
      destruct (out !! v); [done|]. by rewrite lookup_insert_ne.
Qed.

Lemma nameToID_spec `{MapRange} site m name id : nameToID site m !! name = Some id -> m !! id = Some name.
Proof.
  intros [?|Hl]%invert_inv; [set_solver|]. by apply elem_of_map_range in Hl.
Qed.

Lemma nameToID_total `{MapRange} site m name id : m !! id = Some name -> is_Some (nameToID site m !! name).
Proof. intros Hm. apply invert_total. exists id. right. by apply elem_of_map_range. Qed.

Lemma HasOpaqueIDShape_spec c :
  HasOpaqueIDShape c = true <->
  (forall n, n ∈ dom (Sources c) -> IsSourceID n = true)
  /\ (forall b kv, Secrets c !! b = Some kv -> IsBagID b = true /\ forall k, k ∈ dom kv -> IsKeyID k = true).
Proof.
  unfold HasOpaqueIDShape, all_ids. rewrite andb_true_iff, !forallb_forall.
  setoid_rewrite <- list_elem_of_In. split.
  - intros [H1 H2]. split.
    + intros n [s Hs]%elem_of_dom. apply (H1 (n, s)). by apply elem_of_map_to_list.
    + intros b kv Hb. specialize (H2 (b, kv) (proj2 (elem_of_map_to_list _ _ _) Hb)). simpl in H2. bools.
      split; [done|]. intros k [v Hv]%elem_of_dom. rewrite forallb_forall in H0.
      apply (H0 (k, v)). by apply list_elem_of_In, elem_of_map_to_list.
  - intros [H1 H2]. split.
    + intros [n s] Hn%elem_of_map_to_list. apply H1. by apply elem_of_dom_2 in Hn.
    + intros [b kv] Hb%elem_of_map_to_list. destruct (H2 b kv Hb) as [Hb' Hk]. cbn [fst snd]. rewrite Hb'. simpl.
      apply forallb_forall. intros [k v] Hin%list_elem_of_In%elem_of_map_to_list. apply Hk.
      by apply elem_of_dom_2 in Hin.
Qed.

End NameId.
