(* ===== verification/Fs.v ===== *)
(** * Files, faults and crashes

    The part of package os the program uses, as a state and error monad over a
    map from paths to nodes.  Every system call may report an error instead of
    acting ([fails]), a failed write may leave any prefix ([partial]), and the
    state after every call is recorded, so that a theorem can speak of a crash at
    any point.  Paths are plain keys: no two of them name the same node, and only
    the last component may be a symbolic link. *)

From S2P Require Import Prelude GoString GoPath.
Import GoPath.

Module Fs.

Inductive node :=
| NFile (content : string) (mode : Z) (mtime : Z)
| NLink (target : string)
| NDir.

#[export] Instance node_eq_dec : EqDecision node.
Proof. solve_decision. Defined.

Inductive FErr :=
| ENoEnt (path : string)
| EExist (path : string)
| EIsDir (path : string)
| ELoop (path : string)
| ENotLink (path : string)
| ENotDir (path : string)
| EFault (call : nat)       (* an injected failure: EACCES, ENOSPC, EIO, ... *)
| ETooManyTries.

Notation files := (gmap string node).

(** What the outside decides: which calls fail, what a failed write leaves, the
    random part of a temporary name, the clock and the environment. *)
Class Os := {
  fails : nat -> bool;
  partial : nat -> nat;
  temp_rand : nat -> nat -> string;
  clock : nat -> Z;               (* seconds since the epoch, at each call *)
  getenv : string -> option string
}.

Record world := mkWorld {
  fs : files;
  tick : nat;                     (* system calls made so far *)
  draws : nat;                    (* random draws made so far *)
  locks : gset string;            (* files flocked by other processes or by us *)
  trace : list files              (* every state so far, the latest first *)
}.

Definition start (f : files) : world := mkWorld f 0 0 ∅ [f].

(** [E] is the error type of the component. *)
Definition M (E A : Type) : Type := world -> res E A * world.

#[export] Instance M_ret E : MRet (M E) := fun A a w => (Ok a, w).
#[export] Instance M_bind E : MBind (M E) := fun A B f m w =>
  match m w with (Ok a, w') => f a w' | (Err e, w') => (Err e, w') end.

Definition throw {E A} (e : E) : M E A := fun w => (Err e, w).
Definition lift {E A} (r : res E A) : M E A := fun w => (r, w).
Definition mapErr {E F A} (f : E -> F) (m : M E A) : M F A := fun w =>
  match m w with (r, w') => (wrap_err f r, w') end.

(** Run [m] and keep its error as a value ([if err := m(); err != nil]). *)
Definition attempt {E F A} (m : M E A) : M F (res E A) := fun w =>
  match m w with (r, w') => (Ok r, w') end.

(** Clean up on the error path, then report the first error. *)
Definition on_err {E F A B} (m : M E A) (cleanup : M F B) : M E A := fun w =>
  match m w with (Ok a, w') => (Ok a, w') | (Err e, w') => (Err e, snd (cleanup w')) end.

(** Run for effect, error dropped ([_ = m()]). *)
Definition ignore {E F A} (m : M E A) : M F unit := fun w => (Ok tt, snd (m w)).

Definition step (w : world) (f : files) : world :=
  mkWorld f (S (tick w)) (draws w) (locks w) (f :: trace w).

(** filepath.Match on one path element, byte by byte. *)
Inductive gtok :=
| GStar
| GAny
| GLit (c : ascii)
| GClass (neg : bool) (ranges : list (ascii * ascii)).

Fixpoint parse_ranges (fuel : nat) (s : string) (acc : list (ascii * ascii)) : option (list (ascii * ascii) * string) :=
  let char s := match s with
                | String c s' =>
                    if Ascii.eqb c "-" || Ascii.eqb c "]" then None
                    else if Ascii.eqb c BSLASH then
                      match s' with String d s'' => Some (d, s'') | EmptyString => None end
                    else Some (c, s')
                | EmptyString => None
                end in
  match fuel with
  | O => None
  | S n =>
      match s with
      | String c s' =>
          if Ascii.eqb c "]" && negb (bool_decide (acc = [])) then Some (rev acc, s')
          else match char s with
               | None => None
               | Some (lo, String "-" s2) =>
                   match char s2 with
                   | Some (hi, s3) => parse_ranges n s3 ((lo, hi) :: acc)
                   | None => None
                   end
               | Some (lo, s2) => parse_ranges n s2 ((lo, lo) :: acc)
               end
      | EmptyString => None
      end
  end.

Fixpoint parse_pattern (fuel : nat) (s : string) : option (list gtok) :=
  match fuel with
  | O => None
  | S n =>
      match s with
      | EmptyString => Some []
      | String c s' =>
          if Ascii.eqb c "*" then cons GStar <$> parse_pattern n s'
          else if Ascii.eqb c "?" then cons GAny <$> parse_pattern n s'
          else if Ascii.eqb c "[" then
            let '(neg, s1) := match s' with String "^" t => (true, t) | _ => (false, s') end in
            match parse_ranges (S (String.length s1)) s1 [] with
            | Some (rs, s2) => cons (GClass neg rs) <$> parse_pattern n s2
            | None => None
            end
          else if Ascii.eqb c BSLASH then
            match s' with String d s2 => cons (GLit d) <$> parse_pattern n s2 | EmptyString => None end
          else cons (GLit c) <$> parse_pattern n s'
      end
  end.

Definition in_ranges (c : ascii) (rs : list (ascii * ascii)) : bool :=
  existsb (fun r => (byte_val r.1 <=? byte_val c)%nat && (byte_val c <=? byte_val r.2)%nat) rs.

Fixpoint tok_match (ts : list gtok) (s : string) : bool :=
  match ts with
  | [] => str_empty s
  | GStar :: ts' =>
      (fix go (s : string) : bool :=
         tok_match ts' s || match s with String _ s' => go s' | EmptyString => false end) s
  | GAny :: ts' => match s with String _ s' => tok_match ts' s' | EmptyString => false end
  | GLit c :: ts' => match s with String d s' => Ascii.eqb c d && tok_match ts' s' | EmptyString => false end
  | GClass neg rs :: ts' =>
      match s with String d s' => xorb neg (in_ranges d rs) && tok_match ts' s' | EmptyString => false end
  end.

(** The paths filepath.Glob returns for an absolute pattern, [None] for a bad
    pattern: the elements match one by one. *)
Definition match_path (pattern p : string) : option bool :=
  let pats := split_byte "/" pattern in
  let elems := split_byte "/" p in
  toks ← mapM (fun e => parse_pattern (S (String.length e)) e) pats;
  Some (bool_decide (length toks = length elems) && forallb (fun te => tok_match te.1 te.2) (zip toks elems)).

Definition Glob (pattern : string) (f : files) : list string :=
  filter (fun p => match_path pattern p = Some true) (map_to_list f).*1.

Section Calls.
Context `{Os}.

(** One system call: it fails without effect, or acts on the files. *)
Definition syscall {A} (act : files -> res FErr (A * files)) : M FErr A := fun w =>
  if fails (tick w) then (Err (EFault (tick w)), step w (fs w))
  else match act (fs w) with
       | Ok (a, f) => (Ok a, step w f)
       | Err e => (Err e, step w (fs w))
       end.

(** Following a chain of links, as far as the kernel does. *)
Fixpoint follow (n : nat) (f : files) (p : string) : res FErr string :=
  match n with
  | O => Err (ELoop p)
  | S n' =>
      match f !! p with
      | Some (NLink t) => follow n' f (if IsAbs t then t else Join [Dir p; t])
      | _ => Ok p
      end
  end.

Definition link_depth : nat := 40.

Definition stat (p : string) : M FErr node := syscall (fun f =>
  q ← follow link_depth f p; n ← of_option (ENoEnt p) (f !! q); Ok (n, f)).

Definition lstat (p : string) : M FErr node := syscall (fun f =>
  n ← of_option (ENoEnt p) (f !! p); Ok (n, f)).

Definition read_file (p : string) : M FErr string := syscall (fun f =>
  q ← follow link_depth f p;
  match f !! q with
  | Some (NFile c _ _) => Ok (c, f)
  | Some _ => Err (EIsDir p)
  | None => Err (ENoEnt p)
  end).

(** O_CREATE|O_EXCL: a new empty file; a link is not followed. *)
Definition create_excl (p : string) (mode : Z) : M FErr unit := fun w =>
  syscall (fun f => match f !! p with
                    | Some _ => Err (EExist p)
                    | None => Ok (tt, <[p := NFile EmptyString mode (clock (tick w))]> f)
                    end) w.

(** O_CREATE|O_TRUNC: the path written to. *)
Definition create_trunc (p : string) (mode : Z) : M FErr string := fun w =>
  syscall (fun f => q ← follow link_depth f p;
                    match f !! q with
                    | Some (NFile _ m _) => Ok (q, <[q := NFile EmptyString m (clock (tick w))]> f)
                    | Some _ => Err (EIsDir p)
                    | None => Ok (q, <[q := NFile EmptyString mode (clock (tick w))]> f)
                    end) w.

Definition append (p data : string) (t : Z) (f : files) : files :=
  match f !! p with
  | Some (NFile c m _) => <[p := NFile (c +:+ data) m t]> f
  | _ => f
  end.

(** Writing to an open file; a failed write leaves a prefix. *)
Definition write (p data : string) : M FErr unit := fun w =>
  let t := clock (tick w) in
  if fails (tick w)
  then (Err (EFault (tick w)), step w (append p (str_take (partial (tick w)) data) t (fs w)))
  else (Ok tt, step w (append p data t (fs w))).

(** Calls on an open descriptor that leave the files as they are. *)
Definition sync (p : string) : M FErr unit := syscall (fun f => Ok (tt, f)).
Definition close (p : string) : M FErr unit := syscall (fun f => Ok (tt, f)).

Definition chmod (p : string) (mode : Z) : M FErr unit := syscall (fun f =>
  q ← follow link_depth f p;
  match f !! q with
  | Some (NFile c _ t) => Ok (tt, <[q := NFile c mode t]> f)
  | Some _ => Ok (tt, f)
  | None => Err (ENoEnt p)
  end).

Definition children (f : files) (d : string) : list string :=
  filter (fun p => GoPath.Dir p = d /\ p <> d) (map_to_list f).*1.

Definition remove (p : string) : M FErr unit := syscall (fun f =>
  match f !! p with
  | None => Err (ENoEnt p)
  | Some NDir => if bool_decide (children f p = []) then Ok (tt, delete p f) else Err (EIsDir p)
  | Some _ => Ok (tt, delete p f)
  end).

Definition rename (a b : string) : M FErr unit := syscall (fun f =>
  match f !! a with
  | None => Err (ENoEnt a)
  | Some n =>
      match f !! b with
      | Some NDir => Err (EIsDir b)
      | _ => Ok (tt, <[b := n]> (delete a f))
      end
  end).

Definition symlink (target p : string) : M FErr unit := syscall (fun f =>
  match f !! p with
  | Some _ => Err (EExist p)
  | None => Ok (tt, <[p := NLink target]> f)
  end).

(** The path and its ancestors, the root last. *)
Fixpoint ancestors (fuel : nat) (p : string) : list string :=
  match fuel with
  | O => [p]
  | S n => let d := GoPath.Dir p in if String.eqb d p then [p] else p :: ancestors n d
  end.

Definition mkdir_all (p : string) : M FErr unit := syscall (fun f =>
  let ds := ancestors (String.length p) p in
  if existsb (fun d => match f !! d with Some (NFile _ _ _) => true | _ => false end) ds
  then Err (EExist p)
  else Ok (tt, fold_left (fun acc d => match acc !! d with
                                       | None => <[d := NDir]> acc | Some _ => acc end) ds f)).

Definition readlink (p : string) : M FErr string := syscall (fun f =>
  match f !! p with
  | Some (NLink t) => Ok (t, f)
  | Some _ => Err (ENotLink p)
  | None => Err (ENoEnt p)
  end).

(** os.ReadDir: the entries by name, each with its own node. *)
Definition read_dir (p : string) : M FErr (list (string * node)) := syscall (fun f =>
  q ← follow link_depth f p;
  match f !! q with
  | Some NDir => Ok (omap (fun c => n ← f !! c; Some (Base c, n)) (sort_strings (children f q)), f)
  | Some _ => Err (ENotDir p)
  | None => Err (ENoEnt p)
  end).

(** [p] and what is below it. *)
Definition under (d p : string) : bool := String.eqb p d || has_prefix p (d +:+ "/").

(** os.RemoveAll, as one call. *)
Definition remove_all (p : string) : M FErr unit := syscall (fun f =>
  Ok (tt, filter (fun kv => under p kv.1 = false) f)).

(** os.WriteFile: the caller must ignore or report the error. *)
Definition write_file (p data : string) (mode : Z) : M FErr unit :=
  q ← create_trunc p mode;
  r ← attempt (write q data);
  c ← attempt (close q);
  match r, c with
  | Ok _, Ok _ => mret tt
  | Err e, _ => throw e
  | _, Err e => throw e
  end.

Definition glob (pattern : string) : M FErr (list string) := syscall (fun f => Ok (Glob pattern f, f)).

Definition now {E} : M E Z := fun w => (Ok (clock (tick w)), step w (fs w)).

(** ** os.CreateTemp *)

Definition temp_tries : nat := 10000.

(** The pattern's last star, or its end, receives the random part. *)
Fixpoint last_star (s : string) : option (string * string) :=
  match s with
  | EmptyString => None
  | String c s' =>
      match last_star s' with
      | Some (a, b) => Some (String c a, b)
      | None => if Ascii.eqb c "*" then Some (EmptyString, s') else None
      end
  end.

Definition temp_name (dir pattern rnd : string) : string :=
  let '(pre, suf) := default (pattern, EmptyString) (last_star pattern) in
  (if has_suffix dir "/" then dir else dir +:+ "/") +:+ pre +:+ rnd +:+ suf.

Fixpoint create_temp_loop (tries : nat) (i : nat) (dir pattern : string) : M FErr string := fun w =>
  match tries with
  | O => (Err ETooManyTries, w)
  | S n =>
      let name := temp_name dir pattern (temp_rand (tick w) i) in
      match create_excl name 384 w with
      | (Ok _, w') => (Ok name, w')
      | (Err (EExist _), w') => create_temp_loop n (S i) dir pattern w'
      | (Err e, w') => (Err e, w')
      end
  end.

Definition create_temp (dir pattern : string) : M FErr string :=
  create_temp_loop temp_tries 0 dir pattern.
End Calls.


(** ** Reasoning *)

(** From [w] to [w'] every recorded state satisfies [I], the last one included. *)
Definition evolves (I : files -> Prop) (w w' : world) : Prop :=
  exists new, trace w' = new ++ trace w /\ Forall I new /\ I (fs w').

Lemma evolves_refl I w : I (fs w) -> evolves I w w.
Proof. intros Hi. by exists []. Qed.

Lemma evolves_trans I w1 w2 w3 : evolves I w1 w2 -> evolves I w2 w3 -> evolves I w1 w3.
Proof.
  intros (n1 & H1 & F1 & _) (n2 & H2 & F2 & I3). exists (n2 ++ n1). rewrite H2, H1, app_assoc.
  split; [done|]. split; [by apply Forall_app|done].
Qed.

Lemma evolves_mono (I J : files -> Prop) w w' : (forall f, I f -> J f) -> evolves I w w' -> evolves J w w'.
Proof.
  intros HIJ (new & ? & HF & Hi). exists new. split; [done|]. split; [|by apply HIJ].
  eapply Forall_impl; [exact HF|done].
Qed.

Lemma evolves_fs I w w' : evolves I w w' -> I (fs w').
Proof. by intros (? & _ & _ & ?). Qed.

Lemma evolves_step (I : files -> Prop) w f : I f -> evolves I w (step w f).
Proof. intros Hi. exists [f]. split; [done|]. split; [by constructor|done]. Qed.

Lemma M_bind_inv {E A B} (m : M E A) (f : A -> M E B) w r w' :
  (m ≫= f) w = (r, w') ->
  (exists a w1, m w = (Ok a, w1) /\ f a w1 = (r, w')) \/ (exists e, m w = (Err e, w') /\ r = Err e).
Proof.
  unfold mbind, M_bind. destruct (m w) as [[a|e] w1]; intros Hr; [left; by exists a, w1|right].
  simplify_eq. by exists e.
Qed.

Lemma mapErr_inv {E F A} (f : E -> F) (m : M E A) w r w' :
  mapErr f m w = (r, w') -> exists r0, m w = (r0, w') /\ r = wrap_err f r0.
Proof. unfold mapErr. destruct (m w) as [r0 w0]. intros [= <- <-]. by exists r0. Qed.

(** A run that leaves the files alone. *)
Definition reads (w w' : world) : Prop := evolves (eq (fs w)) w w'.

Lemma reads_fs w w' : reads w w' -> fs w' = fs w.
Proof. intros Hr. symmetry. exact (evolves_fs _ _ _ Hr). Qed.

Lemma reads_trans w1 w2 w3 : reads w1 w2 -> reads w2 w3 -> reads w1 w3.
Proof.
  intros H1 H2. eapply evolves_trans; [exact H1|]. unfold reads in H2. by rewrite (reads_fs _ _ H1) in H2.
Qed.

Lemma reads_evolves (I : files -> Prop) w w' : I (fs w) -> reads w w' -> evolves I w w'.
Proof. intros Hi. apply evolves_mono. by intros f <-. Qed.

(** What mkdir_all does to one path. *)
Lemma mkdir_fold (ds : list string) (f : files) q : q ∉ ds -> fold_left (fun acc d => match acc !! d with
    | None => <[d := NDir]> acc | Some _ => acc end) ds f !! q = f !! q.
Proof.
  revert f. induction ds as [|d ds IH]; intros f Hq; [done|]. simpl. apply not_elem_of_cons in Hq as [Hd Hq].
  rewrite IH by done. destruct (f !! d); [done|]. by apply lookup_insert_ne.
Qed.

Lemma mkdir_fold_plain (ds : list string) (f : files) q : (forall t, f !! q <> Some (NLink t)) ->
  forall t, fold_left (fun acc d => match acc !! d with
    | None => <[d := NDir]> acc | Some _ => acc end) ds f !! q <> Some (NLink t).
Proof.
  revert f. induction ds as [|d ds IH]; intros f Hq; [done|]. simpl. apply IH. intros t.
  destruct (f !! d) eqn:Hd; [done|]. destruct (decide (q = d)) as [->|Hne].
  - by rewrite lookup_insert_eq.
  - by rewrite lookup_insert_ne.
Qed.

Lemma mkdir_fold_lookup (ds : list string) (f : files) q :
  fold_left (fun acc d => match acc !! d with None => <[d := NDir]> acc | Some _ => acc end) ds f !! q =
  match f !! q with Some n => Some n | None => if bool_decide (q ∈ ds) then Some NDir else None end.
Proof.
  revert f. induction ds as [|d ds IH]; intros f; cbn [fold_left].
  - rewrite bool_decide_false by (apply not_elem_of_nil). by destruct (f !! q).
  - rewrite IH. rewrite (bool_decide_ext (q ∈ d :: ds) (q = d \/ q ∈ ds)) by apply elem_of_cons.
    destruct (f !! d) eqn:Hd; [|destruct (decide (q = d)) as [->|Hq]].
    + destruct (f !! q) eqn:Hfq; [done|]. apply (f_equal (fun b : bool => if b then Some NDir else None)).
      apply bool_decide_ext. split; [by right|]. intros [->|?]; congruence.
    + rewrite lookup_insert_eq, Hd. by rewrite bool_decide_true by (by left).
    + rewrite lookup_insert_ne by done. destruct (f !! q); [done|]. by rewrite (bool_decide_ext (q = d \/ q ∈ ds) (q ∈ ds)) by tauto.
Qed.

Section CallLemmas.
Context `{Os}.

(** A system call either leaves the files alone, or acts. *)
Lemma syscall_inv {A} (act : files -> res FErr (A * files)) w r w' :
  syscall act w = (r, w') ->
  (exists e, r = Err e /\ w' = step w (fs w) /\ (fails (tick w) = true \/ act (fs w) = Err e))
  \/ (exists a f, r = Ok a /\ w' = step w f /\ act (fs w) = Ok (a, f) /\ fails (tick w) = false).
Proof.
  unfold syscall. destruct (fails (tick w)).
  - intros [= <- <-]. left. eexists. split; [done|]. split; [done|by left].
  - destruct (act (fs w)) as [[a f]|e]; intros [= <- <-]; [right|left].
    + by exists a, f.
    + exists e. split; [done|]. split; [done|by right].
Qed.

Lemma follow_file n f p c m t : f !! p = Some (NFile c m t) -> follow (S n) f p = Ok p.
Proof. intros Hp. simpl. by rewrite Hp. Qed.

Lemma remove_file p w r w' :
  remove p w = (r, w') -> fs w !! p <> Some NDir ->
  w' = step w (delete p (fs w)) \/ (w' = step w (fs w) /\ fails (tick w) = true).
Proof.
  intros [(e & -> & -> & Hw)|(a & f & -> & -> & Ha & _)]%syscall_inv Hp.
  - destruct Hw as [?|Ha]; [by right|]. left. destruct (fs w !! p) as [[]|] eqn:Hl; try done.
    by rewrite (delete_id (fs w)).
  - left. destruct (fs w !! p) as [[]|]; congruence.
Qed.

Lemma create_temp_loop_inv tries i dir pattern w r w' :
  create_temp_loop tries i dir pattern w = (r, w') ->
  (exists n w1, r = Ok (temp_name dir pattern (temp_rand (tick w1) n)) /\
     fs w1 = fs w /\ evolves (eq (fs w)) w w1 /\
     fs w !! temp_name dir pattern (temp_rand (tick w1) n) = None /\
     w' = step w1 (<[temp_name dir pattern (temp_rand (tick w1) n) := NFile EmptyString 384 (clock (tick w1))]> (fs w)))
  \/ (exists e, r = Err e /\ fs w' = fs w /\ evolves (eq (fs w)) w w').
Proof.
  revert i w. induction tries as [|n IH]; intros i w; cbn [create_temp_loop].
  - intros [= <- <-]. right. eexists. split; [done|]. split; [done|by apply evolves_refl].
  - cbv zeta. destruct (create_excl _ 384 w) as [rc w1] eqn:Hc. unfold create_excl in Hc.
    apply syscall_inv in Hc as [(e & -> & -> & Hw)|(a & f & -> & -> & Ha & _)].
    + assert (Hev : evolves (eq (fs w)) w (step w (fs w))) by (by apply evolves_step).
      destruct e; intros Hr; try (injection Hr as <- <-; right; eexists; split; [done|]; by split).
      apply IH in Hr as [(m & w2 & -> & Hf & He & Hn & ->)|(e & -> & Hf & He)].
      * left. exists m, w2. simpl in *. split; [done|]. split; [done|]. split; [by eapply evolves_trans|]. done.
      * right. exists e. split; [done|]. split; [done|]. by eapply evolves_trans.
    + intros [= <- <-]. destruct (fs w !! _) eqn:Hl; [done|]. injection Ha as <- <-. left.
      exists i, w. split; [done|]. split; [done|]. split; [by apply evolves_refl|]. by split.
Qed.

(** A call that never changes the files. *)
Lemma syscall_reads {A} (act : files -> res FErr (A * files)) w r w' :
  (forall f a g, act f = Ok (a, g) -> g = f) -> syscall act w = (r, w') -> reads w w'.
Proof.
  intros Hact [(e & _ & -> & _)|(a & f & _ & -> & Ha & _)]%syscall_inv; [by apply evolves_step|].
  apply Hact in Ha as ->. by apply evolves_step.
Qed.

Lemma read_file_reads p w r w' : read_file p w = (r, w') -> reads w w'.
Proof.
  apply syscall_reads. intros f a g. destruct (follow _ _ _); simpl; [|done].
  destruct (f !! _) as [[]|]; by intros [= _ <-].
Qed.

Lemma read_file_ok p w c w' m t x :
  read_file p w = (Ok c, w') -> fs w !! p = Some (NFile x m t) -> c = x.
Proof.
  intros [(e & ? & _)|(a & f & [= ->] & _ & Ha & _)]%syscall_inv Hp; [done|].
  unfold link_depth in Ha. rewrite (follow_file _ _ _ _ _ _ Hp) in Ha. cbn [mbind res_bind] in Ha.
  rewrite Hp in Ha. by injection Ha.
Qed.

(** What os.WriteFile leaves where there is no link. *)
Lemma write_file_content q data mode w w' :
  (forall t, fs w !! q <> Some (NLink t)) -> write_file q data mode w = (Ok tt, w') ->
  exists m t, fs w' !! q = Some (NFile data m t).
Proof.
  intros Hq Hr. unfold write_file in Hr.
  apply M_bind_inv in Hr as [(q' & w1 & Hc & Hr)|(e & _ & ?)]; [|done].
  apply syscall_inv in Hc as [(e & ? & _)|(a & f & [= <-] & -> & Ha & _)]; [done|].
  assert (Hf : follow link_depth (fs w) q = Ok q)
    by (unfold link_depth; simpl; destruct (fs w !! q) as [[]|] eqn:Hl; try done; by destruct (Hq target)).
  rewrite Hf in Ha. cbn [mbind res_bind] in Ha.
  assert (q' = q /\ exists m t, f !! q = Some (NFile EmptyString m t)) as [-> (m & t & Hfq)].
  { destruct (fs w !! q) as [[]|]; try done; injection Ha as <- <-; (split; [done|]); eexists _, _; apply lookup_insert_eq. }
  unfold attempt, mbind, M_bind in Hr. destruct (write q data (step w f)) as [r1 w1] eqn:Hw.
  destruct (close q w1) as [r2 w2] eqn:Hcl. apply syscall_inv in Hcl as [(e & -> & -> & _)|(a & g & -> & -> & Hg & _)];
    [by destruct r1|]. injection Hg as _ <-.
  unfold write in Hw. destruct (fails _); injection Hw as <- <-; [done|]. injection Hr as <-. cbn [fs step].
  unfold append. rewrite Hfq, str_app_nil_l. eexists _, _. apply lookup_insert_eq.
Qed.

Lemma stat_reads p w r w' : stat p w = (r, w') -> reads w w'.
Proof.
  apply syscall_reads. intros f n g Ha. destruct (follow _ _ _); [|done]. cbn [mbind res_bind] in Ha.
  destruct (f !! _); [|done]. by injection Ha as _ <-.
Qed.

Lemma glob_reads p w r w' : glob p w = (r, w') -> reads w w'.
Proof. apply syscall_reads. by intros f a g [= _ <-]. Qed.

Lemma now_reads {E} w r w' : (now : M E Z) w = (r, w') -> reads w w' /\ r = Ok (clock (tick w)).
Proof. unfold now. intros [= <- <-]. split; [by apply evolves_step|done]. Qed.

(** Making a directory and its ancestors leaves what is there. *)
Lemma mkdir_all_adds p w r w' :
  mkdir_all p w = (r, w') -> evolves (fun g => forall q n, fs w !! q = Some n -> g !! q = Some n) w w'.
Proof.
  intros [(e & _ & -> & _)|(a & f & _ & -> & Ha & _)]%syscall_inv; [by apply evolves_step|].
  cbv zeta in Ha. destruct (existsb _ _) in Ha; [done|]. injection Ha as _ <-. apply evolves_step.
  intros q n Hq. by rewrite mkdir_fold_lookup, Hq.
Qed.
End CallLemmas.
End Fs.
