(* ===== verification/Atomic.v ===== *)
(** * Atomic file replacement (src/internal/atomicfile/atomicfile.go)

    Write a sibling temporary file, sync, close and rename over the destination.
    The theorem covers a failure of any call and a crash after any call. *)

From S2P Require Import Prelude GoString GoPath Fs.
Import Fs.

Module Atomic.

Section WriteFunc.
Context `{Os} {E : Type} (inj : FErr -> E).

(** The producer writes the payload into the temporary file it is given. *)
Definition WriteFunc (path : string) (perm : Z) (pattern : string) (producer : string -> M E unit)
    : M E unit :=
  tmp ← mapErr inj (create_temp (GoPath.Dir path) pattern);
  let discard : M E unit := ignore (close tmp) ≫= fun _ => ignore (remove tmp) in
  _ ← on_err (mapErr inj (chmod tmp perm)) discard;
  _ ← on_err (producer tmp) discard;
  _ ← on_err (mapErr inj (sync tmp)) discard;
  _ ← on_err (mapErr inj (close tmp)) (ignore (remove tmp) : M E unit);
  on_err (mapErr inj (rename tmp path)) (ignore (remove tmp) : M E unit).

Definition Write (path data : string) (perm : Z) (pattern : string) : M E unit :=
  WriteFunc path perm pattern (fun tmp => mapErr inj (write tmp data)).

(** The files but for the temporary one. *)
Definition off (tmp : string) (f g : files) : Prop := forall q, q <> tmp -> g !! q = f !! q.

(** A producer of [data]: it touches its file only, and on success has added
    exactly [data] to it. *)
Definition produces (producer : string -> M E unit) (data : string) : Prop :=
  forall tmp w r w' c m t, fs w !! tmp = Some (NFile c m t) -> producer tmp w = (r, w') ->
    evolves (off tmp (fs w)) w w'
    /\ exists c' t', fs w' !! tmp = Some (NFile c' m t') /\ (r = Ok tt -> c' = c +:+ data).

Lemma write_produces data : produces (fun tmp => mapErr inj (write tmp data)) data.
Proof.
  intros tmp w r w' c m t Hf. unfold mapErr, write, append. rewrite Hf.
  destruct (fails (tick w)); intros [= <- <-]; simpl.
  - split; [apply evolves_step; intros q ?; by apply lookup_insert_ne|].
    eexists _, _. split; [apply lookup_insert_eq|done].
  - split; [apply evolves_step; intros q ?; by apply lookup_insert_ne|].
    eexists _, _. split; [apply lookup_insert_eq|done].
Qed.

Lemma remove_off p w r w' : remove p w = (r, w') -> evolves (off p (fs w)) w w'.
Proof.
  intros [(e & _ & -> & _)|(a & f & _ & -> & Ha & _)]%syscall_inv; [by apply evolves_step|].
  apply evolves_step. intros q Hq. destruct (fs w !! p) as [[]|]; [| |destruct (bool_decide _)|]; try done;
    injection Ha as _ <-; by apply lookup_delete_ne.
Qed.

Lemma off_refl tmp f : off tmp f f.
Proof. by intros ??. Qed.

Lemma off_trans tmp f g h : off tmp f g -> off tmp g h -> off tmp f h.
Proof. intros H1 H2 q Hq. by rewrite H2, H1. Qed.

Lemma off_delete tmp f g : off tmp f g -> f !! tmp = None -> delete tmp g = f.
Proof.
  intros Ho Hn. apply map_eq. intros q. destruct (decide (q = tmp)) as [->|Hq].
  - by rewrite lookup_delete_eq.
  - by rewrite lookup_delete_ne, Ho.
Qed.

(** A run that stays off [tmp] from a state that does. *)
Lemma evolves_off tmp f w w' : off tmp f (fs w) -> evolves (off tmp (fs w)) w w' -> evolves (off tmp f) w w'.
Proof. intros Ho. apply evolves_mono. intros g. by apply off_trans. Qed.

(** What is left once the temporary file has been removed, or the removal has
    itself been refused. *)
Definition cleaned (f : files) (w : world) : Prop := fs w = f \/ fails (pred (tick w)) = true.

Lemma discard_spec tmp f w :
  off tmp f (fs w) -> f !! tmp = None -> fs w !! tmp <> Some NDir ->
  let w' := snd ((ignore (remove tmp) : M E unit) w) in
  evolves (off tmp f) w w' /\ cleaned f w'.
Proof.
  intros Ho Hn Hd. simpl. destruct (remove tmp w) as [r w1] eqn:Hr. simpl.
  apply remove_file in Hr as [->|[-> Hf]]; [| |done].
  - rewrite (off_delete tmp f) by done. split; [|by left]. apply evolves_step, off_refl.
  - split; [by apply evolves_step|]. right. done.
Qed.

Lemma discard_close_spec tmp f w :
  off tmp f (fs w) -> f !! tmp = None -> fs w !! tmp <> Some NDir ->
  let w' := snd ((ignore (close tmp) ≫= fun _ : unit => (ignore (remove tmp) : M E unit)) w) in
  evolves (off tmp f) w w' /\ cleaned f w'.
Proof.
  intros Ho Hn Hd. unfold mbind, M_bind, ignore at 1 3.
  destruct (close tmp w) as [rc wc] eqn:Hc. simpl.
  assert (Hw : wc = step w (fs w)).
  { apply syscall_inv in Hc as [(e & _ & -> & _)|(a & g & _ & -> & Ha & _)]; [done|]. by injection Ha as _ <-. }
  subst wc. destruct (discard_spec tmp f (step w (fs w))) as [H1 H2]; [done..|]. simpl in H1, H2.
  split; [|exact H2]. eapply evolves_trans; [by apply evolves_step|exact H1].
Qed.

(** The invariant of a write in progress: only the temporary file differs, and
    it is a file. *)
Definition writing (tmp : string) (f g : files) : Prop :=
  off tmp f g /\ exists c m t, g !! tmp = Some (NFile c m t).

(** Failure of one step: what follows is the clean-up. *)
Definition failed (tmp : string) (f : files) (w w' : world) : Prop :=
  evolves (off tmp f) w w' /\ cleaned f w'.

(** One guarded step of WriteFunc. *)
Lemma guarded_step {A} (tmp : string) (f : files) (m : M E A) (cleanup : M E unit) (Q : A -> world -> Prop) w r w' :
  f !! tmp = None -> writing tmp f (fs w) ->
  (cleanup = (ignore (close tmp) ≫= fun _ : unit => ignore (remove tmp)) \/ cleanup = ignore (remove tmp)) ->
  (forall r1 w1, m w = (r1, w1) -> evolves (off tmp f) w w1 /\
     match r1 with Ok a => Q a w1 | Err _ => writing tmp f (fs w1) end) ->
  on_err m cleanup w = (r, w') ->
  (exists a, r = Ok a /\ evolves (off tmp f) w w' /\ Q a w')
  \/ (exists e, r = Err e /\ failed tmp f w w').
Proof.
  intros Hn [Ho _] Hc Hm. unfold on_err. destruct (m w) as [[a|e] w1]; destruct (Hm _ _ eq_refl) as [Hev Hq].
  - intros [= <- <-]. left. by exists a.
  - intros [= <- <-]. right. exists e. split; [done|]. destruct Hq as (Ho1 & c & md & t & Hl).
    assert (Hd : fs w1 !! tmp <> Some NDir) by (rewrite Hl; done). unfold failed.
    destruct Hc as [-> | ->]; [destruct (discard_close_spec tmp f w1 Ho1 Hn Hd) as [H1 H2]
                            |destruct (discard_spec tmp f w1 Ho1 Hn Hd) as [H1 H2]];
      (split; [by eapply evolves_trans|exact H2]).
Qed.

Lemma chmod_step tmp f perm w r w' c m t :
  off tmp f (fs w) -> fs w !! tmp = Some (NFile c m t) -> mapErr inj (chmod tmp perm) w = (r, w') ->
  evolves (off tmp f) w w' /\
  match r with
  | Ok _ => off tmp f (fs w') /\ fs w' !! tmp = Some (NFile c perm t)
  | Err _ => writing tmp f (fs w')
  end.
Proof.
  intros Ho Hf (r0 & Hr & ->)%mapErr_inv.
  apply syscall_inv in Hr as [(e & -> & -> & _)|(a & g & -> & -> & Ha & _)]; simpl.
  - split; [by apply evolves_step|]. split; [done|]. by exists c, m, t.
  - unfold link_depth in Ha. rewrite (follow_file _ _ _ _ _ _ Hf) in Ha. cbn [mbind res_bind] in Ha.
    rewrite Hf in Ha. injection Ha as _ <-.
    assert (off tmp f (<[tmp := NFile c perm t]> (fs w))).
    { intros q Hq. by rewrite lookup_insert_ne, Ho. }
    split; [by apply evolves_step|]. split; [done|]. apply lookup_insert_eq.
Qed.

Lemma idle_step {A} tmp f (m : M FErr A) w r w' c md t :
  (forall r w', m w = (r, w') -> w' = step w (fs w)) ->
  off tmp f (fs w) -> fs w !! tmp = Some (NFile c md t) -> mapErr inj m w = (r, w') ->
  evolves (off tmp f) w w' /\
  match r with
  | Ok _ => off tmp f (fs w') /\ fs w' !! tmp = Some (NFile c md t)
  | Err _ => writing tmp f (fs w')
  end.
Proof.
  intros Hm Ho Hf (r0 & Hr & ->)%mapErr_inv. rewrite (Hm _ _ Hr). split; [by apply evolves_step|].
  destruct r0; simpl; [done|]. split; [done|]. by exists c, md, t.
Qed.

Lemma sync_idle tmp w r w' : sync tmp w = (r, w') -> w' = step w (fs w).
Proof. intros [(e & _ & -> & _)|(a & f & _ & -> & Ha & _)]%syscall_inv; [done|by injection Ha as _ <-]. Qed.

Lemma close_idle tmp w r w' : close tmp w = (r, w') -> w' = step w (fs w).
Proof. intros [(e & _ & -> & _)|(a & f & _ & -> & Ha & _)]%syscall_inv; [done|by injection Ha as _ <-]. Qed.

(** The last step: the destination changes and the temporary name goes, at once. *)
Lemma rename_step tmp f path w r w' n :
  f !! tmp = None -> tmp <> path -> off tmp f (fs w) -> fs w !! tmp = Some n ->
  on_err (mapErr inj (rename tmp path)) (ignore (remove tmp) : M E unit) w = (r, w') ->
  n <> NDir ->
  (r = Ok tt /\ w' = step w (<[path := n]> f)) \/ (exists e, r = Err e /\ failed tmp f w w').
Proof.
  intros Hn Hp Ho Hl Hr Hd. unfold on_err, mapErr in Hr. destruct (rename tmp path w) as [r1 w1] eqn:Hrn.
  apply syscall_inv in Hrn as [(e & -> & -> & _)|([] & g & -> & -> & Ha & _)]; simpl in Hr; injection Hr as <- <-.
  - right. eexists. split; [done|]. destruct (discard_spec tmp f (step w (fs w))) as [H1 H2]; [done|done| |].
    + simpl. rewrite Hl. by intros [= ->].
    + split; [|exact H2]. eapply evolves_trans; [by apply evolves_step|exact H1].
  - left. split; [done|]. rewrite Hl in Ha. rewrite <- (off_delete tmp f (fs w)) by done.
    destruct (fs w !! path) as [[]|]; congruence.
Qed.

(** The calls that follow the creation of the temporary file. *)
Lemma steps_spec path perm producer data tmp f w r w' :
  produces producer data -> f !! tmp = None -> off tmp f (fs w) -> tmp <> path ->
  (exists m t, fs w !! tmp = Some (NFile EmptyString m t)) ->
  (let discard : M E unit := ignore (close tmp) ≫= fun _ => ignore (remove tmp) in
   _ ← on_err (mapErr inj (chmod tmp perm)) discard;
   _ ← on_err (producer tmp) discard;
   _ ← on_err (mapErr inj (sync tmp)) discard;
   _ ← on_err (mapErr inj (close tmp)) (ignore (remove tmp) : M E unit);
   on_err (mapErr inj (rename tmp path)) (ignore (remove tmp) : M E unit)) w = (r, w') ->
  (r = Ok tt /\ exists t w1, evolves (off tmp f) w w1 /\ w' = step w1 (<[path := NFile data perm t]> f))
  \/ (exists e, r = Err e /\ failed tmp f w w').
Proof.
  intros Hprod Hn Ho Hp (m & t & Hl) Hr. cbv zeta in Hr.
  apply M_bind_inv in Hr as [(a & w1 & Hs & Hr)|(e & Hs & ->)];
    (eapply (guarded_step tmp f _ _ (fun _ w => off tmp f (fs w) /\ fs w !! tmp = Some (NFile EmptyString perm t)))
      in Hs; [|done|split; [done|by eauto]|by left|by intros *; apply (chmod_step _ _ _ _ _ _ _ _ _ Ho Hl)]).
  2: { destruct Hs as [(? & ? & _)|(e' & _ & ?)]; [done|]. right. by exists e. }
  destruct Hs as [(? & _ & Hev1 & Ho1 & Hl1)|(e & ? & _)]; [|done].
  apply M_bind_inv in Hr as [(a2 & w2 & Hs & Hr)|(e & Hs & ->)];
    (eapply (guarded_step tmp f _ _ (fun _ w => off tmp f (fs w) /\ exists t, fs w !! tmp = Some (NFile data perm t)))
      in Hs; [|done|split; [done|by eauto]|by left|]).
  2,4: intros r1 w3 Hrun; destruct (Hprod _ _ _ _ _ _ _ Hl1 Hrun) as (Hev & c & t' & Hc & Hok);
       pose proof (off_trans _ _ _ _ Ho1 (evolves_fs _ _ _ Hev)) as Ho3;
       (split; [by eapply evolves_off|]); destruct r1 as [[]|]; (split; [done|]); eauto;
       exists t'; rewrite (Hok eq_refl) in Hc; exact Hc.
  2: { destruct Hs as [(? & ? & _)|(e' & _ & [? ?])]; [done|]. right. exists e. split; [done|].
       split; [by eapply evolves_trans|done]. }
  destruct Hs as [(? & _ & Hev2 & Ho2 & t2 & Hl2)|(e & ? & _)]; [|done].
  apply M_bind_inv in Hr as [(a3 & w3 & Hs & Hr)|(e & Hs & ->)];
    (eapply (guarded_step tmp f _ _ (fun _ w => off tmp f (fs w) /\ fs w !! tmp = Some (NFile data perm t2)))
      in Hs; [|done|split; [done|by eauto]|by left|
              by intros *; apply (idle_step _ _ _ _ _ _ _ _ _ (sync_idle _ _) Ho2 Hl2)]).
  2: { destruct Hs as [(? & ? & _)|(e' & _ & [? ?])]; [done|]. right. exists e. split; [done|].
       split; [by do 2 (eapply evolves_trans; [done|])|done]. }
  destruct Hs as [(? & _ & Hev3 & Ho3 & Hl3)|(e & ? & _)]; [|done].
  apply M_bind_inv in Hr as [(a4 & w4 & Hs & Hr)|(e & Hs & ->)];
    (eapply (guarded_step tmp f _ _ (fun _ w => off tmp f (fs w) /\ fs w !! tmp = Some (NFile data perm t2)))
      in Hs; [|done|split; [done|by eauto]|by right|
              by intros *; apply (idle_step _ _ _ _ _ _ _ _ _ (close_idle _ _) Ho3 Hl3)]).
  2: { destruct Hs as [(? & ? & _)|(e' & _ & [? ?])]; [done|]. right. exists e. split; [done|].
       split; [by do 3 (eapply evolves_trans; [done|])|done]. }
  destruct Hs as [(? & _ & Hev4 & Ho4 & Hl4)|(e & ? & _)]; [|done].
  apply rename_step with (f := f) (n := NFile data perm t2) in Hr; [|done..].
  destruct Hr as [(-> & ->)|(e & -> & [? ?])]; [left|right].
  - split; [done|]. exists t2, w4. split; [|done]. by do 3 (eapply evolves_trans; [done|]).
  - exists e. split; [done|]. split; [by do 4 (eapply evolves_trans; [done|])|done].
Qed.

(** All the calls of WriteFunc, for any producer of [data].  [avoid] holds paths that are
    no temporary names, the destination among them. *)
Lemma WriteFunc_spec_off (avoid : gset string) path perm pattern producer data w r w' :
  produces producer data -> path ∈ avoid -> (forall rnd, temp_name (GoPath.Dir path) pattern rnd ∉ avoid) ->
  WriteFunc path perm pattern producer w = (r, w') ->
  exists tmp, tmp ∉ avoid /\ fs w !! tmp = None /\
    match r with
    | Ok _ => exists t w1, evolves (off tmp (fs w)) w w1 /\ w' = step w1 (<[path := NFile data perm t]> (fs w))
    | Err _ => failed tmp (fs w) w w'
    end.
Proof.
  intros Hprod Hpath Hname Hr. unfold WriteFunc in Hr. set (f := fs w) in *.
  apply M_bind_inv in Hr as [(tmp & w1 & Htmp & Hr)|(e & He & ->)].
  2: { apply mapErr_inv in He as (r0 & He & Hr0).
       apply create_temp_loop_inv in He as [(n & w1 & -> & _)|(e' & _ & Hf & Hev)]; [done|].
       destruct (exist_fresh (avoid ∪ dom f)) as [x Hx]. exists x.
       split; [set_solver|]. split; [apply not_elem_of_dom; set_solver|]. split; [|by left].
       eapply evolves_mono; [|exact Hev]. intros g <-. apply off_refl. }
  apply mapErr_inv in Htmp as (r0 & Htmp & Hr0).
  apply create_temp_loop_inv in Htmp as [(n & w0 & -> & Hf0 & Hev0 & Hnone & ->)|(e' & -> & _)]; [|done].
  injection Hr0 as ->. set (tmp := temp_name (GoPath.Dir path) pattern (temp_rand (tick w0) n)) in *.
  exists tmp. split; [apply Hname|]. split; [done|].
  set (w1 := step w0 (<[tmp := NFile EmptyString 384 (clock (tick w0))]> f)) in *.
  assert (Ho1 : off tmp f (fs w1)) by (intros q Hq; by apply lookup_insert_ne).
  assert (Hev1 : evolves (off tmp f) w w1).
  { eapply evolves_trans; [eapply evolves_mono; [|exact Hev0]; intros g <-; apply off_refl|by apply evolves_step]. }
  assert (Hl1 : fs w1 !! tmp = Some (NFile EmptyString 384 (clock (tick w0)))) by apply lookup_insert_eq.
  assert (tmp <> path) by (intros Heq; apply (Hname (temp_rand (tick w0) n)); by fold tmp; rewrite Heq).
  apply (steps_spec path perm producer data tmp f w1 r w') in Hr; [|done..|eauto].
  destruct Hr as [(-> & t & w2 & Hev & ->)|(e & -> & Hev & Hc)].
  - exists t, w2. split; [by eapply evolves_trans|done].
  - split; [by eapply evolves_trans|done].
Qed.

(** What an observer of the files sees during a write: the old state, a hidden
    sibling that comes and goes, and from some moment on the complete new file. *)
Definition old_or_new (path tmp data : string) (perm : Z) (f g : files) : Prop :=
  forall q, q <> tmp -> g !! q = f !! q \/ (q = path /\ exists t, g !! q = Some (NFile data perm t)).

Lemma off_old_or_new path tmp data perm f g : off tmp f g -> old_or_new path tmp data perm f g.
Proof. intros Ho q Hq. left. by apply Ho. Qed.

Lemma new_old_or_new path tmp data perm f t : old_or_new path tmp data perm f (<[path := NFile data perm t]> f).
Proof.
  intros q Hq. destruct (decide (q = path)) as [->|Hne].
  - right. split; [done|]. exists t. apply lookup_insert_eq.
  - left. by apply lookup_insert_ne.
Qed.

(** The summary the callers of WriteFunc use. *)
Lemma WriteFunc_atomic_off (avoid : gset string) path perm pattern producer data w r w' :
  produces producer data -> path ∈ avoid -> (forall rnd, temp_name (GoPath.Dir path) pattern rnd ∉ avoid) ->
  WriteFunc path perm pattern producer w = (r, w') ->
  exists tmp, tmp ∉ avoid /\ fs w !! tmp = None
  /\ evolves (old_or_new path tmp data perm (fs w)) w w'
  /\ match r with
     | Ok _ => exists t, fs w' = <[path := NFile data perm t]> (fs w)
     | Err _ => off tmp (fs w) (fs w') /\ cleaned (fs w) w'
     end.
Proof.
  intros Hprod Hpath Hname Hr. destruct (WriteFunc_spec_off _ _ _ _ _ _ _ _ _ Hprod Hpath Hname Hr) as (tmp & Ht & Hn & Hm).
  exists tmp. split; [done|]. split; [done|]. destruct r as [a|e].
  - destruct Hm as (t & w1 & Hev & ->). split; [|by exists t].
    eapply evolves_trans; [eapply evolves_mono; [|exact Hev]; intros g; apply off_old_or_new|].
    apply evolves_step, new_old_or_new.
  - destruct Hm as [Hev Hc]. split; [eapply evolves_mono; [|exact Hev]; intros g; apply off_old_or_new|].
    split; [exact (evolves_fs _ _ _ Hev)|done].
Qed.

(** The only path a client must tell from temporary names, in most cases. *)
Lemma alone path pattern :
  (forall rnd, temp_name (GoPath.Dir path) pattern rnd <> path) ->
  path ∈@{gset string} {[path]} /\ (forall rnd, temp_name (GoPath.Dir path) pattern rnd ∉@{gset string} {[path]}).
Proof.
  intros Hname. split; [by apply elem_of_singleton|]. intros rnd Hin. by apply elem_of_singleton, Hname in Hin.
Qed.

Lemma WriteFunc_spec path perm pattern producer data w r w' :
  produces producer data -> (forall rnd, temp_name (GoPath.Dir path) pattern rnd <> path) ->
  WriteFunc path perm pattern producer w = (r, w') ->
  exists tmp, tmp <> path /\ fs w !! tmp = None /\
    match r with
    | Ok _ => exists t w1, evolves (off tmp (fs w)) w w1 /\ w' = step w1 (<[path := NFile data perm t]> (fs w))
    | Err _ => failed tmp (fs w) w w'
    end.
Proof.
  intros Hprod Hname%alone Hr. destruct Hname as [Hp Hname].
  destruct (WriteFunc_spec_off _ _ _ _ _ _ _ _ _ Hprod Hp Hname Hr) as (tmp & Ht & Hrest).
  exists tmp. split; [|exact Hrest]. intros ->. by apply Ht.
Qed.

Lemma WriteFunc_atomic path perm pattern producer data w r w' :
  produces producer data -> (forall rnd, temp_name (GoPath.Dir path) pattern rnd <> path) ->
  WriteFunc path perm pattern producer w = (r, w') ->
  exists tmp, tmp <> path /\ fs w !! tmp = None
  /\ evolves (old_or_new path tmp data perm (fs w)) w w'
  /\ match r with
     | Ok _ => exists t, fs w' = <[path := NFile data perm t]> (fs w)
     | Err _ => off tmp (fs w) (fs w') /\ cleaned (fs w) w'
     end.
Proof.
  intros Hprod Hname%alone Hr. destruct Hname as [Hp Hname].
  destruct (WriteFunc_atomic_off _ _ _ _ _ _ _ _ _ Hprod Hp Hname Hr) as (tmp & Ht & Hrest).
  exists tmp. split; [|exact Hrest]. intros ->. by apply Ht.
Qed.
End WriteFunc.

Section Cleanup.
Context `{Os}.

Lemma close_step {F} (mk : FErr -> F) tmp f w r w' :
  off tmp f (fs w) -> mapErr mk (close tmp) w = (r, w') -> evolves (off tmp f) w w' /\ fs w' = fs w.
Proof. intros Ho (r0 & Hr%close_idle & _)%mapErr_inv. rewrite Hr. split; [by apply evolves_step|done]. Qed.

(** A step whose failure closes the file and stops. *)
Lemma or_close {F G A} tmp f (m : M F A) w r w' :
  (forall r1 w1, m w = (r1, w1) -> evolves (off tmp f) w w1) ->
  on_err m (ignore (close tmp) : M G unit) w = (r, w') ->
  evolves (off tmp f) w w' /\ (forall a, r = Ok a -> m w = (Ok a, w')).
Proof.
  intros Hm Hr. unfold on_err in Hr. destruct (m w) as [[a|e] w1] eqn:Hmw; injection Hr as <- <-.
  - split; [by eapply Hm|]. by intros a' [= ->].
  - split; [|done]. specialize (Hm _ _ eq_refl). eapply evolves_trans; [exact Hm|].
    cbn. destruct (close tmp w1) as [rc wc] eqn:Hc. apply close_idle in Hc as ->. apply evolves_step.
    exact (evolves_fs _ _ _ Hm).
Qed.
End Cleanup.

(**  Replacing a file is atomic.  Whichever system calls fail and wherever
    the run is cut, every recorded state has at the destination either what was
    there or the complete new contents with the requested mode, and no other file
    than one hidden sibling is touched.  On success the sibling is gone; on error
    the files are as before, unless the very last call, the removal of the sibling,
    was itself refused. *)
Theorem Write_atomic `{Os} {E} (inj : FErr -> E) path data perm pattern w r w' :
  (forall rnd, temp_name (GoPath.Dir path) pattern rnd <> path) ->
  Write inj path data perm pattern w = (r, w') ->
  exists tmp, tmp <> path /\ fs w !! tmp = None
  /\ evolves (old_or_new path tmp data perm (fs w)) w w'
  /\ match r with
     | Ok _ => exists t, fs w' = <[path := NFile data perm t]> (fs w)
     | Err _ => off tmp (fs w) (fs w') /\ cleaned (fs w) w'
     end.
Proof. intros Hname. apply WriteFunc_atomic; [apply write_produces|exact Hname]. Qed.

(** An operating system whose every call works, and one whose rename fails. *)
Definition calm : Os := Build_Os (fun _ => false) (fun _ => 0%nat) (fun t i => itoa (N.of_nat (t + i)))
  (fun t => Z.of_nat t) (fun _ => None).

Definition failing (bad : nat) : Os := Build_Os (Nat.eqb bad) (fun _ => 3%nat)
  (fun t i => itoa (N.of_nat (t + i))) (fun t => Z.of_nat t) (fun _ => None).

Lemma Write_atomic_witness :
  let w0 := start {["/c/config.toml" := NFile "old" 384 0]} in
  let run os := @Write os FErr id "/c/config.toml" "new" 384 ".jitenv-*.toml" w0 in
  (run calm).1 = Ok tt /\ fs (run calm).2 !! "/c/config.toml" = Some (NFile "new" 384 2)
  /\ (run (failing 5)).1 = Err (EFault 5) /\ fs (run (failing 5)).2 = fs w0
  /\ exists tmp, evolves (old_or_new "/c/config.toml" tmp "new" 384 (fs w0)) w0 (run (failing 2)).2.
Proof.
  split; [vm_compute; reflexivity|]. split; [vm_compute; reflexivity|]. split; [vm_compute; reflexivity|].
  split; [vm_compute; reflexivity|].
  destruct (@Write_atomic (failing 2) FErr id "/c/config.toml" "new" 384 ".jitenv-*.toml"
    (start {["/c/config.toml" := NFile "old" 384 0]}) _ _ ltac:(intros rnd; vm_compute; discriminate) (surjective_pairing _))
    as (tmp & _ & _ & H & _).
  exists tmp. exact H.
Defined.
End Atomic.
