(* ===== verification/Seal.v ===== *)
(** * Sealing and unsealing a configuration (src/internal/config/encrypt.go, decrypt.go)

    EncryptInPlace assigns opaque identifiers and seals every sensitive value;
    DecryptInPlace is its inverse.  Both mutate their argument, which the
    callers discard when an error comes back: the model returns the new
    configuration or the error.  A panic of [AAD] is the error [AADPanic]. *)

From S2P Require Import Prelude GoString ConfigModel Crypto NameId.
Import Config Crypto NameId.

Module Seal.

Inductive EErr :=
| EName (e : IErr)
| ESource (id : string) (e : CErr)
| EParam (name key : string) (e : CErr)
| ESecret (bag key : string) (e : CErr)
| EVar (i j : nat) (field : string) (e : CErr)
| EExtra (i j : nat) (key : string) (e : CErr).

Definition R_wrap {E F A} (f : E -> F) (m : R E A) : R F A := fun n => wrap_err f (m n).

(** [for k, v := range m { out[g(k)] = f(k, v) }] with an early error return. *)
Definition R_map_into {E V W} (g : string -> string) (f : string -> V -> R E W)
    (out : gmap string W) (l : list (string * V)) : R E (gmap string W) :=
  R_fold (fun acc kv => w ← f kv.1 kv.2; mret (<[g kv.1 := w]> acc)) out l.

Definition res_map_into {E V W} (g : string -> string) (f : string -> V -> res E W)
    (out : gmap string W) (l : list (string * V)) : res E (gmap string W) :=
  res_fold (fun acc kv => w ← f kv.1 kv.2; Ok (<[g kv.1 := w]> acc)) out l.

(** [for i := range l { l[i] = f(i, l[i]) }] with an early error return. *)
Fixpoint R_imap {E A} (f : nat -> A -> R E A) (i : nat) (l : list A) : R E (list A) :=
  match l with
  | [] => mret []
  | x :: l' => y ← f i x; ys ← R_imap f (S i) l'; mret (y :: ys)
  end.

Fixpoint res_imap {E A} (f : nat -> A -> res E A) (i : nat) (l : list A) : res E (list A) :=
  match l with
  | [] => Ok []
  | x :: l' => y ← f i x; ys ← res_imap f (S i) l'; Ok (y :: ys)
  end.

(** ** Comparing dictionaries *)

Definition stringMapEqual (a b : gmap string string) : bool :=
  if negb (size a =? size b)%nat then false
  else forallb (fun kv => match b !! kv.1 with Some bv => String.eqb bv kv.2 | None => false end)
               (map_to_list a).

Definition nameMapEqual (a b : NameMap) : bool :=
  if negb (stringMapEqual (NSources a) (NSources b)) || negb (stringMapEqual (NBags a) (NBags b)) then false
  else if negb (size (NKeys a) =? size (NKeys b))%nat then false
  else forallb (fun kv => match NKeys b !! kv.1 with Some bm => stringMapEqual kv.2 bm | None => false end)
               (map_to_list (NKeys a)).

(** ** Step 1: identifiers *)

Record Asg := mkAsg {
  i2n : gmap string string;     (* the fresh dictionary: ID -> name *)
  n2i : gmap string string;     (* its inverse *)
  used : gset string            (* allIDs *)
}.

Record BagAsg := mkBagAsg {
  bagAsg : Asg;
  nmKeys : gmap string (gmap string string);        (* nm.Keys *)
  keyNameToID : gmap string (gmap string string)    (* bagID -> keyName -> keyID *)
}.

Section Encrypt.
Context `{AEAD, Rand, NameMapCodec, MapRange}.

(** The body of the source, bag and key loops: a known name keeps its ID, a new
    one gets a minted ID that no dictionary entry uses. *)
Definition assign1 (prefix : string) (prevNameToID : gmap string string) (a : Asg) (name : string)
    : R IErr Asg :=
  match prevNameToID !! name with
  | Some id => mret (mkAsg (<[id := name]> (i2n a)) (<[name := id]> (n2i a)) (used a))
  | None =>
      id ← newID prefix (used a);
      mret (mkAsg (<[id := name]> (i2n a)) (<[name := id]> (n2i a)) ({[id]} ∪ used a))
  end.

Definition assign (prefix : string) (prevNameToID : gmap string string) (all : gset string)
    (names : list string) : R IErr Asg :=
  R_fold (assign1 prefix prevNameToID) (mkAsg ∅ ∅ all) names.

Definition bag_step (prev : NameMap) (prevBagNameToID : gmap string string) (b : BagAsg)
    (bkv : string * gmap string string) : R IErr BagAsg :=
  a ← assign1 idPrefixBag prevBagNameToID (bagAsg b) bkv.1;
  let bagID := default "" (n2i a !! bkv.1) in
  let prevKeyNameToID := invert (map_range 12 (default ∅ (NKeys prev !! bagID))) in
  k ← assign idPrefixKey prevKeyNameToID (used a) (map_range 13 bkv.2).*1;
  mret (mkBagAsg (mkAsg (i2n a) (n2i a) (used k))
                 (<[bagID := i2n k]> (nmKeys b)) (<[bagID := n2i k]> (keyNameToID b))).

(** Every ID of the prior dictionary. *)
Definition all_prev_ids (prev : NameMap) : gset string :=
  dom (NSources prev) ∪ dom (NBags prev) ∪ ⋃ ((fun kv => dom kv.2) <$> map_to_list (NKeys prev)).

Record IDs := mkIDs {
  newNm : NameMap;
  srcNameToID : gmap string string;
  bagNameToID : gmap string string;
  keyIDs : gmap string (gmap string string)
}.

Definition assign_ids (prev : NameMap) (c : Config) : R IErr IDs :=
  s ← assign idPrefixSource (nameToID 10 (NSources prev)) (all_prev_ids prev) (map_range 14 (Sources c)).*1;
  b ← R_fold (bag_step prev (nameToID 11 (NBags prev))) (mkBagAsg (mkAsg ∅ ∅ (used s)) ∅ ∅)
             (map_range 15 (Secrets c));
  mret (mkIDs (mkNameMap (i2n s) (i2n (bagAsg b)) (nmKeys b)) (n2i s) (n2i (bagAsg b)) (keyNameToID b)).

(** ** Step 2: sources and secrets *)

(** The common test of every value: empty and already sealed values stay. *)
Definition enc_value (key s : string) (aad : option string) : R CErr string :=
  if str_empty s || IsEnvelope s then mret s
  else match aad with None => R_err AADPanic | Some ad => EncryptField key s ad end.

Definition enc_param (key sid k : string) (v : any) : R CErr any :=
  match v with
  | AStr s => s' ← enc_value key s (SourceParamAAD sid k); mret (AStr s')
  | _ => mret v
  end.

Definition id_of (m : gmap string string) (name : string) : string := default "" (m !! name).

Definition enc_source (key sid name : string) (sc : SourceConfig) : R EErr SourceConfig :=
  ps ← R_map_into id (fun k v => R_wrap (EParam name k) (enc_param key sid k v))
         (Params sc) (map_range 16 (Params sc));
  mret (mkSource (Type_ sc) ps).

Definition enc_bag (key bagID bag : string) (keyNameToID : gmap string string)
    (kv : gmap string string) : R EErr (gmap string string) :=
  R_map_into (id_of keyNameToID)
    (fun k v => R_wrap (ESecret bag k) (enc_value key v (SecretAAD bagID (id_of keyNameToID k))))
    ∅ (map_range 18 kv).

(** ** Step 3: vars *)

(** [sources] is already keyed by ID. *)
Definition translateVarNamesToIDs (sources : gmap string SourceConfig) (ids : IDs) (v : VarRef) : VarRef :=
  if str_empty (Source v) || IsEnvelope (Source v) then v
  else match srcNameToID ids !! Source v with
       | None => v
       | Some srcID =>
           let local := match sources !! srcID with
                        | Some sc => String.eqb (Type_ sc) "local" | None => false end in
           if negb local then mkVar (Name v) srcID (Ref v) (Key v) (Extra v) (Value v)
           else if negb (str_empty (Ref v)) && negb (IsEnvelope (Ref v)) then
             match bagNameToID ids !! Ref v with
             | Some bagID =>
                 let key := if negb (str_empty (Key v)) && negb (IsEnvelope (Key v)) then
                              match (keyIDs ids !! bagID) ≫= (fun m => m !! Key v) with
                              | Some keyID => keyID | None => Key v
                              end
                            else Key v in
                 mkVar (Name v) srcID bagID key (Extra v) (Value v)
             | None => mkVar (Name v) srcID (Ref v) (Key v) (Extra v) (Value v)
             end
           else mkVar (Name v) srcID (Ref v) (Key v) (Extra v) (Value v)
       end.

Definition enc_field (key : string) (i j : nat) (f : var_field) (s : string) : R EErr string :=
  R_wrap (EVar i j (field_name f)) (enc_value key s (VarFieldAAD i j (field_name f))).

Definition enc_var (key : string) (i j : nat) (v : VarRef) : R EErr VarRef :=
  n ← enc_field key i j FName (Name v);
  s ← enc_field key i j FSource (Source v);
  r ← enc_field key i j FRef (Ref v);
  k ← enc_field key i j FKey (Key v);
  l ← enc_field key i j FValue (Value v);
  x ← R_map_into id (fun k' ev => R_wrap (EExtra i j k') (enc_value key ev (VarExtraAAD i j k')))
        (Extra v) (map_range 19 (Extra v));
  mret (mkVar n s r k x l).

Definition enc_mapping (key : string) (sources : gmap string SourceConfig) (ids : IDs) (i : nat) (m : Mapping)
    : R EErr Mapping :=
  vs ← R_imap (fun j v => enc_var key i j (translateVarNamesToIDs sources ids v)) 0 (Vars m);
  mret (mkMapping (Path m) (Glob m) (CwdGlob m) (Commands m) vs).

(** ** Step 4 and the whole *)

Definition with_name_map (m : Meta) (env : string) : Meta :=
  mkMeta (KDF m) (ArgonTime m) (ArgonMemoryKiB m) (ArgonThreads m) (Salt m) (Verify m) env (MigratedAt m).

Definition prev_names (key : string) (c : Config) : res IErr NameMap :=
  match IDMap c with
  | Some nm => Ok nm
  | None => openNameMap key (NameMapEnv (CMeta c))
  end.

Definition EncryptInPlace (c : Config) (key : string) : R EErr Config :=
  let env := NameMapEnv (CMeta c) in
  prev ← R_lift (wrap_err EName (prev_names key c));
  sealedPrev ← R_lift (if str_empty env then Ok empty_names else wrap_err EName (openNameMap key env));
  ids ← R_wrap EName (assign_ids prev c);
  newSources ← R_map_into (id_of (srcNameToID ids))
                 (fun name sc => enc_source key (id_of (srcNameToID ids) name) name sc)
                 ∅ (map_range 17 (Sources c));
  newSecrets ← R_map_into (id_of (bagNameToID ids))
                 (fun bag kv => let bagID := id_of (bagNameToID ids) bag in
                                enc_bag key bagID bag (default ∅ (keyIDs ids !! bagID)) kv)
                 ∅ (map_range 20 (Secrets c));
  maps ← R_imap (enc_mapping key newSources ids) 0 (Mappings c);
  env' ← (if str_empty env || negb (nameMapEqual sealedPrev (newNm ids))
          then R_wrap EName (sealNameMap key (newNm ids)) else mret env);
  mret (mkConfig (CVersion c) (with_name_map (CMeta c) env') (CAgent c) newSources maps newSecrets
                 (Some (newNm ids))).

(** ** DecryptInPlace *)

Definition dec_value (key s : string) (aad : option string) : res CErr string :=
  if IsEnvelope s then match aad with None => Err AADPanic | Some ad => DecryptField key s ad end
  else Ok s.

Definition dec_source (key id : string) (s : SourceConfig) : res EErr SourceConfig :=
  if bool_decide (Params s = ∅) then Ok s
  else match AAD ["src"; id] with
       | None => Err (ESource id AADPanic)
       | Some ctx =>
           ps ← wrap_err (ESource id) (DecryptStringsInPlace key (Params s) ctx);
           Ok (mkSource (Type_ s) ps)
       end.

Definition dec_bag (key bagID : string) (kv : gmap string string) : res EErr (gmap string string) :=
  res_map_into id (fun k v => wrap_err (ESecret bagID k) (dec_value key v (SecretAAD bagID k)))
    kv (map_range 23 kv).

Definition dec_field (key : string) (i j : nat) (f : var_field) (s : string) : res EErr string :=
  wrap_err (EVar i j (field_name f)) (dec_value key s (VarFieldAAD i j (field_name f))).

Definition dec_var (key : string) (i j : nat) (v : VarRef) : res EErr VarRef :=
  n ← dec_field key i j FName (Name v);
  s ← dec_field key i j FSource (Source v);
  r ← dec_field key i j FRef (Ref v);
  k ← dec_field key i j FKey (Key v);
  l ← dec_field key i j FValue (Value v);
  x ← res_map_into id (fun k' ev => wrap_err (EExtra i j k') (dec_value key ev (VarExtraAAD i j k')))
        (Extra v) (map_range 24 (Extra v));
  Ok (mkVar n s r k x l).

Definition dec_mapping (key : string) (i : nat) (m : Mapping) : res EErr Mapping :=
  vs ← res_imap (dec_var key i) 0 (Vars m);
  Ok (mkMapping (Path m) (Glob m) (CwdGlob m) (Commands m) vs).

Definition rekey {V} (site : nat) (f : string -> string) (m : gmap string V) : gmap string V :=
  fold_left (fun acc kv => <[f kv.1 := kv.2]> acc) (map_range site m) ∅.

(** The name of an ID; an ID without an entry is kept. *)
Definition name_of (m : gmap string string) (id : string) : string := default id (m !! id).

Definition name_var (nm : NameMap) (srcTypeByID : gmap string string) (v : VarRef) : VarRef :=
  if str_empty (Source v) then v
  else
    let isLocal := String.eqb (default "" (srcTypeByID !! Source v)) "local" in
    let source := name_of (NSources nm) (Source v) in
    if negb isLocal then mkVar (Name v) source (Ref v) (Key v) (Extra v) (Value v)
    else
      let bagID := Ref v in
      let key := if str_empty (Key v) then Key v
                 else default (Key v) ((NKeys nm !! bagID) ≫= (fun m => m !! Key v)) in
      mkVar (Name v) source (name_of (NBags nm) bagID) key (Extra v) (Value v).

Definition translateIDsToNames (c : Config) (nm : NameMap) : Config :=
  let srcTypeByID := Type_ <$> Sources c in
  let sources := if bool_decide (NSources nm <> ∅) && bool_decide (Sources c <> ∅)
                 then rekey 26 (name_of (NSources nm)) (Sources c) else Sources c in
  let secrets := if bool_decide (Secrets c <> ∅)
                 then fold_left (fun acc bkv =>
                        <[name_of (NBags nm) bkv.1 :=
                          rekey 28 (name_of (default ∅ (NKeys nm !! bkv.1))) bkv.2]> acc)
                        (map_range 27 (Secrets c)) ∅
                 else Secrets c in
  let maps := (fun m => mkMapping (Path m) (Glob m) (CwdGlob m) (Commands m)
                          (name_var nm srcTypeByID <$> Vars m)) <$> Mappings c in
  mkConfig (CVersion c) (CMeta c) (CAgent c) sources maps secrets (IDMap c).

Definition with_id_map (c : Config) (nm : NameMap) : Config :=
  mkConfig (CVersion c) (CMeta c) (CAgent c) (Sources c) (Mappings c) (Secrets c) (Some nm).

Definition DecryptInPlace (c : Config) (key : string) : res EErr Config :=
  nm ← wrap_err EName (openNameMap key (NameMapEnv (CMeta c)));
  sources ← res_map_into id (dec_source key) (Sources c) (map_range 21 (Sources c));
  secrets ← res_map_into id (dec_bag key) (Secrets c) (map_range 22 (Secrets c));
  maps ← res_imap (dec_mapping key) 0 (Mappings c);
  Ok (with_id_map (translateIDsToNames
        (mkConfig (CVersion c) (CMeta c) (CAgent c) sources maps secrets (IDMap c)) nm) nm).
End Encrypt.

End Seal.
