(* ===== verification/Store.v ===== *)
(** * The configuration on disk (src/internal/config/config.go, edit.go, migrate.go)

    Loading, creating and saving config.toml, deriving the master key, and the
    migration of a name-keyed configuration to opaque identifiers with its
    backups.  The TOML library and Argon2id are interfaces. *)

From S2P Require Import Prelude GoString GoPath GoTime Fs Atomic Base64 ConfigModel Crypto NameId Seal.
Import Fs Atomic Config Crypto NameId Seal GoTime.

Module Store.

(** github.com/BurntSushi/toml on a Config.  The field tags leave IDMap out of
    the file; [toml_ok] says the strings are ones the format can carry. *)
Class Toml := {
  toml_encode : Config -> option string;
  toml_decode : string -> option Config;
  toml_ok : Config -> Prop
}.

Definition on_disk (c : Config) : Config :=
  mkConfig (CVersion c) (CMeta c) (CAgent c) (Sources c) (Mappings c) (Secrets c) None.

Class TomlLaws `{Toml} : Prop := {
  toml_roundtrip : forall c s, toml_ok c -> toml_encode c = Some s -> toml_decode s = Some (on_disk c)
}.

(** golang.org/x/crypto/argon2: passphrase, salt, time, memory, threads, length. *)
Class Argon := {
  argon2id : string -> string -> Z -> Z -> Z -> nat -> string
}.
Class ArgonLaws `{Argon} : Prop := {
  argon2id_length : forall p s t m th n, String.length (argon2id p s t m th n) = n
}.

Inductive SErr :=
| SFs (e : FErr)
| SParse (path : string)
| SEncode
| SExists (path : string)
| SCrypto (e : CErr)
| SSeal (e : EErr)
| SNoHeader
| SBadSalt
| STimeLow (v : Z)
| SMemoryLow (v : Z)
| SThreadsLow (v : Z)
| SSaltShort (n : nat)
| SIncorrectPassphrase
| SLockHeld (path : string)
| SLockErr (e : FErr)
| SBackupExists (path : string)
| SBackup (e : FErr)
| SDecryptLegacy (e : EErr) (backup : string)
| SReencrypt (e : EErr) (backup : string)
| SSaveMigrated (e : SErr) (backup : string).

(** Code of the crypto layer, drawing from the run's random stream. *)
Definition draw {E F A} (f : E -> F) (m : R E A) : M F A := fun w =>
  match m (draws w) with
  | Ok (a, n) => (Ok a, mkWorld (fs w) (tick w) n (locks w) (trace w))
  | Err e => (Err (f e), w)
  end.

Section Store.
Context `{Os, Rand, AEAD, Toml, Argon, NameMapCodec, MapRange}.

(** ** Load and Save *)

Definition Load (path : string) : M SErr Config :=
  b ← mapErr SFs (read_file path);
  c ← lift (of_option (SParse path) (toml_decode b));
  mret (if (CVersion c =? 0)%Z
        then mkConfig Version (CMeta c) (CAgent c) (Sources c) (Mappings c) (Secrets c) (IDMap c) else c).

(** The streaming encoder; nothing is written when the value cannot be encoded. *)
Definition encode_to (c : Config) (p : string) : M SErr unit :=
  match toml_encode c with
  | Some s => mapErr SFs (write p s)
  | None => throw SEncode
  end.

Definition Save (path : string) (c : Config) : M SErr unit :=
  q ← mapErr SFs (create_trunc path 384);
  encode_to c q.

(** ** Key derivation *)

Definition DefaultArgonTime : Z := 3.
Definition DefaultArgonMemKiB : Z := 64 * 1024.
Definition DefaultArgonThreads : Z := 4.
Definition MinArgonTime : Z := 2.
Definition MinArgonMemKiB : Z := 19 * 1024.
Definition MinArgonThreads : Z := 1.
Definition MinSaltLen : nat := 16.

Definition verifySentinel : string := "jitenv-ok".

Record ArgonParams := mkParams { Time : Z; MemKiB : Z; Threads : Z }.
Definition DefaultArgonParams : ArgonParams := mkParams DefaultArgonTime DefaultArgonMemKiB DefaultArgonThreads.

Definition DeriveKey (passphrase salt : string) (p : ArgonParams) : string :=
  argon2id passphrase salt (Time p) (MemKiB p) (Threads p) KeyLen.

(** nz and nzU8 *)
Definition nz (v d : Z) : Z := if (v =? 0)%Z then d else v.

Definition DeriveKeyFromMeta (c : Config) (passphrase : string) : res SErr string :=
  let m := CMeta c in
  if str_empty (Salt m) || str_empty (Verify m) then Err SNoHeader
  else match Base64.decode (Salt m) with
  | None => Err SBadSalt
  | Some salt =>
      let params := mkParams (nz (ArgonTime m) DefaultArgonTime) (nz (ArgonMemoryKiB m) DefaultArgonMemKiB)
                             (nz (ArgonThreads m) DefaultArgonThreads) in
      if (Time params <? MinArgonTime)%Z then Err (STimeLow (Time params))
      else if (MemKiB params <? MinArgonMemKiB)%Z then Err (SMemoryLow (MemKiB params))
      else if (Threads params <? MinArgonThreads)%Z then Err (SThreadsLow (Threads params))
      else if (String.length salt <? MinSaltLen)%nat then Err (SSaltShort (String.length salt))
      else
        let key := DeriveKey passphrase salt params in
        match DecryptField key (Verify m) metaVerifyAAD with
        | Ok pt => if String.eqb pt verifySentinel then Ok key else Err SIncorrectPassphrase
        | Err _ => Err SIncorrectPassphrase
        end
  end.

Definition NewSalt : R CErr string := rand_bytes SaltLen.

(** The configuration InitNew writes. *)
Definition fresh_config (salt verify : string) : Config :=
  mkConfig Version
    (mkMeta "argon2id" (Time DefaultArgonParams) (MemKiB DefaultArgonParams) (Threads DefaultArgonParams)
            (Base64.encode salt) verify "" "")
    (mkAgentConfig "30m" "" None None) ∅ [] ∅ None.

Definition InitNew (path passphrase : string) : M SErr unit :=
  st ← attempt (mapErr SFs (stat path));
  match st with
  | Ok _ => throw (SExists path)
  | Err _ =>
      salt ← draw SCrypto NewSalt;
      let key := DeriveKey passphrase salt DefaultArgonParams in
      verify ← draw SCrypto (EncryptField key verifySentinel metaVerifyAAD);
      _ ← mapErr SFs (mkdir_all (GoPath.Dir path));
      Save path (fresh_config salt verify)
  end.

(** ** Migration backups *)

Definition migrationBackupKind : string := "id".

Definition backupPath (cfgPath kind : string) (when : Z) : string :=
  cfgPath +:+ ".pre-" +:+ kind +:+ "-migration." +:+ format_dashed when +:+ ".bak".

Definition migrationBackupGlob (cfgPath kind : string) : string :=
  cfgPath +:+ ".pre-" +:+ kind +:+ "-migration.*.bak".

Definition legacyMigrationBackupPath (cfgPath kind : string) : string :=
  cfgPath +:+ ".pre-" +:+ kind +:+ "-migration.bak".

Definition listMigrationBackups {E} (cfgPath kind : string) : M E (list string) := fun w =>
  match glob (migrationBackupGlob cfgPath kind) w with
  | (Ok l, w') => (Ok l, w')
  | (Err _, w') => (Ok [], w')
  end.

(** [for _, p := range l { _ = os.Remove(p) }] *)
Fixpoint remove_each {E} (l : list string) : M E unit :=
  match l with
  | [] => mret tt
  | p :: l' => _ ← (ignore (remove p) : M E unit); remove_each l'
  end.

Definition removeMigrationBackup {E} (path : string) : M E unit :=
  l ← listMigrationBackups path migrationBackupKind;
  _ ← remove_each l;
  ignore (remove (legacyMigrationBackupPath path migrationBackupKind)).

(** The modification time a stat reports. *)
Definition node_mtime (n : node) : Z := match n with NFile _ _ t => t | _ => 0%Z end.

Fixpoint newest {E} (l : list string) (best : option (string * Z)) : M E (option (string * Z)) :=
  match l with
  | [] => mret best
  | p :: l' =>
      st ← attempt (stat p : M FErr node);
      match st with
      | Err _ => newest l' best
      | Ok n =>
          let take := match best with None => true | Some (_, t) => (t <? node_mtime n)%Z end in
          newest l' (if take then Some (p, node_mtime n) else best)
      end
  end.

(** filepath.Abs of the absolute path found is that path, cleaned. *)
Definition MigrationBackupPath {E} (cwd : option string) (cfgPath : string) : M E string :=
  l ← listMigrationBackups cfgPath migrationBackupKind;
  best ← newest l None;
  mret (match best with
        | None => EmptyString
        | Some (p, _) => default p (GoPath.Abs cwd p)
        end).

Definition MigrationBackupRetentionEnv : string := "JITENV_MIGRATION_BACKUP_RETENTION_DAYS".
Definition DefaultMigrationBackupRetention : Z := (30 * 24 * Hour)%Z.

(** time.Duration(n) * 24 * time.Hour, in an int64. *)
Definition days_duration (n : Z) : Z := wrap64 (wrap64 (n * 24) * Hour)%Z.

Definition migrationBackupRetention : Z :=
  match getenv MigrationBackupRetentionEnv with
  | None => DefaultMigrationBackupRetention
  | Some raw =>
      if str_empty raw then DefaultMigrationBackupRetention
      else match atoi raw with
           | None => DefaultMigrationBackupRetention
           | Some n => days_duration n
           end
  end.

(** Whether a save made at [now] (in nanoseconds) removes the backups. *)
Definition backup_expired (meta : Meta) (now : Z) : bool :=
  let retention := migrationBackupRetention in
  if (retention <? 0)%Z then false
  else if str_empty (MigratedAt meta) then false
  else match parse_rfc3339 (MigratedAt meta) with
       | None => false
       | Some t => negb (sat64 (now - t * Second) <? retention)%Z
       end.

Definition sweepMigrationBackupIfExpired {E} (path : string) (meta : Meta) : M E unit :=
  t ← now;
  if backup_expired meta (t * Second)%Z then removeMigrationBackup path else mret tt.

(** ** Saving *)

Definition savePattern : string := ".jitenv-*.toml".

Definition atomicSave (path : string) (c : Config) : M SErr unit :=
  _ ← WriteFunc SFs path 384 savePattern (encode_to c);
  sweepMigrationBackupIfExpired path (CMeta c).

Definition AtomicSave (path : string) (c : Config) : M SErr unit := atomicSave path c.

(** ** Locking and migrating *)

(** flock(LOCK_EX|LOCK_NB) on an open file. *)
Definition flock (path : string) : M SErr unit := fun w =>
  if fails (tick w) then (Err (SLockErr (EFault (tick w))), step w (fs w))
  else if bool_decide (path ∈ locks w) then (Err (SLockHeld path), step w (fs w))
  else (Ok tt, mkWorld (fs w) (S (tick w)) (draws w) ({[path]} ∪ locks w) (fs w :: trace w)).

Definition open_lockfile (path : string) : M FErr unit := fun w =>
  syscall (fun f => match f !! path with
                    | None => Ok (tt, <[path := NFile EmptyString 384 (clock (tick w))]> f)
                    | Some NDir => Err (EIsDir path)
                    | Some _ => Ok (tt, f)
                    end) w.

(** lockfile.Acquire: open or create, then flock without waiting. *)
Definition Acquire (path : string) : M SErr unit :=
  _ ← mapErr SLockErr (open_lockfile path);
  flock path.

Definition Release (path : string) (w : world) : world :=
  mkWorld (fs w) (S (tick w)) (draws w) (locks w ∖ {[path]}) (fs w :: trace w).

(** [lock, err := Acquire(p); defer lock.Close(); body] *)
Definition with_lock {A} (path : string) (body : M SErr A) : M SErr A := fun w =>
  match Acquire path w with
  | (Err e, w') => (Err e, w')
  | (Ok _, w') => match body w' with (r, w'') => (r, Release path w'') end
  end.

Definition writeVerbatimBackup (src dst : string) : M SErr unit :=
  b ← mapErr SBackup (read_file src);
  _ ← (fun w => match create_excl dst 384 w with
                | (Err (EExist _), w') => (Err (SBackupExists dst), w')
                | (Err e, w') => (Err (SBackup e), w')
                | (Ok _, w') => (Ok tt, w')
                end) : M SErr unit;
  _ ← on_err (mapErr SBackup (write dst b)) (ignore (close dst) ≫= fun _ : unit => (ignore (remove dst) : M SErr unit));
  on_err (mapErr SBackup (close dst)) (ignore (remove dst) : M SErr unit).

Definition with_migrated_at (c : Config) (t : string) : Config :=
  mkConfig (CVersion c)
    (mkMeta (KDF (CMeta c)) (ArgonTime (CMeta c)) (ArgonMemoryKiB (CMeta c)) (ArgonThreads (CMeta c))
            (Salt (CMeta c)) (Verify (CMeta c)) (NameMapEnv (CMeta c)) t)
    (CAgent c) (Sources c) (Mappings c) (Secrets c) (IDMap c).

Definition MigrateToOpaqueIDsLocked (path key : string) : M SErr bool :=
  c ← Load path;
  if negb (NeedsIDMigration c) then mret false
  else
    t ← now;
    let bak := backupPath path migrationBackupKind t in
    _ ← writeVerbatimBackup path bak;
    c ← lift (wrap_err (fun e => SDecryptLegacy e bak) (DecryptInPlace c key));
    c ← draw (fun e => SReencrypt e bak) (EncryptInPlace c key);
    t ← now;
    _ ← mapErr (fun e => SSaveMigrated e bak) (atomicSave path (with_migrated_at c (format_rfc3339 t)));
    mret true.

Definition MigrationLockSuffix : string := ".tui.lock".

Definition MigrateToOpaqueIDs (path key : string) : M SErr bool :=
  c ← Load path;
  if negb (NeedsIDMigration c) then mret false
  else with_lock (path +:+ MigrationLockSuffix) (MigrateToOpaqueIDsLocked path key).
End Store.
End Store.
