(* ===== verification/Toys.v ===== *)
(** * Concrete interfaces for the witnesses

    Codecs from the countability of the data, a key derivation of the right
    length, and operating systems that work, or fail at one call.  They only show
    that the hypotheses of the theorems can hold together. *)

From S2P Require Import Prelude GoString ConfigModel Crypto NameId Fs Store.
Import Fs Crypto NameId Store Config.

Module Toys.

(** A positive number as the bytes of its bits, least significant first. *)
Fixpoint bits (p : positive) : list bool :=
  match p with
  | xH => [true]
  | xO p' => false :: bits p'
  | xI p' => true :: bits p'
  end.

Fixpoint pack (n : nat) (l : list bool) : string :=
  match n with
  | O => EmptyString
  | S n' =>
      match l with
      | [] => EmptyString
      | _ => let b (i : nat) : bool := nth i l false in
             String (Ascii (b 0) (b 1) (b 2) (b 3) (b 4) (b 5) (b 6) (b 7)) (pack n' (drop 8 l))
      end
  end%nat.

Fixpoint unpack (s : string) : list bool :=
  match s with
  | EmptyString => []
  | String (Ascii a b c d e f g h) s' => [a; b; c; d; e; f; g; h] ++ unpack s'
  end.

(** The bits up to the last one set. *)
Definition unbits (l : list bool) : positive :=
  default xH (fold_right (fun (b : bool) (acc : option positive) => match acc with
    | None => if b then Some xH else None
    | Some p => Some (if b then xI p else xO p) end) None l).

Definition pos_bytes (p : positive) : string := pack (length (bits p)) (bits p).
Definition bytes_pos (s : string) : positive := unbits (unpack s).

Lemma unpack_pack n l : (length l <= n)%nat -> exists k, unpack (pack n l) = l ++ replicate k false.
Proof.
  revert l. induction n as [|n IH]; intros l Hl.
  - destruct l; [|simpl in Hl; lia]. by exists 0%nat.
  - destruct l as [|b0 l]; [by exists 0%nat|].
    destruct l as [|b1 l]; [exists 7%nat; by destruct n|].
    destruct l as [|b2 l]; [exists 6%nat; by destruct n|].
    destruct l as [|b3 l]; [exists 5%nat; by destruct n|].
    destruct l as [|b4 l]; [exists 4%nat; by destruct n|].
    destruct l as [|b5 l]; [exists 3%nat; by destruct n|].
    destruct l as [|b6 l]; [exists 2%nat; by destruct n|].
    destruct l as [|b7 l]; [exists 1%nat; by destruct n|].
    simpl. destruct (IH l) as [k Hk]; [simpl in Hl; lia|]. exists k. rewrite drop_0. by rewrite Hk.
Qed.

Lemma unbits_bits p k : unbits (bits p ++ replicate k false) = p.
Proof.
  unfold unbits.
  assert (Hk : forall k, fold_right (fun (b : bool) (acc : option positive) => match acc with
    | None => if b then Some xH else None | Some p => Some (if b then xI p else xO p) end) None (replicate k false) = None).
  { intros j. induction j as [|j IH]; [done|]. simpl. by rewrite IH. }
  assert (Hp : fold_right (fun (b : bool) (acc : option positive) => match acc with
    | None => if b then Some xH else None | Some p => Some (if b then xI p else xO p) end) None
    (bits p ++ replicate k false) = Some p).
  { induction p as [p IH|p IH|]; simpl; rewrite ?IH, ?Hk; done. }
  by rewrite Hp.
Qed.

Lemma bytes_pos_bytes p : bytes_pos (pos_bytes p) = p.
Proof.
  unfold bytes_pos, pos_bytes. destruct (unpack_pack (length (bits p)) (bits p)) as [k ->]; [done|].
  apply unbits_bits.
Qed.

Definition to_text `{Countable A} (a : A) : string := pos_bytes (encode a).
Definition of_text `{Countable A} (s : string) : option A := decode (bytes_pos s).

Lemma of_to_text `{Countable A} (a : A) : of_text (to_text a) = Some a.
Proof. unfold of_text, to_text. by rewrite bytes_pos_bytes, decode_encode. Qed.

Lemma to_text_nonempty `{Countable A} (a : A) : to_text a <> "".
Proof.
  unfold to_text, pos_bytes.
  assert (Hb : exists b l, bits (encode a) = b :: l) by (destruct (encode a); by eexists _, _).
  destruct Hb as (b & l & ->). discriminate.
Qed.

#[export] Instance toy_codec : NameMapCodec := {|
  marshal nm := to_text [encode (NSources nm); encode (NBags nm); encode (NKeys nm)];
  unmarshal s := l ← of_text (A := list positive) s;
                 match l with
                 | [a; b; k] => a ← decode a; b ← decode b; k ← decode k; Some (mkNameMap a b k)
                 | _ => None
                 end;
  codec_ok _ := True
|}.

#[export] Instance toy_codec_laws : NameMapCodecLaws.
Proof. constructor. intros [a b k] _. cbn [unmarshal marshal toy_codec NSources NBags NKeys]. rewrite of_to_text.
  cbn [mbind option_bind]. by rewrite !decode_encode. Qed.

(** ** Configurations are countable *)

Fixpoint any_tree (v : any) : gen_tree (string + (Z + bool)) :=
  match v with
  | AStr s => GenLeaf (inl s)
  | AInt z => GenLeaf (inr (inl z))
  | ABool b => GenLeaf (inr (inr b))
  | AList l => GenNode 0 (map any_tree l)
  | AMap m => GenNode 1 (map (fun kv => GenNode 0 [GenLeaf (inl kv.1); any_tree kv.2]) m)
  end.

Fixpoint tree_any (t : gen_tree (string + (Z + bool))) : any :=
  match t with
  | GenLeaf (inl s) => AStr s
  | GenLeaf (inr (inl z)) => AInt z
  | GenLeaf (inr (inr b)) => ABool b
  | GenNode O l => AList (map tree_any l)
  | GenNode _ m =>
      AMap (map (fun e => match e with
                          | GenNode _ [GenLeaf (inl k); x] => (k, tree_any x)
                          | _ => (EmptyString, ABool false)
                          end) m)
  end.

Fixpoint tree_any_tree (v : any) : tree_any (any_tree v) = v.
Proof.
  destruct v as [s|z|b|l|m]; simpl; try done.
  - f_equal. induction l as [|x l IH]; [done|]. simpl. by rewrite tree_any_tree, IH.
  - f_equal. induction m as [|[k x] m IH]; [done|]. simpl. by rewrite tree_any_tree, IH.
Qed.

#[export] Instance any_eq_dec : EqDecision any.
Proof.
  intros x y. destruct (decide (any_tree x = any_tree y)) as [He|He]; [left|right; congruence].
  by rewrite <- (tree_any_tree x), He, tree_any_tree.
Defined.

#[export] Instance any_countable : Countable any := inj_countable' any_tree tree_any tree_any_tree.

#[export] Instance Meta_eq_dec : EqDecision Meta.
Proof. solve_decision. Defined.
#[export] Instance AgentConfig_eq_dec : EqDecision AgentConfig.
Proof. solve_decision. Defined.
#[export] Instance SourceConfig_eq_dec : EqDecision SourceConfig.
Proof. solve_decision. Defined.
#[export] Instance Mapping_eq_dec : EqDecision Mapping.
Proof. solve_decision. Defined.

#[export] Instance Meta_countable : Countable Meta.
Proof.
  refine (inj_countable (fun r => [encode (KDF r); encode (ArgonTime r); encode (ArgonMemoryKiB r); encode (ArgonThreads r); encode (Salt r); encode (Verify r); encode (NameMapEnv r); encode (MigratedAt r)])
    (fun l => match l with
              | [a; b; c; d; e; f; g; h] =>
                  a ← decode a; b ← decode b; c ← decode c; d ← decode d; e ← decode e; f ← decode f; g ← decode g; h ← decode h; Some (mkMeta a b c d e f g h)
              | _ => None
              end) _).
  intros []. cbn. by rewrite !decode_encode.
Defined.

#[export] Instance AgentConfig_countable : Countable AgentConfig.
Proof.
  refine (inj_countable (fun r => [encode (IdleTimeout r); encode (SocketPath r); encode (PreRunNotice r); encode (VersionCheck r)])
    (fun l => match l with
              | [a; b; c; d] =>
                  a ← decode a; b ← decode b; c ← decode c; d ← decode d; Some (mkAgentConfig a b c d)
              | _ => None
              end) _).
  intros []. cbn. by rewrite !decode_encode.
Defined.

#[export] Instance SourceConfig_countable : Countable SourceConfig.
Proof.
  refine (inj_countable (fun r => [encode (Type_ r); encode (Params r)])
    (fun l => match l with
              | [a; b] =>
                  a ← decode a; b ← decode b; Some (mkSource a b)
              | _ => None
              end) _).
  intros []. cbn. by rewrite !decode_encode.
Defined.

#[export] Instance VarRef_countable : Countable VarRef.
Proof.
  refine (inj_countable (fun r => [encode (Name r); encode (Source r); encode (Ref r); encode (Key r); encode (Extra r); encode (Value r)])
    (fun l => match l with
              | [a; b; c; d; e; f] =>
                  a ← decode a; b ← decode b; c ← decode c; d ← decode d; e ← decode e; f ← decode f; Some (mkVar a b c d e f)
              | _ => None
              end) _).
  intros []. cbn. by rewrite !decode_encode.
Defined.

#[export] Instance Mapping_countable : Countable Mapping.
Proof.
  refine (inj_countable (fun r => [encode (Path r); encode (Glob r); encode (CwdGlob r); encode (Commands r); encode (Vars r)])
    (fun l => match l with
              | [a; b; c; d; e] =>
                  a ← decode a; b ← decode b; c ← decode c; d ← decode d; e ← decode e; Some (mkMapping a b c d e)
              | _ => None
              end) _).
  intros []. cbn. by rewrite !decode_encode.
Defined.

(** The parts of a configuration that are on disk. *)
Definition config_text (c : Config) : string :=
  to_text [encode (CVersion c); encode (CMeta c); encode (CAgent c); encode (Sources c); encode (Mappings c);
           encode (Secrets c)].

Definition text_config (s : string) : option Config :=
  l ← of_text (A := list positive) s;
  match l with
  | [v; m; a; ss; ms; se] =>
      v ← decode v; m ← decode m; a ← decode a; ss ← decode ss; ms ← decode ms; se ← decode se;
      Some (mkConfig v m a ss ms se None)
  | _ => None
  end.

#[export] Instance toy_toml : Toml := {|
  toml_encode c := Some (config_text c);
  toml_decode := text_config;
  toml_ok _ := True
|}.

#[export] Instance toy_toml_laws : TomlLaws.
Proof.
  constructor. intros c s _ Hs. cbn [toml_encode toy_toml] in Hs. injection Hs as <-.
  cbn [toml_decode toy_toml]. unfold text_config, config_text. rewrite of_to_text. cbn [mbind option_bind].
  rewrite !decode_encode. by destruct c.
Qed.

#[export] Instance toy_argon : Argon := {| argon2id p s t m th n := str_take n (p +:+ s +:+ pad n) |}.

Lemma pad_length n : String.length (pad n) = n.
Proof. induction n as [|n IH]; simpl; by rewrite ?IH. Qed.

#[export] Instance toy_argon_laws : ArgonLaws.
Proof.
  constructor. intros p s t m th n. simpl. apply str_length_take. rewrite !str_length_app, pad_length. lia.
Qed.

(** ** Operating systems *)

Definition calm_os : Os := Build_Os (fun _ => false) (fun _ => 0%nat) (fun t i => itoa (N.of_nat (t + i)))
  (fun t => Z.of_nat t) (fun _ => None).

(** Call number [bad] fails, and a failed write leaves three bytes. *)
Definition failing_os (bad : nat) : Os := Build_Os (Nat.eqb bad) (fun _ => 3%nat)
  (fun t i => itoa (N.of_nat (t + i))) (fun t => Z.of_nat t) (fun _ => None).

(** A clock that stands still in October 2025, and an optional failing call. *)
Definition still_os (bad : option nat) : Os :=
  Build_Os (fun t => match bad with Some b => Nat.eqb b t | None => false end) (fun _ => 3%nat)
    (fun t i => itoa (N.of_nat (t + i))) (fun _ => 1760000000%Z) (fun _ => None).
End Toys.
