(* ===== verification/SealIds.v ===== *)
(** * Identifier assignment of EncryptInPlace

    Loop lemmas for the sealing walkers, and the invariant of the source, bag
    and key loops: the fresh dictionary and its inverse are mutually inverse
    and cover exactly the names of the configuration, and a name the prior
    dictionary knows keeps its identifier. *)

From S2P Require Import Prelude GoString ConfigModel Crypto NameId Seal.
Import Config Crypto NameId Seal.

Module SealIds.

(** ** Loops *)

Lemma R_ret_ok {E A} (a b : A) n n' : (mret a : R E A) n = Ok (b, n') <-> a = b /\ n = n'.
Proof. unfold mret, R_ret. naive_solver. Qed.

Lemma R_wrap_ok {E F A} (f : E -> F) (m : R E A) n x : R_wrap f m n = Ok x <-> m n = Ok x.
Proof. unfold R_wrap, wrap_err. destruct (m n); naive_solver. Qed.

Lemma R_lift_ok {E A} (r : res E A) (a : A) n n' : R_lift r n = Ok (a, n') <-> r = Ok a /\ n = n'.
Proof. unfold R_lift. destruct r; naive_solver. Qed.

Lemma wrap_err_ok {E F A} (f : E -> F) (r : res E A) x : wrap_err f r = Ok x <-> r = Ok x.
Proof. destruct r; naive_solver. Qed.

(** Invariants of a fold over the processed prefix. *)
Lemma R_fold_inv {E A B} (P : list A -> B -> Prop) (f : B -> A -> R E B) l b n b' n' :
  (forall done a b n b' n', P done b -> a ∈ l -> f b a n = Ok (b', n') -> P (done ++ [a]) b') ->
  P [] b -> R_fold f b l n = Ok (b', n') -> P l b'.
Proof.
  intros Hstep.
  assert (Hg : forall l2 pre b n, (forall a, a ∈ l2 -> a ∈ l) -> P pre b ->
    R_fold f b l2 n = Ok (b', n') -> P (pre ++ l2) b').
  { induction l2 as [|a l2 IH]; intros pre b0 n0 Hin Hp; simpl.
    - intros [-> _]%R_ret_ok. by rewrite app_nil_r.
    - intros (b1 & n1 & Hf & Hr)%R_bind_ok. rewrite cons_middle, app_assoc.
      eapply IH; [set_solver| |exact Hr]. eapply Hstep; [done|set_solver|exact Hf]. }
  intros Hb. by apply (Hg l [] b n).
Qed.

Section MapInto.
Context {E V W : Type} (g : string -> string).

(** What a keyed rewriting loop leaves in its output map. *)
Definition map_into_spec (l : list (string * V)) (out out' : gmap string W)
    (F : string -> V -> W -> Prop) : Prop :=
  (forall k v, (k, v) ∈ l -> exists w, F k v w /\ out' !! g k = Some w)
  /\ (forall k', k' ∉ (fun kv => g kv.1) <$> l -> out' !! k' = out !! k').

Lemma map_into_spec_cons k v w l out out' F :
  g k ∉ (fun kv => g kv.1) <$> l -> F k v w ->
  map_into_spec l (<[g k := w]> out) out' F -> map_into_spec ((k, v) :: l) out out' F.
Proof.
  intros Hk Hf [H1 H2]. split.
  - intros k' v' [[= -> ->]|Hin]%elem_of_cons; [|by apply H1].
    exists w. split; [done|]. rewrite H2 by done. apply lookup_insert_eq.
  - intros k' Hk'. rewrite fmap_cons in Hk'. rewrite H2 by set_solver.
    apply lookup_insert_ne. simpl in Hk'. set_solver.
Qed.

Lemma R_map_into_spec (f : string -> V -> R E W) l out n out' n' :
  NoDup ((fun kv => g kv.1) <$> l) -> R_map_into g f out l n = Ok (out', n') ->
  map_into_spec l out out' (fun k v w => exists n1 n2, f k v n1 = Ok (w, n2)).
Proof.
  revert out n. induction l as [|[k v] l IH]; intros out n Hnd; unfold R_map_into; simpl.
  - intros [-> _]%R_ret_ok. split; [set_solver|done].
  - rewrite fmap_cons in Hnd. apply NoDup_cons in Hnd as [Hk Hnd].
    intros (b1 & n1 & (w & n2 & Hf & [<- <-]%R_ret_ok)%R_bind_ok & Hr)%R_bind_ok.
    eapply map_into_spec_cons; [done|by exists n, n2|]. by eapply IH.
Qed.

Lemma res_map_into_ok (f : string -> V -> res E W) (Q : string -> V -> W -> Prop) l out :
  NoDup ((fun kv => g kv.1) <$> l) -> (forall k v, (k, v) ∈ l -> exists w, f k v = Ok w /\ Q k v w) ->
  exists out', res_map_into g f out l = Ok out' /\ map_into_spec l out out' Q.
Proof.
  revert out. induction l as [|[k v] l IH]; intros out Hnd Hf; unfold res_map_into; simpl.
  - exists out. split; [done|]. split; [set_solver|done].
  - rewrite fmap_cons in Hnd. apply NoDup_cons in Hnd as [Hk Hnd].
    destruct (Hf k v) as (w & Hw & HQ); [set_solver|]. rewrite Hw. simpl.
    destruct (IH (<[g k := w]> out) Hnd) as (out' & Ho & Hs); [set_solver|].
    exists out'. split; [exact Ho|]. by eapply map_into_spec_cons.
Qed.
End MapInto.

Lemma NoDup_map_range_id `{MapRange} {V} site (m : gmap string V) :
  NoDup ((fun kv : string * V => id kv.1) <$> map_range site m).
Proof. apply (NoDup_map_range_fst site m). Qed.

Lemma NoDup_map_range_inj `{MapRange} {V} site (m : gmap string V) (g : string -> string) :
  (forall k k', is_Some (m !! k) -> is_Some (m !! k') -> g k = g k' -> k = k') ->
  NoDup ((fun kv : string * V => g kv.1) <$> map_range site m).
Proof.
  intros Hg.
  assert (Hc : (fun kv : string * V => g kv.1) <$> map_range site m = g <$> (map_range site m).*1)
    by (by rewrite <- list_fmap_compose).
  rewrite Hc.
  apply NoDup_fmap_2_strong; [|apply NoDup_map_range_fst].
  intros k k' ([k1 v1] & -> & H1)%list_elem_of_fmap ([k2 v2] & -> & H2)%list_elem_of_fmap.
  apply elem_of_map_range in H1, H2. by apply Hg.
Qed.

(** A loop that rewrites every entry of the map it ranges over. *)
Lemma map_into_spec_id `{MapRange} {V} site (m m' : gmap string V) F k v :
  map_into_spec id (map_range site m) m m' F -> m !! k = Some v -> exists w, F k v w /\ m' !! k = Some w.
Proof. intros [H1 _] Hk. apply (H1 k v). by apply elem_of_map_range. Qed.

Lemma map_into_spec_id_None `{MapRange} {V} site (m m' : gmap string V) F k :
  map_into_spec id (map_range site m) m m' F -> m !! k = None -> m' !! k = None.
Proof.
  intros [_ H2] Hk. rewrite H2; [done|]. intros ([k' v'] & -> & Hin)%list_elem_of_fmap.
  apply elem_of_map_range in Hin. unfold id in Hk. simpl in *. congruence.
Qed.

Lemma map_into_spec_into `{MapRange} {V W} site g (m : gmap string V) (m' : gmap string W) F k' w :
  map_into_spec g (map_range site m) ∅ m' F -> m' !! k' = Some w ->
  exists k v, m !! k = Some v /\ k' = g k /\ F k v w.
Proof.
  intros [H1 H2] Hk'. destruct (decide (k' ∈ (fun kv => g kv.1) <$> map_range site m)) as [Hin|Hin].
  - apply list_elem_of_fmap in Hin as ([k v] & -> & Hin). destruct (H1 k v Hin) as (w' & HF & Hw).
    simpl in *. exists k, v. apply elem_of_map_range in Hin. split; [done|]. split; [done|]. congruence.
  - rewrite H2 in Hk' by done. by rewrite lookup_empty in Hk'.
Qed.

Lemma R_imap_spec {E A} (f : nat -> A -> R E A) i l n l' n' :
  R_imap f i l n = Ok (l', n') ->
  length l' = length l
  /\ forall j x, l !! j = Some x -> exists y n1 n2, l' !! j = Some y /\ f (i + j)%nat x n1 = Ok (y, n2).
Proof.
  revert i n l'. induction l as [|x l IH]; intros i n l'; simpl.
  - intros [<- _]%R_ret_ok. done.
  - intros (y & n1 & Hf & (ys & n2 & Hr & [<- <-]%R_ret_ok)%R_bind_ok)%R_bind_ok.
    apply IH in Hr as [Hl Hr]. simpl. split; [congruence|]. intros [|j] z Hz; simpl in *.
    + simplify_eq. exists y, n, n1. by rewrite Nat.add_0_r.
    + rewrite Nat.add_succ_r. by apply Hr.
Qed.

Lemma res_imap_ok {E A} (f : nat -> A -> res E A) i l l' :
  length l' = length l ->
  (forall j x y, l !! j = Some x -> l' !! j = Some y -> f (i + j)%nat x = Ok y) ->
  res_imap f i l = Ok l'.
Proof.
  revert i l'. induction l as [|x l IH]; intros i [|y l'] Hl Hf; try done; simpl.
  pose proof (Hf O x y eq_refl eq_refl) as H0. rewrite Nat.add_0_r in H0. rewrite H0. simpl.
  rewrite (IH (S i) l'); [done|by simpl in Hl; lia|].
  intros j x' y' Hx Hy. specialize (Hf (S j) x' y' Hx Hy). by rewrite Nat.add_succ_r in Hf.
Qed.

(** ** Dictionaries *)

(** A dictionary and its inverse. *)
Definition inverse (i2n n2i : gmap string string) : Prop :=
  forall id name, i2n !! id = Some name <-> n2i !! name = Some id.

Definition injective (m : gmap string string) : Prop :=
  forall x y z, m !! x = Some z -> m !! y = Some z -> x = y.

Lemma inverse_inj i2n n2i : inverse i2n n2i -> injective n2i.
Proof. intros Hi x y z Hx%Hi Hy%Hi. congruence. Qed.

Lemma inverse_empty : inverse ∅ ∅.
Proof. intros ??. by rewrite !lookup_empty. Qed.

Lemma inverse_insert i2n n2i id name :
  inverse i2n n2i -> i2n !! id = None -> n2i !! name = None ->
  inverse (<[id := name]> i2n) (<[name := id]> n2i).
Proof.
  intros Hi Hid Hn x y. split.
  - intros [[<- <-]|[Hx Hy]]%lookup_insert_Some; [apply lookup_insert_eq|].
    apply Hi in Hy as Hy'. rewrite lookup_insert_ne; [done|]. congruence.
  - intros [[<- <-]|[Hx Hy]]%lookup_insert_Some; [apply lookup_insert_eq|].
    apply Hi in Hy as Hy'. rewrite lookup_insert_ne; [done|]. congruence.
Qed.

Lemma stringMapEqual_spec a b : stringMapEqual a b = true <-> a = b.
Proof.
  unfold stringMapEqual. split.
  - destruct (Nat.eqb_spec (size a) (size b)) as [Hs|]; [|done]. simpl. intros Hf.
    rewrite forallb_forall in Hf.
    assert (Hsub : a ⊆ b).
    { apply map_subseteq_spec. intros k v Hk.
      specialize (Hf (k, v) (proj1 (list_elem_of_In _ _) (proj2 (elem_of_map_to_list _ _ _) Hk))).
      simpl in Hf. destruct (b !! k) as [bv|]; [|done]. by apply String.eqb_eq in Hf as ->. }
    apply map_subseteq_size_eq; [done|lia].
  - intros ->. rewrite Nat.eqb_refl. simpl. apply forallb_forall.
    intros [k v] Hin%list_elem_of_In%elem_of_map_to_list. simpl. rewrite Hin. apply String.eqb_refl.
Qed.

Lemma nameMapEqual_spec a b : nameMapEqual a b = true <-> a = b.
Proof.
  destruct a as [s1 b1 k1], b as [s2 b2 k2]. unfold nameMapEqual. cbn [NSources NBags NKeys].
  assert (Hk : (if negb (size k1 =? size k2)%nat then false
      else forallb (fun kv => match k2 !! kv.1 with Some bm => stringMapEqual kv.2 bm | None => false end)
             (map_to_list k1)) = true <-> k1 = k2).
  { split.
    - destruct (Nat.eqb_spec (size k1) (size k2)) as [Hs|]; [|done]. simpl. intros Hf.
      rewrite forallb_forall in Hf. apply map_subseteq_size_eq; [|lia]. apply map_subseteq_spec.
      intros k v Hkv.
      specialize (Hf (k, v) (proj1 (list_elem_of_In _ _) (proj2 (elem_of_map_to_list _ _ _) Hkv))).
      simpl in Hf. destruct (k2 !! k) as [bm|]; [|done]. by apply stringMapEqual_spec in Hf as ->.
    - intros ->. rewrite Nat.eqb_refl. simpl. apply forallb_forall.
      intros [k v] Hin%list_elem_of_In%elem_of_map_to_list. simpl. rewrite Hin. by apply stringMapEqual_spec. }
  destruct (stringMapEqual s1 s2) eqn:H1, (stringMapEqual b1 b2) eqn:H2; cbn [negb orb];
    rewrite ?Hk; try apply stringMapEqual_spec in H1 as ->; try apply stringMapEqual_spec in H2 as ->.
  - split; [by intros ->|by intros [= ->]].
  - split; [done|]. intros [= -> _]. by rewrite (proj2 (stringMapEqual_spec b2 b2) eq_refl) in H2.
  - split; [done|]. intros [= -> _]. by rewrite (proj2 (stringMapEqual_spec s2 s2) eq_refl) in H1.
  - split; [done|]. intros [= -> _ _]. by rewrite (proj2 (stringMapEqual_spec s2 s2) eq_refl) in H1.
Qed.

(** ** The assignment loops *)

Section Assign.
Context `{Rand, !RandLaws, MapRange}.

(** Where an assigned ID comes from. *)
Definition origin (prefix : string) (prevNameToID : gmap string string) (name id : string) : Prop :=
  prevNameToID !! name = Some id \/ (prevNameToID !! name = None /\ isID id prefix = true).

Record asg_inv (prefix : string) (prev : gmap string string) (all : gset string) (names : list string)
    (a : Asg) : Prop := {
  ai_inverse : inverse (i2n a) (n2i a);
  ai_dom : forall name, is_Some (n2i a !! name) <-> name ∈ names;
  ai_used : all ⊆ used a;
  ai_ids : forall name id, n2i a !! name = Some id -> id ∈ used a;
  ai_fresh : forall name id, n2i a !! name = Some id -> prev !! name = None -> id ∉ all;
  ai_origin : forall name id, n2i a !! name = Some id -> origin prefix prev name id
}.

(** The inverse of a prior dictionary whose IDs are all known. *)
Definition prior (prev : gmap string string) (all : gset string) : Prop :=
  injective prev /\ forall name id, prev !! name = Some id -> id ∈ all.

Lemma asg_inv_init prefix prev all : asg_inv prefix prev all [] (mkAsg ∅ ∅ all).
Proof. split; simpl; try set_solver; [apply inverse_empty|..]; intros name; rewrite lookup_empty; [|done..].
  split; [by intros []|set_solver]. Qed.

Lemma asg_inv_weaken prefix prev all all' names a :
  all ⊆ all' -> asg_inv prefix prev all' names a -> asg_inv prefix prev all names a.
Proof.
  intros Hs [Hinv Hdom Hused Hids Hfr Hor]. split; [done|done|set_solver|done| |done].
  intros name id Hn Hp. specialize (Hfr name id Hn Hp). set_solver.
Qed.

Lemma asg_inv_used prefix prev all names a u :
  used a ⊆ u -> asg_inv prefix prev all names a -> asg_inv prefix prev all names (mkAsg (i2n a) (n2i a) u).
Proof.
  intros Hs [Hinv Hdom Hused Hids Hfr Hor]. split; simpl; [done|done|set_solver| |done|done].
  intros name id Hn. apply Hids in Hn. set_solver.
Qed.

Lemma assign1_inv prefix prev all names a name n a' n' :
  prior prev all -> asg_inv prefix prev all names a -> name ∉ names ->
  assign1 prefix prev a name n = Ok (a', n') ->
  asg_inv prefix prev all (names ++ [name]) a' /\ used a ⊆ used a'.
Proof.
  intros [Hpi Hpa] [Hinv Hdom Hused Hids Hfr Hor] Hnew Hrun.
  assert (Hnone : n2i a !! name = None).
  { apply eq_None_not_Some. by rewrite Hdom. }
  assert (Hgen : forall id u, i2n a !! id = None -> origin prefix prev name id ->
    (prev !! name = None -> id ∉ all) -> id ∈ u -> used a ⊆ u ->
    asg_inv prefix prev all (names ++ [name]) (mkAsg (<[id := name]> (i2n a)) (<[name := id]> (n2i a)) u)).
  { intros id u Hid Hori Hfresh Hu Hsub. split; simpl.
    - by apply inverse_insert.
    - intros x. rewrite elem_of_app, list_elem_of_singleton.
      destruct (decide (x = name)) as [->|Hx]; [rewrite lookup_insert_eq; naive_solver|].
      rewrite lookup_insert_ne by done. rewrite Hdom. naive_solver.
    - set_solver.
    - intros x y [[<- <-]|[_ Hy]]%lookup_insert_Some; [done|]. apply Hids in Hy. set_solver.
    - intros x y [[<- <-]|[_ Hy]]%lookup_insert_Some; [done|by eapply Hfr].
    - intros x y [[<- <-]|[_ Hy]]%lookup_insert_Some; [done|by eapply Hor]. }
  unfold assign1 in Hrun. destruct (prev !! name) as [id|] eqn:Hp.
  - apply R_ret_ok in Hrun as [<- _]. split; [|done]. apply Hgen; [|by left|done| |done].
    + apply eq_None_not_Some. intros [x Hx%Hinv]. pose proof (Hor _ _ Hx) as [Hx'|[Hx' _]].
      * rewrite (Hpi _ _ _ Hx' Hp) in Hx. congruence.
      * apply (Hfr _ _ Hx Hx'). by eapply Hpa.
    + apply Hused. by eapply Hpa.
  - apply R_bind_ok in Hrun as (id & n1 & Hmint & [<- _]%R_ret_ok).
    apply newID_fresh in Hmint as (Hshape & Hid & _). split; [|set_solver].
    apply Hgen; [|by right|set_solver|set_solver|set_solver].
    apply eq_None_not_Some. intros [x Hx%Hinv%Hids]. done.
Qed.

Lemma assign_inv prefix prev all names n a n' :
  prior prev all -> NoDup names -> assign prefix prev all names n = Ok (a, n') ->
  asg_inv prefix prev all names a /\ all ⊆ used a.
Proof.
  intros Hp Hnd Hrun. unfold assign in Hrun.
  assert (Hi : asg_inv prefix prev all names a).
  { revert Hrun.
    assert (Hg : forall l2 pre b m, NoDup (pre ++ l2) -> asg_inv prefix prev all pre b ->
      R_fold (assign1 prefix prev) b l2 m = Ok (a, n') -> asg_inv prefix prev all (pre ++ l2) a).
    { induction l2 as [|x l2 IH]; intros pre b m Hnd2 Hb; simpl.
      - intros [-> _]%R_ret_ok. by rewrite app_nil_r.
      - intros (b1 & n1 & Hf & Hr)%R_bind_ok. rewrite cons_middle, app_assoc in Hnd2 |- *.
        eapply IH; [done| |exact Hr]. eapply assign1_inv; [done|done| |exact Hf].
        apply NoDup_app in Hnd2 as (Hnd2 & _ & _). apply NoDup_app in Hnd2 as (_ & Hx & _).
        intros Hin. apply (Hx x Hin). set_solver. }
    apply (Hg names [] _ n); [done|apply asg_inv_init]. }
  split; [done|]. apply Hi.
Qed.

Lemma prior_invert site (m : gmap string string) all :
  dom m ⊆ all -> prior (invert (map_range site m)) all.
Proof.
  intros Hd. split.
  - intros x y z Hx%nameToID_spec Hy%nameToID_spec. congruence.
  - intros name id Hn%nameToID_spec. apply Hd. by eapply elem_of_dom_2.
Qed.

(** The IDs of a bag's keys, relative to the prior dictionary. *)
Definition key_prior (prev : NameMap) (bid : string) : gmap string string :=
  invert (map_range 12 (default ∅ (NKeys prev !! bid))).

Record bag_inv (prev : NameMap) (prevBags : gmap string string) (all : gset string)
    (done : list (string * gmap string string)) (b : BagAsg) : Prop := {
  bi_bags : asg_inv idPrefixBag prevBags all done.*1 (bagAsg b);
  bi_keys : forall bag kv bid, (bag, kv) ∈ done -> n2i (bagAsg b) !! bag = Some bid ->
    exists a, asg_inv idPrefixKey (key_prior prev bid) all (map_range 13 kv).*1 a
      /\ nmKeys b !! bid = Some (i2n a) /\ keyNameToID b !! bid = Some (n2i a);
  bi_dom : forall bid, is_Some (nmKeys b !! bid) <-> is_Some (i2n (bagAsg b) !! bid)
}.

Lemma assign1_new prefix prev a name n a' n' x :
  assign1 prefix prev a name n = Ok (a', n') -> x <> name -> n2i a' !! x = n2i a !! x.
Proof.
  unfold assign1. intros Hr Hx. destruct (prev !! name) as [id|].
  - apply R_ret_ok in Hr as [<- _]. simpl. by apply lookup_insert_ne.
  - apply R_bind_ok in Hr as (id & n1 & _ & [<- _]%R_ret_ok). simpl. by apply lookup_insert_ne.
Qed.

Lemma assign1_lookup prefix prev a name n a' n' :
  assign1 prefix prev a name n = Ok (a', n') ->
  exists id, n2i a' !! name = Some id /\ i2n a' = <[id := name]> (i2n a).
Proof.
  unfold assign1. intros Hr. destruct (prev !! name) as [id|].
  - apply R_ret_ok in Hr as [<- _]. exists id. simpl. by rewrite lookup_insert_eq.
  - apply R_bind_ok in Hr as (id & n1 & _ & [<- _]%R_ret_ok). exists id. simpl. by rewrite lookup_insert_eq.
Qed.

Lemma bag_step_inv prev prevBags all pre b bkv n b' n' :
  prior prevBags all -> (forall bid, dom (default ∅ (NKeys prev !! bid)) ⊆ all) ->
  bag_inv prev prevBags all pre b -> bkv.1 ∉ pre.*1 ->
  bag_step prev prevBags b bkv n = Ok (b', n') -> bag_inv prev prevBags all (pre ++ [bkv]) b'.
Proof.
  intros Hp Hk [Hb Hkeys Hdom] Hnew (a & n1 & Ha & (k & n2 & Hka & [<- <-]%R_ret_ok)%R_bind_ok)%R_bind_ok.
  destruct bkv as [bag kv]. simpl in *.
  destruct (assign1_lookup _ _ _ _ _ _ _ Ha) as (bid & Hbid & Hi2n).
  rewrite Hbid in Hka |- *. simpl in Hka |- *.
  pose proof (assign1_inv _ _ _ _ _ _ _ _ _ Hp Hb Hnew Ha) as [Hai Hsub].
  apply assign_inv in Hka as [Hki Hksub]; [|apply prior_invert|apply NoDup_map_range_fst].
  2: { etrans; [apply Hk|apply Hai]. }
  split; simpl.
  - rewrite fmap_app. by apply asg_inv_used.
  - intros bag' kv' bid' Hin Hn. apply elem_of_app in Hin as [Hin|Hin].
    + assert (Hne : bag' <> bag).
      { intros ->. apply Hnew. apply list_elem_of_fmap. by exists (bag, kv'). }
      rewrite (assign1_new _ _ _ _ _ _ _ bag' Ha Hne) in Hn.
      assert (bid' <> bid).
      { intros ->. rewrite <- (assign1_new _ _ _ _ _ _ _ bag' Ha Hne) in Hn.
        apply Hne. by eapply (inverse_inj _ _ (ai_inverse _ _ _ _ _ Hai)). }
      rewrite !lookup_insert_ne by done. by eapply Hkeys.
    + apply list_elem_of_singleton in Hin as [= -> ->]. assert (bid' = bid) as -> by congruence.
      exists k. rewrite !lookup_insert_eq. split; [|done]. eapply asg_inv_weaken; [|exact Hki]. apply Hai.
  - intros bid'. rewrite Hi2n. destruct (decide (bid' = bid)) as [->|Hne];
      [by rewrite !lookup_insert_eq; split; eexists|]. by rewrite !lookup_insert_ne.
Qed.

(** What the assignment of step 1 guarantees. *)
Record ids_ok (prev : NameMap) (c : Config) (ids : IDs) : Prop := {
  io_src : inverse (NSources (newNm ids)) (srcNameToID ids);
  io_src_dom : forall name, is_Some (srcNameToID ids !! name) <-> is_Some (Sources c !! name);
  io_src_origin : forall name id, srcNameToID ids !! name = Some id ->
    origin idPrefixSource (nameToID 10 (NSources prev)) name id;
  io_bag : inverse (NBags (newNm ids)) (bagNameToID ids);
  io_bag_dom : forall name, is_Some (bagNameToID ids !! name) <-> is_Some (Secrets c !! name);
  io_bag_origin : forall name id, bagNameToID ids !! name = Some id ->
    origin idPrefixBag (nameToID 11 (NBags prev)) name id;
  io_keys : forall bag kv bid, Secrets c !! bag = Some kv -> bagNameToID ids !! bag = Some bid ->
    exists kn ki, NKeys (newNm ids) !! bid = Some kn /\ keyIDs ids !! bid = Some ki /\ inverse kn ki
      /\ (forall k, is_Some (ki !! k) <-> is_Some (kv !! k))
      /\ (forall k id, ki !! k = Some id -> origin idPrefixKey (key_prior prev bid) k id);
  io_keys_dom : forall bid, is_Some (NKeys (newNm ids) !! bid) <-> is_Some (NBags (newNm ids) !! bid)
}.

Lemma elem_of_range_names {V} site (m : gmap string V) name :
  name ∈ (map_range site m).*1 <-> is_Some (m !! name).
Proof.
  rewrite list_elem_of_fmap. split.
  - intros ([k v] & -> & Hin). apply elem_of_map_range in Hin. by exists v.
  - intros [v Hv]. exists (name, v). split; [done|]. by apply elem_of_map_range.
Qed.

Lemma all_prev_ids_keys prev bid : dom (default ∅ (NKeys prev !! bid)) ⊆ all_prev_ids prev.
Proof.
  destruct (NKeys prev !! bid) as [m|] eqn:Hm; [|simpl; set_solver]. simpl. unfold all_prev_ids.
  apply union_subseteq_r'. intros x Hx. apply elem_of_union_list. exists (dom m). split; [|done].
  apply list_elem_of_fmap. exists (bid, m). split; [done|]. by apply elem_of_map_to_list.
Qed.

Lemma assign_ids_ok prev c ids n n' : assign_ids prev c n = Ok (ids, n') -> ids_ok prev c ids.
Proof.
  intros (s & n1 & Hs & (b & n2 & Hb & [<- _]%R_ret_ok)%R_bind_ok)%R_bind_ok.
  apply assign_inv in Hs as [Hs Hsub];
    [|apply prior_invert; unfold all_prev_ids; set_solver|apply NoDup_map_range_fst].
  assert (Hbi : bag_inv prev (nameToID 11 (NBags prev)) (used s) (map_range 15 (Secrets c)) b).
  { refine (R_fold_inv (fun pre b => NoDup pre.*1 -> bag_inv prev (nameToID 11 (NBags prev)) (used s) pre b)
      _ _ _ _ _ _ _ _ Hb _); [|intros _|apply NoDup_map_range_fst].
    - intros pre bkv b0 m b1 m' IH Hin Hstep Hnd. rewrite fmap_app in Hnd.
      apply NoDup_app in Hnd as (Hnd & Hx & _). eapply bag_step_inv; [| |by apply IH| |exact Hstep].
      + apply prior_invert. etrans; [|apply Hsub]. unfold all_prev_ids. set_solver.
      + intros bid. etrans; [apply all_prev_ids_keys|exact Hsub].
      + intros Hin'. apply (Hx _ Hin'). set_solver.
    - split; simpl; [apply asg_inv_init|set_solver|]. intros bid. by rewrite !lookup_empty. }
  destruct Hbi as [Hbags Hkeys Hdom]. split; simpl.
  - apply Hs.
  - intros name. rewrite (ai_dom _ _ _ _ _ Hs). apply elem_of_range_names.
  - apply Hs.
  - apply Hbags.
  - intros name. rewrite (ai_dom _ _ _ _ _ Hbags). apply elem_of_range_names.
  - apply Hbags.
  - intros bag kv bid Hbag Hbid. destruct (Hkeys bag kv bid) as (a & Ha & -> & ->);
      [by apply elem_of_map_range|done|].
    exists (i2n a), (n2i a). split; [done|]. split; [done|]. split; [apply Ha|]. split; [|apply Ha].
    intros k. rewrite (ai_dom _ _ _ _ _ Ha). apply elem_of_range_names.
  - apply Hdom.
Qed.
End Assign.
End SealIds.
