(* ===== verification/SealRoundtrip.v ===== *)
(** * DecryptInPlace undoes EncryptInPlace

    The value-level round trips, the correspondence between the ID-keyed and
    the name-keyed maps, and the theorems about whole configurations. *)

From S2P Require Import Prelude GoString Base64 ConfigModel Crypto NameId Seal SealIds.
Import Config Crypto NameId Seal SealIds.

Module SealRoundtrip.

(** ** Configurations that survive the round trip *)

(** No string inside looks like a sealed value. *)
Fixpoint plain_any (v : any) : bool :=
  match v with
  | AStr s => negb (IsEnvelope s)
  | AList l => forallb (fun x => match x with AStr s => negb (IsEnvelope s) | _ => true end) l
  | AMap m =>
      (fix go (m : list (string * any)) : bool :=
        match m with [] => true | (_, x) :: m' => plain_any x && go m' end) m
  | _ => true
  end.

Definition plain (s : string) : Prop := IsEnvelope s = false.

Record var_plain (v : VarRef) : Prop := {
  vp_name : plain (Name v);
  vp_source : plain (Source v);
  vp_ref : plain (Ref v);
  vp_key : plain (Key v);
  vp_value : plain (Value v);
  vp_extra : map_Forall (fun _ => plain) (Extra v)
}.

(** A var names a defined source; where that source is the local one, a bag or
    key the configuration does not define must not look like an opaque ID. *)
Definition var_refs_ok (c : Config) (v : VarRef) : Prop :=
  Source v = "" \/
  exists sc, Sources c !! Source v = Some sc /\
    (Type_ sc = "local" ->
      match Secrets c !! Ref v with
      | Some kv => Ref v <> "" /\ (Key v = "" \/ is_Some (kv !! Key v) \/ IsKeyID (Key v) = false)
      | None => IsBagID (Ref v) = false
      end).

Record sealable (c : Config) : Prop := {
  sl_params : map_Forall (fun _ s => map_Forall (fun _ v => plain_any v = true) (Params s)) (Sources c);
  sl_secrets : map_Forall (fun _ kv => map_Forall (fun _ => plain) kv) (Secrets c);
  sl_vars : Forall (fun m => Forall (fun v => var_plain v /\ var_refs_ok c v) (Vars m)) (Mappings c)
}.

(** Every ID of a dictionary has the shape of its kind. *)
Record names_wf (nm : NameMap) : Prop := {
  nw_src : forall id name, NSources nm !! id = Some name -> IsSourceID id = true;
  nw_bag : forall id name, NBags nm !! id = Some name -> IsBagID id = true;
  nw_key : forall b m id name, NKeys nm !! b = Some m -> m !! id = Some name -> IsKeyID id = true
}.

Section Values.
Context `{AEAD, !AEADLaws, Rand, !RandLaws}.

Lemma enc_value_dec key s aad n e n' :
  enc_value key s aad n = Ok (e, n') -> plain s -> dec_value key e aad = Ok s.
Proof.
  unfold enc_value, dec_value, plain. intros Hr Hp. rewrite Hp in Hr. str_cases s.
  - apply R_ret_ok in Hr as [<- _]. by rewrite Hp.
  - destruct aad as [ad|]; [|done]. simpl in Hr.
    apply EncryptField_roundtrip in Hr as (-> & Hd & _). exact Hd.
Qed.

Lemma enc_value_sealed key s aad n e n' :
  enc_value key s aad n = Ok (e, n') -> (e = "" /\ s = "") \/ IsEnvelope e = true.
Proof.
  unfold enc_value. destruct (str_empty s || IsEnvelope s) eqn:Hs.
  - intros [<- _]%R_ret_ok. apply orb_true_iff in Hs as [Hs|Hs]; [apply str_empty_spec in Hs; by left|by right].
  - destruct aad as [ad|]; [|done]. intros Hr. apply EncryptField_roundtrip in Hr as (-> & _). by right.
Qed.

Lemma enc_value_aad key s aad n e n' :
  enc_value key s aad n = Ok (e, n') -> plain s -> s = "" /\ e = "" \/ exists ad, aad = Some ad.
Proof.
  unfold enc_value, plain. intros Hr Hp. rewrite Hp in Hr. str_cases s.
  - apply R_ret_ok in Hr as [<- _]. by left; subst.
  - destruct aad as [ad|]; [|done]. right. by exists ad.
Qed.

(** Decryption leaves values without envelopes alone. *)
Lemma decrypt_items_plain key ctx l i :
  forallb (fun x => match x with AStr s => negb (IsEnvelope s) | _ => true end) l = true ->
  decrypt_items key ctx i l = Ok l.
Proof.
  revert i. induction l as [|x l IH]; intros i; simpl; [done|]. intros Hx. apply andb_true_iff in Hx as [Hx Hl].
  assert (Hi : decrypt_item key ctx i x = Ok x).
  { destruct x as [s| | | |]; try done. simpl in *. bools. by rewrite Hx. }
  rewrite Hi. simpl. rewrite IH by done. done.
Qed.

Fixpoint decrypt_any_plain (key ctx : string) (v : any) {struct v} :
  plain_any v = true -> decrypt_any key ctx v = Ok v.
Proof.
  destruct v as [s| | |l|m]; simpl; try done.
  - intros Hs. bools. by rewrite Hs.
  - intros Hl. by rewrite decrypt_items_plain.
  - intros Hm. match goal with |- AMap <$> ?g m = _ => assert (Hg : g m = Ok m) end; [|by rewrite Hg].
    revert Hm. induction m as [|[k x] m IH]; [done|]. intros Hx. apply andb_true_iff in Hx as [Hx Hm].
    pose proof (decrypt_any_plain key (ctx +:+ "." +:+ k) x Hx) as Hd.
    match type of IH with _ -> ?g m = _ => assert (Hg : g m = Ok m) by (apply IH; exact Hm) end.
    simpl in Hd |- *. rewrite Hd. simpl. rewrite Hg. done.
Qed.

Lemma SourceParamAAD_ctx sid ctx k ad :
  AAD ["src"; sid] = Some ctx -> SourceParamAAD sid k = Some ad -> ad = ctx +:+ "." +:+ k.
Proof.
  unfold SourceParamAAD. intros [-> _]%AAD_Some [-> _]%AAD_Some. simpl. by rewrite <- !str_app_assoc.
Qed.

(** One parameter: sealed under the source's ID, opened under the table's context. *)
Lemma enc_param_dec key sid k v n e n' ctx :
  enc_param key sid k v n = Ok (e, n') -> plain_any v = true -> AAD ["src"; sid] = Some ctx ->
  decrypt_any key (ctx +:+ "." +:+ k) e = Ok v.
Proof.
  destruct v as [s| | | |]; simpl; try (intros [<- _]%R_ret_ok Hp _; by apply decrypt_any_plain).
  intros (s' & n1 & He & [<- _]%R_ret_ok)%R_bind_ok Hp Hctx. bools.
  destruct (enc_value_aad _ _ _ _ _ _ He Hp) as [[-> ->]|[ad Had]]; [done|].
  pose proof (enc_value_dec _ _ _ _ _ _ He Hp) as Hd. rewrite Had in Hd.
  rewrite (SourceParamAAD_ctx _ _ _ _ Hctx Had) in Hd. unfold dec_value in Hd. simpl.
  destruct (IsEnvelope s'); [|congruence]. by rewrite Hd.
Qed.

End Values.

(** ** Maps keyed by ID and by name *)

Section Keyed.
Context `{MapRange} {V U : Type}.

(** [mid] holds, under each name's ID, a value related to the one [m] holds. *)
Record keyed (n2i : gmap string string) (G : string -> V -> U -> Prop)
    (m : gmap string V) (mid : gmap string U) : Prop := {
  ky_back : forall id u, mid !! id = Some u ->
    exists name v, n2i !! name = Some id /\ m !! name = Some v /\ G name v u;
  ky_fwd : forall name v, m !! name = Some v ->
    exists id u, n2i !! name = Some id /\ mid !! id = Some u /\ G name v u
}.

Lemma id_of_lookup (n2i : gmap string string) name id : n2i !! name = Some id -> id_of n2i name = id.
Proof. unfold id_of. by intros ->. Qed.

Lemma keyed_encrypt {W} n2i (m : gmap string V) (enc : gmap string W) F site :
  injective n2i -> (forall k, is_Some (n2i !! k) <-> is_Some (m !! k)) ->
  map_into_spec (id_of n2i) (map_range site m) ∅ enc F ->
  (forall id w, enc !! id = Some w -> exists name v, n2i !! name = Some id /\ m !! name = Some v /\ F name v w)
  /\ (forall name v, m !! name = Some v -> exists id w, n2i !! name = Some id /\ enc !! id = Some w /\ F name v w).
Proof.
  intros Hinj Hdom Hs. split.
  - intros id w Hid. destruct (map_into_spec_into _ _ _ _ _ _ _ Hs Hid) as (name & v & Hm & -> & HF).
    destruct (proj2 (Hdom name)) as [id Hn]; [by exists v|].
    exists name, v. by rewrite (id_of_lookup _ _ _ Hn).
  - intros name v Hm. destruct (proj2 (Hdom name)) as [id Hn]; [by exists v|].
    destruct Hs as [Hs _]. destruct (Hs name v) as (w & HF & Hw); [by apply elem_of_map_range|].
    rewrite (id_of_lookup _ _ _ Hn) in Hw. by exists id, w.
Qed.

Lemma keyed_decrypt {E} n2i (m : gmap string V) (enc : gmap string U) F G site site'
    (f : string -> U -> res E U) :
  injective n2i -> (forall k, is_Some (n2i !! k) <-> is_Some (m !! k)) ->
  map_into_spec (id_of n2i) (map_range site m) ∅ enc F ->
  (forall name v w id, m !! name = Some v -> n2i !! name = Some id -> F name v w ->
    exists u, f id w = Ok u /\ G name v u) ->
  exists mid, res_map_into id f enc (map_range site' enc) = Ok mid /\ keyed n2i G m mid.
Proof.
  intros Hinj Hdom Henc Hf. destruct (keyed_encrypt _ _ _ _ _ Hinj Hdom Henc) as [Hb Hw].
  destruct (res_map_into_ok id f
    (fun i w u => exists name v, n2i !! name = Some i /\ m !! name = Some v /\ F name v w /\ f i w = Ok u /\ G name v u)
    (map_range site' enc) enc) as (mid & Hrun & Hs); [apply NoDup_map_range_id| |].
  - intros i w Hin%elem_of_map_range. destruct (Hb i w Hin) as (name & v & Hn & Hm & HF).
    destruct (Hf name v w i Hm Hn HF) as (u & Hu & HG). exists u. split; [done|]. by exists name, v.
  - exists mid. split; [done|]. split.
    + intros i u Hu. destruct (enc !! i) as [w|] eqn:Hi.
      * destruct (map_into_spec_id _ _ _ _ _ _ Hs Hi) as (u' & (name & v & ? & ? & _ & _ & ?) & Hu').
        exists name, v. split; [done|]. split; [done|]. congruence.
      * rewrite (map_into_spec_id_None _ _ _ _ _ Hs Hi) in Hu. done.
    + intros name v Hm. destruct (Hw name v Hm) as (i & w & Hn & Hi & HF).
      destruct (map_into_spec_id _ _ _ _ _ _ Hs Hi) as (u & (name' & v' & Hn' & Hm' & _ & _ & HG) & Hu).
      assert (name' = name) as -> by (by eapply Hinj). exists i, u. split; [done|]. split; [done|].
      congruence.
Qed.

(** Rebuilding a name-keyed map from an ID-keyed one, in any order. *)
Lemma rekey_fold (f : string -> string) (h : string -> U -> V) (mid : gmap string U) (m : gmap string V) site :
  (forall id u, mid !! id = Some u -> m !! f id = Some (h id u)) ->
  (forall name v, m !! name = Some v -> exists id, is_Some (mid !! id) /\ f id = name) ->
  fold_left (fun acc kv => <[f kv.1 := h kv.1 kv.2]> acc) (map_range site mid) ∅ = m.
Proof.
  intros Hb Hf.
  assert (Hg : forall l acc, (forall kv, kv ∈ l -> mid !! kv.1 = Some kv.2) -> acc ⊆ m ->
    let out := fold_left (fun acc kv => <[f kv.1 := h kv.1 kv.2]> acc) l acc in
    out ⊆ m /\ acc ⊆ out /\ forall kv, kv ∈ l -> is_Some (out !! f kv.1)).
  { induction l as [|[i u] l IH]; intros acc Hl Hacc; simpl; [split; [done|]; split; [done|set_solver]|].
    assert (Hiu : m !! f i = Some (h i u)) by (apply Hb, (Hl (i, u)); set_solver).
    destruct (IH (<[f i := h i u]> acc)) as (H1 & H2 & H3); [set_solver| |].
    - apply map_subseteq_spec. intros k v [[<- <-]|[_ Hk]]%lookup_insert_Some; [done|].
      by eapply lookup_weaken.
    - split; [done|]. split.
      + apply map_subseteq_spec. intros k v Hk. destruct (decide (k = f i)) as [->|Hne].
        * pose proof (lookup_weaken _ _ _ _ Hk Hacc). assert (v = h i u) as -> by congruence.
          eapply lookup_weaken; [|exact H2]. apply lookup_insert_eq.
        * eapply lookup_weaken; [|exact H2]. by rewrite lookup_insert_ne.
      + intros kv [->|Hin]%elem_of_cons; [|by apply H3].
        simpl. exists (h i u). eapply lookup_weaken; [|exact H2]. apply lookup_insert_eq. }
  destruct (Hg (map_range site mid) ∅) as (H1 & _ & H3).
  - intros [i u] Hin. by apply elem_of_map_range in Hin.
  - apply map_empty_subseteq.
  - apply map_eq. intros name. destruct (m !! name) as [v|] eqn:Hm.
    + destruct (Hf name v Hm) as (i & [u Hi] & <-). destruct (H3 (i, u)) as [v' Hv'].
      * by apply elem_of_map_range.
      * simpl in Hv'. rewrite Hv'. pose proof (lookup_weaken _ _ _ _ Hv' H1). congruence.
    + apply eq_None_not_Some. intros [v Hv]. pose proof (lookup_weaken _ _ _ _ Hv H1). congruence.
Qed.

Lemma name_of_inverse i2n n2i name id : inverse i2n n2i -> n2i !! name = Some id -> name_of i2n id = name.
Proof. intros Hi Hn%Hi. unfold name_of. by rewrite Hn. Qed.

Lemma rekey_keyed i2n n2i G (h : string -> U -> V) (m : gmap string V) (mid : gmap string U) site :
  inverse i2n n2i -> keyed n2i G m mid ->
  (forall id name v u, n2i !! name = Some id -> m !! name = Some v -> G name v u -> h id u = v) ->
  fold_left (fun acc kv => <[name_of i2n kv.1 := h kv.1 kv.2]> acc) (map_range site mid) ∅ = m.
Proof.
  intros Hi [Hb Hf] Hh. apply rekey_fold.
  - intros id u Hu. destruct (Hb id u Hu) as (name & v & Hn & Hm & HG).
    rewrite (name_of_inverse _ _ _ _ Hi Hn), Hm. f_equal. symmetry. by eapply Hh.
  - intros name v Hm. destruct (Hf name v Hm) as (id & u & Hn & Hu & _). exists id.
    split; [by exists u|]. by eapply name_of_inverse.
Qed.

Lemma keyed_empty n2i G (m : gmap string V) (mid : gmap string U) :
  keyed n2i G m mid -> mid = ∅ <-> m = ∅.
Proof.
  intros [Hb Hf]. split; intros Hem; apply map_empty; intros k; apply eq_None_not_Some; intros [x Hx].
  - destruct (Hf _ _ Hx) as (i & u & _ & Hu & _). rewrite Hem in Hu. by rewrite lookup_empty in Hu.
  - destruct (Hb _ _ Hx) as (i & u & _ & Hu & _). rewrite Hem in Hu. by rewrite lookup_empty in Hu.
Qed.
End Keyed.

(** ** Sources, bags and vars *)

Section Parts.
Context `{AEAD, !AEADLaws, Rand, !RandLaws, MapRange}.

Lemma map_into_spec_eq {V} site (m m' out : gmap string V) F :
  map_into_spec id (map_range site m) m m' F ->
  (forall k v w, m !! k = Some v -> F k v w -> out !! k = Some w) ->
  (forall k, m !! k = None -> out !! k = None) -> m' = out.
Proof.
  intros Hs Hv Hn. apply map_eq. intros k. destruct (m !! k) as [v|] eqn:Hk.
  - destruct (map_into_spec_id _ _ _ _ _ _ Hs Hk) as (w & HF & ->). symmetry. by eapply Hv.
  - rewrite (map_into_spec_id_None _ _ _ _ _ Hs Hk). symmetry. by apply Hn.
Qed.

(** A walker that rewrites a map in place, undone by another. *)
Lemma in_place_roundtrip {E E' V} (f : string -> V -> R E V) (g : string -> V -> res E' V)
    (m m' : gmap string V) n n' site site' :
  R_map_into id f m (map_range site m) n = Ok (m', n') ->
  (forall k v w n1 n2, m !! k = Some v -> f k v n1 = Ok (w, n2) -> g k w = Ok v) ->
  res_map_into id g m' (map_range site' m') = Ok m.
Proof.
  intros Henc Hg. apply R_map_into_spec in Henc; [|apply NoDup_map_range_id].
  destruct (res_map_into_ok id g (fun k w v => m !! k = Some v) (map_range site' m') m') as (out & Ho & Hs).
  - apply NoDup_map_range_id.
  - intros k w Hw%elem_of_map_range. destruct (m !! k) as [v|] eqn:Hk.
    + destruct (map_into_spec_id _ _ _ _ _ _ Henc Hk) as (w' & (n1 & n2 & Hf) & Hw').
      exists v. split; [|done]. assert (w' = w) as -> by congruence. by eapply Hg.
    + rewrite (map_into_spec_id_None _ _ _ _ _ Henc Hk) in Hw. done.
  - rewrite Ho. f_equal. eapply map_into_spec_eq; [exact Hs|done|].
    intros k Hk. apply eq_None_not_Some. intros [v Hv].
    destruct (map_into_spec_id _ _ _ _ _ _ Henc Hv) as (w & _ & Hw). congruence.
Qed.

Lemma R_map_into_empty {E V} (f : string -> V -> R E V) (m m' : gmap string V) n n' site :
  R_map_into id f m (map_range site m) n = Ok (m', n') -> m' = ∅ -> m = ∅.
Proof.
  intros Hs%R_map_into_spec ->; [|apply NoDup_map_range_id]. apply map_empty. intros k.
  apply eq_None_not_Some. intros [v Hv].
  destruct (map_into_spec_id _ _ _ _ _ _ Hs Hv) as (w & _ & Hw). by rewrite lookup_empty in Hw.
Qed.

Lemma isID_nonempty s p : p <> "" -> isID s p = true -> s <> "".
Proof. intros Hp Hs ->. by destruct p. Qed.

Lemma isID_plain s p : isID s p = true -> p ∈ [idPrefixSource; idPrefixBag; idPrefixKey] -> plain s.
Proof.
  unfold isID, plain, IsEnvelope. destruct (has_prefix s p) eqn:Hp; [|done]. intros _ Hin.
  apply has_prefix_spec in Hp as [t ->]. unfold idPrefixSource, idPrefixBag, idPrefixKey in Hin.
  repeat (apply elem_of_cons in Hin as [->|Hin]; [done|]). by apply not_elem_of_nil in Hin.
Qed.

Lemma AAD_src sid : IsSourceID sid = true -> AAD ["src"; sid] = Some (join "." ["src"; sid]).
Proof.
  intros Hs. apply AAD_total; [done|]. repeat constructor; [done|]. by apply (isID_nonempty _ idPrefixSource).
Qed.

Lemma enc_source_dec key sid name sc n sc' n' :
  enc_source key sid name sc n = Ok (sc', n') -> IsSourceID sid = true ->
  map_Forall (fun _ v => plain_any v = true) (Params sc) ->
  dec_source key sid sc' = Ok sc.
Proof.
  intros (ps & n1 & Hps & [<- _]%R_ret_ok)%R_bind_ok Hsid Hplain. unfold dec_source. simpl.
  case_bool_decide as He.
  - pose proof (R_map_into_empty _ _ _ _ _ _ Hps He). destruct sc; simpl in *; congruence.
  - rewrite AAD_src by done. unfold DecryptStringsInPlace.
    replace (str_empty (join "." ["src"; sid])) with false by done.
    assert (Hd : res_map_into id (fun k v => decrypt_any key (join "." ["src"; sid] +:+ "." +:+ k) v)
      ps (map_range 1 ps) = Ok (Params sc)).
    { eapply in_place_roundtrip; [exact Hps|]. intros k v w n2 n3 Hv Hr%R_wrap_ok.
      eapply enc_param_dec; [exact Hr|by eapply Hplain|by apply AAD_src]. }
    unfold res_map_into in Hd. unfold id in Hd. rewrite Hd. simpl. by destruct sc.
Qed.

Lemma NoDup_ids {V} site (m : gmap string V) n2i :
  injective n2i -> (forall k, is_Some (n2i !! k) <-> is_Some (m !! k)) ->
  NoDup ((fun kv : string * V => id_of n2i kv.1) <$> map_range site m).
Proof.
  intros Hinj Hdom. apply NoDup_map_range_inj. intros k k' [i Hk]%Hdom [i' Hk']%Hdom.
  rewrite (id_of_lookup _ _ _ Hk), (id_of_lookup _ _ _ Hk'). intros ->. by eapply Hinj.
Qed.

Lemma enc_bag_dec key bid bag ki kn kv n kv' n' :
  enc_bag key bid bag ki kv n = Ok (kv', n') -> inverse kn ki ->
  (forall k, is_Some (ki !! k) <-> is_Some (kv !! k)) -> map_Forall (fun _ => plain) kv ->
  exists mid, dec_bag key bid kv' = Ok mid /\ keyed ki (fun _ v u => v = u) kv mid.
Proof.
  intros Hrun Hi Hdom Hplain. unfold enc_bag in Hrun.
  apply R_map_into_spec in Hrun.
  2: { apply NoDup_ids; [by eapply inverse_inj|done]. }
  eapply keyed_decrypt; [by eapply inverse_inj|exact Hdom|exact Hrun|].
  intros name v w i Hv Hn (n1 & n2 & Hr%R_wrap_ok). exists v. split; [|done].
  apply wrap_err_ok. rewrite (id_of_lookup _ _ _ Hn) in Hr.
  eapply enc_value_dec; [exact Hr|by eapply Hplain].
Qed.

Lemma enc_field_dec key i j f s n e n' :
  enc_field key i j f s n = Ok (e, n') -> plain s -> dec_field key i j f e = Ok s.
Proof. intros Hr%R_wrap_ok Hs. apply wrap_err_ok. by eapply enc_value_dec. Qed.

Lemma enc_var_dec key i j v n v' n' :
  enc_var key i j v n = Ok (v', n') -> var_plain v -> dec_var key i j v' = Ok v.
Proof.
  intros Hr [Hn Hs Hrf Hk Hv Hx]. unfold enc_var in Hr.
  apply R_bind_ok in Hr as (a & n1 & Ha & Hr). apply R_bind_ok in Hr as (b & n2 & Hb & Hr).
  apply R_bind_ok in Hr as (cc & n3 & Hc & Hr). apply R_bind_ok in Hr as (d & n4 & Hd & Hr).
  apply R_bind_ok in Hr as (e & n5 & He & Hr).
  apply R_bind_ok in Hr as (x & n6 & Hxx & [<- _]%R_ret_ok).
  unfold dec_var. cbn [Name Source Ref Key Value Extra].
  rewrite (enc_field_dec _ _ _ _ _ _ _ _ Ha Hn), (enc_field_dec _ _ _ _ _ _ _ _ Hb Hs),
    (enc_field_dec _ _ _ _ _ _ _ _ Hc Hrf), (enc_field_dec _ _ _ _ _ _ _ _ Hd Hk),
    (enc_field_dec _ _ _ _ _ _ _ _ He Hv). cbn [mbind res_bind].
  rewrite (in_place_roundtrip _ (fun k' ev => wrap_err (EExtra i j k') (dec_value key ev (VarExtraAAD i j k')))
    _ _ _ _ _ 24%nat Hxx); [by destruct v|].
  intros k y w n7 n8 Hy Hr%R_wrap_ok. apply wrap_err_ok. eapply enc_value_dec; [exact Hr|by eapply Hx].
Qed.

(** ** Translation of a var's names *)

(** Every ID that step 1 hands out has the shape of its kind. *)
Record ids_shaped (ids : IDs) : Prop := {
  is_src : forall name id, srcNameToID ids !! name = Some id -> IsSourceID id = true;
  is_bag : forall name id, bagNameToID ids !! name = Some id -> IsBagID id = true;
  is_key : forall bid ki k kid, keyIDs ids !! bid = Some ki -> is_Some (NBags (newNm ids) !! bid) ->
    ki !! k = Some kid -> IsKeyID kid = true
}.

Lemma ids_ok_shaped prev c ids : names_wf prev -> ids_ok prev c ids -> ids_shaped ids.
Proof.
  intros [Ws Wb Wk] [Hs Hsd Hso Hb Hbd Hbo Hk Hkd]. split.
  - intros name i Hn. destruct (Hso _ _ Hn) as [Hp|[_ Hp]]; [|exact Hp].
    apply nameToID_spec in Hp. by eapply Ws.
  - intros name i Hn. destruct (Hbo _ _ Hn) as [Hp|[_ Hp]]; [|exact Hp].
    apply nameToID_spec in Hp. by eapply Wb.
  - intros bid ki k kid Hki [bag Hbag] Hkid. apply Hb in Hbag.
    destruct (proj1 (Hbd bag)) as [kv Hkv]; [by exists bid|].
    destruct (Hk bag kv bid Hkv Hbag) as (kn & ki' & _ & Hki' & _ & _ & Ho).
    assert (ki' = ki) as -> by congruence. destruct (Ho _ _ Hkid) as [Hp|[_ Hp]]; [|exact Hp].
    apply nameToID_spec in Hp. destruct (NKeys prev !! bid) as [m|] eqn:Hm; [|done].
    by eapply Wk.
Qed.

Lemma translate_plain prev c srcs ids v :
  ids_ok prev c ids -> ids_shaped ids -> var_plain v -> var_plain (translateVarNamesToIDs srcs ids v).
Proof.
  intros Hok [Ss Sb Sk] Hp. pose proof Hp as [Hn Hs Hr Hk Hv Hx]. unfold translateVarNamesToIDs.
  destruct (str_empty (Source v) || IsEnvelope (Source v)); [done|].
  destruct (srcNameToID ids !! Source v) as [sid|] eqn:Hsid; [|done].
  assert (plain sid) by (eapply isID_plain; [by eapply Ss|set_solver]).
  destruct (negb _); [by split|]. destruct (negb (str_empty (Ref v)) && _); [|by split].
  destruct (bagNameToID ids !! Ref v) as [bid|] eqn:Hbid; [|by split].
  assert (plain bid) by (eapply isID_plain; [by eapply Sb|set_solver]).
  split; simpl; try done. destruct (negb (str_empty (Key v)) && _); [|done].
  destruct (keyIDs ids !! bid) as [ki|] eqn:Hki; [|done]. simpl.
  destruct (ki !! Key v) as [kid|] eqn:Hkid; [|done].
  eapply isID_plain; [eapply (Sk _ _ _ _ Hki); [|exact Hkid]|set_solver].
  exists (Ref v). by apply (io_bag _ _ _ Hok).
Qed.

Lemma name_var_local nm typs v sid r k name :
  sid <> "" -> typs !! sid = Some "local" -> name_of (NSources nm) sid = name ->
  name_var nm typs (mkVar (Name v) sid r k (Extra v) (Value v))
  = mkVar (Name v) name (name_of (NBags nm) r)
      (if str_empty k then k else default k ((NKeys nm !! r) ≫= (fun m => m !! k))) (Extra v) (Value v).
Proof.
  intros Hne Ht Hn. unfold name_var. simpl. apply str_empty_false in Hne. rewrite Hne, Ht. simpl. by rewrite Hn.
Qed.

Lemma name_translate prev c srcs typs ids v :
  ids_ok prev c ids -> ids_shaped ids -> var_plain v -> var_refs_ok c v ->
  (forall name sc i, Sources c !! name = Some sc -> srcNameToID ids !! name = Some i ->
    (exists sc', srcs !! i = Some sc' /\ Type_ sc' = Type_ sc) /\ typs !! i = Some (Type_ sc)) ->
  name_var (newNm ids) typs (translateVarNamesToIDs srcs ids v) = v.
Proof.
  intros Hok [Ss Sb Sk] Hp Hrefs Htyp. pose proof Hp as [_ Hs Hr Hk _ _]. unfold translateVarNamesToIDs.
  unfold plain in Hs, Hr, Hk. rewrite Hs, orb_false_r. str_cases (Source v).
  { unfold name_var. by rewrite (proj2 (str_empty_spec _) Hempty). }
  destruct Hrefs as [?|(sc & Hsc & Hloc)]; [done|].
  destruct (proj2 (io_src_dom _ _ _ Hok (Source v))) as [sid Hsid]; [by exists sc|]. rewrite Hsid.
  destruct (Htyp _ _ _ Hsc Hsid) as [(sc' & -> & Hty) Htt]. rewrite Hty. clear Hty.
  pose proof (name_of_inverse _ _ _ _ (io_src _ _ _ Hok) Hsid) as Hname.
  assert (Hne : sid <> "") by (apply (isID_nonempty _ idPrefixSource); [done|by eapply Ss]).
  destruct (String.eqb_spec (Type_ sc) "local") as [Hl|Hl]; simpl negb.
  2: { unfold name_var. simpl. rewrite (proj2 (str_empty_false _) Hne), Htt. simpl.
       rewrite (proj2 (String.eqb_neq _ _) Hl). simpl. rewrite Hname. by destruct v. }
  specialize (Hloc Hl). rewrite Hl in Htt.
  assert (Hnobag : IsBagID (Ref v) = false ->
    NBags (newNm ids) !! Ref v = None /\ NKeys (newNm ids) !! Ref v = None).
  { intros Hb.
    assert (HN : NBags (newNm ids) !! Ref v = None).
    { apply eq_None_not_Some. intros [bag Hbag%(io_bag _ _ _ Hok)]. apply Sb in Hbag. congruence. }
    split; [done|]. apply eq_None_not_Some. rewrite (io_keys_dom _ _ _ Hok), HN. by intros []. }
  assert (Hsame : IsBagID (Ref v) = false ->
    name_var (newNm ids) typs (mkVar (Name v) sid (Ref v) (Key v) (Extra v) (Value v)) = v).
  { intros [HN HK]%Hnobag. rewrite (name_var_local _ _ _ _ _ _ _ Hne Htt Hname). unfold name_of.
    rewrite HN, HK. simpl. destruct v; simpl. by destruct (str_empty _). }
  rewrite Hr, andb_true_r. str_cases (Ref v); cbn [negb]; [apply Hsame; by rewrite Hempty0|].
  destruct (Secrets c !! Ref v) as [kv|] eqn:Hkv.
  - destruct (proj2 (io_bag_dom _ _ _ Hok (Ref v))) as [bid Hbid]; [by exists kv|]. rewrite Hbid.
    rewrite (name_var_local _ _ _ _ _ _ _ Hne Htt Hname).
    rewrite (name_of_inverse _ _ _ _ (io_bag _ _ _ Hok) Hbid).
    destruct (io_keys _ _ _ Hok _ _ _ Hkv Hbid) as (kn & ki & -> & Hki & Hinv & Hdom & _). simpl.
    rewrite Hki. simpl. rewrite Hk, andb_true_r.
    assert (Hsk : forall k kid, ki !! k = Some kid -> IsKeyID kid = true).
    { intros k kid. apply (Sk bid); [done|]. exists (Ref v). by apply (io_bag _ _ _ Hok). }
    enough (Hkey : let k := (if negb (str_empty (Key v)) then match ki !! Key v with Some keyID => keyID | None => Key v end
        else Key v) in (if str_empty k then k else default k (kn !! k)) = Key v).
    { simpl in Hkey. rewrite Hkey. by destruct v. }
    simpl. destruct Hloc as [_ Hloc]. str_cases (Key v); simpl; [by rewrite Hempty1|].
    destruct (ki !! Key v) as [kid|] eqn:Hkid.
    + assert (Hkne : kid <> "") by (apply (isID_nonempty _ idPrefixKey); [done|by eapply Hsk]).
      rewrite (proj2 (str_empty_false _) Hkne). apply Hinv in Hkid. by rewrite Hkid.
    + rewrite (proj2 (str_empty_false _) Hempty1).
      destruct Hloc as [?|[[x Hx]|Hsh]]; [done| |].
      * destruct (proj2 (Hdom (Key v))) as [y Hy]; [by exists x|]. congruence.
      * destruct (kn !! Key v) as [k|] eqn:Hkn; [|done]. apply Hinv, Hsk in Hkn. congruence.
  - assert (HN : bagNameToID ids !! Ref v = None).
    { apply eq_None_not_Some. rewrite (io_bag_dom _ _ _ Hok), Hkv. by intros []. }
    rewrite HN. by apply Hsame.
Qed.
End Parts.

(** ** Whole configurations *)

Section Whole.
Context `{AEAD, !AEADLaws, Rand, !RandLaws, NameMapCodec, !NameMapCodecLaws, MapRange}.

(** The stages of a successful EncryptInPlace. *)
Record enc_run (c : Config) (key : string) (c' : Config) (prev : NameMap) (ids : IDs) : Prop := {
  er_prev : prev_names key c = Ok prev;
  er_ids : exists n n', assign_ids prev c n = Ok (ids, n');
  er_sources : exists n n', R_map_into (id_of (srcNameToID ids))
    (fun name sc => enc_source key (id_of (srcNameToID ids) name) name sc) ∅ (map_range 17 (Sources c)) n
    = Ok (Sources c', n');
  er_secrets : exists n n', R_map_into (id_of (bagNameToID ids))
    (fun bag kv => enc_bag key (id_of (bagNameToID ids) bag) bag
                     (default ∅ (keyIDs ids !! id_of (bagNameToID ids) bag)) kv)
    ∅ (map_range 20 (Secrets c)) n = Ok (Secrets c', n');
  er_maps : exists n n', R_imap (enc_mapping key (Sources c') ids) 0 (Mappings c) n = Ok (Mappings c', n');
  er_names : codec_ok (newNm ids) -> openNameMap key (NameMapEnv (CMeta c')) = Ok (newNm ids);
  er_reuse : openNameMap key (NameMapEnv (CMeta c)) = Ok (newNm ids) -> NameMapEnv (CMeta c) <> "" ->
    NameMapEnv (CMeta c') = NameMapEnv (CMeta c);
  er_env : NameMapEnv (CMeta c') <> "";
  er_rest : c' = mkConfig (CVersion c) (with_name_map (CMeta c) (NameMapEnv (CMeta c'))) (CAgent c)
    (Sources c') (Mappings c') (Secrets c') (Some (newNm ids))
}.

Lemma IsEnvelope_nonempty s : IsEnvelope s = true -> s <> "".
Proof. by intros ? ->. Qed.

Lemma seal_open_names key nm n env n' :
  sealNameMap key nm n = Ok (env, n') -> env <> "" /\ (codec_ok nm -> openNameMap key env = Ok nm).
Proof.
  unfold sealNameMap. intros Hs%wrap_err_ok. apply EncryptField_roundtrip in Hs as (He & Hd & _).
  apply IsEnvelope_nonempty in He. split; [done|]. intros Hc. unfold openNameMap.
  rewrite (proj2 (str_empty_false _) He), Hd. simpl. by rewrite unmarshal_marshal.
Qed.

Lemma EncryptInPlace_run c key n c' n' :
  EncryptInPlace c key n = Ok (c', n') -> exists prev ids, enc_run c key c' prev ids.
Proof.
  unfold EncryptInPlace. intros Hr.
  apply R_bind_ok in Hr as (prev & n1 & [Hprev%wrap_err_ok _]%R_lift_ok & Hr).
  apply R_bind_ok in Hr as (sp & n2 & [Hsp _]%R_lift_ok & Hr).
  apply R_bind_ok in Hr as (ids & n3 & Hids%R_wrap_ok & Hr).
  apply R_bind_ok in Hr as (srcs & n4 & Hsrcs & Hr). apply R_bind_ok in Hr as (secs & n5 & Hsecs & Hr).
  apply R_bind_ok in Hr as (maps & n6 & Hmaps & Hr).
  apply R_bind_ok in Hr as (env & n7 & Henv & [<- _]%R_ret_ok).
  exists prev, ids. set (e0 := NameMapEnv (CMeta c)) in *.
  assert (Hopen : e0 <> "" -> openNameMap key e0 = Ok sp).
  { intros Hne. rewrite (proj2 (str_empty_false _) Hne) in Hsp. by apply wrap_err_ok in Hsp. }
  assert (Henv' : env <> "" /\ (codec_ok (newNm ids) -> openNameMap key env = Ok (newNm ids))
    /\ (openNameMap key e0 = Ok (newNm ids) -> e0 <> "" -> env = e0)).
  { str_cases e0; simpl in Henv.
    - apply (proj1 (R_wrap_ok _ _ _ _)) in Henv. apply seal_open_names in Henv as [? ?].
      split; [done|]. split; [done|]. by intros _ ?.
    - destruct (nameMapEqual sp (newNm ids)) eqn:Heq; simpl in Henv.
      + apply R_ret_ok in Henv as [<- _]. apply nameMapEqual_spec in Heq as <-.
        split; [done|]. split; [by intros _; apply Hopen|done].
      + apply (proj1 (R_wrap_ok _ _ _ _)) in Henv. apply seal_open_names in Henv as [? ?].
        split; [done|]. split; [done|]. intros Ho Hne. rewrite (Hopen Hne) in Ho.
        injection Ho as ->. by rewrite (proj2 (nameMapEqual_spec _ _) eq_refl) in Heq. }
  destruct Henv' as (He1 & He2 & He3). split; simpl; try done; by eexists _, _.
Qed.

Lemma enc_sources_dec c key c' prev ids :
  enc_run c key c' prev ids -> ids_ok prev c ids -> ids_shaped ids -> sealable c ->
  exists mid, res_map_into id (dec_source key) (Sources c') (map_range 21 (Sources c')) = Ok mid
    /\ keyed (srcNameToID ids) (fun _ sc u => sc = u) (Sources c) mid.
Proof.
  intros Hrun Hok Hsh Hsl. destruct (er_sources _ _ _ _ _ Hrun) as (n & n' & Hr).
  apply R_map_into_spec in Hr.
  2: { apply NoDup_ids; [eapply inverse_inj, (io_src _ _ _ Hok)|apply (io_src_dom _ _ _ Hok)]. }
  eapply keyed_decrypt; [eapply inverse_inj, (io_src _ _ _ Hok)|apply (io_src_dom _ _ _ Hok)|exact Hr|].
  intros name sc sc' i Hsc Hi (n1 & n2 & He). exists sc. split; [|done].
  rewrite (id_of_lookup _ _ _ Hi) in He.
  eapply enc_source_dec; [exact He|by eapply (is_src _ Hsh)|by eapply (sl_params _ Hsl)].
Qed.

Lemma enc_secrets_dec c key c' prev ids :
  enc_run c key c' prev ids -> ids_ok prev c ids -> sealable c ->
  exists mid, res_map_into id (dec_bag key) (Secrets c') (map_range 22 (Secrets c')) = Ok mid
    /\ keyed (bagNameToID ids)
         (fun bag kv u => exists bid kn ki, bagNameToID ids !! bag = Some bid
            /\ NKeys (newNm ids) !! bid = Some kn /\ inverse kn ki /\ keyed ki (fun _ x y => x = y) kv u)
         (Secrets c) mid.
Proof.
  intros Hrun Hok Hsl. destruct (er_secrets _ _ _ _ _ Hrun) as (n & n' & Hr).
  apply R_map_into_spec in Hr.
  2: { apply NoDup_ids; [eapply inverse_inj, (io_bag _ _ _ Hok)|apply (io_bag_dom _ _ _ Hok)]. }
  eapply keyed_decrypt; [eapply inverse_inj, (io_bag _ _ _ Hok)|apply (io_bag_dom _ _ _ Hok)|exact Hr|].
  intros bag kv kv' i Hkv Hi (n1 & n2 & He). rewrite (id_of_lookup _ _ _ Hi) in He.
  destruct (io_keys _ _ _ Hok _ _ _ Hkv Hi) as (kn & ki & Hkn & Hki & Hinv & Hdom & _).
  rewrite Hki in He. simpl in He.
  destruct (enc_bag_dec _ _ _ _ _ _ _ _ _ He Hinv Hdom) as (mid & Hd & Hky).
  - by eapply (sl_secrets _ Hsl).
  - exists mid. split; [done|]. by exists i, kn, ki.
Qed.

(** The vars of a mapping between the two translations. *)
Definition translated (srcs : gmap string SourceConfig) (ids : IDs) (m : Mapping) : Mapping :=
  mkMapping (Path m) (Glob m) (CwdGlob m) (Commands m) (translateVarNamesToIDs srcs ids <$> Vars m).

Lemma enc_maps_dec c key c' prev ids :
  enc_run c key c' prev ids -> ids_ok prev c ids -> ids_shaped ids -> sealable c ->
  res_imap (dec_mapping key) 0 (Mappings c') = Ok (translated (Sources c') ids <$> Mappings c).
Proof.
  intros Hrun Hok Hsh Hsl. destruct (er_maps _ _ _ _ _ Hrun) as (n & n' & [Hl Hr]%R_imap_spec).
  apply res_imap_ok; [by rewrite length_fmap|].
  intros i m' m'' Hm' Hm''. rewrite list_lookup_fmap in Hm''. apply fmap_Some in Hm'' as (m & Hm & ->).
  destruct (Hr i m Hm) as (y & n1 & n2 & Hy & (vs & n3 & Hvs & [<- _]%R_ret_ok)%R_bind_ok).
  assert (m' = mkMapping (Path m) (Glob m) (CwdGlob m) (Commands m) vs) as -> by congruence. clear Hy Hm'.
  unfold dec_mapping, translated. simpl. apply R_imap_spec in Hvs as [Hlv Hv].
  rewrite (res_imap_ok _ _ _ (translateVarNamesToIDs (Sources c') ids <$> Vars m)); [done|by rewrite length_fmap|].
  intros j x y Hx Hy. rewrite list_lookup_fmap in Hy. apply fmap_Some in Hy as (v & Hvj & ->).
  destruct (Hv j v Hvj) as (x' & n4 & n5 & Hx' & He). assert (x' = x) as -> by congruence.
  eapply enc_var_dec; [exact He|]. eapply translate_plain; [done|done|].
  pose proof (sl_vars _ Hsl) as Hall. rewrite Forall_lookup in Hall. specialize (Hall _ _ Hm).
  rewrite Forall_lookup in Hall. by apply (Hall _ _ Hvj).
Qed.

(** The encrypted sources carry the types of the plain ones. *)
Lemma enc_source_types c key c' prev ids name sc i :
  enc_run c key c' prev ids -> ids_ok prev c ids ->
  Sources c !! name = Some sc -> srcNameToID ids !! name = Some i ->
  exists sc', Sources c' !! i = Some sc' /\ Type_ sc' = Type_ sc.
Proof.
  intros Hrun Hok Hsc Hi. destruct (er_sources _ _ _ _ _ Hrun) as (n & n' & Hr).
  apply R_map_into_spec in Hr.
  2: { apply NoDup_ids; [eapply inverse_inj, (io_src _ _ _ Hok)|apply (io_src_dom _ _ _ Hok)]. }
  destruct (proj1 Hr name sc) as (sc' & (n1 & n2 & (ps & n3 & _ & [<- _]%R_ret_ok)%R_bind_ok) & Hl);
    [by apply elem_of_map_range|].
  rewrite (id_of_lookup _ _ _ Hi) in Hl. by eexists.
Qed.

Lemma inverse_empty_iff i2n n2i : inverse i2n n2i -> i2n = ∅ <-> n2i = ∅.
Proof.
  intros Hi. split; intros He; apply map_empty; intros k; apply eq_None_not_Some; intros [x Hx%Hi];
    rewrite He in Hx; by rewrite lookup_empty in Hx.
Qed.

Lemma rekey_sources nm n2i (srcs mid : gmap string SourceConfig) :
  inverse (NSources nm) n2i -> (forall name, is_Some (n2i !! name) <-> is_Some (srcs !! name)) ->
  keyed n2i (fun _ sc u => sc = u) srcs mid ->
  (if bool_decide (NSources nm <> ∅) && bool_decide (mid <> ∅)
   then rekey 26 (name_of (NSources nm)) mid else mid) = srcs.
Proof.
  intros Hi Hdom Hk.
  assert (He : NSources nm = ∅ <-> srcs = ∅).
  { rewrite (inverse_empty_iff _ _ Hi). split; intros Hem; apply map_empty; intros k; apply eq_None_not_Some.
    - rewrite <- Hdom, Hem, lookup_empty. by intros [].
    - rewrite Hdom, Hem, lookup_empty. by intros []. }
  pose proof (keyed_empty _ _ _ _ Hk) as Hm.
  destruct (decide (srcs = ∅)) as [Hs|Hs].
  - rewrite (bool_decide_eq_false_2 (NSources nm <> ∅)) by tauto. simpl. rewrite Hs. tauto.
  - rewrite !bool_decide_eq_true_2 by tauto. simpl. unfold rekey.
    eapply (rekey_keyed _ _ _ (fun _ u => u)); [exact Hi|exact Hk|done].
Qed.

Lemma rekey_secrets nm n2i (secs mid : gmap string (gmap string string)) :
  inverse (NBags nm) n2i ->
  keyed n2i (fun bag kv u => exists bid kn ki, n2i !! bag = Some bid
    /\ NKeys nm !! bid = Some kn /\ inverse kn ki /\ keyed ki (fun _ x y => x = y) kv u) secs mid ->
  (if bool_decide (mid <> ∅)
   then fold_left (fun acc bkv =>
          <[name_of (NBags nm) bkv.1 :=
            rekey 28 (name_of (default ∅ (NKeys nm !! bkv.1))) bkv.2]> acc) (map_range 27 mid) ∅
   else mid) = secs.
Proof.
  intros Hi Hk. case_bool_decide as Hm.
  - eapply (rekey_keyed _ _ _ (fun bid u => rekey 28 (name_of (default ∅ (NKeys nm !! bid))) u));
      [exact Hi|exact Hk|].
    intros id name v u Hn Hv (bid & kn & ki & Hn' & Hkn & Hinv & Hin).
    assert (bid = id) as -> by congruence. rewrite Hkn. simpl. unfold rekey.
    by eapply (rekey_keyed _ _ _ (fun _ u => u)).
  - assert (mid = ∅) as Hem by (by destruct (decide (mid = ∅))). rewrite Hem. symmetry.
    by apply (keyed_empty _ _ _ _ Hk).
Qed.

Lemma unseal_seal c key n c' n' prev :
  EncryptInPlace c key n = Ok (c', n') ->
  prev_names key c = Ok prev -> names_wf prev -> sealable c ->
  (forall nm, IDMap c' = Some nm -> codec_ok nm) ->
  DecryptInPlace c' key =
  Ok (mkConfig (CVersion c) (with_name_map (CMeta c) (NameMapEnv (CMeta c'))) (CAgent c) (Sources c)
        (Mappings c) (Secrets c) (IDMap c')).
Proof.
  intros (prev' & ids & Hrun)%EncryptInPlace_run Hprev Hwf Hsl Hcodec.
  assert (prev' = prev) as -> by (rewrite (er_prev _ _ _ _ _ Hrun) in Hprev; congruence).
  destruct (er_ids _ _ _ _ _ Hrun) as (n1 & n2 & Hok%assign_ids_ok).
  pose proof (ids_ok_shaped _ _ _ Hwf Hok) as Hsh.
  pose proof (er_rest _ _ _ _ _ Hrun) as Hrest.
  assert (Hid : IDMap c' = Some (newNm ids)) by (by rewrite Hrest).
  unfold DecryptInPlace.
  rewrite (er_names _ _ _ _ _ Hrun) by (by apply Hcodec). cbn [wrap_err mbind res_bind].
  destruct (enc_sources_dec _ _ _ _ _ Hrun Hok Hsh Hsl) as (srcs & -> & Hsrcs). cbn [mbind res_bind].
  destruct (enc_secrets_dec _ _ _ _ _ Hrun Hok Hsl) as (secs & -> & Hsecs). cbn [mbind res_bind].
  rewrite (enc_maps_dec _ _ _ _ _ Hrun Hok Hsh Hsl). cbn [mbind res_bind].
  unfold with_id_map, translateIDsToNames. cbn [CVersion CMeta CAgent Sources Mappings Secrets IDMap].
  rewrite (rekey_sources _ _ _ _ (io_src _ _ _ Hok) (io_src_dom _ _ _ Hok) Hsrcs).
  rewrite (rekey_secrets _ _ _ _ (io_bag _ _ _ Hok) Hsecs).
  assert (Hmaps : (fun m => mkMapping (Path m) (Glob m) (CwdGlob m) (Commands m)
      (name_var (newNm ids) (Type_ <$> srcs) <$> Vars m)) <$> (translated (Sources c') ids <$> Mappings c)
      = Mappings c).
  { rewrite <- list_fmap_compose. rewrite <- (list_fmap_id (Mappings c)) at 2.
    apply list_fmap_ext. intros i m Hm. destruct m as [p g w cmds vs] eqn:Hmm. simpl. unfold id. f_equal.
    rewrite <- list_fmap_compose. rewrite <- (list_fmap_id vs) at 2.
    apply list_fmap_ext. intros j v Hv. unfold id. simpl.
    pose proof (sl_vars _ Hsl) as Hall. rewrite Forall_lookup in Hall. specialize (Hall _ _ Hm). simpl in Hall.
    rewrite Forall_lookup in Hall. destruct (Hall _ _ Hv) as [Hvp Hvr].
    eapply name_translate; [done|done|done|done|]. intros name sc x Hsc Hx. split.
    - by eapply enc_source_types.
    - rewrite lookup_fmap. destruct (ky_fwd _ _ _ _ Hsrcs _ _ Hsc) as (x' & u & Hx' & Hu & ->).
      assert (x' = x) as -> by congruence. by rewrite Hu. }
  rewrite Hmaps, Hid. f_equal.
  f_equal; [by rewrite Hrest|by rewrite Hrest at 1|by rewrite Hrest].
Qed.

(** C1.  DecryptInPlace undoes EncryptInPlace.  For every configuration whose
    values do not themselves look sealed and whose vars name defined sources, in
    whatever order Go ranges over its maps and whatever identifiers are minted:
    if sealing succeeds then unsealing the result under the same key succeeds and
    gives back the sources, the secrets and the mappings, name for name; only the
    sealed dictionary and its decrypted copy are new. *)
Theorem DecryptInPlace_EncryptInPlace c key n c' n' prev :
  EncryptInPlace c key n = Ok (c', n') ->
  prev_names key c = Ok prev -> names_wf prev -> sealable c ->
  (forall nm, IDMap c' = Some nm -> codec_ok nm) ->
  DecryptInPlace c' key =
  Ok (mkConfig (CVersion c) (with_name_map (CMeta c) (NameMapEnv (CMeta c'))) (CAgent c) (Sources c)
        (Mappings c) (Secrets c) (IDMap c')).
Proof. apply unseal_seal. Qed.

(** ** What is on disk *)

Definition at_rest (s : string) : Prop := s = "" \/ IsEnvelope s = true.

Record var_at_rest (v : VarRef) : Prop := {
  vr_name : at_rest (Name v);
  vr_source : at_rest (Source v);
  vr_ref : at_rest (Ref v);
  vr_key : at_rest (Key v);
  vr_value : at_rest (Value v);
  vr_extra : map_Forall (fun _ => at_rest) (Extra v)
}.

Lemma enc_value_at_rest key s aad n e n' : enc_value key s aad n = Ok (e, n') -> at_rest e.
Proof. intros [[-> _]|?]%enc_value_sealed; [by left|by right]. Qed.

Lemma in_place_at_rest {E V} (P : V -> Prop) (f : string -> V -> R E V) (m m' : gmap string V) n n' site :
  R_map_into id f m (map_range site m) n = Ok (m', n') ->
  (forall k v w n1 n2, f k v n1 = Ok (w, n2) -> P w) -> map_Forall (fun _ => P) m'.
Proof.
  intros Hs%R_map_into_spec HP; [|apply NoDup_map_range_id]. intros k w Hw.
  destruct (m !! k) as [v|] eqn:Hk.
  - destruct (map_into_spec_id _ _ _ _ _ _ Hs Hk) as (w' & (n1 & n2 & Hf) & Hw').
    assert (w' = w) as -> by congruence. by eapply HP.
  - rewrite (map_into_spec_id_None _ _ _ _ _ Hs Hk) in Hw. done.
Qed.

Lemma enc_var_at_rest key i j v n v' n' : enc_var key i j v n = Ok (v', n') -> var_at_rest v'.
Proof.
  intros Hr. unfold enc_var in Hr.
  apply R_bind_ok in Hr as (a & n1 & Ha%R_wrap_ok & Hr). apply R_bind_ok in Hr as (b & n2 & Hb%R_wrap_ok & Hr).
  apply R_bind_ok in Hr as (cc & n3 & Hc%R_wrap_ok & Hr). apply R_bind_ok in Hr as (d & n4 & Hd%R_wrap_ok & Hr).
  apply R_bind_ok in Hr as (e & n5 & He%R_wrap_ok & Hr).
  apply R_bind_ok in Hr as (x & n6 & Hx & [<- _]%R_ret_ok).
  split; simpl; try by eapply enc_value_at_rest.
  eapply in_place_at_rest; [exact Hx|]. intros k y w n7 n8 Hw%R_wrap_ok. by eapply enc_value_at_rest.
Qed.

Lemma enc_sources_back c key c' prev ids i sc' :
  enc_run c key c' prev ids -> ids_ok prev c ids -> Sources c' !! i = Some sc' ->
  exists name sc n n', srcNameToID ids !! name = Some i /\ Sources c !! name = Some sc
    /\ enc_source key i name sc n = Ok (sc', n').
Proof.
  intros Hrun Hok Hi. destruct (er_sources _ _ _ _ _ Hrun) as (n3 & n4 & Hs). apply R_map_into_spec in Hs.
  2: { apply NoDup_ids; [eapply inverse_inj, (io_src _ _ _ Hok)|apply (io_src_dom _ _ _ Hok)]. }
  destruct (keyed_encrypt _ _ _ _ _ (inverse_inj _ _ (io_src _ _ _ Hok)) (io_src_dom _ _ _ Hok) Hs) as [Hsb _].
  destruct (Hsb _ _ Hi) as (name & sc & Hn & Hsc & (n & n' & He)). exists name, sc, n, n'.
  by rewrite (id_of_lookup _ _ _ Hn) in He.
Qed.

Lemma enc_secrets_back c key c' prev ids bid kv' :
  enc_run c key c' prev ids -> ids_ok prev c ids -> ids_shaped ids -> Secrets c' !! bid = Some kv' ->
  IsBagID bid = true /\ forall k v, kv' !! k = Some v -> IsKeyID k = true /\ at_rest v.
Proof.
  intros Hrun Hok Hsh Hl. destruct (er_secrets _ _ _ _ _ Hrun) as (n5 & n6 & Hb). apply R_map_into_spec in Hb.
  2: { apply NoDup_ids; [eapply inverse_inj, (io_bag _ _ _ Hok)|apply (io_bag_dom _ _ _ Hok)]. }
  destruct (keyed_encrypt _ _ _ _ _ (inverse_inj _ _ (io_bag _ _ _ Hok)) (io_bag_dom _ _ _ Hok) Hb) as [Hbb _].
  destruct (Hbb _ _ Hl) as (bag & kv & Hbid & Hkv & (m1 & m2 & He)). split; [by eapply (is_bag _ Hsh)|].
  destruct (io_keys _ _ _ Hok _ _ _ Hkv Hbid) as (kn & ki & Hkn & Hki & Hinv & Hdom & _).
  rewrite (id_of_lookup _ _ _ Hbid), Hki in He. simpl in He. unfold enc_bag in He.
  apply R_map_into_spec in He.
  2: { apply NoDup_ids; [by eapply inverse_inj|done]. }
  intros k v Hv. destruct (keyed_encrypt _ _ _ _ _ (inverse_inj _ _ Hinv) Hdom He) as [Hkb _].
  destruct (Hkb k v Hv) as (name & pt & Hn & _ & (m3 & m4 & Hev)). apply (proj1 (R_wrap_ok _ _ _ _)) in Hev.
  split; [|by eapply enc_value_at_rest].
  eapply (is_key _ Hsh); [exact Hki| |exact Hn]. exists bag. by apply (io_bag _ _ _ Hok).
Qed.

Lemma enc_source_at_rest key sid name sc n sc' n' k s :
  enc_source key sid name sc n = Ok (sc', n') -> Params sc' !! k = Some (AStr s) -> at_rest s.
Proof.
  intros (ps & m3 & Hps & [<- _]%R_ret_ok)%R_bind_ok Hk. simpl in Hk.
  refine (in_place_at_rest (fun v => match v with AStr s => at_rest s | _ => True end) _ _ _ _ _ _ Hps _ k _ Hk).
  intros k0 v w m4 m5 Hw. apply (proj1 (R_wrap_ok _ _ _ _)) in Hw.
  destruct v; simpl in Hw; try (apply R_ret_ok in Hw as [<- _]; done).
  apply R_bind_ok in Hw as (e & m6 & He & [<- _]%R_ret_ok). by eapply enc_value_at_rest.
Qed.

Lemma enc_maps_at_rest c key c' prev ids :
  enc_run c key c' prev ids -> Forall (fun m => Forall var_at_rest (Vars m)) (Mappings c').
Proof.
  intros Hrun. destruct (er_maps _ _ _ _ _ Hrun) as (m1 & m2 & [Hl Hm]%R_imap_spec).
  apply Forall_lookup. intros i m' Hm'. destruct (lookup_lt_is_Some_2 (Mappings c) i) as [m Hmi].
  { rewrite <- Hl. by eapply lookup_lt_Some. }
  destruct (Hm i m Hmi) as (y & m3 & m4 & Hy & (vs & m5 & Hvs & [<- _]%R_ret_ok)%R_bind_ok).
  assert (m' = mkMapping (Path m) (Glob m) (CwdGlob m) (Commands m) vs) as -> by congruence. simpl.
  apply R_imap_spec in Hvs as [Hlv Hv]. apply Forall_lookup. intros j v' Hv'.
  destruct (lookup_lt_is_Some_2 (Vars m) j) as [v Hvj]; [rewrite <- Hlv; by eapply lookup_lt_Some|].
  destruct (Hv j v Hvj) as (x & m6 & m7 & Hx & He). assert (x = v') as -> by congruence.
  by eapply enc_var_at_rest.
Qed.

(** The dictionary a run leaves has identifiers of the right shapes. *)
Lemma enc_names_wf c key n c' n' prev :
  EncryptInPlace c key n = Ok (c', n') -> prev_names key c = Ok prev -> names_wf prev ->
  exists nm, IDMap c' = Some nm /\ names_wf nm.
Proof.
  intros (prev' & ids & Hrun)%EncryptInPlace_run Hprev Hwf.
  assert (prev' = prev) as -> by (rewrite (er_prev _ _ _ _ _ Hrun) in Hprev; congruence).
  destruct (er_ids _ _ _ _ _ Hrun) as (n1 & n2 & Hok%assign_ids_ok).
  destruct (ids_ok_shaped _ _ _ Hwf Hok) as [Ss Sb Sk].
  exists (newNm ids). split; [by rewrite (er_rest _ _ _ _ _ Hrun)|]. split.
  - intros i name Hi. eapply Ss. by apply (io_src _ _ _ Hok).
  - intros i name Hi. eapply Sb. by apply (io_bag _ _ _ Hok).
  - intros b m i name Hm Hi. destruct (proj1 (io_keys_dom _ _ _ Hok b)) as [bag Hbag]; [by exists m|].
    pose proof (proj1 (io_bag _ _ _ Hok _ _) Hbag) as Hb.
    destruct (proj1 (io_bag_dom _ _ _ Hok bag)) as [kv Hkv]; [by exists b|].
    destruct (io_keys _ _ _ Hok _ _ _ Hkv Hb) as (kn & ki & Hkn & Hki & Hinv & _).
    assert (kn = m) as -> by congruence. eapply (Sk _ _ _ _ Hki); [by exists bag|]. by apply Hinv.
Qed.

Lemma enc_no_migration c key n c' n' prev :
  EncryptInPlace c key n = Ok (c', n') -> prev_names key c = Ok prev -> names_wf prev ->
  NeedsIDMigration c' = false.
Proof.
  intros (prev' & ids & Hrun)%EncryptInPlace_run Hprev Hwf.
  assert (prev' = prev) as -> by (rewrite (er_prev _ _ _ _ _ Hrun) in Hprev; congruence).
  destruct (er_ids _ _ _ _ _ Hrun) as (n1 & n2 & Hok%assign_ids_ok).
  pose proof (ids_ok_shaped _ _ _ Hwf Hok) as Hsh.
  unfold NeedsIDMigration. apply negb_false_iff, HasOpaqueIDShape_spec. split.
  - intros i [sc Hsc]%elem_of_dom.
    destruct (enc_sources_back _ _ _ _ _ _ _ Hrun Hok Hsc) as (name & _ & _ & _ & Hi & _).
    by eapply (is_src _ Hsh).
  - intros bid kv Hkv. destruct (enc_secrets_back _ _ _ _ _ _ _ Hrun Hok Hsh Hkv) as [? Hk].
    split; [done|]. intros k [v Hv]%elem_of_dom. by eapply Hk.
Qed.

(** C33.  After a successful EncryptInPlace no plaintext string is left where a
    secret can be: every top-level string parameter, every bag value and every
    field and extra of every var is empty or an envelope; and every source, bag and
    key is an opaque identifier, so the configuration needs no migration. *)
Theorem EncryptInPlace_at_rest c key n c' n' prev :
  EncryptInPlace c key n = Ok (c', n') -> prev_names key c = Ok prev -> names_wf prev ->
  NeedsIDMigration c' = false
  /\ (forall id sc k s, Sources c' !! id = Some sc -> Params sc !! k = Some (AStr s) -> at_rest s)
  /\ (forall bid kv, Secrets c' !! bid = Some kv -> map_Forall (fun _ => at_rest) kv)
  /\ Forall (fun m => Forall var_at_rest (Vars m)) (Mappings c').
Proof.
  intros Henc Hprev Hwf. split; [by eapply enc_no_migration|]. revert Hprev.
  apply EncryptInPlace_run in Henc as (prev' & ids & Hrun). intros Hprev.
  assert (prev' = prev) as -> by (rewrite (er_prev _ _ _ _ _ Hrun) in Hprev; congruence).
  destruct (er_ids _ _ _ _ _ Hrun) as (n1 & n2 & Hok%assign_ids_ok).
  pose proof (ids_ok_shaped _ _ _ Hwf Hok) as Hsh. split; [|split].
  - intros i sc k s Hsc Hk.
    destruct (enc_sources_back _ _ _ _ _ _ _ Hrun Hok Hsc) as (name & sc0 & m & m' & _ & _ & He).
    by eapply enc_source_at_rest.
  - intros bid kv Hkv k v Hv. by eapply (enc_secrets_back _ _ _ _ _ _ _ Hrun Hok Hsh Hkv).
  - by eapply enc_maps_at_rest.
Qed.
End Whole.
End SealRoundtrip.
