(* ===== verification/SealStable.v ===== *)
(** * Identifiers are stable

    Re-sealing a configuration keeps the identifier of every name the previous
    dictionary knows, drops the identifiers of deleted names, and leaves the
    sealed dictionary byte for byte the same when nothing changed.  The file ends
    with a worked configuration, sealed with the toy cipher. *)

From S2P Require Import Prelude GoString Base64 ConfigModel Crypto NameId Toys Seal SealIds SealRoundtrip.
Import Config Crypto NameId Toys Seal SealIds SealRoundtrip.

Module SealStable.

(** Every name of a dictionary has one ID. *)
Record names_injective (nm : NameMap) : Prop := {
  ni_src : injective (NSources nm);
  ni_bag : injective (NBags nm);
  ni_key : forall bid m, NKeys nm !! bid = Some m -> injective m
}.

(** The dictionary lists exactly the structure of [c]. *)
Record names_exact (c : Config) (nm : NameMap) : Prop := {
  ne_src : forall name, (exists id, NSources nm !! id = Some name) <-> is_Some (Sources c !! name);
  ne_bag : forall bag, (exists id, NBags nm !! id = Some bag) <-> is_Some (Secrets c !! bag);
  ne_key : forall bag id kv, NBags nm !! id = Some bag -> Secrets c !! bag = Some kv ->
    exists m, NKeys nm !! id = Some m /\ forall k, (exists kid, m !! kid = Some k) <-> is_Some (kv !! k);
  ne_dom : forall bid, is_Some (NKeys nm !! bid) <-> is_Some (NBags nm !! bid)
}.

Section Stable.
Context `{AEAD, !AEADLaws, Rand, !RandLaws, NameMapCodec, !NameMapCodecLaws, MapRange}.

Lemma nameToID_injective site (m : gmap string string) id name :
  injective m -> m !! id = Some name -> nameToID site m !! name = Some id.
Proof.
  intros Hinj Hm. destruct (nameToID_total site m name id Hm) as [i Hi]. rewrite Hi. f_equal.
  apply nameToID_spec in Hi. by eapply Hinj.
Qed.

Lemma origin_known prefix site (m : gmap string string) name i id :
  injective m -> m !! id = Some name -> origin prefix (nameToID site m) name i -> i = id.
Proof.
  intros Hinj Hm Ho. pose proof (nameToID_injective site _ _ _ Hinj Hm) as Hn.
  destruct Ho as [Ho|[Ho _]]; congruence.
Qed.

Lemma ids_exact prev c ids : ids_ok prev c ids -> names_injective (newNm ids) /\ names_exact c (newNm ids).
Proof.
  intros [Hs Hsd _ Hb Hbd _ Hk Hkd].
  assert (Hback : forall i2n n2i, inverse i2n n2i -> injective i2n).
  { intros i2n n2i Hi x y z Hx%Hi Hy%Hi. congruence. }
  assert (Hex : forall i2n n2i (P : string -> Prop), inverse i2n n2i ->
    (forall name, is_Some (n2i !! name) <-> P name) -> forall name, (exists id, i2n !! id = Some name) <-> P name).
  { intros i2n n2i P Hi HP name. rewrite <- HP. split; intros [i Hx]; exists i; by apply Hi. }
  split; split.
  - by eapply Hback.
  - by eapply Hback.
  - intros bid m Hm. destruct (proj1 (Hkd bid)) as [bag Hbag]; [by exists m|]. apply Hb in Hbag.
    destruct (proj1 (Hbd bag)) as [kv Hkv]; [by exists bid|].
    destruct (Hk _ _ _ Hkv Hbag) as (kn & ki & Hkn & _ & Hi & _). assert (kn = m) as -> by congruence.
    by eapply Hback.
  - by eapply Hex.
  - by eapply Hex.
  - intros bag bid kv Hbag%Hb Hkv. destruct (Hk _ _ _ Hkv Hbag) as (kn & ki & Hkn & _ & Hi & Hd & _).
    exists kn. split; [done|]. by eapply Hex.
  - done.
Qed.

Lemma ids_keep prev c ids : ids_ok prev c ids -> names_injective prev ->
  (forall id name, NSources prev !! id = Some name -> is_Some (Sources c !! name) ->
    NSources (newNm ids) !! id = Some name)
  /\ (forall id bag, NBags prev !! id = Some bag -> is_Some (Secrets c !! bag) ->
    NBags (newNm ids) !! id = Some bag)
  /\ (forall bid bag kv m kid k, NBags prev !! bid = Some bag -> Secrets c !! bag = Some kv ->
    NKeys prev !! bid = Some m -> m !! kid = Some k -> is_Some (kv !! k) ->
    exists m', NKeys (newNm ids) !! bid = Some m' /\ m' !! kid = Some k).
Proof.
  intros [Hs Hsd Hso Hb Hbd Hbo Hk Hkd] [Is Ib Ik].
  assert (HB : forall id bag, NBags prev !! id = Some bag -> is_Some (Secrets c !! bag) ->
    bagNameToID ids !! bag = Some id).
  { intros id bag Hid [i Hi]%Hbd. rewrite Hi. f_equal. eapply origin_known; [exact Ib|exact Hid|by apply Hbo]. }
  split; [|split].
  - intros id name Hid [i Hi]%Hsd. apply Hs. rewrite Hi. f_equal.
    eapply origin_known; [exact Is|exact Hid|by apply Hso].
  - intros id bag Hid Hbag. apply Hb. by apply HB.
  - intros bid bag kv m kid k Hbid Hkv Hm Hkid Hkk.
    pose proof (HB _ _ Hbid (ex_intro _ kv Hkv)) as Hbag.
    destruct (Hk _ _ _ Hkv Hbag) as (kn & ki & Hkn & _ & Hi & Hd & Ho). exists kn. split; [done|].
    apply Hd in Hkk as [x Hx]. apply Hi. rewrite Hx. f_equal. specialize (Ho _ _ Hx).
    unfold key_prior in Ho. rewrite Hm in Ho. simpl in Ho.
    eapply origin_known; [by eapply Ik|exact Hkid|exact Ho].
Qed.

(** C35.  Identifiers are stable and minimal.  When the configuration carries a
    dictionary with one ID per name (the TUI renames by editing it), EncryptInPlace
    keeps the ID of every source, bag and key that is still there, and the new
    dictionary again has one ID per name and lists exactly the structure of the
    configuration, so deleted names leave it. *)
Theorem EncryptInPlace_keeps_ids c key n c' n' nm :
  EncryptInPlace c key n = Ok (c', n') -> IDMap c = Some nm -> names_injective nm ->
  exists nm', IDMap c' = Some nm' /\ names_injective nm' /\ names_exact c nm'
  /\ (forall id name, NSources nm !! id = Some name -> is_Some (Sources c !! name) ->
        NSources nm' !! id = Some name)
  /\ (forall id bag, NBags nm !! id = Some bag -> is_Some (Secrets c !! bag) -> NBags nm' !! id = Some bag)
  /\ (forall bid bag kv m kid k, NBags nm !! bid = Some bag -> Secrets c !! bag = Some kv ->
        NKeys nm !! bid = Some m -> m !! kid = Some k -> is_Some (kv !! k) ->
        exists m', NKeys nm' !! bid = Some m' /\ m' !! kid = Some k).
Proof.
  intros (prev & ids & Hrun)%EncryptInPlace_run Hid Hinj.
  pose proof (er_prev _ _ _ _ _ Hrun) as Hp. unfold prev_names in Hp. rewrite Hid in Hp.
  injection Hp as <-. destruct (er_ids _ _ _ _ _ Hrun) as (n1 & n2 & Hok%assign_ids_ok).
  exists (newNm ids). split; [by rewrite (er_rest _ _ _ _ _ Hrun)|].
  destruct (ids_exact _ _ _ Hok) as [? ?]. split; [done|]. split; [done|]. by apply ids_keep.
Qed.

(** Two exact dictionaries of which one keeps the other's IDs are equal. *)
Lemma kept_exact_eq (a b : gmap string string) (P : string -> Prop) :
  injective b -> (forall name, (exists id, a !! id = Some name) <-> P name) ->
  (forall name, (exists id, b !! id = Some name) <-> P name) ->
  (forall id name, a !! id = Some name -> P name -> b !! id = Some name) -> b = a.
Proof.
  intros Hinj Ha Hb Hk. symmetry. apply map_eq. intros id. apply option_eq. intros name. split.
  - intros Hx. apply Hk; [done|]. apply Ha. by exists id.
  - intros Hx. destruct (proj2 (Ha name)) as [id' Hid']; [apply Hb; by exists id|].
    assert (id' = id) as ->; [|done]. eapply Hinj; [|exact Hx]. apply Hk; [done|]. apply Ha. by exists id'.
Qed.

Lemma ids_same prev c ids :
  ids_ok prev c ids -> names_injective prev -> names_exact c prev -> newNm ids = prev.
Proof.
  intros Hok Hinj Hex. destruct (ids_exact _ _ _ Hok) as [Hinj' Hex'].
  destruct (ids_keep _ _ _ Hok Hinj) as (Ks & Kb & Kk).
  assert (Hs : NSources (newNm ids) = NSources prev).
  { eapply kept_exact_eq; [apply Hinj'|apply Hex|apply Hex'|apply Ks]. }
  assert (Hb : NBags (newNm ids) = NBags prev).
  { eapply kept_exact_eq; [apply Hinj'|apply Hex|apply Hex'|apply Kb]. }
  assert (Hk : NKeys (newNm ids) = NKeys prev).
  { apply map_eq. intros bid. destruct (NBags prev !! bid) as [bag|] eqn:Hbag.
    - destruct (proj1 (ne_bag _ _ Hex bag)) as [kv Hkv]; [by exists bid|].
      destruct (ne_key _ _ Hex _ _ _ Hbag Hkv) as (m & Hm & Hmk).
      destruct (ne_key _ _ Hex' _ _ kv ltac:(by rewrite Hb) Hkv) as (m' & Hm' & Hmk').
      rewrite Hm, Hm'. f_equal. eapply kept_exact_eq; [by eapply (ni_key _ Hinj')|exact Hmk|exact Hmk'|].
      intros kid k Hkid Hkk. destruct (Kk _ _ _ _ _ _ Hbag Hkv Hm Hkid Hkk) as (m2 & Hm2 & ?). congruence.
    - assert (Hn : forall nm', NBags nm' = NBags prev -> names_exact c nm' -> NKeys nm' !! bid = None).
      { intros nm' He Hex2. apply eq_None_not_Some. rewrite (ne_dom _ _ Hex2), He, Hbag. by intros []. }
      rewrite (Hn _ Hb Hex'), (Hn prev); done. }
  destruct (newNm ids), prev. simpl in *. congruence.
Qed.

(**  Saving without an edit does not churn.  Unseal a configuration that
    EncryptInPlace produced and seal it again, with whatever nonces and in whatever
    iteration orders: the dictionary is the same and its sealed form is the very
    same string, so no identifier and no name-map nonce changes. *)
Theorem EncryptInPlace_idempotent_names c key n c1 n1 prev c2 m c3 m1 :
  EncryptInPlace c key n = Ok (c1, n1) ->
  prev_names key c = Ok prev -> names_wf prev -> sealable c ->
  (forall nm, IDMap c1 = Some nm -> codec_ok nm) ->
  DecryptInPlace c1 key = Ok c2 -> EncryptInPlace c2 key m = Ok (c3, m1) ->
  IDMap c3 = IDMap c1 /\ NameMapEnv (CMeta c3) = NameMapEnv (CMeta c1).
Proof.
  intros Henc Hprev Hwf Hsl Hcodec Hdec Henc2.
  rewrite (unseal_seal _ _ _ _ _ _ Henc Hprev Hwf Hsl Hcodec) in Hdec. injection Hdec as <-.
  apply EncryptInPlace_run in Henc as (prev' & ids & Hrun).
  destruct (er_ids _ _ _ _ _ Hrun) as (k1 & k2 & Hok%assign_ids_ok).
  destruct (ids_exact _ _ _ Hok) as [Hinj Hex].
  assert (Hid : IDMap c1 = Some (newNm ids)) by (by rewrite (er_rest _ _ _ _ _ Hrun)).
  apply EncryptInPlace_run in Henc2 as (prev2 & ids2 & Hrun2).
  pose proof (er_prev _ _ _ _ _ Hrun2) as Hp. unfold prev_names in Hp. simpl in Hp. rewrite Hid in Hp.
  injection Hp as <-. destruct (er_ids _ _ _ _ _ Hrun2) as (k3 & k4 & Hok2%assign_ids_ok).
  assert (Hsame : newNm ids2 = newNm ids).
  { eapply ids_same; [exact Hok2|exact Hinj|]. destruct Hex as [E1 E2 E3 E4]. by split. }
  split.
  - by rewrite (er_rest _ _ _ _ _ Hrun2), Hid, Hsame.
  - rewrite <- Hsame in Hid. apply (er_reuse _ _ _ _ _ Hrun2); simpl.
    + rewrite Hsame. apply (er_names _ _ _ _ _ Hrun). by apply Hcodec; rewrite Hid, Hsame.
    + apply (er_env _ _ _ _ _ Hrun).
Qed.
End Stable.

(** ** A worked configuration *)

#[local] Existing Instance toy_aead.
#[local] Existing Instance toy_rand.

Definition ex_meta : Meta := mkMeta "argon2id" 3 65536 4 "c2FsdA==" "" "" "".
Definition ex_agent : AgentConfig := mkAgentConfig "" "" None None.

Definition ex_config : Config :=
  mkConfig 1 ex_meta ex_agent
    {["loc" := mkSource "local" ∅;
      "aws" := mkSource "aws" {["region" := AStr "eu"; "retries" := AInt 3]}]}
    [mkMapping "/bin/app" "" "" []
       [mkVar "TOKEN" "loc" "prod" "token" ∅ "";
        mkVar "SECRET" "aws" "arn" "" {["stage" := "live"]} "";
        mkVar "MODE" "" "" "" ∅ "fast"]]
    {["prod" := {["token" := "s3cret"; "spare" := ""]}]}
    None.

#[local] Existing Instance map_range_default.

Definition ex_sealed : Config :=
  match EncryptInPlace ex_config toy_key 0 with Ok (c, _) => c | Err _ => ex_config end.
Definition ex_calls : nat :=
  match EncryptInPlace ex_config toy_key 0 with Ok (_, n) => n | Err _ => 0 end.
Definition ex_names : NameMap := default empty_names (IDMap ex_sealed).

Lemma ex_sealed_run : EncryptInPlace ex_config toy_key 0 = Ok (ex_sealed, ex_calls).
Proof. vm_compute. reflexivity. Qed.

Lemma empty_names_wf : names_wf empty_names.
Proof. split; intros *; simpl; rewrite lookup_empty; done. Qed.

Lemma ex_sealable : sealable ex_config.
Proof.
  split.
  - apply (bool_decide_unpack _). vm_compute. exact I.
  - apply (bool_decide_unpack _). vm_compute. exact I.
  - assert (Hv : forall v, v ∈ [mkVar "TOKEN" "loc" "prod" "token" ∅ "";
        mkVar "SECRET" "aws" "arn" "" {["stage" := "live"]} ""; mkVar "MODE" "" "" "" ∅ "fast"] -> var_plain v).
    { apply Forall_forall. repeat constructor; apply (bool_decide_unpack _); vm_compute; exact I. }
    constructor; [|constructor]. simpl.
    constructor; [split; [apply Hv; set_solver|]|constructor; [split; [apply Hv; set_solver|]|constructor;
      [split; [apply Hv; set_solver|by left]|constructor]]].
    + right. exists (mkSource "local" ∅). split; [reflexivity|]. intros _. simpl.
      vm_compute. split; [discriminate|]. right. left. by eexists.
    + right. eexists. split; [reflexivity|]. intros Ht. vm_compute in Ht. discriminate Ht.
Qed.

Lemma ex_names_injective : names_injective ex_names.
Proof.
  destruct (EncryptInPlace_run _ _ _ _ _ ex_sealed_run) as (prev & ids & Hrun).
  destruct (er_ids _ _ _ _ _ Hrun) as (n1 & n2 & Hok%assign_ids_ok).
  unfold ex_names. rewrite (er_rest _ _ _ _ _ Hrun). simpl. by apply (ids_exact _ _ _ Hok).
Qed.

(** The configuration with the dictionary an unlock leaves on it. *)
Definition ex_plain : Config := with_id_map ex_config ex_names.
Definition ex_saved : Config :=
  match EncryptInPlace ex_plain toy_key 50 with Ok (c, _) => c | Err _ => ex_config end.
Definition ex_saved_calls : nat :=
  match EncryptInPlace ex_plain toy_key 50 with Ok (_, n) => n | Err _ => 0 end.

Lemma DecryptInPlace_EncryptInPlace_witness :
  EncryptInPlace ex_config toy_key 0 = Ok (ex_sealed, ex_calls)
  /\ DecryptInPlace ex_sealed toy_key =
     Ok (mkConfig (CVersion ex_config) (with_name_map (CMeta ex_config) (NameMapEnv (CMeta ex_sealed)))
           (CAgent ex_config) (Sources ex_config) (Mappings ex_config) (Secrets ex_config) (IDMap ex_sealed)).
Proof.
  split; [exact ex_sealed_run|].
  apply (DecryptInPlace_EncryptInPlace ex_config toy_key 0 ex_sealed ex_calls empty_names);
    [exact ex_sealed_run|reflexivity|exact empty_names_wf|exact ex_sealable|intros ? _; exact I].
Defined.

Lemma EncryptInPlace_at_rest_witness :
  NeedsIDMigration ex_sealed = false /\ size (Sources ex_sealed) = 2
  /\ Forall (fun m => Forall var_at_rest (Vars m)) (Mappings ex_sealed).
Proof.
  destruct (EncryptInPlace_at_rest ex_config toy_key 0 ex_sealed ex_calls empty_names) as (H1 & _ & _ & H2);
    [exact ex_sealed_run|reflexivity|exact empty_names_wf|].
  split; [exact H1|]. split; [vm_compute; reflexivity|exact H2].
Defined.

Lemma EncryptInPlace_keeps_ids_witness :
  EncryptInPlace ex_plain toy_key 50 = Ok (ex_saved, ex_saved_calls)
  /\ exists nm', IDMap ex_saved = Some nm' /\ names_exact ex_plain nm'.
Proof.
  assert (Hr : EncryptInPlace ex_plain toy_key 50 = Ok (ex_saved, ex_saved_calls)) by (vm_compute; reflexivity).
  split; [exact Hr|].
  destruct (EncryptInPlace_keeps_ids ex_plain toy_key 50 ex_saved ex_saved_calls ex_names Hr)
    as (nm' & H1 & _ & H2 & _); [reflexivity|exact ex_names_injective|].
  exists nm'. split; [exact H1|exact H2].
Defined.

Definition ex_reopened : Config :=
  match DecryptInPlace ex_sealed toy_key with Ok c => c | Err _ => ex_config end.
Definition ex_resaved : Config :=
  match EncryptInPlace ex_reopened toy_key 99 with Ok (c, _) => c | Err _ => ex_config end.
Definition ex_resaved_calls : nat :=
  match EncryptInPlace ex_reopened toy_key 99 with Ok (_, n) => n | Err _ => 0 end.

Lemma EncryptInPlace_idempotent_names_witness :
  IDMap ex_resaved = IDMap ex_sealed /\ NameMapEnv (CMeta ex_resaved) = NameMapEnv (CMeta ex_sealed)
  /\ NameMapEnv (CMeta ex_sealed) <> "".
Proof.
  assert (Hd : DecryptInPlace ex_sealed toy_key = Ok ex_reopened) by (vm_compute; reflexivity).
  assert (He : EncryptInPlace ex_reopened toy_key 99 = Ok (ex_resaved, ex_resaved_calls)) by (vm_compute; reflexivity).
  destruct (EncryptInPlace_idempotent_names ex_config toy_key 0 ex_sealed ex_calls empty_names ex_reopened 99
    ex_resaved ex_resaved_calls) as [H1 H2];
    [exact ex_sealed_run|reflexivity|exact empty_names_wf|exact ex_sealable|intros ? _; exact I|exact Hd|exact He|].
  split; [exact H1|]. split; [exact H2|]. vm_compute. discriminate.
Defined.
End SealStable.
