(* ===== verification/SealStructure.v ===== *)
(** * Sealing keeps a configuration well-formed

    The shape that ValidateStructure checks (src/internal/config/config.go) is
    what the sealed form on disk still has: EncryptInPlace changes values, never
    which of them are there.  [jitenv sync] relies on it when it validates a
    pulled, still encrypted configuration (src/internal/cli/sync.go). *)

From S2P Require Import Prelude GoString ConfigModel Crypto NameId Seal SealIds SealRoundtrip SealStable Toys.
Import Config Crypto NameId Seal SealIds SealRoundtrip SealStable Toys.

Module SealStructure.

(** Two vars with the same fields set. *)
Record same_shape (v w : VarRef) : Prop := {
  ss_name : Name w = "" <-> Name v = "";
  ss_source : Source w = "" <-> Source v = "";
  ss_ref : Ref w = "" <-> Ref v = "";
  ss_key : Key w = "" <-> Key v = "";
  ss_value : Value w = "" <-> Value v = "";
  ss_extra : Extra w = ∅ <-> Extra v = ∅
}.

#[global] Instance same_shape_equiv : Equivalence same_shape.
Proof.
  split.
  - by intros v.
  - intros v w [????? ?]. by split; symmetry.
  - intros u v w [????? ?] [????? ?]. by split; etrans.
Qed.

#[global] Instance var_shape_ok_proper : Proper (same_shape ==> iff) var_shape_ok.
Proof. intros v w [Hn Hs Hr Hk Hv Hx]. unfold var_shape_ok. by rewrite Hn, Hs, Hr, Hk, Hv, Hx. Qed.

(** Mappings with the same selector and commands, var for var the same shape. *)
Record same_mapping (m m' : Mapping) : Prop := {
  sm_path : Path m' = Path m;
  sm_glob : Glob m' = Glob m;
  sm_cwd : CwdGlob m' = CwdGlob m;
  sm_commands : Commands m' = Commands m;
  sm_vars : Forall2 same_shape (Vars m) (Vars m')
}.

Lemma Forall2_iff {A} (R : A -> A -> Prop) (P : A -> Prop) l l' :
  Proper (R ==> iff) P -> Forall2 R l l' -> Forall P l <-> Forall P l'.
Proof.
  intros HP. induction 1 as [|x y l l' Hxy _ IH]; [done|]. by rewrite !Forall_cons, IH, (HP _ _ Hxy).
Qed.

#[global] Instance mapping_ok_proper : Proper (same_mapping ==> iff) mapping_ok.
Proof.
  intros [p g w cs vs] [p' g' w' cs' vs'] [Hp Hg Hw Hc Hv]. simpl in *. subst. unfold mapping_ok. simpl.
  rewrite (Forall2_iff same_shape var_shape_ok _ _ _ Hv).
  assert (Hnil : vs <> [] <-> vs' <> []) by (apply Forall2_length in Hv; destruct vs, vs'; naive_solver).
  rewrite Hnil. apply and_iff_compat_r. split; intros [| |]; simpl in *;
    (by eapply shape_path) || (by eapply shape_glob) || (by eapply shape_cwd).
Qed.

Section Structure.
Context `{AEAD, !AEADLaws, Rand, !RandLaws, NameMapCodec, !NameMapCodecLaws, MapRange}.

Lemma enc_value_empty key s aad n e n' : enc_value key s aad n = Ok (e, n') -> e = "" <-> s = "".
Proof.
  unfold enc_value. str_cases s; [by intros [<- _]%R_ret_ok|]. simpl. destruct (IsEnvelope s).
  - by intros [<- _]%R_ret_ok.
  - destruct aad as [ad|]; [|done]. intros Hr. apply EncryptField_roundtrip in Hr as (He & _).
    apply IsEnvelope_nonempty in He. naive_solver.
Qed.

Lemma R_map_into_empty_iff {E V} (f : string -> V -> R E V) (m m' : gmap string V) n n' site :
  R_map_into id f m (map_range site m) n = Ok (m', n') -> m' = ∅ <-> m = ∅.
Proof.
  intros Hr. split; [by eapply R_map_into_empty|]. intros ->.
  apply R_map_into_spec in Hr; [|apply NoDup_map_range_id]. apply map_empty. intros k.
  by apply (map_into_spec_id_None _ _ _ _ _ Hr).
Qed.

Lemma enc_var_shape key i j v n v' n' : enc_var key i j v n = Ok (v', n') -> same_shape v v'.
Proof.
  intros Hr. unfold enc_var in Hr.
  apply R_bind_ok in Hr as (a & n1 & Ha%R_wrap_ok & Hr). apply R_bind_ok in Hr as (b & n2 & Hb%R_wrap_ok & Hr).
  apply R_bind_ok in Hr as (cc & n3 & Hc%R_wrap_ok & Hr). apply R_bind_ok in Hr as (d & n4 & Hd%R_wrap_ok & Hr).
  apply R_bind_ok in Hr as (e & n5 & He%R_wrap_ok & Hr).
  apply R_bind_ok in Hr as (x & n6 & Hx & [<- _]%R_ret_ok).
  split; simpl; try (by eapply enc_value_empty). by eapply R_map_into_empty_iff.
Qed.

Lemma isID_empty s p : p <> "" -> isID s p = true -> s = "" <-> False.
Proof. intros Hp Hs. by pose proof (isID_nonempty _ _ Hp Hs). Qed.

Lemma translate_shape prev c srcs ids v :
  ids_ok prev c ids -> ids_shaped ids -> same_shape v (translateVarNamesToIDs srcs ids v).
Proof.
  intros Hok [Ss Sb Sk]. unfold translateVarNamesToIDs. str_cases (Source v); [done|].
  simpl. destruct (IsEnvelope (Source v)); [done|].
  destruct (srcNameToID ids !! Source v) as [sid|] eqn:Hsid; [|done].
  assert (Hs : sid = "" <-> Source v = "").
  { rewrite (isID_empty sid idPrefixSource) by (done || by eapply Ss). naive_solver. }
  destruct (negb _); [by split|].
  str_cases (Ref v); [by split|]. simpl. destruct (negb (IsEnvelope (Ref v))); [|by split].
  destruct (bagNameToID ids !! Ref v) as [bid|] eqn:Hbid; [|by split].
  assert (Hb : bid = "" <-> Ref v = "").
  { rewrite (isID_empty bid idPrefixBag) by (done || by eapply Sb). naive_solver. }
  split; simpl; try done.
  str_cases (Key v); [done|]. simpl. destruct (negb (IsEnvelope (Key v))); [|done].
  destruct (keyIDs ids !! bid) as [ki|] eqn:Hki; [|done]. simpl.
  destruct (ki !! Key v) as [kid|] eqn:Hkid; [|done].
  rewrite (isID_empty kid idPrefixKey); [naive_solver|done|].
  eapply (Sk _ _ _ _ Hki); [|exact Hkid]. exists (Ref v). by apply (io_bag _ _ _ Hok).
Qed.

Lemma enc_mapping_shape key srcs prev c ids i m n m' n' :
  ids_ok prev c ids -> ids_shaped ids -> enc_mapping key srcs ids i m n = Ok (m', n') -> same_mapping m m'.
Proof.
  intros Hok Hsh (vs & n1 & [Hl Hv]%R_imap_spec & [<- _]%R_ret_ok)%R_bind_ok. split; simpl; try done.
  apply Forall2_same_length_lookup_2; [done|]. intros j v v' Hj Hj'.
  destruct (Hv j v Hj) as (x & n2 & n3 & Hx & He). assert (x = v') as -> by congruence.
  etrans; [by eapply translate_shape|by eapply enc_var_shape].
Qed.

Lemma enc_maps_shape c key c' prev ids :
  enc_run c key c' prev ids -> ids_ok prev c ids -> ids_shaped ids ->
  Forall2 same_mapping (Mappings c) (Mappings c').
Proof.
  intros Hrun Hok Hsh. destruct (er_maps _ _ _ _ _ Hrun) as (m1 & m2 & [Hl Hm]%R_imap_spec).
  apply Forall2_same_length_lookup_2; [done|]. intros i m m' Hi Hi'.
  destruct (Hm i m Hi) as (x & n2 & n3 & Hx & He). assert (x = m') as -> by congruence.
  by eapply enc_mapping_shape.
Qed.

Lemma enc_sources_typed c key c' prev ids :
  enc_run c key c' prev ids -> ids_ok prev c ids ->
  map_Forall (fun _ s => Type_ s <> "" /\ Type_ s <> "github") (Sources c')
  <-> map_Forall (fun _ s => Type_ s <> "" /\ Type_ s <> "github") (Sources c).
Proof.
  intros Hrun Hok. split; intros Hall.
  - intros name sc Hsc. destruct (proj2 (io_src_dom _ _ _ Hok name)) as [i Hi]; [by exists sc|].
    destruct (enc_source_types _ _ _ _ _ _ _ _ Hrun Hok Hsc Hi) as (sc' & Hsc' & Ht).
    apply Hall in Hsc'. by rewrite Ht in Hsc'.
  - intros i sc' Hsc'. destruct (enc_sources_back _ _ _ _ _ _ _ Hrun Hok Hsc') as (name & sc & _ & _ & Hi & Hsc & _).
    destruct (enc_source_types _ _ _ _ _ _ _ _ Hrun Hok Hsc Hi) as (sc2 & Hsc2 & Ht).
    assert (sc2 = sc') as -> by congruence. rewrite Ht. by eapply Hall.
Qed.

(** C34.  Sealing preserves well-formedness, in both directions: whatever order Go
    ranges over its maps, in any run of EncryptInPlace that succeeds the sealed
    configuration passes ValidateStructure exactly when the plain one does - the
    types of the sources, the shape of every mapping and which fields of every var
    are set survive the renaming to identifiers and the sealing of each value.  So
    the structural check of a pulled blob, made on its encrypted form, says the
    same as the check of the configuration it decrypts to. *)
Theorem EncryptInPlace_structure c key n c' n' prev :
  EncryptInPlace c key n = Ok (c', n') -> prev_names key c = Ok prev -> names_wf prev ->
  ValidateStructure c' = None <-> ValidateStructure c = None.
Proof.
  intros (prev' & ids & Hrun)%EncryptInPlace_run Hprev Hwf.
  assert (prev' = prev) as -> by (rewrite (er_prev _ _ _ _ _ Hrun) in Hprev; congruence).
  destruct (er_ids _ _ _ _ _ Hrun) as (n1 & n2 & Hok%assign_ids_ok).
  pose proof (ids_ok_shaped _ _ _ Hwf Hok) as Hsh. rewrite !ValidateStructure_None.
  pose proof (Forall2_iff same_mapping mapping_ok _ _ _ (enc_maps_shape _ _ _ _ _ Hrun Hok Hsh)) as Hm.
  pose proof (enc_sources_typed _ _ _ _ _ Hrun Hok) as Hs.
  assert (Hver : CVersion c' = CVersion c) by (by rewrite (er_rest _ _ _ _ _ Hrun)).
  split; intros [Hv0 Hs0 Hm0]; split; try (by apply Hs); try (by apply Hm); congruence.
Qed.
End Structure.

#[local] Existing Instance toy_aead.
#[local] Existing Instance toy_rand.

#[local] Existing Instance map_range_default.

Lemma EncryptInPlace_structure_witness : ValidateStructure ex_sealed = None.
Proof.
  apply (EncryptInPlace_structure ex_config toy_key 0 ex_sealed ex_calls empty_names);
    [exact ex_sealed_run|reflexivity|exact empty_names_wf|vm_compute; reflexivity].
Defined.
End SealStructure.
