(* ===== verification/StoreInit.v ===== *)
(** * Creating a configuration and deriving its key

    What DeriveKeyFromMeta accepts and which failures it reports as a wrong
    passphrase, and that a configuration InitNew wrote unlocks again. *)

From S2P Require Import Prelude GoString GoPath GoTime Fs Atomic Base64 ConfigModel Crypto NameId Seal Store Toys.
Import Fs Atomic Config Crypto NameId Seal Store Toys.

Module StoreInit.

Section Derive.
Context `{AEAD, Argon}.

(** The header of a configuration that unlocking trusts: it is there, its salt
    decodes, and no parameter is below its floor. *)
Record header_ok (m : Meta) (salt : string) (p : ArgonParams) : Prop := {
  ho_salt : Salt m <> "";
  ho_verify : Verify m <> "";
  ho_decode : Base64.decode (Salt m) = Some salt;
  ho_params : p = mkParams (nz (ArgonTime m) DefaultArgonTime) (nz (ArgonMemoryKiB m) DefaultArgonMemKiB)
                           (nz (ArgonThreads m) DefaultArgonThreads);
  ho_time : (MinArgonTime <= Time p)%Z;
  ho_mem : (MinArgonMemKiB <= MemKiB p)%Z;
  ho_threads : (MinArgonThreads <= Threads p)%Z;
  ho_len : (MinSaltLen <= String.length salt)%nat
}.

Definition verifies (m : Meta) (key : string) : Prop := DecryptField key (Verify m) metaVerifyAAD = Ok verifySentinel.

#[export] Instance verifies_dec m key : Decision (verifies m key).
Proof.
  unfold verifies. destruct (DecryptField _ _ _) as [pt|e]; [|by right].
  destruct (decide (pt = verifySentinel)) as [->|Hne]; [by left|right; by intros [= ?]].
Defined.

(**  DeriveKeyFromMeta returns a key exactly when the header is present,
    decodes and respects every floor and the derived key opens the verify
    envelope to the sentinel, and the key is the derived one; it reports a wrong
    passphrase exactly when the header is fine and only that last check fails, so a
    missing, damaged or weakened header is never taken for a typo. *)
Theorem DeriveKeyFromMeta_spec c passphrase :
  (forall key, DeriveKeyFromMeta c passphrase = Ok key <->
    exists salt p, header_ok (CMeta c) salt p /\ key = DeriveKey passphrase salt p /\ verifies (CMeta c) key)
  /\ (DeriveKeyFromMeta c passphrase = Err SIncorrectPassphrase <->
    exists salt p, header_ok (CMeta c) salt p /\ ~ verifies (CMeta c) (DeriveKey passphrase salt p)).
Proof.
  set (m := CMeta c).
  assert (Hcases :
    (exists salt p, header_ok m salt p /\ DeriveKeyFromMeta c passphrase =
       if decide (verifies m (DeriveKey passphrase salt p)) then Ok (DeriveKey passphrase salt p)
       else Err SIncorrectPassphrase)
    \/ ((forall salt p, ~ header_ok m salt p) /\ exists e, DeriveKeyFromMeta c passphrase = Err e
        /\ e <> SIncorrectPassphrase)).
  { unfold DeriveKeyFromMeta. fold m. str_cases (Salt m).
    { right. split; [intros ?? [] ; done|]. by eexists. }
    str_cases (Verify m).
    { right. split; [intros ?? [] ; done|]. by eexists. }
    destruct (Base64.decode (Salt m)) as [salt|] eqn:Hd; cbn [orb].
    2: { right. split; [intros ?? []; congruence|]. by eexists. }
    set (p := mkParams _ _ _).
    destruct (Z.ltb_spec (Time p) MinArgonTime).
    { right. split; [intros s q [_ _ _ Hq ? _ _ _]; fold m p in Hq; subst q; lia|]. by eexists. }
    destruct (Z.ltb_spec (MemKiB p) MinArgonMemKiB).
    { right. split; [intros s q [_ _ _ Hq _ ? _ _]; fold m p in Hq; subst q; lia|]. by eexists. }
    destruct (Z.ltb_spec (Threads p) MinArgonThreads).
    { right. split; [intros s q [_ _ _ Hq _ _ ? _]; fold m p in Hq; subst q; lia|]. by eexists. }
    destruct (Nat.ltb_spec (String.length salt) MinSaltLen).
    { right. split; [intros s ? [_ _ Hd' _ _ _ _ ?]; assert (s = salt) by congruence; subst; lia|]. by eexists. }
    left. exists salt, p. split; [by split|]. cbv zeta.
    destruct (decide (verifies m (DeriveKey passphrase salt p))) as [Hv|Hv]; unfold verifies in Hv.
    - by rewrite Hv.
    - destruct (DecryptField _ (Verify m) _) as [pt|e]; [|done].
      destruct (String.eqb_spec pt verifySentinel) as [->|Hne]; [by destruct Hv|done]. }
  destruct Hcases as [(salt & p & Hh & ->)|(Hno & e & -> & He)].
  - assert (Hu : forall s q, header_ok m s q -> s = salt /\ q = p).
    { intros s q [_ _ Hd -> _ _ _ _]. destruct Hh as [_ _ Hd' -> _ _ _ _]. split; [congruence|done]. }
    destruct (decide _) as [Hv|Hv]; split.
    + intros key. split; [intros [= <-]; by exists salt, p|]. by intros (s & q & [-> ->]%Hu & -> & _).
    + split; [done|]. by intros (s & q & [-> ->]%Hu & ?).
    + intros key. split; [done|]. by intros (s & q & [-> ->]%Hu & -> & ?).
    + split; [|done]. intros _. by exists salt, p.
  - split.
    + intros key. split; [done|]. by intros (s & q & Hh & _); apply Hno in Hh.
    + split; [by intros [= ->]|]. by intros (s & q & Hh & _); apply Hno in Hh.
Qed.
End Derive.

Section Init.
Context `{Os, Rand, !RandLaws, AEAD, !AEADLaws, Toml, !TomlLaws, Argon, !ArgonLaws, NameMapCodec, MapRange}.

(** What InitNew leaves in memory unlocks under the passphrase it was given. *)
Lemma fresh_config_unlocks salt verify passphrase n n' :
  String.length salt = SaltLen ->
  EncryptField (DeriveKey passphrase salt DefaultArgonParams) verifySentinel metaVerifyAAD n = Ok (verify, n') ->
  DeriveKeyFromMeta (fresh_config salt verify) passphrase = Ok (DeriveKey passphrase salt DefaultArgonParams).
Proof.
  intros Hl Henc. apply EncryptField_roundtrip in Henc as (He & Hd & _).
  unfold DeriveKeyFromMeta. cbn [fresh_config CMeta Salt Verify ArgonTime ArgonMemoryKiB ArgonThreads].
  assert (Hs : str_empty (Base64.encode salt) = false).
  { apply str_empty_false. intros Hem. pose proof (Base64.decode_encode salt) as Hde. rewrite Hem in Hde.
    injection Hde as <-. done. }
  assert (Hv : str_empty verify = false) by (apply str_empty_false; by intros ->).
  rewrite Hs, Hv, Base64.decode_encode. cbn [orb].
  change (mkParams _ _ _) with DefaultArgonParams. cbv zeta. rewrite Hl.
  replace (Time DefaultArgonParams <? MinArgonTime)%Z with false by done.
  replace (MemKiB DefaultArgonParams <? MinArgonMemKiB)%Z with false by done.
  replace (Threads DefaultArgonParams <? MinArgonThreads)%Z with false by done.
  replace (SaltLen <? MinSaltLen)%nat with false by done. rewrite Hd. by rewrite String.eqb_refl.
Qed.

Lemma draw_inv {E F A} (f : E -> F) (m : R E A) w r w' :
  draw f m w = (r, w') -> fs w' = fs w /\ trace w' = trace w /\ tick w' = tick w /\
  match r with Ok a => exists n n', m n = Ok (a, n') | Err _ => True end.
Proof.
  unfold draw. destruct (m (draws w)) as [[a n']|e] eqn:Hm; intros [= <- <-]; repeat split.
  by exists (draws w), n'.
Qed.

Lemma follow_none n f p : f !! p = None -> follow (S n) f p = Ok p.
Proof. intros Hp. simpl. by rewrite Hp. Qed.

Lemma Save_ok path c w w' :
  Save path c w = (Ok tt, w') -> fs w !! path = None ->
  exists s t, toml_encode c = Some s /\ fs w' !! path = Some (NFile s 384 t).
Proof.
  intros Hs Hn. unfold Save in Hs.
  apply M_bind_inv in Hs as [(q & w1 & (r0 & Hc & Hr0)%mapErr_inv & He)|(e & _ & ?)]; [|done].
  unfold create_trunc in Hc. apply syscall_inv in Hc as [(e & -> & _)|(a & f & -> & -> & Ha & _)]; [done|].
  injection Hr0 as ->. unfold link_depth in Ha. rewrite (follow_none _ _ _ Hn) in Ha.
  cbn [mbind res_bind] in Ha. rewrite Hn in Ha. injection Ha as <- <-.
  unfold encode_to in He. destruct (toml_encode c) as [s|]; [|done].
  apply mapErr_inv in He as (r1 & Hw & Hr1). unfold write in Hw. cbn [tick step fs] in Hw.
  destruct (fails _); injection Hw as <- <-; [done|]. simpl. unfold append. rewrite lookup_insert_eq.
  eexists s, _. split; [done|]. apply lookup_insert_eq.
Qed.

(** A file InitNew has written holds a fresh configuration, whose sentinel is sealed
    under the key of the passphrase. *)
Lemma InitNew_file path passphrase w w' :
  InitNew path passphrase w = (Ok tt, w') -> fs w !! path = None ->
  ~ (path ∈ ancestors (String.length (GoPath.Dir path)) (GoPath.Dir path)) ->
  exists salt verify n n' s t,
    String.length salt = SaltLen
    /\ EncryptField (DeriveKey passphrase salt DefaultArgonParams) verifySentinel metaVerifyAAD n = Ok (verify, n')
    /\ toml_encode (fresh_config salt verify) = Some s /\ fs w' !! path = Some (NFile s 384 t).
Proof.
  intros Hi Hnone Hanc. unfold InitNew in Hi.
  apply M_bind_inv in Hi as [(st & w1 & Hst & Hi)|(e & _ & ?)]; [|done].
  assert (Hfs1 : fs w1 = fs w).
  { unfold attempt in Hst. destruct (mapErr SFs (stat path) w) as [r0 w0] eqn:Hm. injection Hst as _ <-.
    apply mapErr_inv in Hm as (r1 & Hm%stat_reads & _). by apply reads_fs. }
  destruct st as [n|e]; [done|].
  apply M_bind_inv in Hi as [(salt & w2 & (Hfs2 & _ & _ & n2 & n2' & Hsalt)%draw_inv & Hi)|(e1 & _ & ?)]; [|done].
  apply M_bind_inv in Hi as [(verify & w3 & (Hfs3 & _ & _ & n3 & n3' & Henc)%draw_inv & Hi)|(e1 & _ & ?)]; [|done].
  apply M_bind_inv in Hi as [([] & w4 & (r0 & Hmk & Hr0)%mapErr_inv & Hi)|(e1 & _ & ?)]; [|done].
  destruct r0 as [[]|]; [|done].
  assert (Hn4 : fs w4 !! path = None).
  { rewrite <- Hfs1, <- Hfs2, <- Hfs3 in Hnone.
    apply syscall_inv in Hmk as [(e1 & ? & _)|(a & f & _ & -> & Ha & _)]; [done|]. simpl.
    cbv zeta in Ha. destruct (existsb _ _); [done|]. injection Ha as _ <-. revert Hnone Hanc.
    generalize (ancestors (String.length (GoPath.Dir path)) (GoPath.Dir path)) as l.
    generalize (fs w3) as g. clear. intros g l. revert g.
    induction l as [|d l IH]; intros g Hg Hl; [done|]. simpl. apply IH; [|set_solver].
    destruct (g !! d); [done|]. rewrite lookup_insert_ne; [done|]. set_solver. }
  destruct (Save_ok _ _ _ _ Hi Hn4) as (s & t & Hs & Hf).
  exists salt, verify, n3, n3', s, t. split; [|by split_and!].
  unfold NewSalt, rand_bytes in Hsalt. destruct (rand_read n2 SaltLen) eqn:Hrr; [|done].
  injection Hsalt as -> _. by eapply rand_length.
Qed.

(** A configuration that InitNew created unlocks.  When it reports success
    for a path that did not exist, the file there has mode 0600, it decodes to a
    configuration that validates, and deriving the key from it with the same
    passphrase succeeds; loading the file gives that configuration. *)
Theorem InitNew_unlocks path passphrase w w' :
  InitNew path passphrase w = (Ok tt, w') -> fs w !! path = None ->
  ~ (path ∈ ancestors (String.length (GoPath.Dir path)) (GoPath.Dir path)) ->
  (forall salt verify, toml_ok (fresh_config salt verify)) ->
  exists s t c key,
    fs w' !! path = Some (NFile s 384 t) /\ Validate c = None /\ DeriveKeyFromMeta c passphrase = Ok key
    /\ forall w2, fs w2 = fs w' -> fails (tick w2) = false -> (Load path w2).1 = Ok c.
Proof.
  intros Hi Hnone Hanc Htoml.
  destruct (InitNew_file _ _ _ _ Hi Hnone Hanc) as (salt & verify & n & n' & s & t & Hlen & Henc & Hs & Hf).
  pose proof (toml_roundtrip _ _ (Htoml salt verify) Hs) as Hdec.
  exists s, t, (fresh_config salt verify), (DeriveKey passphrase salt DefaultArgonParams).
  split; [done|]. split; [|split].
  - unfold Validate. unfold ValidateStructure, ValidatePost. cbn [fresh_config CVersion Sources Mappings].
    by rewrite (proj2 (map_range_nil 0 (∅ : gmap string SourceConfig)) eq_refl).
  - by eapply fresh_config_unlocks.
  - intros w5 Hw5 Hok. unfold Load, mbind, M_bind, mapErr, read_file, syscall. rewrite Hok, Hw5.
    unfold link_depth. rewrite (follow_file _ _ _ _ _ _ Hf). cbn [mbind res_bind]. rewrite Hf. simpl.
    by rewrite Hdec.
Qed.
End Init.

#[local] Existing Instance map_range_default.

Lemma InitNew_unlocks_witness :
  let run := @InitNew calm_os toy_rand toy_aead toy_toml toy_argon "/h/config.toml" "hunter2" (start {["/h" := NDir]}) in
  run.1 = Ok tt
  /\ exists c key, @DeriveKeyFromMeta toy_aead toy_argon c "hunter2" = Ok key /\ Validate c = None
  /\ @DeriveKeyFromMeta toy_aead toy_argon c "hunter3" = Err SIncorrectPassphrase.
Proof.
  set (run := @InitNew calm_os toy_rand toy_aead toy_toml toy_argon "/h/config.toml" "hunter2" (start {["/h" := NDir]})).
  assert (Hr : run = (Ok tt, run.2)) by (vm_compute; reflexivity).
  split; [vm_compute; reflexivity|].
  destruct (@InitNew_unlocks calm_os toy_rand toy_rand_laws toy_aead toy_laws toy_toml toy_toml_laws toy_argon
    _ _ _ _ _ Hr)
    as (s & t & c & key & Hf & Hv & Hk & Hl); [vm_compute; reflexivity|apply (bool_decide_unpack _); vm_compute; exact I|
      intros; exact I|].
  exists c, key. split; [exact Hk|]. split; [exact Hv|].
  specialize (Hl run.2 eq_refl eq_refl). vm_compute in Hl. injection Hl as <-. vm_compute. reflexivity.
Defined.
End StoreInit.
