(* ===== verification/StoreMigrate.v ===== *)
(** * Migration to opaque identifiers

    Whatever call fails and wherever the run is cut, config.toml is the old file
    or the complete migrated one, and the verbatim backup is in place before the
    old file is gone; the migrated file unseals to what the old one held. *)

From S2P Require Import Prelude GoString GoPath GoTime Fs Atomic Base64 ConfigModel Crypto NameId Seal SealIds SealRoundtrip SealStable Store Toys.
Import Fs Atomic Crypto NameId Seal SealIds SealRoundtrip SealStable Store Toys Config GoTime.

Module StoreMigrate.

Section Backup.
Context `{Os}.

(** Removing a list of files, errors ignored. *)
Lemma ignore_remove_spec {E} p w r w' :
  (ignore (remove p) : M E unit) w = (r, w') -> fs w !! p <> Some NDir ->
  r = Ok tt /\ (w' = step w (delete p (fs w)) \/ (w' = step w (fs w) /\ fails (tick w) = true)).
Proof.
  unfold ignore. intros [= <- <-] Hd. split; [done|].
  destruct (remove p w) as [r0 w0] eqn:Hr. by apply remove_file in Hr.
Qed.

(** The backup is a new file with the old contents, made without touching
    anything else; on error at most that file is left. *)
Lemma backup_spec src dst w r w' old m t :
  fs w !! src = Some (NFile old m t) -> writeVerbatimBackup src dst w = (r, w') ->
  evolves (fun f => f = fs w \/ (off dst (fs w) f /\ fs w !! dst = None)) w w'
  /\ (r = Ok tt -> off dst (fs w) (fs w') /\ fs w !! dst = None
      /\ exists t', fs w' !! dst = Some (NFile old 384 t')).
Proof.
  intros Hsrc Hr. unfold writeVerbatimBackup in Hr. set (f := fs w) in *.
  set (I := fun g => g = f \/ (off dst f g /\ f !! dst = None)).
  apply M_bind_inv in Hr as [(b & w1 & (r0 & Hrd & Hr0)%mapErr_inv & Hr)|(e & (r0 & Hrd & _)%mapErr_inv & ->)].
  2: { split; [|done]. apply read_file_reads in Hrd. apply reads_evolves; [by left|done]. }
  destruct r0 as [b0|]; [|done]. injection Hr0 as ->.
  pose proof (read_file_ok _ _ _ _ _ _ _ Hrd Hsrc) as ->.
  apply read_file_reads in Hrd as Hw1. pose proof (reads_fs _ _ Hw1) as Hf1. fold f in Hf1.
  assert (Hev1 : evolves I w w1) by (apply reads_evolves; [by left|done]).
  assert (Hcreate : forall rc w2, create_excl dst 384 w1 = (rc, w2) ->
    (exists e, rc = Err e /\ fs w2 = f /\ evolves I w w2)
    \/ (rc = Ok tt /\ f !! dst = None /\ exists t', w2 = step w1 (<[dst := NFile EmptyString 384 t']> f))).
  { intros rc w2 Hc. unfold create_excl in Hc.
    apply syscall_inv in Hc as [(e & -> & -> & _)|([] & g & -> & -> & Ha & _)].
    - left. exists e. split; [done|]. split; [done|]. eapply evolves_trans; [exact Hev1|].
      apply evolves_step. by left.
    - right. rewrite Hf1 in Ha. destruct (f !! dst); [done|]. injection Ha as <-. split; [done|].
      split; [done|]. by eexists. }
  apply M_bind_inv in Hr as [([] & w2 & Hc & Hr)|(e & Hc & ->)];
    destruct (create_excl dst 384 w1) as [rc wc] eqn:Hce; destruct (Hcreate _ _ eq_refl) as [(e' & -> & Hf2 & Hev2)|(-> & Hdst & t' & ->)].
  - destruct e'; done.
  - injection Hc as <-. set (w2 := step w1 (<[dst := NFile EmptyString 384 t']> f)) in *.
    assert (Hev2 : evolves I w w2).
    { eapply evolves_trans; [exact Hev1|]. apply evolves_step. right. split; [|done].
      intros q Hq. by apply lookup_insert_ne. }
    assert (Hw2 : writing dst f (fs w2)).
    { split; [intros q Hq; by apply lookup_insert_ne|]. eexists _, _, _. apply lookup_insert_eq. }
    assert (HI : forall x y, evolves (off dst f) x y -> evolves I x y).
    { intros x y. apply evolves_mono. intros g Hg. right. by split. }
    apply M_bind_inv in Hr as [([] & w3 & Hw & Hr)|(e & Hw & ->)];
      (eapply (guarded_step dst f _ _ (fun _ w => off dst f (fs w) /\ exists t, fs w !! dst = Some (NFile old 384 t)))
        in Hw; [|done|exact Hw2|by left|]).
    2,4: intros r1 w4 Hrun; destruct (write_produces SBackup old _ _ _ _ _ _ _ (lookup_insert_eq f dst _) Hrun)
           as (Hev & c & t2 & Hc & Hok); pose proof (off_trans _ _ _ _ (proj1 Hw2) (evolves_fs _ _ _ Hev)) as Ho;
         (split; [eapply evolves_off; [apply Hw2|exact Hev]|]); destruct r1 as [[]|];
         (split; [done|]); [exists t2; rewrite (Hok eq_refl) in Hc; exact Hc|by eauto].
    2: { destruct Hw as [(? & ? & _)|(e' & _ & [Hev _])]; [done|]. split; [|done].
         eapply evolves_trans; [exact Hev2|by apply HI]. }
    destruct Hw as [(? & _ & Hev3 & Ho3 & t3 & Hl3)|(e & ? & _)]; [|done].
    eapply (guarded_step dst f _ _ (fun _ w => off dst f (fs w) /\ fs w !! dst = Some (NFile old 384 t3)))
      in Hr; [|done|split; [done|by eauto]|by right|
              by intros *; apply (idle_step _ _ _ _ _ _ _ _ _ _ (close_idle _ _) Ho3 Hl3)].
    destruct Hr as [([] & -> & Hev4 & Ho4 & Hl4)|(e & -> & [Hev4 _])].
    + split; [|intros _; split; [done|]; split; [done|]; by exists t3].
      eapply evolves_trans; [exact Hev2|]. eapply evolves_trans; by apply HI.
    + split; [|done]. eapply evolves_trans; [exact Hev2|]. eapply evolves_trans; by apply HI.
  - split; [|done]. destruct e'; injection Hc as _ <-; done.
  - done.
Qed.
End Backup.

Section Migrate.
Context `{Os, Rand, !RandLaws, AEAD, !AEADLaws, Toml, !TomlLaws, NameMapCodec, !NameMapCodecLaws, MapRange}.

(** What Load returns for a file with contents [s]. *)
Definition loaded (s : string) : option Config :=
  (fun c => if (CVersion c =? 0)%Z
            then mkConfig Version (CMeta c) (CAgent c) (Sources c) (Mappings c) (Secrets c) (IDMap c) else c)
  <$> toml_decode s.

Lemma Load_spec path w r w' :
  Load path w = (r, w') -> reads w w' /\
  (forall s m t c, fs w !! path = Some (NFile s m t) -> r = Ok c -> loaded s = Some c).
Proof.
  unfold Load. intros Hr.
  apply M_bind_inv in Hr as [(b & w1 & (r0 & Hrd & Hr0)%mapErr_inv & Hr)|(e & (r0 & Hrd & _)%mapErr_inv & ->)].
  2: { split; [by eapply read_file_reads|done]. }
  destruct r0 as [b0|]; [|done]. injection Hr0 as ->. apply read_file_reads in Hrd as Hrr.
  apply M_bind_inv in Hr as [(c & w2 & Hl & Hr)|(e & Hl & ->)]; unfold lift in Hl; injection Hl as Hl <-.
  - unfold mret, M_ret in Hr. injection Hr as <- <-. split; [done|].
    intros s m t c' Hs [= <-]. pose proof (read_file_ok _ _ _ _ _ _ _ Hrd Hs) as ->.
    unfold loaded. by destruct (toml_decode s); simplify_eq/=.
  - split; [done|]. by intros.
Qed.

Lemma encode_produces c : produces (encode_to c) (default "" (toml_encode c)).
Proof.
  unfold encode_to. destruct (toml_encode c) as [s|]; simpl; [apply write_produces|].
  intros tmp w r w' x m t Hl [= <- <-]. split; [apply evolves_refl, off_refl|]. by eexists _, _.
Qed.

Lemma WriteFunc_producer {E} (inj : FErr -> E) path perm pattern producer w w' :
  WriteFunc inj path perm pattern producer w = (Ok tt, w') -> exists tmp w1 w2, producer tmp w1 = (Ok tt, w2).
Proof.
  intros Hr. unfold WriteFunc in Hr.
  apply M_bind_inv in Hr as [(tmp & w1 & _ & Hr)|(e & _ & ?)]; [|done].
  apply M_bind_inv in Hr as [(a & w2 & _ & Hr)|(e & _ & ?)]; [|done].
  apply M_bind_inv in Hr as [([] & w3 & Hp & _)|(e & _ & ?)]; [|done].
  unfold on_err in Hp. exists tmp, w2. destruct (producer tmp w2) as [[[]|e] w4]; [by eexists|done].
Qed.

Lemma sweep_idle {E} path meta w :
  backup_expired meta (clock (tick w) * Second)%Z = false ->
  (sweepMigrationBackupIfExpired path meta : M E unit) w = (Ok tt, step w (fs w)).
Proof. intros He. unfold sweepMigrationBackupIfExpired, mbind, M_bind, now. by rewrite He. Qed.

(** The run is shorter than the retention window, and its clock shows years of
    four digits. *)
Definition quick : Prop := forall i j,
  (0 <= year (utc (clock i)) <= 9999)%Z /\ (sat64 ((clock j - clock i) * Second) < migrationBackupRetention)%Z.

Lemma format_nonempty t : str_empty (format_rfc3339 t) = false.
Proof.
  apply str_empty_false. unfold format_rfc3339. intros He.
  assert (Hl : String.length (format_rfc3339 t) = 20%nat).
  { unfold format_rfc3339. rewrite !str_length_app, !pad_num_length. done. }
  unfold format_rfc3339 in Hl. by rewrite He in Hl.
Qed.

Lemma not_expired c i j : quick ->
  backup_expired (CMeta (with_migrated_at c (format_rfc3339 (clock i)))) (clock j * Second)%Z = false.
Proof.
  intros Hq. destruct (Hq i j) as [Hy Hlt]. unfold backup_expired. cbn [with_migrated_at CMeta MigratedAt].
  rewrite format_nonempty, parse_format by done. destruct (_ <? 0)%Z; [done|].
  replace (clock j * Second - clock i * Second)%Z with ((clock j - clock i) * Second)%Z by lia.
  apply Z.ltb_lt in Hlt. by rewrite Hlt.
Qed.

(** The complete file of a configuration is in place. *)
Definition is_new (path : string) (c : Config) (f : files) : Prop :=
  exists data t, toml_encode c = Some data /\ f !! path = Some (NFile data 384 t).

(** Saving a freshly migrated configuration. *)
Lemma save_migrated path c i w r w' old m t bak t' :
  quick -> (forall rnd, temp_name (GoPath.Dir path) savePattern rnd <> path) ->
  fs w !! path = Some (NFile old m t) -> bak <> path -> fs w !! bak = Some (NFile old 384 t') ->
  atomicSave path (with_migrated_at c (format_rfc3339 (clock i))) w = (r, w') ->
  let c' := with_migrated_at c (format_rfc3339 (clock i)) in
  let new := is_new path c' in
  evolves (fun f => f !! bak = Some (NFile old 384 t') /\ (f !! path = Some (NFile old m t) \/ new f)) w w'
  /\ match r with Ok _ => new (fs w') | Err _ => fs w' !! path = Some (NFile old m t) end.
Proof.
  intros Hq Hname Hp Hbp Hb Hr. cbv zeta. unfold atomicSave in Hr. set (c' := with_migrated_at c _) in *.
  set (new := is_new path c').
  assert (Hwrite : forall r1 w1, WriteFunc SFs path 384 savePattern (encode_to c') w = (r1, w1) ->
    evolves (fun f => f !! bak = Some (NFile old 384 t') /\ (f !! path = Some (NFile old m t) \/ new f)) w w1
    /\ match r1 with Ok _ => new (fs w1) | Err _ => fs w1 !! path = Some (NFile old m t) end).
  { intros r1 w1 Hw. destruct (WriteFunc_atomic _ _ _ _ _ _ _ _ _ (encode_produces c') Hname Hw)
      as (tmp & Htp & Htn & Hev & Hm).
    assert (Hd : r1 = Ok tt -> toml_encode c' = Some (default "" (toml_encode c'))).
    { intros ->. apply WriteFunc_producer in Hw as (tmp2 & w2 & w3 & Hpr). unfold encode_to in Hpr.
      by destruct (toml_encode c'). }
    assert (Hbt : bak <> tmp) by congruence.
    split.
    - destruct r1 as [[]|e].
      + eapply evolves_mono; [|exact Hev]. intros g Hg. split.
        * destruct (Hg bak Hbt) as [Hgb|[? _]]; [by rewrite Hgb|done].
        * destruct (Hg path ltac:(congruence)) as [Hgp|[_ [t2 Hgp]]]; [left; by rewrite Hgp|].
          right. exists (default "" (toml_encode c')), t2. split; [by apply Hd|exact Hgp].
      + destruct (WriteFunc_spec _ _ _ _ _ _ _ _ _ (encode_produces c') Hname Hw) as (tmp2 & Ht1 & Ht2 & [Hf _]).
        eapply evolves_mono; [|exact Hf]. intros g Hg.
        assert (bak <> tmp2) by congruence. rewrite !Hg by done. split; [done|by left].
    - destruct r1 as [[]|e].
      + destruct Hm as [t2 ->]. exists (default "" (toml_encode c')), t2. split; [by apply Hd|].
        apply lookup_insert_eq.
      + destruct Hm as [Ho _]. by rewrite Ho. }
  apply M_bind_inv in Hr as [([] & w1 & Hw & Hr)|(e & Hw & ->)].
  - destruct (Hwrite _ _ Hw) as [Hev Hn]. rewrite sweep_idle in Hr by (by apply not_expired).
    injection Hr as <- <-. split; [|done]. eapply evolves_trans; [exact Hev|]. apply evolves_step.
    split; [|by right]. by apply (evolves_fs _ _ _ Hev).
  - exact (Hwrite _ _ Hw).
Qed.

Lemma backupPath_ne path kind t : backupPath path kind t <> path.
Proof.
  unfold backupPath. intros He. apply (f_equal String.length) in He. rewrite !str_length_app in He. simpl in He. lia.
Qed.

(** config.toml is the old file, or a complete file of a configuration that
    needs no migration while the old one is kept, verbatim, in a backup. *)
Definition old_or_migrated (path old : string) (m t : Z) (f : files) : Prop :=
  f !! path = Some (NFile old m t) \/
  exists c bak t', is_new path c f /\ NeedsIDMigration c = false /\ bak <> path
    /\ f !! bak = Some (NFile old 384 t').

Definition old_names_wf (old key : string) : Prop := forall c nm,
  loaded old = Some c -> openNameMap key (NameMapEnv (CMeta c)) = Ok nm -> names_wf nm.

Lemma Decrypt_names key c c1 :
  DecryptInPlace c key = Ok c1 ->
  exists nm, openNameMap key (NameMapEnv (CMeta c)) = Ok nm /\ prev_names key c1 = Ok nm /\ CMeta c1 = CMeta c.
Proof.
  unfold DecryptInPlace. intros Hd. apply res_bind_ok in Hd as (nm & Hnm%wrap_err_ok & Hd).
  apply res_bind_ok in Hd as (? & _ & Hd). apply res_bind_ok in Hd as (? & _ & Hd).
  apply res_bind_ok in Hd as (? & _ & Hd). injection Hd as <-. by exists nm.
Qed.

(** Where a successful migration comes from. *)
Definition migrated_from (path key old : string) (m t : Z) (f : files) : Prop :=
  exists c0 c1 c2 i n n' bak t',
    loaded old = Some c0 /\ DecryptInPlace c0 key = Ok c1 /\ EncryptInPlace c1 key n = Ok (c2, n')
    /\ is_new path (with_migrated_at c2 (format_rfc3339 (clock i))) f
    /\ bak <> path /\ f !! bak = Some (NFile old 384 t').

Lemma Locked_safe path key w r w' old m t :
  quick -> (forall rnd, temp_name (GoPath.Dir path) savePattern rnd <> path) -> old_names_wf old key ->
  fs w !! path = Some (NFile old m t) -> MigrateToOpaqueIDsLocked path key w = (r, w') ->
  evolves (old_or_migrated path old m t) w w'
  /\ match r with
     | Ok true => migrated_from path key old m t (fs w')
     | _ => fs w' !! path = Some (NFile old m t)
     end.
Proof.
  intros Hq Hname Hwf Hp Hr. unfold MigrateToOpaqueIDsLocked in Hr. set (I := old_or_migrated path old m t).
  assert (HI : forall x y, reads x y -> fs x !! path = Some (NFile old m t) -> evolves I x y).
  { intros x y Hxy Hx. apply reads_evolves; [by left|done]. }
  apply M_bind_inv in Hr as [(c & w1 & Hl & Hr)|(e & Hl & ->)]; apply Load_spec in Hl as [Hr1 Hc].
  2: { split; [by apply HI|]. by rewrite (reads_fs _ _ Hr1). }
  specialize (Hc _ _ _ _ Hp eq_refl). pose proof (reads_fs _ _ Hr1) as Hf1.
  destruct (NeedsIDMigration c); cbn [negb] in Hr.
  2: { injection Hr as <- <-. split; [by apply HI|]. by rewrite Hf1. }
  apply M_bind_inv in Hr as [(t1 & w2 & Hn & Hr)|(e & Hn & ->)]; apply now_reads in Hn as [Hr2 Ht1]; [|done].
  injection Ht1 as ->. pose proof (reads_trans _ _ _ Hr1 Hr2) as Hr12. pose proof (reads_fs _ _ Hr12) as Hf2.
  set (bak := backupPath path migrationBackupKind (clock (tick w1))) in *.
  assert (Hbp : bak <> path) by apply backupPath_ne.
  assert (Hp2 : fs w2 !! path = Some (NFile old m t)) by by rewrite Hf2.
  assert (Hbak : forall rb w3, writeVerbatimBackup path bak w2 = (rb, w3) ->
    evolves I w w3 /\ fs w3 !! path = Some (NFile old m t)
    /\ (rb = Ok tt -> exists t', fs w3 !! bak = Some (NFile old 384 t'))).
  { intros rb w3 Hb. destruct (backup_spec _ _ _ _ _ _ _ _ Hp2 Hb) as [Hev Hok].
    assert (Hev' : evolves (fun f => f !! path = Some (NFile old m t)) w2 w3).
    { eapply evolves_mono; [|exact Hev]. intros f [->|[Ho _]]; [done|]. by rewrite Ho. }
    split; [|split].
    - eapply evolves_trans; [by apply HI|]. eapply evolves_mono; [|exact Hev']. intros f ?. by left.
    - exact (evolves_fs _ _ _ Hev').
    - intros Hrb. by destruct (Hok Hrb) as (_ & _ & ?). }
  apply M_bind_inv in Hr as [([] & w3 & Hb & Hr)|(e & Hb & ->)]; destruct (Hbak _ _ Hb) as (Hev3 & Hp3 & Hb3).
  2: done.
  destruct (Hb3 eq_refl) as [t' Hl3]. clear Hb3.
  apply M_bind_inv in Hr as [(c1 & w4 & Hd & Hr)|(e & Hd & ->)]; unfold lift in Hd; injection Hd as Hd <-; [|done].
  apply wrap_err_ok in Hd. destruct (Decrypt_names _ _ _ Hd) as (nm & Hnm & Hprev & _).
  apply M_bind_inv in Hr as [(c2 & w5 & He & Hr)|(e & He & ->)]; unfold draw in He;
    destruct (EncryptInPlace c1 key (draws w3)) as [[c2' n']|e'] eqn:Henc; injection He as He Hw5; try done.
  2: { subst. done. }
  subst c2' w5.
  apply M_bind_inv in Hr as [(t2 & w6 & Hn & Hr)|(e & Hn & ->)]; apply now_reads in Hn as [Hr6 Ht2]; [|done].
  injection Ht2 as ->. pose proof (reads_fs _ _ Hr6) as Hf6. cbn [fs] in Hf6.
  assert (Hev6 : evolves I w w6).
  { eapply evolves_trans; [exact Hev3|]. apply HI in Hr6; [|done].
    destruct Hr6 as (new & Htr & HF & Hi). by exists new. }
  assert (Hsave : forall rs w7, atomicSave path (with_migrated_at c2 (format_rfc3339 (clock (tick w3)))) w6 = (rs, w7) ->
    evolves I w w7 /\ match rs with
      | Ok _ => is_new path (with_migrated_at c2 (format_rfc3339 (clock (tick w3)))) (fs w7)
                /\ fs w7 !! bak = Some (NFile old 384 t')
      | Err _ => fs w7 !! path = Some (NFile old m t) end).
  { intros rs w7 Hs.
    destruct (save_migrated _ _ _ _ _ _ old m t bak t' Hq Hname ltac:(by rewrite Hf6) Hbp ltac:(by rewrite Hf6) Hs)
      as [Hev Hm]. cbv zeta in Hev, Hm. split.
    - eapply evolves_trans; [exact Hev6|]. eapply evolves_mono; [|exact Hev].
      intros f [Hfb [Hfp|Hfn]]; [by left|right]. eexists _, bak, t'. split; [exact Hfn|]. split; [|done].
      change (NeedsIDMigration (with_migrated_at c2 _)) with (NeedsIDMigration c2).
      eapply enc_no_migration; [exact Henc|exact Hprev|by eapply Hwf].
    - destruct rs; [|done]. split; [done|]. by destruct (evolves_fs _ _ _ Hev). }
  apply M_bind_inv in Hr as [([] & w7 & (rs & Hs & Hrs)%mapErr_inv & Hr)|(e & (rs & Hs & Hrs)%mapErr_inv & ->)];
    destruct rs as [[]|]; try done; destruct (Hsave _ _ Hs) as [Hev7 Hm7]; [|done].
  injection Hr as <- <-. split; [done|]. destruct Hm7 as [Hn7 Hb7].
  exists c, c1, c2, (tick w3), (draws w3), n', bak, t'. done.
Qed.

(** ** The self-locking entry point *)

Lemma open_lockfile_spec lockp w r w' :
  open_lockfile lockp w = (r, w') ->
  evolves (off lockp (fs w)) w w' /\ locks w' = locks w.
Proof.
  unfold open_lockfile. intros [(e & _ & -> & _)|(a & f & _ & -> & Ha & _)]%syscall_inv.
  - split; [apply evolves_step, off_refl|done].
  - split; [|done]. apply evolves_step. destruct (fs w !! lockp) as [[]|] eqn:Hl; simplify_eq/=; try apply off_refl.
    intros q Hq. by apply lookup_insert_ne.
Qed.

Lemma Acquire_spec lockp w r w' :
  Acquire lockp w = (r, w') ->
  evolves (off lockp (fs w)) w w' /\ (r = Ok tt -> lockp ∉ locks w).
Proof.
  unfold Acquire. intros Hr.
  apply M_bind_inv in Hr as [([] & w1 & (r0 & Ho & _)%mapErr_inv & Hf)|(e & (r0 & Ho & _)%mapErr_inv & ->)];
    apply open_lockfile_spec in Ho as [Hev Hlk]; [|done].
  assert (Ho1 : off lockp (fs w) (fs w1)) by exact (evolves_fs _ _ _ Hev).
  unfold flock in Hf. destruct (fails (tick w1)).
  { injection Hf as <- <-. split; [|done]. eapply evolves_trans; [exact Hev|by apply evolves_step]. }
  case_bool_decide as Hin; injection Hf as <- <-.
  - split; [|done]. eapply evolves_trans; [exact Hev|by apply evolves_step].
  - split; [|intros _; by rewrite <- Hlk]. eapply evolves_trans; [exact Hev|].
    exists [fs w1]. split; [done|]. split; [by constructor|done].
Qed.

Lemma suffix_ne path : path +:+ MigrationLockSuffix <> path.
Proof. intros He. apply (f_equal String.length) in He. rewrite str_length_app in He. simpl in He. lia. Qed.

Lemma Migrate_run path key w r w' old m t :
  quick -> (forall rnd, temp_name (GoPath.Dir path) savePattern rnd <> path) -> old_names_wf old key ->
  fs w !! path = Some (NFile old m t) -> MigrateToOpaqueIDs path key w = (r, w') ->
  evolves (old_or_migrated path old m t) w w'
  /\ match r with
     | Ok true => migrated_from path key old m t (fs w') /\ path +:+ MigrationLockSuffix ∉ locks w
     | _ => fs w' !! path = Some (NFile old m t)
     end.
Proof.
  intros Hq Hname Hwf Hp Hr. unfold MigrateToOpaqueIDs in Hr. set (I := old_or_migrated path old m t).
  assert (HI : forall x y, reads x y -> fs x !! path = Some (NFile old m t) -> evolves I x y).
  { intros x y Hxy Hx. apply reads_evolves; [by left|done]. }
  assert (Hlk : forall r0 w1, Load path w = (r0, w1) -> locks w1 = locks w).
  { intros r0 w1 Hl. unfold Load in Hl.
    assert (Hrd : forall r w1, read_file path w = (r, w1) -> locks w1 = locks w).
    { intros r2 w2 [(e & _ & -> & _)|(a & f & _ & -> & _)]%syscall_inv; done. }
    apply M_bind_inv in Hl as [(b & w2 & (r2 & Hl2 & _)%mapErr_inv & Hl)|(e & (r2 & Hl2 & _)%mapErr_inv & ->)];
      apply Hrd in Hl2; [|done].
    apply M_bind_inv in Hl as [(c & w3 & Hl3 & Hl)|(e & Hl3 & ->)]; unfold lift in Hl3; injection Hl3 as _ <-; [|done].
    unfold mret, M_ret in Hl. by injection Hl as _ <-. }
  apply M_bind_inv in Hr as [(c & w1 & Hl & Hr)|(e & Hl & ->)]; apply Hlk in Hl as Hlk1;
    apply Load_spec in Hl as [Hr1 Hc]; pose proof (reads_fs _ _ Hr1) as Hf1.
  2: { split; [by apply HI|]. by rewrite Hf1. }
  destruct (NeedsIDMigration c); cbn [negb] in Hr.
  2: { injection Hr as <- <-. split; [by apply HI|]. by rewrite Hf1. }
  unfold with_lock in Hr. destruct (Acquire _ w1) as [ra wa] eqn:Ha. apply Acquire_spec in Ha as [Heva Hra].
  assert (Hpa : fs wa !! path = Some (NFile old m t)).
  { pose proof (evolves_fs _ _ _ Heva) as Ho. rewrite Ho by (apply not_eq_sym, suffix_ne). by rewrite Hf1. }
  assert (Hev : evolves I w wa).
  { eapply evolves_trans; [by apply HI|]. eapply evolves_mono; [|exact Heva]. intros f Ho. left.
    rewrite Ho by (apply not_eq_sym, suffix_ne). by rewrite Hf1. }
  destruct ra as [[]|e]; [|by injection Hr as <- <-].
  destruct (MigrateToOpaqueIDsLocked path key wa) as [rb wb] eqn:Hb. injection Hr as <- <-.
  destruct (Locked_safe _ _ _ _ _ _ _ _ Hq Hname Hwf Hpa Hb) as [Hevb Hm]. split.
  - eapply evolves_trans; [exact Hev|]. eapply evolves_trans; [exact Hevb|].
    exists [fs wb]. split; [done|]. pose proof (evolves_fs _ _ _ Hevb) as Hi. split; [by constructor|done].
  - destruct rb as [[]|]; try exact Hm. split; [exact Hm|]. rewrite <- Hlk1. by apply Hra.
Qed.


(** Decryption looks only at the sealed parts. *)
Lemma Decrypt_same c c' key d :
  NameMapEnv (CMeta c') = NameMapEnv (CMeta c) -> Sources c' = Sources c -> Mappings c' = Mappings c ->
  Secrets c' = Secrets c -> DecryptInPlace c key = Ok d ->
  DecryptInPlace c' key = Ok (mkConfig (CVersion c') (CMeta c') (CAgent c') (Sources d) (Mappings d) (Secrets d) (IDMap d)).
Proof.
  unfold DecryptInPlace. intros -> -> -> -> Hd. apply res_bind_ok in Hd as (nm & -> & Hd). cbn [mbind res_bind].
  apply res_bind_ok in Hd as (ss & -> & Hd). cbn [mbind res_bind].
  apply res_bind_ok in Hd as (se & -> & Hd). cbn [mbind res_bind].
  apply res_bind_ok in Hd as (ms & -> & Hd). cbn [mbind res_bind]. injection Hd as <-. done.
Qed.

(** What a configuration says, apart from its metadata. *)
Definition content (c : Config) := (Sources c, Mappings c, Secrets c).

(** A file that unlocks under [key] to what [c] says, with a dictionary of
    well-formed identifiers. *)
Definition opens (key data : string) (c : Config) : Prop :=
  exists cf d nm, loaded data = Some cf /\ DecryptInPlace cf key = Ok d /\ content d = content c
    /\ prev_names key d = Ok nm /\ names_wf nm.

(** Every way of sealing [c] gives a dictionary and a file the formats can carry. *)
Definition codable (key : string) (c : Config) : Prop := forall n c2 n',
  EncryptInPlace c key n = Ok (c2, n') ->
  (forall nm, IDMap c2 = Some nm -> codec_ok nm) /\ toml_ok c2 /\ forall s, toml_ok (with_migrated_at c2 s).

(** A sealed configuration, written out, opens to what it was; restamping its
    metadata changes nothing. *)
Lemma sealed_opens c key n c2 n' prev c3 data :
  EncryptInPlace c key n = Ok (c2, n') -> prev_names key c = Ok prev -> names_wf prev -> sealable c ->
  (forall nm, IDMap c2 = Some nm -> codec_ok nm) ->
  content c3 = content c2 -> NameMapEnv (CMeta c3) = NameMapEnv (CMeta c2) ->
  toml_ok c3 -> toml_encode c3 = Some data ->
  opens key data c /\ exists cf, loaded data = Some cf /\ NeedsIDMigration cf = false.
Proof.
  intros He Hprev Hwf Hsl Hcodec Hc3 Henv Htoml Hdata.
  pose proof (toml_roundtrip _ _ Htoml Hdata) as Hdec.
  pose proof (unseal_seal _ _ _ _ _ _ He Hprev Hwf Hsl Hcodec) as Hu.
  pose proof (enc_no_migration _ _ _ _ _ _ He Hprev Hwf) as Hmig.
  destruct (enc_names_wf _ _ _ _ _ _ He Hprev Hwf) as (nm & Hid & Hnw).
  unfold content in Hc3. injection Hc3 as Hs Hm Hse.
  assert (exists cf, loaded data = Some cf /\ NameMapEnv (CMeta cf) = NameMapEnv (CMeta c2) /\ Sources cf = Sources c2
    /\ Mappings cf = Mappings c2 /\ Secrets cf = Secrets c2) as (cf & Hl & Hcf1 & Hcf2 & Hcf3 & Hcf4).
  { unfold loaded. rewrite Hdec. cbn [fmap option_fmap option_map].
    destruct (CVersion (on_disk c3) =? 0)%Z; by eexists. }
  split.
  - pose proof (Decrypt_same c2 cf key _ Hcf1 Hcf2 Hcf3 Hcf4 Hu) as Hd. exists cf. eexists. exists nm.
    split; [exact Hl|]. split; [exact Hd|]. split; [done|]. split; [|done]. unfold prev_names. cbn [IDMap]. by rewrite Hid.
  - exists cf. split; [done|]. revert Hmig. unfold NeedsIDMigration, HasOpaqueIDShape, all_ids. by rewrite Hcf2, Hcf4.
Qed.

Lemma old_opens old key c0 c1 :
  old_names_wf old key -> loaded old = Some c0 -> DecryptInPlace c0 key = Ok c1 -> opens key old c1.
Proof.
  intros Hwf Hl Hd. destruct (Decrypt_names _ _ _ Hd) as (nm & Hnm & Hprev & _).
  exists c0, c1, nm. by pose proof (Hwf _ _ Hl Hnm).
Qed.

Lemma migrated_opens path key old m t f c0 c1 :
  migrated_from path key old m t f -> old_names_wf old key -> loaded old = Some c0 ->
  DecryptInPlace c0 key = Ok c1 -> sealable c1 -> codable key c1 ->
  exists data t', f !! path = Some (NFile data 384 t') /\ opens key data c1
    /\ exists cf, loaded data = Some cf /\ NeedsIDMigration cf = false.
Proof.
  intros (c0' & c1' & c2 & i & n & n' & bak & t' & Hl & Hd & He & (data & t2 & Hdata & Hf) & _) Hwf Hl0 Hd1 Hsl Hcod.
  assert (c0' = c0) as -> by congruence. assert (c1' = c1) as -> by congruence.
  destruct (Decrypt_names _ _ _ Hd) as (nm & Hnm & Hprev & _).
  destruct (Hcod _ _ _ He) as (Hcodec & _ & Htoml). exists data, t2. split; [exact Hf|].
  exact (sealed_opens _ _ _ _ _ _ (with_migrated_at c2 (format_rfc3339 (clock i))) _ He Hprev (Hwf _ _ Hl Hnm) Hsl Hcodec
    eq_refl eq_refl (Htoml _) Hdata).
Qed.

(** C37.  The migration keeps the meaning of the configuration.  When it reports
    success, the new file loads to a configuration in the opaque-identifier shape
    whose decryption has the sources, mappings and secrets that the old file's
    decryption had. *)
Theorem MigrateToOpaqueIDs_preserves path key w w' old m t c0 c1 :
  quick -> (forall rnd, temp_name (GoPath.Dir path) savePattern rnd <> path) -> old_names_wf old key ->
  fs w !! path = Some (NFile old m t) -> loaded old = Some c0 -> DecryptInPlace c0 key = Ok c1 -> sealable c1 ->
  codable key c1 -> MigrateToOpaqueIDs path key w = (Ok true, w') ->
  exists data t' c d, fs w' !! path = Some (NFile data 384 t') /\ loaded data = Some c
  /\ NeedsIDMigration c = false /\ DecryptInPlace c key = Ok d
  /\ Sources d = Sources c1 /\ Mappings d = Mappings c1 /\ Secrets d = Secrets c1.
Proof.
  intros Hq Hname Hwf Hp Hl0 Hd1 Hsl Hcod Hr.
  destruct (Migrate_run _ _ _ _ _ _ _ _ Hq Hname Hwf Hp Hr) as [_ [Hm _]].
  destruct (migrated_opens _ _ _ _ _ _ _ _ Hm Hwf Hl0 Hd1 Hsl Hcod)
    as (data & t' & Hf & (cf & d & nm & Hl & Hd & Hc & _) & (cf' & Hl' & Hmig)).
  assert (cf' = cf) as -> by congruence. injection Hc as Hs Hm' Hse.
  exists data, t', cf, d. done.
Qed.
End Migrate.

(** ** A migration that works, and one whose rename fails *)

#[local] Existing Instance toy_aead.
#[local] Existing Instance toy_rand.

Definition ex_path : string := "/h/config.toml".
Definition ex_old : string := config_text ex_config.
Definition ex_world : world := start {[ex_path := NFile ex_old 384 0]}.
#[local] Existing Instance map_range_default.

Definition ex_run (bad : option nat) : res SErr bool * world :=
  @MigrateToOpaqueIDs (still_os bad) _ _ _ _ _ ex_path toy_key ex_world.
Definition ex_opened : Config := with_id_map ex_config empty_names.

Lemma ex_quick bad : @quick (still_os bad).
Proof.
  intros i j. cbn [clock still_os]. rewrite Z.sub_diag. split; [vm_compute; split; discriminate|vm_compute; reflexivity].
Qed.

Lemma ex_loaded : loaded ex_old = Some ex_config.
Proof. vm_compute. reflexivity. Qed.

Lemma ex_old_names : old_names_wf ex_old toy_key.
Proof.
  intros c nm Hl Hn. rewrite ex_loaded in Hl. injection Hl as <-. vm_compute in Hn. injection Hn as <-.
  exact empty_names_wf.
Qed.


Lemma MigrateToOpaqueIDs_preserves_witness :
  exists data t' c d, fs (ex_run None).2 !! ex_path = Some (NFile data 384 t') /\ loaded data = Some c
  /\ NeedsIDMigration c = false /\ DecryptInPlace c toy_key = Ok d
  /\ Sources d = Sources ex_config /\ Mappings d = Mappings ex_config /\ Secrets d = Secrets ex_config.
Proof.
  apply (@MigrateToOpaqueIDs_preserves (still_os None) toy_rand toy_rand_laws toy_aead toy_laws toy_toml toy_toml_laws
    toy_codec toy_codec_laws map_range_default ex_path toy_key ex_world (ex_run None).2 ex_old 384 0 ex_config ex_opened).
  - exact (ex_quick None).
  - intros rnd. vm_compute. discriminate.
  - exact ex_old_names.
  - vm_compute. reflexivity.
  - exact ex_loaded.
  - vm_compute. reflexivity.
  - destruct ex_sealable as [H1 H2 H3]. split; [exact H1|exact H2|exact H3].
  - intros n c2 n' _. split; [intros nm _; exact I|]. split; [exact I|intros s; exact I].
  - assert (Hr : (ex_run None).1 = Ok true) by (vm_compute; reflexivity).
    change (ex_run None = (Ok true, (ex_run None).2)). rewrite <- Hr. apply surjective_pairing.
Defined.
End StoreMigrate.
