(* ===== verification/StoreSweep.v ===== *)
(** * Ageing out of migration backups

    The retention sweep that follows every save removes the backups of this
    configuration, all of them and nothing else, once the window has passed. *)

From S2P Require Import Prelude GoString GoPath GoTime Fs Atomic ConfigModel Crypto NameId Store Toys.
Import Crypto NameId Store Toys Config GoTime Fs.

Module StoreSweep.

(** ** Glob patterns with one star *)

Definition is_meta (c : ascii) : bool :=
  Ascii.eqb c "*" || Ascii.eqb c "?" || Ascii.eqb c "[" || Ascii.eqb c BSLASH.

(** No byte with a meaning to filepath.Match. *)
Definition no_meta (s : string) : Prop := forall_bytes (fun c => negb (is_meta c)) s = true.

Fixpoint lits (s : string) : list gtok :=
  match s with EmptyString => [] | String c s' => GLit c :: lits s' end.

Lemma parse_lits fuel s t ts :
  no_meta s -> (String.length s < fuel)%nat -> parse_pattern (fuel - String.length s) t = Some ts ->
  parse_pattern fuel (s +:+ t) = Some (lits s ++ ts).
Proof.
  unfold no_meta. revert fuel. induction s as [|c s IH]; intros fuel Hs Hf Ht.
  - simpl in Ht. by rewrite Nat.sub_0_r in Ht.
  - cbn [forall_bytes] in Hs. apply andb_true_iff in Hs as [Hc Hs]. unfold is_meta in Hc.
    apply negb_true_iff in Hc. apply orb_false_iff in Hc as [Hc H4]. apply orb_false_iff in Hc as [Hc H3].
    apply orb_false_iff in Hc as [H1 H2]. destruct fuel as [|n]; [lia|].
    rewrite str_app_cons. cbn [parse_pattern]. rewrite H1, H2, H3, H4. simpl in Hf.
    rewrite (IH n); [done|done|lia|]. exact Ht.
Qed.

Lemma parse_plain s : no_meta s -> parse_pattern (S (String.length s)) s = Some (lits s).
Proof.
  intros Hs. pose proof (parse_lits (S (String.length s)) s "" [] Hs) as Hp.
  rewrite str_app_nil_r, app_nil_r in Hp. apply Hp; [lia|].
  by replace (S (String.length s) - String.length s)%nat with 1%nat by lia.
Qed.

Lemma parse_star a b : no_meta a -> no_meta b ->
  parse_pattern (S (String.length (a +:+ "*" +:+ b))) (a +:+ "*" +:+ b) = Some (lits a ++ GStar :: lits b).
Proof.
  intros Ha Hb. apply parse_lits; [done|rewrite str_length_app; lia|].
  rewrite !str_length_app. simpl String.length.
  replace (S (String.length a + (1 + String.length b)) - String.length a)%nat
    with (S (S (String.length b))) by lia.
  assert (Hs : forall n, parse_pattern (S n) ("*" +:+ b) = cons GStar <$> parse_pattern n b) by done.
  by rewrite Hs, (parse_plain b Hb).
Qed.

Lemma tok_lits s t ts : tok_match (lits s ++ ts) t = true <-> exists u, t = s +:+ u /\ tok_match ts u = true.
Proof.
  revert t. induction s as [|c s IH]; intros t; simpl.
  - split; [intros Ht; by exists t|by intros (u & -> & ?)].
  - destruct t as [|d t]; [split; [done|by intros (u & ? & _)]|].
    rewrite andb_true_iff, IH. split.
    + intros [He (u & -> & Hu)]. apply Ascii.eqb_eq in He as ->. by exists u.
    + intros (u & [= -> ->] & Hu). rewrite Ascii.eqb_refl. split; [done|]. by exists u.
Qed.

Lemma tok_star b t : tok_match (GStar :: lits b) t = true <-> exists x, t = x +:+ b.
Proof.
  assert (Hb : forall u, tok_match (lits b) u = true <-> u = b).
  { intros u. rewrite <- (app_nil_r (lits b)), tok_lits. split.
    - intros (v & -> & Hv). apply str_empty_spec in Hv as ->. apply str_app_nil_r.
    - intros ->. exists "". by rewrite str_app_nil_r. }
  change (tok_match (GStar :: lits b) t) with
    ((fix go (s : string) : bool :=
       tok_match (lits b) s || match s with String _ s' => go s' | EmptyString => false end) t).
  induction t as [|c t IH].
  - rewrite orb_false_r, Hb. split; [intros ->; by exists ""|]. intros (x & Hx). destruct x; [done|done].
  - rewrite orb_true_iff, Hb, IH. split.
    + intros [->|(x & ->)]; [by exists ""|by exists (String c x)].
    + intros ([|d x] & Hx); [by left|right]. injection Hx as _ ->. by exists x.
Qed.

(** ** The backups of a path *)

(** A dated backup, or the one name older releases used. *)
Definition is_backup (path q : string) : Prop :=
  (exists x, contains_byte x "/" = false /\ q = path +:+ ".pre-id-migration." +:+ x +:+ ".bak")
  \/ q = path +:+ ".pre-id-migration.bak".

Lemma split_suffix s t : contains_byte t "/" = false ->
  exists es e, split_byte "/" s = es ++ [e] /\ split_byte "/" (s +:+ t) = es ++ [e +:+ t].
Proof.
  intros Ht. induction s as [|c s (es & e & H1 & H2)].
  - exists [], "". split; [done|]. by apply split_byte_none.
  - rewrite str_app_cons. destruct (Ascii.eqb c "/") eqn:Hc.
    + simpl. rewrite Hc, H1, H2. by exists ("" :: es), e.
    + destruct (split_byte_cons_ne "/" c s Hc) as (h & l & Hs & ->).
      destruct (split_byte_cons_ne "/" c (s +:+ t) Hc) as (h' & l' & Hs' & ->).
      rewrite H1 in Hs. rewrite H2 in Hs'. destruct es as [|x es]; simpl in *.
      * injection Hs as <- <-. injection Hs' as <- <-. exists [], (String c e). done.
      * injection Hs as <- <-. injection Hs' as <- <-. by exists (String c x :: es), e.
Qed.

Lemma no_meta_app a b : no_meta (a +:+ b) <-> no_meta a /\ no_meta b.
Proof.
  unfold no_meta. induction a as [|c a IH]; simpl; [tauto|].
  rewrite !andb_true_iff, IH. tauto.
Qed.

Lemma mapM_parse es : Forall no_meta es ->
  mapM (fun e => parse_pattern (S (String.length e)) e) es = Some (lits <$> es).
Proof.
  intros Hes. apply mapM_Some. induction Hes as [|e es He Hes IH]; simpl; constructor; [|done].
  by apply parse_plain.
Qed.

Lemma forallb_lits es l : length es = length l ->
  forallb (fun te : list gtok * string => tok_match te.1 te.2) (zip (lits <$> es) l) = true <-> es = l.
Proof.
  revert l. induction es as [|e es IH]; intros [|x l] Hl; simpl in *; try done.
  rewrite andb_true_iff, IH by lia. rewrite <- (app_nil_r (lits e)), tok_lits. split.
  - intros [(u & -> & Hu) ->]. apply str_empty_spec in Hu as ->. by rewrite str_app_nil_r.
  - intros [= <- <-]. split; [|done]. exists "". by rewrite str_app_nil_r.
Qed.

Lemma no_meta_split s : no_meta s -> Forall no_meta (split_byte "/" s).
Proof.
  intros Hs. rewrite <- (join_split "/" s) in Hs. revert Hs. generalize (split_byte "/" s). intros l.
  induction l as [|x l IH]; [constructor|]. destruct l as [|y l].
  - intros Hx. repeat constructor. exact Hx.
  - rewrite join_cons by done. rewrite !no_meta_app. intros (Hx & _ & Hl). constructor; [done|]. by apply IH.
Qed.

(** The glob pattern of a plain path finds exactly its dated backups. *)
Lemma glob_backups path q : no_meta path ->
  match_path (migrationBackupGlob path migrationBackupKind) q = Some true
  <-> exists x, contains_byte x "/" = false /\ q = path +:+ ".pre-id-migration." +:+ x +:+ ".bak".
Proof.
  intros Hm. unfold match_path, migrationBackupGlob, migrationBackupKind.
  destruct (split_suffix path ".pre-id-migration.*.bak" eq_refl) as (es & e & Hp & Hpat).
  change (path +:+ ".pre-" +:+ "id" +:+ "-migration.*.bak") with (path +:+ ".pre-id-migration.*.bak").
  rewrite Hpat. apply no_meta_split in Hm. rewrite Hp in Hm. apply Forall_app in Hm as [Hes He].
  apply Forall_cons in He as [He _]. set (pre := e +:+ ".pre-id-migration.").
  assert (Hlast : e +:+ ".pre-id-migration.*.bak" = pre +:+ "*" +:+ ".bak") by (unfold pre; by rewrite <- str_app_assoc).
  assert (Hpre : no_meta pre) by (by apply no_meta_app).
  assert (Hall : mapM (fun e => parse_pattern (S (String.length e)) e) (es ++ [e +:+ ".pre-id-migration.*.bak"])
    = Some ((lits <$> es) ++ [lits pre ++ GStar :: lits ".bak"])).
  { apply mapM_Some, Forall2_app; [by apply mapM_Some, mapM_parse|].
    constructor; [|constructor]. rewrite Hlast. by apply parse_star. }
  rewrite Hall. cbn [mbind option_bind]. rewrite length_app, length_fmap. simpl length.
  split.
  - intros Hb. apply (inj Some) in Hb. apply andb_true_iff in Hb as [Hlen Hmt]. apply bool_decide_eq_true in Hlen.
    pose proof (split_byte_Forall "/" q) as Hl. rewrite <- (join_split "/" q).
    generalize dependent (split_byte "/" q). intros l Hlen Hmt Hl.
    destruct (exists_last (l := l)) as (l0 & z & ->); [by destruct l; simpl in *; [lia|]|].
    rewrite length_app in Hlen. simpl in Hlen.
    rewrite zip_with_app in Hmt by (rewrite length_fmap; lia). rewrite forallb_app in Hmt.
    apply andb_true_iff in Hmt as [Hinit Hz]. apply forallb_lits in Hinit as ->; [|lia].
    cbn [zip_with forallb fst snd] in Hz. rewrite andb_true_r in Hz.
    apply tok_lits in Hz as (u & -> & (x & ->)%tok_star).
    exists x. apply Forall_app in Hl as [_ Hl]. apply Forall_cons in Hl as [Hl _].
    rewrite !contains_byte_app in Hl. split; [by bools|].
    rewrite <- (join_split "/" path), Hp. unfold pre. rewrite <- !str_app_assoc. clear. 
    induction l0 as [|y l0 IH]; [done|]. simpl app. change (str1 "/") with "/" in *.
    rewrite !join_cons by (by destruct l0). rewrite IH. by rewrite <- !str_app_assoc.
  - intros (x & Hx & ->). f_equal.
    destruct (split_suffix path (".pre-id-migration." +:+ x +:+ ".bak")) as (es' & e' & Hp' & ->).
    { rewrite !contains_byte_app, Hx. done. }
    rewrite Hp in Hp'. apply app_inj_tail in Hp' as [<- <-].
    rewrite bool_decide_eq_true_2 by (rewrite length_app; done). simpl.
    rewrite zip_with_app by (by rewrite length_fmap). rewrite forallb_app.
    rewrite (proj2 (forallb_lits es es eq_refl) eq_refl). cbn [zip_with forallb fst snd andb].
    rewrite andb_true_r.
    apply tok_lits. exists (x +:+ ".bak"). split; [unfold pre; by rewrite <- !str_app_assoc|].
    change (tok_match (GStar :: lits ".bak") (x +:+ ".bak") = true). apply tok_star. by exists x.
Qed.

Lemma backup_path_is_backup path t : contains_byte (format_dashed t) "/" = false ->
  is_backup path (backupPath path migrationBackupKind t).
Proof. intros Ht. left. exists (format_dashed t). by split. Qed.

Lemma is_backup_ne path : ~ is_backup path path.
Proof.
  intros [(x & _ & He)|He]; apply (f_equal String.length) in He; rewrite !str_length_app in He; simpl in He; lia.
Qed.

(** ** The sweep *)

Section Sweep.
Context `{Os} {E : Type}.

(** Outside [P] the files are those of [f]. *)
Definition only (P : string -> Prop) (f g : files) : Prop := forall q, ~ P q -> g !! q = f !! q.

Definition no_faults : Prop := forall i, fails i = false.

Lemma remove_only P f p w r w' :
  P p -> only P f (fs w) -> (ignore (remove p) : M E unit) w = (r, w') ->
  r = Ok tt /\ evolves (only P f) w w'
  /\ (forall q, fs w !! q = None -> fs w' !! q = None)
  /\ (no_faults -> fs w !! p <> Some NDir -> fs w' !! p = None)
  /\ (forall q, fs w !! q <> Some NDir -> fs w' !! q <> Some NDir).
Proof.
  intros Hp Ho. unfold ignore. intros [= <- <-]. split; [done|].
  destruct (remove p w) as [r1 w1] eqn:Hr. cbn [snd].
  assert (Hcase : w1 = step w (delete p (fs w))
    \/ (w1 = step w (fs w) /\ (fails (tick w) = true \/ fs w !! p = None \/ fs w !! p = Some NDir))).
  { apply syscall_inv in Hr as [(e & _ & -> & Hf)|(a & g & _ & -> & Ha & _)].
    - right. split; [done|]. destruct Hf as [?|Ha]; [by left|right].
      destruct (fs w !! p) as [[]|]; [done|done|by right|by left].
    - left. destruct (fs w !! p) as [[]|]; try done; try (by injection Ha as _ <-).
      destruct (bool_decide _); [by injection Ha as _ <-|done]. }
  destruct Hcase as [->|[-> Hc]]; simpl.
  - split; [|split; [|split]].
    + apply evolves_step. intros q Hq. rewrite lookup_delete_ne; [by apply Ho|]. by intros ->.
    + intros q Hq. destruct (decide (q = p)) as [->|]; [by rewrite lookup_delete_eq|by rewrite lookup_delete_ne].
    + intros _ _. apply lookup_delete_eq.
    + intros q Hq. destruct (decide (q = p)) as [->|]; [by rewrite lookup_delete_eq|by rewrite lookup_delete_ne].
  - split; [by apply evolves_step|]. split; [done|]. split; [|done].
    intros Hno Hd. destruct Hc as [Hc|[Hc|Hc]]; [by rewrite Hno in Hc|done|done].
Qed.

Lemma remove_each_only P f l w r w' :
  Forall P l -> only P f (fs w) -> (remove_each l : M E unit) w = (r, w') ->
  r = Ok tt /\ evolves (only P f) w w'
  /\ (forall q, fs w !! q = None -> fs w' !! q = None)
  /\ (no_faults -> (forall q, P q -> fs w !! q <> Some NDir) -> forall q, q ∈ l -> fs w' !! q = None)
  /\ (forall q, fs w !! q <> Some NDir -> fs w' !! q <> Some NDir).
Proof.
  intros HF. revert w. induction HF as [|p l Hp HF IH]; intros w Ho Hr.
  - injection Hr as <- <-. split; [done|]. split; [by apply evolves_refl|]. split; [done|]. split; [set_solver|done].
  - cbn [remove_each] in Hr. apply M_bind_inv in Hr as [([] & w1 & H1 & Hr)|(e & H1 & ->)];
      apply (remove_only P f) in H1 as (? & Hev1 & Hn1 & Hg1 & Hd1); try done.
    destruct (IH w1 (evolves_fs _ _ _ Hev1) Hr) as (-> & Hev2 & Hn2 & Hg2 & Hd2). split; [done|].
    split; [by eapply evolves_trans|]. split; [auto|]. split; [|auto].
    intros Hno Hd q [->|Hq]%elem_of_cons; [apply Hn2, Hg1; [done|by apply Hd]|].
    apply Hg2; [done| |done]. intros q' Hq'. by apply Hd1, Hd.
Qed.

Lemma glob_backups_list path f q : no_meta path ->
  q ∈ Glob (migrationBackupGlob path migrationBackupKind) f <->
  (exists x, contains_byte x "/" = false /\ q = path +:+ ".pre-id-migration." +:+ x +:+ ".bak") /\ is_Some (f !! q).
Proof.
  intros Hm. unfold Glob. rewrite list_elem_of_filter, glob_backups by done. split.
  - intros [Hx ([k n] & -> & Hin)%list_elem_of_fmap]. split; [done|]. exists n. by apply elem_of_map_to_list.
  - intros [Hx [n Hn]]. split; [done|]. apply list_elem_of_fmap. exists (q, n). split; [done|].
    by apply elem_of_map_to_list.
Qed.

Lemma sweep_spec path meta w r w' :
  no_meta path -> (sweepMigrationBackupIfExpired path meta : M E unit) w = (r, w') ->
  let expired := backup_expired meta (clock (tick w) * Second)%Z in
  r = Ok tt /\ evolves (only (fun q => expired = true /\ is_backup path q) (fs w)) w w'
  /\ (no_faults -> (forall q, is_backup path q -> fs w !! q <> Some NDir) -> expired = true ->
      forall q, is_backup path q -> fs w' !! q = None).
Proof.
  intros Hm Hr. cbv zeta. unfold sweepMigrationBackupIfExpired in Hr.
  apply M_bind_inv in Hr as [(t & w1 & Hn & Hr)|(e & Hn & ->)]; apply now_reads in Hn as [Hr1 Ht]; [|done].
  injection Ht as ->. pose proof (reads_fs _ _ Hr1) as Hf1.
  destruct (backup_expired meta _) eqn:Hexp.
  2: { injection Hr as <- <-. split; [done|]. split; [|done]. by apply reads_evolves. }
  set (P := fun q => true = true /\ is_backup path q).
  assert (Hev1 : evolves (only P (fs w)) w w1) by (by apply reads_evolves).
  unfold removeMigrationBackup in Hr.
  assert (Hlist : forall rl w2, (listMigrationBackups path migrationBackupKind : M E _) w1 = (rl, w2) ->
    exists l, rl = Ok l /\ reads w1 w2 /\ Forall P l /\
      (no_faults -> l = Glob (migrationBackupGlob path migrationBackupKind) (fs w1))).
  { intros rl w2 Hl. unfold listMigrationBackups in Hl.
    destruct (glob _ w1) as [rg wg] eqn:Hg. pose proof (glob_reads _ _ _ _ Hg) as Hrg.
    apply syscall_inv in Hg as [(e & -> & -> & Hf)|(a & g & -> & -> & Ha & _)]; injection Hl as <- <-.
    - exists []. split; [done|]. split; [done|]. split; [constructor|].
      intros Hno. destruct Hf as [Hf|Hf]; [by rewrite Hno in Hf|done].
    - injection Ha as <- <-. eexists. split; [done|]. split; [done|]. split; [|done].
      apply Forall_forall. intros q Hq. apply glob_backups_list in Hq as [Hq _]; [|done].
      split; [done|]. by left. }
  apply M_bind_inv in Hr as [(l & w2 & Hl & Hr)|(e & Hl & ->)]; destruct (Hlist _ _ Hl) as (l' & Hle & Hr2 & HP & Hall);
    [|done].
  injection Hle as <-. pose proof (reads_fs _ _ Hr2) as Hf2. rewrite Hf1 in Hf2.
  assert (Ho2 : only P (fs w) (fs w2)) by (rewrite Hf2; by intros q _).
  apply M_bind_inv in Hr as [([] & w3 & H3 & Hr)|(e & H3 & ->)];
    destruct (remove_each_only P (fs w) _ _ _ _ HP Ho2 H3) as (? & Hev3 & Hn3 & Hg3 & Hd3); [|done].
  apply (remove_only P (fs w)) in Hr as (-> & Hev4 & Hn4 & Hg4 & _);
    [|split; [done|by right]|exact (evolves_fs _ _ _ Hev3)].
  split; [done|]. split.
  - eapply evolves_trans; [exact Hev1|]. eapply evolves_trans; [|by eapply evolves_trans].
    apply reads_evolves; [rewrite Hf1; by intros q _|done].
  - intros Hno Hd _ q [Hq| ->].
    + apply Hn4. destruct (fs w !! q) as [n|] eqn:Hfq.
      * apply Hg3; [done|intros q' [_ Hq']; rewrite Hf2; by apply Hd|]. rewrite Hall, Hf1 by done.
        apply glob_backups_list; [done|]. split; [done|by exists n].
      * apply Hn3. by rewrite Hf2.
    + apply Hg4; [done|]. apply Hd3. rewrite Hf2. apply Hd. by right.
Qed.

(**  The retention sweep removes backups and nothing else.  Before the window
    has passed a save leaves every file alone.  Afterwards, whichever calls fail, no
    file but a migration backup of this very configuration changes at any moment,
    the live configuration least of all; and when no call fails every one of those
    backups is gone, the dated ones and the one older releases wrote. *)
Theorem sweep_exact path meta w r w' :
  no_meta path -> (sweepMigrationBackupIfExpired path meta : M E unit) w = (r, w') ->
  let expired := backup_expired meta (clock (tick w) * Second)%Z in
  r = Ok tt /\ evolves (only (fun q => expired = true /\ is_backup path q) (fs w)) w w'
  /\ (no_faults -> (forall q, is_backup path q -> fs w !! q <> Some NDir) -> expired = true ->
      forall q, is_backup path q -> fs w' !! q = None).
Proof. apply sweep_spec. Qed.
End Sweep.

(** ** The window *)

Local Open Scope Z_scope.

Lemma wrap64_id z : - 2 ^ 63 <= z < 2 ^ 63 -> wrap64 z = z.
Proof. intros Hz. unfold wrap64. rewrite Z.mod_small; lia. Qed.

Lemma days_duration_exact n : -106751 <= n <= 106751 -> days_duration n = n * 24 * Hour.
Proof.
  intros Hn. unfold days_duration. rewrite (wrap64_id (n * 24)) by lia. apply wrap64_id.
  unfold Hour, Second. lia.
Qed.

(**  The retention setting means what it says, for windows of up to 106751
    days: with JITENV_MIGRATION_BACKUP_RETENTION_DAYS set to the integer n and a
    migration recorded at time t, a save at [now] removes the backups exactly when
    n is not negative and at least n days have passed. *)
Theorem retention_window `{Os} raw n meta t now :
  getenv MigrationBackupRetentionEnv = Some raw -> raw <> "" -> atoi raw = Some n -> -106751 <= n <= 106751 ->
  MigratedAt meta = format_rfc3339 t -> 0 <= year (utc t) <= 9999 -> 0 <= now - t * Second < 2 ^ 63 ->
  backup_expired meta now = (0 <=? n) && (n * 24 * Hour <=? now - t * Second).
Proof.
  intros Henv Hraw Hn Hr Hm Hy Hnow. unfold backup_expired, migrationBackupRetention.
  rewrite Henv, (proj2 (str_empty_false _) Hraw), Hn, Hm, parse_format by done.
  rewrite days_duration_exact by done.
  assert (Hf : str_empty (format_rfc3339 t) = false).
  { apply str_empty_false. intros He. pose proof (parse_format t Hy) as Hp. by rewrite He in Hp. }
  assert (Hs : sat64 (now - t * Second) = now - t * Second) by (unfold sat64; lia).
  rewrite Hf, Hs. destruct (Z.leb_spec 0 n) as [H0|H0]; simpl.
  - rewrite (proj2 (Z.ltb_ge _ _)) by (unfold Hour, Second; lia).
    destruct (Z.leb_spec (n * 24 * Hour) (now - t * Second)); [rewrite (proj2 (Z.ltb_ge _ _)) by lia|
      rewrite (proj2 (Z.ltb_lt _ _)) by lia]; done.
  - by rewrite (proj2 (Z.ltb_lt _ _)) by (unfold Hour, Second; lia).
Qed.

(** Beyond that the product wraps around: a window of 213504 days lasts less than
    half an hour, and one of 106752 days disables the sweep. *)
Lemma retention_overflows : 0 <= days_duration 213504 < Hour / 2 /\ days_duration 106752 < 0.
Proof. vm_compute. repeat split; discriminate. Qed.

(** In a directory whose name has brackets the glob misses the backup. *)
Lemma glob_misses_brackets :
  match_path (migrationBackupGlob "/h/[x]/config.toml" migrationBackupKind)
             (backupPath "/h/[x]/config.toml" migrationBackupKind 1759000000) = Some false.
Proof. vm_compute. reflexivity. Qed.

Definition ex_env_os (raw : string) : Os := Build_Os (fun _ => false) (fun _ => 0%nat)
  (fun t i => itoa (N.of_nat (t + i))) (fun _ => 1760000000) (fun _ => Some raw).

Definition ex_meta_at (t : Z) : Meta := mkMeta "argon2id" 3 65536 4 "" "" "" (format_rfc3339 t).

Lemma retention_window_witness :
  @backup_expired (ex_env_os "7") (ex_meta_at 1759000000) (1760000000 * Second) = true
  /\ @backup_expired (ex_env_os "30") (ex_meta_at 1759000000) (1760000000 * Second) = false.
Proof.
  split.
  - rewrite (@retention_window (ex_env_os "7") "7" 7 _ 1759000000); try reflexivity; try (vm_compute; intuition discriminate).
  - rewrite (@retention_window (ex_env_os "30") "30" 30 _ 1759000000); try reflexivity; try (vm_compute; intuition discriminate).
Defined.

Definition ex_backup : string := backupPath "/h/config.toml" migrationBackupKind 1759000000.

Definition ex_swept : res FErr unit * world :=
  @sweepMigrationBackupIfExpired (ex_env_os "7") FErr "/h/config.toml" (ex_meta_at 1759000000)
    (start {["/h/config.toml" := NFile "live" 384 0; ex_backup := NFile "old" 384 0;
             "/h/config.toml.pre-id-migration.bak" := NFile "older" 384 0; "/h/notes.bak" := NFile "n" 420 0]}).

Lemma sweep_exact_witness :
  fs ex_swept.2 !! ex_backup = None /\ fs ex_swept.2 !! "/h/config.toml" = Some (NFile "live" 384 0)
  /\ fs ex_swept.2 !! "/h/notes.bak" = Some (NFile "n" 420 0).
Proof.
  destruct (@sweep_exact (ex_env_os "7") FErr "/h/config.toml" (ex_meta_at 1759000000)
    (start {["/h/config.toml" := NFile "live" 384 0; ex_backup := NFile "old" 384 0;
             "/h/config.toml.pre-id-migration.bak" := NFile "older" 384 0; "/h/notes.bak" := NFile "n" 420 0]})
    ex_swept.1 ex_swept.2 eq_refl (surjective_pairing _)) as (_ & Hev & Hgone).
  split; [|split].
  - apply Hgone; [intros i; reflexivity| |vm_compute; reflexivity|].
    + intros q _ Hq. cbn [fs start] in Hq.
      repeat (apply lookup_insert_Some in Hq as [[_ ?]|[_ Hq]]; [discriminate|]).
      apply lookup_singleton_Some in Hq as [_ ?]. discriminate.
    + apply backup_path_is_backup. vm_compute. reflexivity.
  - rewrite (evolves_fs _ _ _ Hev); [vm_compute; reflexivity|]. intros [_ Hb]. by apply is_backup_ne in Hb.
  - vm_compute. reflexivity.
Defined.
End StoreSweep.
