(* ===== verification/Edit.v ===== *)
(** * Editing a configuration from the command line (src/internal/cli/clone.go)

    What [jitenv clone] and [jitenv bag import] share: the local source an edit
    attaches its bag to, and the save that seals everything again.  The lemmas
    follow a configuration file from the unlock to the save. *)

From S2P Require Import Prelude GoString GoPath GoTime Fs Atomic ConfigModel Crypto NameId Seal SealIds SealRoundtrip.
From S2P Require Import Store StoreMigrate StoreSweep.
Import Fs Atomic GoTime Config Crypto NameId Seal SealIds SealRoundtrip Store StoreMigrate StoreSweep.

Module Edit.

Definition with_sources (c : Config) (s : gmap string SourceConfig) : Config :=
  mkConfig (CVersion c) (CMeta c) (CAgent c) s (Mappings c) (Secrets c) (IDMap c).
Definition with_secrets (c : Config) (s : gmap string (gmap string string)) : Config :=
  mkConfig (CVersion c) (CMeta c) (CAgent c) (Sources c) (Mappings c) s (IDMap c).
Definition with_mappings (c : Config) (m : list Mapping) : Config :=
  mkConfig (CVersion c) (CMeta c) (CAgent c) (Sources c) m (Secrets c) (IDMap c).

Section Local.
Context `{MapRange}.

(** The first local source a range over the map meets; every call is a range of
    its own. *)
Definition localSourceName (site : nat) (c : Config) : string :=
  match find (fun ns => String.eqb (Type_ ns.2) "local") (map_range site (Sources c)) with
  | Some (name, _) => name
  | None => "local"
  end.

(** "Ensure a local source exists for the bag" *)
Definition ensure_local (site : nat) (c : Config) : Config :=
  match Sources c !! localSourceName site c with
  | Some _ => c
  | None => with_sources c (<["local" := mkSource "local" ∅]> (Sources c))
  end.

Lemma localSourceName_local site c name sc :
  Sources c !! name = Some sc -> Type_ sc = "local" ->
  exists sc', Sources c !! localSourceName site c = Some sc' /\ Type_ sc' = "local".
Proof.
  intros Hn Ht. unfold localSourceName. destruct (find _ _) as [[n s]|] eqn:Hf.
  - apply find_some in Hf as [Hin He]. apply list_elem_of_In, elem_of_map_range in Hin.
    exists s. split; [done|]. by apply String.eqb_eq.
  - exfalso. assert (Hin : In (name, sc) (map_range site (Sources c))) by (by apply list_elem_of_In, elem_of_map_range).
    pose proof (find_none _ _ Hf _ Hin) as Hx. cbn [snd] in Hx. by rewrite Ht in Hx.
Qed.

Lemma ensure_local_content site c c' : content c = content c' -> content (ensure_local site c) = content (ensure_local site c').
Proof.
  unfold content, ensure_local, localSourceName. intros Hc. injection Hc as Hs Hm Hse. rewrite Hs.
  destruct (Sources c' !! _); unfold with_sources; cbn [Sources Mappings Secrets]; by rewrite ?Hs, Hm, Hse.
Qed.
End Local.

Section Save.
Context `{Os, Rand, !RandLaws, AEAD, !AEADLaws, Toml, !TomlLaws, NameMapCodec, !NameMapCodecLaws, MapRange}.

Definition saveAndReencrypt (path : string) (c : Config) (key : string) : M SErr unit :=
  c ← draw SSeal (EncryptInPlace c key);
  AtomicSave path c.

Lemma AtomicSave_file path c w r w' :
  no_meta path -> (forall rnd, temp_name (GoPath.Dir path) savePattern rnd <> path) ->
  AtomicSave path c w = (r, w') ->
  let saved n := exists data t, toml_encode c = Some data /\ n = Some (NFile data 384 t) in
  evolves (fun g => g !! path = fs w !! path \/ (r = Ok tt /\ saved (g !! path))) w w'
  /\ (r = Ok tt -> saved (fs w' !! path)).
Proof.
  intros Hm Hname Hr. cbv zeta. unfold AtomicSave, atomicSave in Hr.
  apply M_bind_inv in Hr as [([] & w1 & Hw & Hr)|(e & Hw & ->)];
    destruct (WriteFunc_spec _ _ _ _ _ _ _ _ _ (encode_produces c) Hname Hw) as (tmp & Htp & Htn & Hm1).
  - assert (Henc : toml_encode c = Some (default "" (toml_encode c))).
    { apply WriteFunc_producer in Hw as (tmp2 & w2 & w3 & Hpr). unfold encode_to in Hpr. by destruct (toml_encode c). }
    destruct Hm1 as (t & w0 & Hev & ->). apply sweep_spec in Hr as (-> & Hev2 & _); [|done].
    set (g1 := <[path := _]> _) in *.
    assert (Hs : forall g, only (fun q => backup_expired (CMeta c) (clock (tick (step w0 g1)) * Second)%Z = true /\ is_backup path q) (fs (step w0 g1)) g ->
      exists data t, toml_encode c = Some data /\ g !! path = Some (NFile data 384 t)).
    { intros g Hg. exists (default "" (toml_encode c)), t. split; [exact Henc|].
      rewrite Hg; [apply lookup_insert_eq|]. by intros [_ Hb%is_backup_ne]. }
    split; [|intros _; apply Hs; exact (evolves_fs _ _ _ Hev2)].
    eapply evolves_trans; [|eapply evolves_mono; [|exact Hev2]; intros g Hg; right; split; [done|by apply Hs]].
    eapply evolves_trans; [eapply evolves_mono; [|exact Hev]; intros g Hg; left; by apply Hg|].
    apply evolves_step. right. split; [done|]. exists (default "" (toml_encode c)), t. split; [exact Henc|apply lookup_insert_eq].
  - split; [|done]. destruct Hm1 as [Hev _]. eapply evolves_mono; [|exact Hev]. intros g Hg. left. by apply Hg.
Qed.

Lemma sealable_content c c' : content c = content c' -> sealable c -> sealable c'.
Proof.
  unfold content. intros Hc [H1' H2' H3']. injection Hc as Hs Hm Hse. split; rewrite <- ?Hs, <- ?Hm, <- ?Hse; try done.
  eapply Forall_impl; [exact H3'|]. intros m Hv. eapply Forall_impl; [exact Hv|]. intros v [Hp Hr].
  split; [exact Hp|]. unfold var_refs_ok. by rewrite <- Hs, <- Hse.
Qed.

Lemma lift_inv {E A} (r0 : res E A) w r w' : lift r0 w = (r, w') -> r = r0 /\ w' = w.
Proof. unfold lift. by intros [= <- <-]. Qed.

(** What a run leaves of the configuration file. *)
Definition holds (path key : string) (c : Config) (f : files) : Prop :=
  exists data m t, f !! path = Some (NFile data m t) /\ opens key data c.

(** A save: the file is what it was, or opens to what was saved. *)
Lemma save_opens path c key prev w r w' :
  no_meta path -> (forall rnd, temp_name (GoPath.Dir path) savePattern rnd <> path) ->
  prev_names key c = Ok prev -> names_wf prev -> sealable c -> codable key c ->
  saveAndReencrypt path c key w = (r, w') ->
  match r with
  | Ok _ => exists data t, fs w' !! path = Some (NFile data 384 t) /\ opens key data c
  | Err _ => fs w' !! path = fs w !! path
  end.
Proof.
  intros Hm Hname Hprev Hwf Hsl Hcod Hr. unfold saveAndReencrypt in Hr.
  apply M_bind_inv in Hr as [(c2 & w1 & He & Hr)|(e & He & ->)]; unfold draw in He;
    destruct (EncryptInPlace c key (draws w)) as [[c2' n']|e'] eqn:Henc; injection He as He <-; try done.
  subst c2'. destruct (AtomicSave_file _ _ _ _ _ Hm Hname Hr) as [Hev Hok]. cbn [fs] in Hev.
  destruct r as [[]|e].
  - destruct (Hok eq_refl) as (data & t & Hdata & Hf). destruct (Hcod _ _ _ Henc) as (Hcodec & Htoml & _).
    exists data, t. split; [exact Hf|].
    exact (proj1 (sealed_opens _ _ _ _ _ _ _ _ Henc Hprev Hwf Hsl Hcodec eq_refl eq_refl Htoml Hdata)).
  - by destruct (evolves_fs _ _ _ Hev) as [Hf|[? _]].
Qed.

(** After the migration step the file opens to what it did before, migrated or
    not, and so does what is then loaded from it. *)
Lemma migrate_opens path key w r w' old m t c0 c1 :
  quick -> (forall rnd, temp_name (GoPath.Dir path) savePattern rnd <> path) -> old_names_wf old key ->
  fs w !! path = Some (NFile old m t) -> loaded old = Some c0 -> DecryptInPlace c0 key = Ok c1 -> sealable c1 ->
  codable key c1 -> MigrateToOpaqueIDs path key w = (r, w') ->
  exists data m' t', fs w' !! path = Some (NFile data m' t') /\ opens key data c1.
Proof.
  intros Hq Hname Hwf Hp Hl Hd Hsl Hcod Hr. destruct (Migrate_run _ _ _ _ _ _ _ _ Hq Hname Hwf Hp Hr) as [_ Hm].
  assert (Hold : fs w' !! path = Some (NFile old m t) ->
    exists data m' t', fs w' !! path = Some (NFile data m' t') /\ opens key data c1).
  { intros Hf. exists old, m, t. split; [done|]. by eapply old_opens. }
  destruct r as [[]|e]; [|by apply Hold..]. destruct Hm as [Hm _].
  destruct (migrated_opens _ _ _ _ _ _ _ _ Hm Hwf Hl Hd Hsl Hcod) as (data & t' & Hf & Ho & _).
  by exists data, 384%Z, t'.
Qed.

Lemma opens_load path key data m t c w r w' cf :
  opens key data c -> fs w !! path = Some (NFile data m t) -> Load path w = (r, w') -> r = Ok cf ->
  exists d nm, DecryptInPlace cf key = Ok d /\ content d = content c /\ prev_names key d = Ok nm /\ names_wf nm.
Proof.
  intros (cf' & d & nm & Hl & Hd & Hrest) Hf Hr Hok. apply Load_spec in Hr as [_ Hc].
  pose proof (Hc _ _ _ _ Hf Hok) as Hl'. assert (cf' = cf) as -> by congruence. by exists d, nm.
Qed.

(** The notice of a migration only looks. *)
Lemma newest_reads {E} l best w (r : res E _) w' : newest l best w = (r, w') -> reads w w' /\ is_ok r = true.
Proof.
  revert best w. induction l as [|p l IH]; intros best w; cbn [newest].
  - intros [= <- <-]. split; [by apply evolves_refl|done].
  - intros Hr. apply M_bind_inv in Hr as [(st & w1 & Hst & Hr)|(e & Hst & ->)]; unfold attempt in Hst;
      destruct (stat p w) as [rs ws] eqn:Hs; [|done]. injection Hst as <- <-.
    apply stat_reads in Hs.
    destruct rs; apply IH in Hr as [Hr ?]; (split; [by eapply reads_trans|done]).
Qed.

Lemma MigrationBackupPath_reads {E} cwd path w (r : res E _) w' :
  MigrationBackupPath cwd path w = (r, w') -> reads w w' /\ is_ok r = true.
Proof.
  unfold MigrationBackupPath, listMigrationBackups. intros Hr.
  apply M_bind_inv in Hr as [(l & w1 & Hl & Hr)|(e & Hl & ->)]; destruct (glob _ w) as [rg wg] eqn:Hg;
    apply glob_reads in Hg; [|by destruct rg].
  assert (w1 = wg) as -> by (destruct rg; congruence).
  apply M_bind_inv in Hr as [(b & w2 & Hn & Hr)|(e & Hn & ->)]; apply newest_reads in Hn as [Hn Hok]; [|done].
  injection Hr as <- <-. split; [by eapply reads_trans|done].
Qed.

(** The steps both commands take from the key to the decrypted configuration: the
    file still opens to what it did, and what goes on is its decryption. *)
Lemma unlocked_step {E A L} (mk : SErr -> E) (mkD : EErr -> E) (show : string -> L) cwd
    (k : list L -> Config -> M E A) path key w r w' old m t c0 c1 :
  quick -> (forall rnd, temp_name (GoPath.Dir path) savePattern rnd <> path) ->
  fs w !! path = Some (NFile old m t) -> old_names_wf old key ->
  loaded old = Some c0 -> DecryptInPlace c0 key = Ok c1 -> sealable c1 -> codable key c1 ->
  (migrated ← mapErr mk (MigrateToOpaqueIDs path key);
   shown ← (if migrated : bool then b ← MigrationBackupPath cwd path; mret [show b] else mret []);
   cfg ← mapErr mk (Load path);
   cfg ← lift (wrap_err mkD (DecryptInPlace cfg key));
   k shown cfg) w = (r, w') ->
  ((exists e, r = Err e) /\ holds path key c1 (fs w'))
  \/ exists shown d nm w1 data m1 t1, k shown d w1 = (r, w') /\ fs w1 !! path = Some (NFile data m1 t1)
     /\ opens key data c1 /\ content d = content c1 /\ prev_names key d = Ok nm /\ names_wf nm.
Proof.
  intros Hq Hname Hp Hwf Hl0 Hd1 Hsl Hcod Hr.
  apply M_bind_inv in Hr as [(b & w4 & (rm & Hm & Hrm)%mapErr_inv & Hr)|(e & (rm & Hm & Hrm)%mapErr_inv & ->)];
    apply (migrate_opens _ _ _ _ _ old m t c0 c1) in Hm as (data & m' & t' & Hf & Ho); try done;
    [|left; split; [by eexists|by exists data, m', t']].
  assert (Hkeep : forall v, reads w4 v -> holds path key c1 (fs v)).
  { intros v Hv. exists data, m', t'. by rewrite (reads_fs _ _ Hv). }
  apply M_bind_inv in Hr as [(shown & w5 & Hs & Hr)|(e & Hs & ->)].
  2: { destruct b; [|done]. apply M_bind_inv in Hs as [(x & w6 & _ & ?)|(e' & Hs & _)]; [done|].
       by apply MigrationBackupPath_reads in Hs as [_ ?]. }
  assert (Hrd5 : reads w4 w5).
  { destruct b; [|injection Hs as _ <-; by apply evolves_refl].
    apply M_bind_inv in Hs as [(x & w6 & Hb & Hs)|(e' & Hb & ?)]; apply MigrationBackupPath_reads in Hb as [Hb _]; [|done].
    by injection Hs as _ <-. }
  assert (Hf5 : fs w5 !! path = Some (NFile data m' t')) by by rewrite (reads_fs _ _ Hrd5).
  apply M_bind_inv in Hr as [(c & w6 & (rl & Hl & Hrl)%mapErr_inv & Hr)|(e & (rl & Hl & Hrl)%mapErr_inv & ->)];
    pose proof (proj1 (Load_spec _ _ _ _ Hl)) as Hrd6; pose proof (reads_trans _ _ _ Hrd5 Hrd6) as Hrd;
    [|left; split; [by eexists|by apply Hkeep]].
  destruct rl as [c'|]; [|done]. injection Hrl as ->.
  destruct (opens_load _ _ _ _ _ _ _ _ _ _ Ho Hf5 Hl eq_refl) as (d & nm & Hd & Hcd & Hprev & Hnw).
  rewrite Hd in Hr. right. exists shown, d, nm, w6, data, m', t'. split; [exact Hr|].
  split; [by rewrite (reads_fs _ _ Hrd6)|done].
Qed.
End Save.
End Edit.
