(* ===== verification/Protocol.v ===== *)
(** * The agent's wire protocol (src/internal/agent/protocol.go)

    Length-prefixed JSON frames over a byte stream, and the request and response
    records.  encoding/json on these records is an interface; framing, its bounds
    and its errors are the program's. *)

From S2P Require Import Prelude GoString.

Module Protocol.

Inductive Op := OpStatus | OpIsMapped | OpFetchEnv | OpLock | OpReload | OpFetchEnvCwd | OpCwdCommands
| OpOther (s : string).

Definition op_name (o : Op) : string :=
  match o with
  | OpStatus => "status" | OpIsMapped => "is_mapped" | OpFetchEnv => "fetch_env" | OpLock => "lock"
  | OpReload => "reload" | OpFetchEnvCwd => "fetch_env_cwd" | OpCwdCommands => "cwd_commands"
  | OpOther s => s
  end.

Record Request := mkRequest { ReqOp : Op; ReqPath : string; ReqCwd : string; ReqCommand : string }.

Record Status := mkStatus {
  SPID : Z; SStartedAt : string; SSources : list string; SHits : Z; SIdleFor : string
}.

Record Response := mkResponse {
  ROK : bool;
  RError : string;
  RMapped : bool;
  REnv : gmap string string;
  RStatus : option Status;
  RCommands : list string
}.

Definition resp_ok : Response := mkResponse true "" false ∅ None [].
Definition resp_error (e : string) : Response := mkResponse false e false ∅ None [].
Definition resp_env (m : gmap string string) : Response := mkResponse true "" false m None [].

Definition maxMessageBytes : N := 1048576.

Inductive FrameErr :=
| EMarshal
| ETooLarge (n : N)
| EEof               (* no byte of the item could be read *)
| EUnexpectedEof     (* the stream ended inside the item *)
| EEmpty
| EUnmarshal.

(** binary.BigEndian.PutUint32 and Uint32 *)
Definition be32 (n : N) : string :=
  let b (k : N) := byte_of (N.to_nat (n / k mod 256)) in
  String (b 16777216%N) (String (b 65536%N) (String (b 256%N) (str1 (b 1%N)))).

Definition un_be32 (s : string) : N :=
  let v (c : ascii) := N.of_nat (byte_val c) in
  match s with
  | String a (String b (String c (String d _))) => ((v a * 256 + v b) * 256 + v c) * 256 + v d
  | _ => 0
  end%N.

Definition len (s : string) : N := N.of_nat (String.length s).

(** WriteMessage after json.Marshal: the bytes put on the stream. *)
Definition write_frame (b : string) : res FrameErr string :=
  if (maxMessageBytes <? len b)%N then Err (ETooLarge (len b))
  else Ok (be32 (len b) +:+ b).

(** io.ReadFull of [n] bytes from the rest of a stream. *)
Definition read_full (n : N) (s : string) : res FrameErr (string * string) :=
  if (n <=? len s)%N then Ok (str_take (N.to_nat n) s, str_drop (N.to_nat n) s)
  else if str_empty s then Err EEof else Err EUnexpectedEof.

(** ReadMessage up to json.Unmarshal: the body and what is left of the stream. *)
Definition read_frame (s : string) : res FrameErr (string * string) :=
  '(hdr, s1) ← read_full 4 s;
  let n := un_be32 hdr in
  if (n =? 0)%N then Err EEmpty
  else if (maxMessageBytes <? n)%N then Err (ETooLarge n)
  else read_full n s1.

Class Codec (A : Type) := {
  marshal_json : A -> option string;
  unmarshal_json : string -> option A;
  json_ok : A -> Prop          (* what JSON can carry: valid UTF-8 text *)
}.
Class CodecLaws (A : Type) `{Codec A} : Prop := {
  json_roundtrip : forall a, json_ok a -> exists s, marshal_json a = Some s /\ s <> "" /\ unmarshal_json s = Some a
}.

Definition WriteMessage `{Codec A} (v : A) : res FrameErr string :=
  b ← of_option EMarshal (marshal_json v); write_frame b.

Definition ReadMessage `{Codec A} (s : string) : res FrameErr (A * string) :=
  '(b, rest) ← read_frame s; v ← of_option EUnmarshal (unmarshal_json b); Ok (v, rest).

(** ** Proofs *)

Lemma byte_of_val n : (n < 256)%nat -> byte_val (byte_of n) = n.
Proof. intros Hn. unfold byte_val, byte_of. by apply Ascii.nat_ascii_embedding. Qed.

Ltac ndiv := rewrite ?N.Div0.mod_eq in *; zify; Z.div_mod_to_equations; lia.

Lemma un_be32_be32 n : (n < 4294967296)%N -> un_be32 (be32 n) = n.
Proof.
  intros Hn. unfold un_be32, be32, str1.
  assert (Hb : forall k, N.of_nat (byte_val (byte_of (N.to_nat (n / k mod 256)))) = (n / k mod 256)%N).
  { intros k. rewrite byte_of_val; [apply N2Nat.id|]. pose proof (N.mod_lt (n / k) 256). lia. }
  rewrite !Hb. rewrite N.div_1_r.
  replace (n / 65536)%N with (n / 256 / 256)%N by (rewrite N.Div0.div_div; done).
  replace (n / 16777216)%N with (n / 256 / 256 / 256)%N by (rewrite !N.Div0.div_div; done).
  pose proof (N.div_mod n 256 ltac:(done)). pose proof (N.div_mod (n / 256) 256 ltac:(done)).
  pose proof (N.div_mod (n / 256 / 256) 256 ltac:(done)).
  assert ((n / 256 / 256 / 256) mod 256 = n / 256 / 256 / 256)%N.
  { apply N.mod_small. apply N.Div0.div_lt_upper_bound. apply N.Div0.div_lt_upper_bound.
    apply N.Div0.div_lt_upper_bound. lia. }
  lia.
Qed.

Lemma len_app s t : len (s +:+ t) = (len s + len t)%N.
Proof. unfold len. rewrite str_length_app. lia. Qed.

Lemma read_full_app s t : read_full (len s) (s +:+ t) = Ok (s, t).
Proof.
  unfold read_full. rewrite len_app, (proj2 (N.leb_le _ _)) by lia. unfold len. rewrite Nat2N.id.
  by rewrite str_take_app, str_drop_app.
Qed.

(** A successful write is read back, and the stream continues behind it. *)
Lemma read_write_frame b out rest : b <> "" -> write_frame b = Ok out -> read_frame (out +:+ rest) = Ok (b, rest).
Proof.
  intros Hb. unfold write_frame. destruct (N.ltb_spec maxMessageBytes (len b)) as [|Hl]; [done|]. intros [= <-].
  unfold read_frame. rewrite <- str_app_assoc.
  change 4%N with (len (be32 (len b))). rewrite read_full_app. cbn [mbind res_bind].
  unfold maxMessageBytes in *. rewrite un_be32_be32 by lia.
  destruct (N.eqb_spec (len b) 0) as [H0|H0].
  { unfold len in H0. destruct b; [done|simpl in H0; lia]. }
  rewrite (proj2 (N.ltb_ge _ _)) by lia. apply read_full_app.
Qed.

(** What a reader accepts: exactly a header that announces between one byte and
    1 MiB, followed by that many bytes. *)
Lemma read_frame_inv s b rest :
  read_frame s = Ok (b, rest) ->
  exists hdr, s = hdr +:+ b +:+ rest /\ String.length hdr = 4%nat /\ un_be32 hdr = len b
    /\ (0 < len b <= maxMessageBytes)%N.
Proof.
  unfold read_frame, read_full. destruct (N.leb_spec 4 (len s)) as [H4|]; [|by destruct (str_empty s)].
  cbn [mbind res_bind]. change (N.to_nat 4) with 4%nat. set (hdr := str_take 4 s). set (s1 := str_drop 4 s).
  assert (Hs : s = hdr +:+ s1) by (symmetry; apply str_take_drop).
  assert (Hh : String.length hdr = 4%nat) by (apply str_length_take; unfold len in H4; lia).
  destruct (N.eqb_spec (un_be32 hdr) 0) as [|H0]; [done|].
  destruct (N.ltb_spec maxMessageBytes (un_be32 hdr)) as [|Hm]; [done|].
  destruct (N.leb_spec (un_be32 hdr) (len s1)) as [Hl|]; [|by destruct (str_empty s1)].
  intros [= <- <-]. exists hdr. rewrite str_take_drop.
  assert (Hlen : len (str_take (N.to_nat (un_be32 hdr)) s1) = un_be32 hdr).
  { unfold len. rewrite str_length_take; [lia|]. unfold len in Hl. lia. }
  rewrite Hlen. repeat split; [done|done|lia|done].
Qed.

Lemma len_zero s : len s = 0%N -> s = "".
Proof. unfold len. destruct s; [done|simpl; lia]. Qed.

(** A frame cut short is an error. *)
Lemma read_frame_cut b out p q :
  b <> "" -> write_frame b = Ok out -> out = p +:+ q -> q <> "" -> exists e, read_frame p = Err e.
Proof.
  intros Hb Hw -> Hq. destruct (read_frame p) as [[b' rest]|e] eqn:Hr; [|by exists e]. exfalso.
  apply read_frame_inv in Hr as (hdr & -> & Hh & Hn & _).
  unfold write_frame in Hw. destruct (N.ltb_spec maxMessageBytes (len b)) as [|Hl]; [done|].
  injection Hw as Hw. rewrite <- !str_app_assoc in Hw. unfold maxMessageBytes in Hl.
  apply str_app_inv_len in Hw as [Hhdr Hbody]; [|by rewrite Hh]. subst hdr. rewrite un_be32_be32 in Hn by lia.
  rewrite Hbody in Hn. rewrite !len_app in Hn. apply Hq, len_zero. lia.
Qed.

(** [n] messages from one stream. *)
Fixpoint read_frames (n : nat) (s : string) : res FrameErr (list string * string) :=
  match n with
  | O => Ok ([], s)
  | S n' => '(b, s1) ← read_frame s; '(bs, s2) ← read_frames n' s1; Ok (b :: bs, s2)
  end.

(**  Framing is sound in both directions.  Messages written one after the
    other are read back one by one, exactly, and the stream continues behind the
    last; a frame cut anywhere is an error, never a shorter message; and whatever
    the stream holds, a reader accepts only a four-byte length between one and 2^20
    followed by exactly that many bytes. *)
Theorem framing_sound :
  (forall bs outs rest, Forall (fun b => b <> "") bs -> res_map write_frame bs = Ok outs ->
     read_frames (length bs) (foldr String.append rest outs) = Ok (bs, rest))
  /\ (forall b out p q, b <> "" -> write_frame b = Ok out -> out = p +:+ q -> q <> "" ->
       exists e, read_frame p = Err e)
  /\ (forall s b rest, read_frame s = Ok (b, rest) ->
       exists hdr, s = hdr +:+ b +:+ rest /\ String.length hdr = 4%nat /\ un_be32 hdr = len b
         /\ (0 < len b <= maxMessageBytes)%N).
Proof.
  split; [|split; [exact read_frame_cut|exact read_frame_inv]].
  intros bs outs rest HF. revert outs. induction HF as [|b bs Hb HF IH]; intros outs; simpl.
  - by intros [= <-].
  - destruct (write_frame b) as [o|] eqn:Hw; [|done]. destruct (res_map write_frame bs) as [os|] eqn:Hr; [|done].
    intros [= <-]. cbn [foldr]. rewrite (read_write_frame _ _ _ Hb Hw). cbn [mbind res_bind].
    by rewrite (IH os eq_refl).
Qed.

(** Reading a message of the codec after writing it. *)
Lemma ReadMessage_WriteMessage `{CodecLaws A} (v : A) out rest :
  json_ok v -> WriteMessage v = Ok out -> ReadMessage (out +:+ rest) = Ok (v, rest).
Proof.
  intros Hv Hw. destruct (json_roundtrip v Hv) as (s & Hm & Hne & Hu). unfold WriteMessage in Hw.
  rewrite Hm in Hw. cbn [of_option mbind res_bind] in Hw.
  unfold ReadMessage. rewrite (read_write_frame _ _ _ Hne Hw). cbn [mbind res_bind]. by rewrite Hu.
Qed.
End Protocol.
