(* ===== verification/Resolver.v ===== *)
(** * Sources and the resolver (src/internal/sources, pkg/source, src/internal/agent/resolver.go)

    The source registry, the local and noop sources, and the resolver that turns a
    mapping's vars into environment variables.  Go maps are references: the bag
    store of a configuration is one object that every local source built from it
    points to, so the model keeps a heap of bag stores and of local-source cells.
    The remote sources (aws, vault) are a parameter. *)

From S2P Require Import Prelude GoString GoPath ConfigModel Mapping.
Import Config Mapping.

Module Resolver.

Record SecretRef := mkRef { ID : string; RefKey : string; RefExtra : gmap string string }.

Notation bags := (gmap string (gmap string string)).

Inductive FetchErr :=
| BagsCleared
| NoBagName
| BagNotFound (bag : string)
| KeyNotInBag (key bag : string)
| NoEntry (id : string)
| NotConfigured (name source : string)
| FetchFailed (label : string) (e : FetchErr)
| NoValueForKey (key : string) (n : nat)
| ManyEntries (n : nat)
| BadVar (name : string) (e : FetchErr)
| Remote (e : string).

Inductive BuildErr :=
| UnknownType (type : string)
| NoopParam (key : string)
| RemoteBuild (e : string)
| SourceErr (name : string) (e : BuildErr).

(** A built source; a local one is a cell of the heap. *)
Inductive source :=
| SrcLocal (cell : nat)
| SrcNoop (values : gmap string string)
| SrcRemote (type : string) (params : gmap string any).

(** Bag stores by address, and the [bags] field of every local source: the
    address it points to, [None] when it is nil. *)
Record heap := mkHeap {
  stores : gmap nat bags;
  cells : gmap nat (option nat)
}.

(** The remote source types and what their Fetch returns. *)
Class Remotes := {
  remote_types : list string;
  remote_build : string -> gmap string any -> res string (gmap string any);
  remote_fetch : string -> gmap string any -> SecretRef -> res string (gmap string string)
}.

(** ** Registry *)

Inductive builder := BLocal | BNoop | BRemote (type : string).

(** [None] is the panic on a second registration. *)
Definition Register (builders : gmap string builder) (typeName : string) (b : builder)
    : option (gmap string builder) :=
  match builders !! typeName with
  | Some _ => None
  | None => Some (<[typeName := b]> builders)
  end.

Definition LocalTypeName : string := "local".
Definition NoopTypeName : string := "noop".

Definition Types (builders : gmap string builder) : list string :=
  sort_strings (map_to_list builders).*1.

Section Sources.
Context `{Remotes, MapRange}.

(** The init functions of the source packages. *)
Definition registered : option (gmap string builder) :=
  b ← Register ∅ LocalTypeName BLocal;
  b ← Register b NoopTypeName BNoop;
  fold_left (fun acc t => b ← acc; Register b t (BRemote t)) remote_types (Some b).

(** noop.New: every parameter must be a string. *)
Definition noop_new (cfg : gmap string any) : res BuildErr source :=
  SrcNoop <$> res_fold (fun values kv => match kv.2 with
                                         | AStr s => Ok (<[kv.1 := s]> values)
                                         | _ => Err (NoopParam kv.1)
                                         end) ∅ (map_range 40 cfg).

(** sources.Build; a local source is a fresh cell without bags. *)
Definition Build (builders : gmap string builder) (h : heap) (typeName : string) (cfg : gmap string any)
    : res BuildErr (source * heap) :=
  match builders !! typeName with
  | None => Err (UnknownType typeName)
  | Some BLocal =>
      let c := fresh (dom (cells h)) in
      Ok (SrcLocal c, mkHeap (stores h) (<[c := None]> (cells h)))
  | Some BNoop => s ← noop_new cfg; Ok (s, h)
  | Some (BRemote t) => ps ← wrap_err RemoteBuild (remote_build t cfg); Ok (SrcRemote t ps, h)
  end.

(** ** Local source *)

Definition SetBags (h : heap) (c p : nat) : heap := mkHeap (stores h) (<[c := Some p]> (cells h)).

Definition blank (b : bags) : bags := fmap (M := gmap string) (fun bag => (fun _ => EmptyString) <$> bag) b.

(** Every value of the shared store is overwritten, then the field is cleared. *)
Definition local_Wipe (h : heap) (c : nat) : heap :=
  match cells h !! c with
  | Some (Some p) => mkHeap (alter blank p (stores h)) (<[c := None]> (cells h))
  | Some None => h
  | None => h
  end.

(** A store that was never there is also reported as cleared; an absent and an empty
    [secrets] table are the same [Secrets], so the model says [BagNotFound] for both. *)
Definition local_Fetch (h : heap) (c : nat) (ref : SecretRef) : res FetchErr (gmap string string) :=
  match cells h !! c with
  | Some (Some p) =>
      if str_empty (ID ref) then Err NoBagName
      else match default ∅ (stores h !! p) !! ID ref with
           | None => Err (BagNotFound (ID ref))
           | Some bag =>
               if negb (str_empty (RefKey ref)) then
                 match bag !! RefKey ref with
                 | Some v => Ok {[RefKey ref := v]}
                 | None => Err (KeyNotInBag (RefKey ref) (ID ref))
                 end
               else Ok bag
           end
  | _ => Err BagsCleared
  end.

Definition noop_Fetch (values : gmap string string) (ref : SecretRef) : res FetchErr (gmap string string) :=
  match values !! ID ref with
  | Some v => Ok {["value" := v]}
  | None => Err (NoEntry (ID ref))
  end.

Definition Fetch (h : heap) (s : source) (ref : SecretRef) : res FetchErr (gmap string string) :=
  match s with
  | SrcLocal c => local_Fetch h c ref
  | SrcNoop values => noop_Fetch values ref
  | SrcRemote t ps => wrap_err Remote (remote_fetch t ps ref)
  end.

(** ** Resolver *)

Record resolver := mkResolver {
  index : Index;
  rsources : gmap string source;
  rcfg : option (gmap string SourceConfig)     (* None after Wipe *)
}.

Section Paths.
Context (ds_match : string -> string -> option bool) (home cwd : option string).

(** One source of BuildResolver: build it and hand the shared store to a sink. *)
Definition build_source (builders : gmap string builder) (p : nat) (acc : gmap string source * heap)
    (nsc : string * SourceConfig) : res BuildErr (gmap string source * heap) :=
  '(s, h) ← wrap_err (SourceErr nsc.1) (Build builders acc.2 (Type_ nsc.2) (Params nsc.2));
  let h' := match s with SrcLocal c => SetBags h c p | _ => h end in
  Ok (<[nsc.1 := s]> acc.1, h').

(** [cfg.Secrets] is the store at a fresh address. *)
Definition BuildResolver (builders : gmap string builder) (h : heap) (cfg : Config)
    : res BuildErr (resolver * heap) :=
  let p := fresh (dom (stores h)) in
  let h0 := mkHeap (<[p := Secrets cfg]> (stores h)) (cells h) in
  '(srcs, h') ← res_fold (build_source builders p) (∅, h0) (map_range 41 (Sources cfg));
  Ok (mkResolver (NewIndex home cwd (Mappings cfg)) srcs (Some (Sources cfg)), h').

Definition source_names (r : resolver) : list string := sort_strings (map_to_list (rsources r)).*1.

Definition IsMapped (r : resolver) (absPath : string) : bool :=
  Mapped ds_match (index r) (absOr cwd absPath absPath).

Definition pickValue (m : gmap string string) (key : string) : res FetchErr string :=
  if negb (str_empty key) then
    match m !! key with Some v => Ok v | None => Err (NoValueForKey key (size m)) end
  else if negb (size m =? 1)%nat then Err (ManyEntries (size m))
  else match map_range 42 m with (_, v) :: _ => Ok v | [] => Ok EmptyString end.

Definition labelOrAll (name : string) : string := if str_empty name then "<expand-all>" else name.

(** One var: a literal, a whole payload, or one picked value. *)
Definition fetch_var (r : resolver) (h : heap) (out : gmap string string) (v : VarRef)
    : res FetchErr (gmap string string) :=
  if negb (str_empty (Value v)) then Ok (<[Name v := Value v]> out)
  else match rsources r !! Source v with
       | None => Err (NotConfigured (Name v) (Source v))
       | Some s =>
           raw ← wrap_err (FetchFailed (labelOrAll (Name v))) (Fetch h s (mkRef (Ref v) (Key v) (Extra v)));
           if str_empty (Name v) then
             Ok (fold_left (fun acc kv => <[kv.1 := kv.2]> acc) (map_range 43 raw) out)
           else
             val ← wrap_err (BadVar (Name v)) (pickValue raw (Key v));
             Ok (<[Name v := val]> out)
       end.

Definition fetchVars (r : resolver) (h : heap) (vars : list VarRef) : res FetchErr (gmap string string) :=
  res_fold (fetch_var r h) ∅ vars.

Definition FetchEnv (r : resolver) (h : heap) (absPath : string) : res FetchErr (gmap string string) :=
  fetchVars r h (Lookup ds_match (index r) (absOr cwd absPath absPath)).

Definition FetchEnvCwd (r : resolver) (h : heap) (pwd command : string) : res FetchErr (gmap string string) :=
  fetchVars r h (LookupCwd ds_match home cwd (index r) pwd command).

Definition ResolverCwdCommands (r : resolver) (pwd : string) : list string :=
  CwdCommands ds_match home cwd (index r) pwd.
End Paths.

(** resolver.Wipe: the sources that can be wiped, then the parameters. *)
Definition Wipe (r : resolver) (h : heap) : resolver * heap :=
  (mkResolver (index r) (rsources r) None,
   fold_left (fun h ns => match ns.2 with SrcLocal c => local_Wipe h c | _ => h end)
             (map_range 44 (rsources r)) h).
End Sources.

(** ** What fetchVars computes *)

Section FetchSpec.
Context `{Remotes, MapRange}.

(** What one var adds to the environment. *)
Inductive contributes (r : resolver) (h : heap) (v : VarRef) : gmap string string -> Prop :=
| con_literal : Value v <> "" -> contributes r h v {[Name v := Value v]}
| con_all s raw : Value v = "" -> Name v = "" -> rsources r !! Source v = Some s ->
    Fetch h s (mkRef (Ref v) (Key v) (Extra v)) = Ok raw -> contributes r h v raw
| con_key s raw x : Value v = "" -> Name v <> "" -> rsources r !! Source v = Some s ->
    Fetch h s (mkRef (Ref v) (Key v) (Extra v)) = Ok raw -> Key v <> "" -> raw !! Key v = Some x ->
    contributes r h v {[Name v := x]}
| con_single s k x : Value v = "" -> Name v <> "" -> rsources r !! Source v = Some s ->
    Fetch h s (mkRef (Ref v) (Key v) (Extra v)) = Ok {[k := x]} -> Key v = "" -> contributes r h v {[Name v := x]}.

(** The last contribution that defines a name gives its value. *)
Definition last_defines (cs : list (gmap string string)) (k x : string) : Prop :=
  exists i m, cs !! i = Some m /\ m !! k = Some x
  /\ forall j m', (i < j)%nat -> cs !! j = Some m' -> m' !! k = None.

Lemma size_one (m : gmap string string) : size m = 1%nat <-> exists k x, m = {[k := x]}.
Proof.
  split; [|intros (k & x & ->); apply map_size_singleton].
  rewrite <- length_map_to_list. destruct (map_to_list m) as [|[k x] [|? ?]] eqn:Hl; try done. intros _.
  exists k, x. rewrite <- (list_to_map_to_list m), Hl. done.
Qed.

Lemma pickValue_spec m key x :
  pickValue m key = Ok x <-> (key <> "" /\ m !! key = Some x) \/ (key = "" /\ exists k, m = {[k := x]}).
Proof.
  unfold pickValue. str_cases key; simpl.
  - destruct (Nat.eqb_spec (size m) 1) as [Hs|Hs]; simpl.
    + destruct (proj1 (size_one m) Hs) as (k & y & ->).
      pose proof (map_range_perm 42 ({[k := y]} : gmap string string)) as Hp. rewrite map_to_list_singleton in Hp.
      apply Permutation_singleton_r in Hp. rewrite Hp. split.
      * intros [= <-]. right. split; [done|]. by exists k.
      * intros [[? _]|[_ [k' He]]]; [done|]. f_equal.
        apply (f_equal (fun m => m !! k)) in He. rewrite lookup_singleton_eq in He.
        symmetry in He. apply lookup_singleton_Some in He as [-> ->]. done.
    + split; [done|]. intros [[? _]|[_ [k ->]]]; [done|]. by rewrite map_size_singleton in Hs.
  - destruct (m !! key) as [y|]; split.
    + intros [= <-]. by left.
    + intros [[_ [= <-]]|[? _]]; done.
    + done.
    + intros [[_ ?]|[? _]]; done.
Qed.

Lemma fetch_var_ok r h out v env :
  fetch_var r h out v = Ok env <-> exists m, contributes r h v m /\ env = m ∪ out.
Proof.
  unfold fetch_var. str_cases (Value v); cbn [negb].
  2: { split.
       - intros [= <-]. exists {[Name v := Value v]}. split; [by constructor|]. by rewrite <- insert_union_singleton_l.
       - intros (m & Hm & ->). inversion Hm; subst; try done. by rewrite insert_union_singleton_l. }
  destruct (rsources r !! Source v) as [s|] eqn:Hs.
  2: { split; [done|]. intros (m & Hm & _). inversion Hm; congruence. }
  destruct (Fetch h s (mkRef (Ref v) (Key v) (Extra v))) as [raw|e] eqn:Hf; cbn [wrap_err mbind res_bind].
  2: { split; [done|]. intros (m & Hm & _). inversion Hm; congruence. }
  str_cases (Name v).
  - rewrite insert_all. split.
    + intros [= <-]. exists raw. split; [by eapply con_all|done].
    + intros (m & Hm & ->). inversion Hm; try congruence.
  - destruct (pickValue raw (Key v)) as [x|e] eqn:Hp; cbn [wrap_err mbind res_bind].
    + apply pickValue_spec in Hp as Hp'. split.
      * intros [= <-]. exists {[Name v := x]}. split; [|by rewrite <- insert_union_singleton_l].
        destruct Hp' as [[? ?]|[? [k ->]]]; [by eapply con_key|by eapply con_single].
      * intros (m & Hm & ->). rewrite insert_union_singleton_l. do 2 f_equal.
        inversion Hm as [?|??? Hn|s' raw' y ?? Hs' Hf' Hk Hy|s' k y ?? Hs' Hf' Hk]; try done; subst;
          assert (s' = s) as -> by congruence; rewrite Hf in Hf'; injection Hf' as ->.
        -- f_equal. destruct Hp' as [[_ ?]|[? _]]; congruence.
        -- destruct Hp' as [[? _]|[_ [k' He]]]; [done|]. f_equal.
           apply (f_equal (fun m => m !! k)) in He. rewrite lookup_singleton_eq in He.
           symmetry in He. by apply lookup_singleton_Some in He as [_ ->].
    + split; [done|]. intros (m & Hm & _). exfalso.
      assert (Hno : forall x, pickValue raw (Key v) <> Ok x) by (rewrite Hp; done).
      inversion Hm as [?|??? Hn|s' raw' y ?? Hs' Hf' Hk Hy|s' k y ?? Hs' Hf' Hk]; try done; subst;
        assert (s' = s) as -> by congruence; rewrite Hf in Hf'; injection Hf' as ->; apply (Hno y), pickValue_spec;
        [by left|right; by eauto].
Qed.

(** Folding contributions: later ones take precedence. *)
Lemma union_fold_lookup cs (out : gmap string string) k x :
  fold_left (fun acc m => m ∪ acc) cs out !! k = Some x <->
  last_defines cs k x \/ (out !! k = Some x /\ Forall (fun m : gmap string string => m !! k = None) cs).
Proof.
  revert out. induction cs as [|m cs IH]; intros out; simpl.
  - split; [intros ?; by right|]. intros [(i & m & Hi & _)|[? _]]; [by rewrite lookup_nil in Hi|done].
  - rewrite IH, lookup_union_Some_raw, Forall_cons. split.
    + intros [(i & m' & Hi & Hm & Hlast)|[[Hm|[Hn Ho]] HF]].
      * left. exists (S i), m'. split; [done|]. split; [done|]. intros [|j] m2 Hj Hm2; [lia|].
        apply (Hlast j); [lia|done].
      * left. exists O, m. split; [done|]. split; [done|]. intros [|j] m2 Hj Hm2; [lia|].
        rewrite Forall_lookup in HF. by eapply HF.
      * by right.
    + intros [(i & m' & Hi & Hm & Hlast)|[Ho [Hn HF]]].
      * destruct i as [|i]; simpl in Hi.
        -- injection Hi as ->. right. split; [by left|]. apply Forall_lookup. intros j m2 Hj.
           apply (Hlast (S j)); [lia|done].
        -- left. exists i, m'. split; [done|]. split; [done|]. intros j m2 Hj Hm2. apply (Hlast (S j)); [lia|done].
      * right. split; [by right|done].
Qed.

(** C9.  fetchVars is "last one wins", in every order Go may range over a payload.
    It succeeds exactly when every var contributes, and then a name has the value
    of the last var that defines it and no other names are set; a var contributes
    its literal, its whole payload when it has no name, the picked key, or the only
    entry of a one-entry payload. *)
Theorem fetchVars_last_wins r h vars env :
  fetchVars r h vars = Ok env <->
  exists cs, Forall2 (contributes r h) vars cs /\ forall k x, env !! k = Some x <-> last_defines cs k x.
Proof.
  assert (Hfold : forall out, res_fold (fetch_var r h) out vars = Ok env <->
    exists cs, Forall2 (contributes r h) vars cs /\ env = fold_left (fun acc m => m ∪ acc) cs out).
  { induction vars as [|v vars IH]; intros out; simpl.
    - split; [intros [= ->]; by exists []|]. intros (cs & HF & ->). by inversion HF.
    - split.
      + destruct (fetch_var r h out v) as [out1|e] eqn:Hv; [|done]. apply fetch_var_ok in Hv as (m & Hm & ->).
        intros (cs & HF & ->)%IH. exists (m :: cs). split; [by constructor|done].
      + intros (cs & HF & ->). inversion HF as [|? m ? cs' Hm HF']; subst.
        rewrite (proj2 (fetch_var_ok r h out v (m ∪ out))) by (by exists m). apply IH. by exists cs'. }
  unfold fetchVars. rewrite Hfold. split; intros (cs & HF & He); exists cs; (split; [done|]).
  - intros k x. rewrite He, union_fold_lookup, lookup_empty. naive_solver.
  - apply map_eq. intros k. apply option_eq. intros x.
    rewrite He, union_fold_lookup, lookup_empty. naive_solver.
Qed.
End FetchSpec.

(** ** Building and wiping *)

Section Lifecycle.
Context `{Remotes, MapRange}.
Context (ds_match : string -> string -> option bool) (home cwd : option string).

(** The sources of a resolver that was just built: every local one is a cell of
    its own that points to the store at [p]. *)
Record built_sources (p : nat) (h0 h : heap) (srcs : gmap string source) : Prop := {
  bs_local : forall name c, srcs !! name = Some (SrcLocal c) -> cells h !! c = Some (Some p) /\ cells h0 !! c = None;
  bs_inj : forall n1 n2 c, srcs !! n1 = Some (SrcLocal c) -> srcs !! n2 = Some (SrcLocal c) -> n1 = n2;
  bs_old : forall c, is_Some (cells h0 !! c) -> cells h !! c = cells h0 !! c;
  bs_only : forall c q, cells h !! c = Some (Some q) ->
    cells h0 !! c = Some (Some q) \/ exists name, srcs !! name = Some (SrcLocal c);
  bs_stores : stores h = stores h0
}.

Lemma Build_spec builders h type cfg s h' :
  Build builders h type cfg = Ok (s, h') ->
  (exists c, s = SrcLocal c /\ cells h !! c = None /\ h' = mkHeap (stores h) (<[c := None]> (cells h)))
  \/ ((forall c, s <> SrcLocal c) /\ h' = h).
Proof.
  unfold Build. destruct (builders !! type) as [[| |t]|]; [| | |done].
  - intros [= <- <-]. left. eexists. split; [done|]. split; [|done]. apply not_elem_of_dom, is_fresh.
  - unfold noop_new. intros Hs. right. destruct (res_fold _ _ _); simpl in Hs; [|done]. by injection Hs as <- <-.
  - intros Hs. right. destruct (wrap_err _ _); simpl in Hs; [|done]. by injection Hs as <- <-.
Qed.

Lemma build_source_spec builders p h0 srcs h nsc srcs' h' :
  built_sources p h0 h srcs -> srcs !! nsc.1 = None ->
  build_source builders p (srcs, h) nsc = Ok (srcs', h') ->
  built_sources p h0 h' srcs' /\ exists s, srcs' = <[nsc.1 := s]> srcs.
Proof.
  intros [Hl Hi Ho Honly Hst] Hnew. unfold build_source. cbn [fst snd].
  destruct (Build builders h (Type_ nsc.2) (Params nsc.2)) as [[s h1]|e] eqn:Hb; [|done].
  cbn [wrap_err mbind res_bind]. intros [= <- <-]. split; [|by exists s].
  apply Build_spec in Hb as [(c & -> & Hc & ->)|[Hs ->]].
  - unfold SetBags. simpl. rewrite insert_insert_eq. split; simpl.
    + intros name c' [[<- [= <-]]|[Hne Hn]]%lookup_insert_Some.
      * rewrite lookup_insert_eq. split; [done|]. apply eq_None_not_Some. intros Hs.
        apply Ho in Hs as Hs'. rewrite Hc in Hs'. rewrite <- Hs' in Hs. by destruct Hs.
      * destruct (Hl _ _ Hn) as [Hcc ?]. split; [|done]. rewrite lookup_insert_ne; [done|]. congruence.
    + intros n1 n2 c' [[<- [= <-]]|[Hne1 H1]]%lookup_insert_Some [[<- He]|[Hne2 H2]]%lookup_insert_Some; try done.
      * destruct (Hl _ _ H2) as [Hcc _]. congruence.
      * injection He as <-. destruct (Hl _ _ H1) as [Hcc _]. congruence.
      * by eapply Hi.
    + intros c' Hs. rewrite lookup_insert_ne; [by apply Ho|]. intros ->. apply Ho in Hs as Hs'.
      rewrite Hc in Hs'. rewrite <- Hs' in Hs. by destruct Hs.
    + intros c' q [[<- _]|[_ Hq]]%lookup_insert_Some; [right; exists nsc.1; apply lookup_insert_eq|].
      destruct (Honly _ _ Hq) as [?|[name Hn]]; [by left|right]. exists name. rewrite lookup_insert_ne; [done|congruence].
    + done.
  - replace (match s with SrcLocal c => SetBags h c p | _ => h end) with h by (by destruct s; [destruct (Hs cell)|..]).
    split; [| |done| |done].
    3: { intros c q Hq. destruct (Honly _ _ Hq) as [?|[name Hn]]; [by left|right]. exists name.
         rewrite lookup_insert_ne; [done|congruence]. }
    + intros name c [[<- ->]|[_ Hn]]%lookup_insert_Some; [by destruct (Hs c)|by eapply Hl].
    + intros n1 n2 c [[<- ->]|[_ H1]]%lookup_insert_Some; [by destruct (Hs c)|].
      intros [[<- ->]|[_ H2]]%lookup_insert_Some; [by destruct (Hs c)|by eapply Hi].
Qed.

Lemma BuildResolver_spec builders h cfg r h' :
  BuildResolver home cwd builders h cfg = Ok (r, h') ->
  exists p, stores h !! p = None /\ stores h' = <[p := Secrets cfg]> (stores h)
  /\ built_sources p (mkHeap (<[p := Secrets cfg]> (stores h)) (cells h)) h' (rsources r).
Proof.
  unfold BuildResolver. set (p := fresh (dom (stores h))).
  set (h0 := mkHeap (<[p := Secrets cfg]> (stores h)) (cells h)).
  destruct (res_fold _ _ _) as [[srcs h1]|e] eqn:Hf; [|done]. cbn [mbind res_bind]. intros [= <- <-].
  exists p. split; [apply not_elem_of_dom, is_fresh|].
  assert (Hg : forall l srcs0 h2, built_sources p h0 h2 srcs0 -> NoDup l.*1 ->
    (forall nsc, nsc ∈ l -> srcs0 !! nsc.1 = None) ->
    res_fold (build_source builders p) (srcs0, h2) l = Ok (srcs, h1) -> built_sources p h0 h1 srcs).
  { induction l as [|nsc l IH]; intros srcs0 h2 Hb Hnd Hn; simpl; [by intros [= <- <-]|].
    apply NoDup_cons in Hnd as [Hk Hnd].
    destruct (build_source _ _ _ _) as [[srcs1 h3]|e] eqn:Hs; [|done].
    apply build_source_spec with (h0 := h0) in Hs as [Hb' [s ->]]; [|done|apply Hn; set_solver].
    apply IH; [done|done|]. intros x Hx. rewrite lookup_insert_ne; [apply Hn; set_solver|].
    intros He. apply Hk, list_elem_of_fmap. by exists x. }
  assert (Hb : built_sources p h0 h1 srcs).
  { eapply Hg; [|apply NoDup_map_range_fst| |exact Hf]; [|intros; apply lookup_empty].
    split; try done; [..|by left]; intros *; rewrite lookup_empty; done. }
  split; [|exact Hb]. apply (bs_stores _ _ _ _ Hb).
Qed.

(** The heap after some of the local sources have been wiped, in some order. *)
Definition wiped (h : heap) (cs : list nat) : heap := fold_left local_Wipe cs h.

Lemma wiped_cell h cs c : cells (wiped h cs) !! c =
  if decide (c ∈ cs) then (fun _ => None) <$> cells h !! c else cells h !! c.
Proof.
  unfold wiped. revert h. induction cs as [|d cs IH]; intros h; simpl; [done|]. rewrite IH.
  assert (Hd : cells (local_Wipe h d) !! c = if decide (c = d) then (fun _ => None) <$> cells h !! c else cells h !! c).
  { unfold local_Wipe. destruct (cells h !! d) as [[p|]|] eqn:Hc; simpl.
    - destruct (decide (c = d)) as [->|]; [by rewrite Hc, lookup_insert_eq|by rewrite lookup_insert_ne].
    - destruct (decide (c = d)) as [->|]; [by rewrite Hc|done].
    - destruct (decide (c = d)) as [->|]; [by rewrite Hc|done]. }
  rewrite Hd. destruct (decide (c = d)) as [->|Hne].
  - rewrite (decide_True (P := d ∈ d :: cs)) by set_solver.
    destruct (decide (d ∈ cs)); [|done]. by destruct (cells h !! d).
  - destruct (decide (c ∈ cs)) as [Hin|Hin]; [rewrite decide_True by set_solver; done|].
    rewrite decide_False by set_solver. done.
Qed.

Lemma wiped_store_other h cs q : (forall c, c ∈ cs -> cells h !! c <> Some (Some q)) ->
  stores (wiped h cs) !! q = stores h !! q.
Proof.
  unfold wiped. revert h. induction cs as [|d cs IH]; intros h Hc; simpl; [done|].
  assert (Hd : cells h !! d <> Some (Some q)) by (apply Hc; set_solver). rewrite IH.
  - unfold local_Wipe. destruct (cells h !! d) as [[p|]|]; simpl; [|done..].
    apply lookup_alter_ne. congruence.
  - intros c Hin He. pose proof (wiped_cell h [d] c) as Hw. unfold wiped in Hw. simpl in Hw. rewrite Hw in He.
    destruct (decide (c ∈ [d])); [destruct (cells h !! c); done|]. by apply (Hc c); [set_solver|].
Qed.

Lemma blank_blank b : blank (blank b) = blank b.
Proof.
  unfold blank. rewrite <- map_fmap_compose. apply map_fmap_ext. intros k bag _. simpl.
  by rewrite <- map_fmap_compose.
Qed.

Lemma wiped_store h cs p b : stores h !! p = Some b ->
  stores (wiped h cs) !! p = Some b \/ stores (wiped h cs) !! p = Some (blank b).
Proof.
  unfold wiped. revert h b. induction cs as [|d cs IH]; intros h b Hb; simpl; [by left|].
  assert (Hd : stores (local_Wipe h d) !! p = Some b \/ stores (local_Wipe h d) !! p = Some (blank b)).
  { unfold local_Wipe. destruct (cells h !! d) as [[q|]|]; simpl; [|by left..].
    destruct (decide (q = p)) as [->|]; [right; by rewrite lookup_alter_eq, Hb|left; by rewrite lookup_alter_ne]. }
  destruct Hd as [Hd|Hd]; [by apply IH|]. destruct (IH _ _ Hd) as [->| ->]; [by right|]. rewrite blank_blank. by right.
Qed.

Lemma wiped_blank h cs c p b :
  c ∈ cs -> cells h !! c = Some (Some p) -> stores h !! p = Some b ->
  stores (wiped h cs) !! p = Some (blank b).
Proof.
  revert h b. induction cs as [|d cs IH]; intros h b Hin Hc Hb; [set_solver|].
  change (wiped h (d :: cs)) with (wiped (local_Wipe h d) cs).
  destruct (decide (d = c)) as [->|Hne].
  - assert (Hd : stores (local_Wipe h c) !! p = Some (blank b)).
    { unfold local_Wipe. rewrite Hc. simpl. by rewrite lookup_alter_eq, Hb. }
    destruct (wiped_store _ cs _ _ Hd) as [->| ->]; by rewrite ?blank_blank.
  - pose proof (wiped_cell h [d] c) as Hw. change (wiped h [d]) with (local_Wipe h d) in Hw.
    rewrite decide_False in Hw by set_solver.
    destruct (wiped_store h [d] p b Hb) as [Hd|Hd]; change (wiped h [d]) with (local_Wipe h d) in Hd;
      rewrite (IH _ _ ltac:(set_solver) ltac:(by rewrite Hw) Hd); by rewrite ?blank_blank.
Qed.

(** The cells Wipe visits, in order. *)
Definition local_cells (r : resolver) : list nat :=
  omap (fun ns => match ns.2 with SrcLocal c => Some c | _ => None end) (map_range 44 (rsources r)).

Lemma Wipe_wiped r h : (Wipe r h).2 = wiped h (local_cells r).
Proof.
  unfold Wipe, wiped, local_cells. cbn [snd]. revert h. generalize (map_range 44 (rsources r)) as l.
  induction l as [|[n s] l IH]; intros h; simpl; [done|]. destruct s; simpl; apply IH.
Qed.

Lemma elem_of_local_cells r c : c ∈ local_cells r <-> exists name, rsources r !! name = Some (SrcLocal c).
Proof.
  unfold local_cells. rewrite list_elem_of_omap. split.
  - intros ([n s] & Hin & Hs). apply elem_of_map_range in Hin. destruct s; simplify_eq/=. by exists n.
  - intros [n Hn]. exists (n, SrcLocal c). split; [by apply elem_of_map_range|done].
Qed.

(**  A wiped resolver keeps no secret and damages no other.  Wiping a resolver
    that was built from a configuration leaves every one of its local sources
    without bags, so that each of their fetches reports the cleared store, and every
    value of the configuration's bag store overwritten if it had a local source; the
    stores and the sources of all other resolvers, older or newer, are untouched. *)
Theorem Wipe_erases builders h0 cfg r h1 h :
  BuildResolver home cwd builders h0 cfg = Ok (r, h1) ->
  (forall c, is_Some (cells h1 !! c) -> cells h !! c = cells h1 !! c) ->
  (forall p, is_Some (stores h1 !! p) -> stores h !! p = stores h1 !! p) ->
  let h' := (Wipe r h).2 in
  (forall name c ref, rsources r !! name = Some (SrcLocal c) -> local_Fetch h' c ref = Err BagsCleared)
  /\ (exists p, stores h1 !! p = Some (Secrets cfg) /\ stores h0 !! p = None
      /\ ((exists name c, rsources r !! name = Some (SrcLocal c)) -> stores h' !! p = Some (blank (Secrets cfg)))
      /\ (forall q, q <> p -> stores h' !! q = stores h !! q))
  /\ (forall c, (forall name, rsources r !! name <> Some (SrcLocal c)) -> cells h' !! c = cells h !! c).
Proof.
  intros Hb Hcells Hstores. cbv zeta. rewrite Wipe_wiped.
  destruct (BuildResolver_spec _ _ _ _ _ Hb) as (p & Hp0 & Hst & [Hl _ _ _ _]).
  assert (Hp1 : stores h1 !! p = Some (Secrets cfg)) by (rewrite Hst; apply lookup_insert_eq).
  assert (Hcell : forall name c, rsources r !! name = Some (SrcLocal c) -> cells h !! c = Some (Some p)).
  { intros name c Hn. destruct (Hl _ _ Hn) as [Hc _]. rewrite Hcells; [done|by eexists]. }
  split; [|split].
  - intros name c ref Hn. unfold local_Fetch. rewrite wiped_cell, decide_True by (apply elem_of_local_cells; by exists name).
    by rewrite (Hcell _ _ Hn).
  - exists p. split; [done|]. split; [done|]. split.
    + intros (name & c & Hn). eapply wiped_blank; [apply elem_of_local_cells; by exists name|by eapply Hcell|].
      rewrite Hstores; [done|by eexists].
    + intros q Hq. apply wiped_store_other. intros c (name & Hn)%elem_of_local_cells.
      rewrite (Hcell _ _ Hn). congruence.
  - intros c Hc. rewrite wiped_cell, decide_False; [done|]. intros (name & Hn)%elem_of_local_cells. by destruct (Hc name).
Qed.

(** A FetchEnv that runs while its resolver is being wiped: before its i-th var,
    [ns !! i] of the local sources have been wiped. *)
Definition fetchVars_during (r : resolver) (h : heap) (ns : list nat) (vars : list VarRef)
    : res FetchErr (gmap string string) :=
  res_fold (fun out nv => fetch_var r (wiped h (take nv.1 (local_cells r))) out nv.2) ∅ (zip ns vars).

Lemma stale_fetch builders h0 cfg r h n name s ref :
  BuildResolver home cwd builders h0 cfg = Ok (r, h) ->
  (forall n1 n2 c1 c2, rsources r !! n1 = Some (SrcLocal c1) -> rsources r !! n2 = Some (SrcLocal c2) -> c1 = c2) ->
  rsources r !! name = Some s ->
  Fetch (wiped h (take n (local_cells r))) s ref = Fetch h s ref
  \/ Fetch (wiped h (take n (local_cells r))) s ref = Err BagsCleared.
Proof.
  intros Hb Hone Hs. destruct s as [c|v|t ps]; [|by left..].
  destruct (BuildResolver_spec _ _ _ _ _ Hb) as (p & _ & _ & [Hl _ _ _ _]). destruct (Hl _ _ Hs) as [Hc _].
  simpl. unfold local_Fetch. rewrite wiped_cell, Hc. destruct (decide (c ∈ _)) as [Hin|Hin]; [by right|]. left.
  rewrite wiped_store_other; [done|]. intros d Hd. exfalso. apply Hin.
  assert (Hd' : d ∈ local_cells r).
  { apply list_elem_of_lookup in Hd as (i & Hi). apply lookup_take_Some in Hi as [Hi _]. by eapply list_elem_of_lookup_2. }
  apply elem_of_local_cells in Hd' as (name' & Hn'). by rewrite (Hone _ _ _ _ Hs Hn').
Qed.

(**  A fetch that outlives a reload is all or nothing, as long as the
    configuration has one local source.  However the wipe of the outgoing resolver
    interleaves with the vars of a request still running on it, the request either
    fails or returns the environment it would have returned before the reload, never
    one with an overwritten secret. *)
Theorem stale_fetch_safe builders h0 cfg r h ns vars env :
  BuildResolver home cwd builders h0 cfg = Ok (r, h) ->
  (forall n1 n2 c1 c2, rsources r !! n1 = Some (SrcLocal c1) -> rsources r !! n2 = Some (SrcLocal c2) -> c1 = c2) ->
  length ns = length vars ->
  fetchVars_during r h ns vars = Ok env -> fetchVars r h vars = Ok env.
Proof.
  intros Hb Hone. unfold fetchVars_during, fetchVars. generalize (∅ : gmap string string).
  revert ns. induction vars as [|v vars IH]; intros [|n ns] out Hlen; simpl; try done.
  destruct (fetch_var r (wiped h (take n (local_cells r))) out v) as [out'|e] eqn:Hv; [|done].
  assert (fetch_var r h out v = Ok out') as ->; [|apply IH; simpl in Hlen; lia].
  rewrite <- Hv. unfold fetch_var in *. destruct (negb _); [done|].
  destruct (rsources r !! Source v) as [s|] eqn:Hs; [|done].
  destruct (stale_fetch _ _ _ _ _ n _ s (mkRef (Ref v) (Key v) (Extra v)) Hb Hone Hs) as [He|He]; rewrite He in *; done.
Qed.
End Lifecycle.

(** ** A concrete resolver *)

#[local] Instance no_remotes : Remotes := {|
  remote_types := ["aws"];
  remote_build := fun _ ps => Ok ps;
  remote_fetch := fun _ _ ref => Ok {[ID ref := "remote"]}
|}.

Definition ex_heap : heap := mkHeap {[3%nat := {["old" := {["K" := "w"]}]}]} {[7%nat := Some 3%nat]}.
Definition ex_builders : gmap string builder := default ∅ registered.
Definition ex_meta : Meta := mkMeta "argon2id" 3 65536 4 "salt" "verify" "" "".
Definition ex_secrets : bags := {["db" := {["PASS" := "hunter2"]}]}.
Definition ex_config (names : list string) : Config :=
  mkConfig 1 ex_meta (mkAgentConfig "" "" None None)
    (list_to_map ((fun n => (n, mkSource "local" ∅)) <$> names)) [] ex_secrets None.
Definition no_match (_ _ : string) : option bool := Some false.
Definition ex_ref : SecretRef := mkRef "db" "PASS" ∅.

#[local] Existing Instance map_range_default.

Definition ex_built (names : list string) : option (resolver * heap) :=
  match BuildResolver (Some "/h") (Some "/") ex_builders ex_heap (ex_config names) with Ok x => Some x | Err _ => None end.

Lemma ex_built_ok names x : ex_built names = Some x ->
  BuildResolver (Some "/h") (Some "/") ex_builders ex_heap (ex_config names) = Ok x.
Proof. unfold ex_built. destruct (BuildResolver _ _ _ _ _); congruence. Qed.

Lemma ex_built_loc : exists r h, ex_built ["loc"] = Some (r, h)
  /\ map_to_list (rsources r) = [("loc", SrcLocal 8)]
  /\ local_Fetch h 8 ex_ref = Ok {["PASS" := "hunter2"]}
  /\ stores h !! 3%nat = Some {["old" := {["K" := "w"]}]} /\ stores h !! 4%nat = Some ex_secrets.
Proof.
  assert (Hc : (fun x => (map_to_list (rsources x.1), local_Fetch x.2 8 ex_ref, stores x.2 !! 3%nat, stores x.2 !! 4%nat))
    <$> ex_built ["loc"] = Some ([("loc", SrcLocal 8)], Ok {["PASS" := "hunter2"]},
      Some {["old" := {["K" := "w"]}]}, Some ex_secrets)) by (vm_compute; reflexivity).
  destruct (ex_built ["loc"]) as [[r h]|]; [|done]. exists r, h.
  apply (inj Some) in Hc. cbn [fst snd] in Hc.
  apply pair_equal_spec in Hc as [Hc H4]. apply pair_equal_spec in Hc as [Hc H3]. apply pair_equal_spec in Hc as [H1 H2].
  exact (conj eq_refl (conj H1 (conj H2 (conj H3 H4)))).
Qed.

Lemma Wipe_erases_witness : exists r h,
  ex_built ["loc"] = Some (r, h)
  /\ local_Fetch h 8 ex_ref = Ok {["PASS" := "hunter2"]}
  /\ (exists p, stores (Wipe r h).2 !! p = Some (blank ex_secrets))
  /\ forall ref, local_Fetch (Wipe r h).2 8 ref = Err BagsCleared.
Proof.
  destruct ex_built_loc as (r & h & Hb & Hs & Hf & _ & _).
  assert (Hl : rsources r !! "loc" = Some (SrcLocal 8)) by (apply elem_of_map_to_list; rewrite Hs; by apply list_elem_of_singleton).
  destruct (Wipe_erases (Some "/h") (Some "/") ex_builders ex_heap (ex_config ["loc"]) r h h (ex_built_ok _ _ Hb)
    ltac:(done) ltac:(done)) as (H1 & (p & _ & _ & H2 & _) & _).
  exists r, h. split; [done|]. split; [done|]. split; [exists p; apply H2; by exists "loc", 8%nat|].
  intros ref. by apply (H1 "loc").
Defined.

Definition ex_var (name source ref key : string) : VarRef := mkVar name source ref key ∅ "".

Lemma stale_fetch_safe_witness : exists r h,
  ex_built ["loc"] = Some (r, h)
  /\ fetchVars r h [mkVar "A" "" "" "" ∅ "1"; ex_var "P" "loc" "db" "PASS"] = Ok {["A" := "1"; "P" := "hunter2"]}.
Proof.
  destruct ex_built_loc as (r & h & Hb & Hs & Hf & _ & _).
  exists r, h. split; [done|].
  assert (Hl : rsources r !! "loc" = Some (SrcLocal 8)) by (apply elem_of_map_to_list; rewrite Hs; by apply list_elem_of_singleton).
  apply (stale_fetch_safe (Some "/h") (Some "/") ex_builders ex_heap (ex_config ["loc"]) r h [0%nat; 0%nat]).
  - exact (ex_built_ok _ _ Hb).
  - intros n1 n2 c1 c2 H1%elem_of_map_to_list H2%elem_of_map_to_list. rewrite Hs in H1, H2.
    apply list_elem_of_singleton in H1, H2. congruence.
  - reflexivity.
  - unfold fetchVars_during, wiped. simpl. unfold fetch_var. simpl. rewrite Hl. simpl.
    change (mkRef "db" "PASS" ∅) with ex_ref. rewrite Hf. vm_compute. reflexivity.
Defined.

(** With two local sources the hypothesis of the last theorem fails and so does
    its conclusion: once the first has been wiped, a fetch through the second still
    finds the shared store and returns an empty password. *)
Lemma stale_fetch_two_sources :
  (x ← ex_built ["loc"; "vault"]; Some (local_cells x.1)) = Some [8; 9]%nat
  /\ (x ← ex_built ["loc"; "vault"]; Some (local_Fetch x.2 9 ex_ref)) = Some (Ok {["PASS" := "hunter2"]})
  /\ (x ← ex_built ["loc"; "vault"]; Some (local_Fetch (wiped x.2 [8%nat]) 9 ex_ref)) = Some (Ok {["PASS" := ""]}).
Proof. vm_compute. done. Qed.
End Resolver.
