(* ===== verification/Agent.v ===== *)
(** * The agent (src/internal/agent/server.go, client.go, peer_linux.go; loadAndBuild of src/internal/cli/unlock.go)

    Requests are handled one at a time here, as functions of the agent's state; the
    accept loop with its cap on concurrent handlers is a step relation of its own.
    A connection is what the handler observes of it: its credentials, its clock and
    the bytes the peer sent. *)

From S2P Require Import Prelude GoString GoTime ConfigModel Mapping Crypto NameId Seal Protocol Resolver.
Import Config Mapping Crypto NameId Seal GoTime Protocol Resolver.

Module Agent.

(** What SO_PEERCRED and its preliminaries return. *)
Record peer := mkPeer {
  is_unix : bool;
  syscall_err : option string;
  control_err : option string;
  ucred : res string Z
}.

Inductive PeerErr := PUnexpectedType | PSys (e : string) | PUid (got want : Z).

Definition checkPeerUid (uid : Z) (p : peer) : option PeerErr :=
  if negb (is_unix p) then Some PUnexpectedType
  else match syscall_err p with
  | Some e => Some (PSys e)
  | None => match control_err p with
    | Some e => Some (PSys e)
    | None => match ucred p with
      | Err e => Some (PSys e)
      | Ok u => if negb (u =? uid)%Z then Some (PUid u uid) else None
      end
    end
  end.

(** time.Duration.String for whole seconds. *)
Definition duration_string (d : Z) : string :=
  let s := (Z.abs d / Second)%Z in
  (if (d <? 0)%Z then "-" else "") +:+
  (if (3600 <=? s)%Z then format_int (s / 3600) +:+ "h" else "") +:+
  (if (60 <=? s)%Z then format_int (s / 60 mod 60) +:+ "m" else "") +:+
  format_int (s mod 60) +:+ "s".

(** Duration.Truncate rounds towards zero. *)
Definition truncate_to (m d : Z) : Z := (d - Z.rem d m)%Z.

Record agent := mkAgent {
  startedAt : Z;              (* seconds *)
  hits : Z;
  lastSeen : Z;               (* nanoseconds *)
  aresolver : option resolver;
  reloads : bool;             (* a reload callback is installed *)
  cancelled : bool;
  aheap : heap
}.

Inductive LoadErr := LLoad (e : string) | LDecrypt (e : EErr) | LInvalid (e : ValidateErr) | LBuild (e : BuildErr).

(** What a handler observes: the result of SetDeadline, the peer, its bytes, the
    clock when the request was read and when it is answered, and what config.Load
    would return now. *)
Record conn := mkConn {
  deadline_err : option string;
  cpeer : peer;
  input : string;
  seen : Z;
  answered : Z;
  disk : res string Config
}.

Section Agent.
Context `{Remotes, MapRange, AEAD, NameMapCodec, Codec Request, Codec Response}.
Context (ds_match : string -> string -> option bool) (home cwd : option string).
Context (uid pid : Z) (akey : string) (builders : gmap string builder).
(** The texts of errors, a timestamp in the local zone and the %q of a string. *)
Context (fetch_text : FetchErr -> string) (load_text : LoadErr -> string) (frame_text : FrameErr -> string)
  (local_rfc3339 : Z -> string) (quoted : string -> string).

Definition load_config (load : res string Config) : res LoadErr Config :=
  c ← wrap_err LLoad load;
  c ← wrap_err LDecrypt (DecryptInPlace c akey);
  match Validate c with Some e => Err (LInvalid e) | None => Ok c end.

Definition loadAndBuild (load : res string Config) (h : heap) : res LoadErr (resolver * heap) :=
  c ← load_config load; wrap_err LBuild (BuildResolver home cwd builders h c).

Definition with_resolver (a : agent) (r : option resolver) (h : heap) : agent :=
  mkAgent (startedAt a) (hits a) (lastSeen a) r (reloads a) (cancelled a) h.

Definition env_response (r : res FetchErr (gmap string string)) : Response :=
  match r with Ok env => resp_env env | Err e => resp_error (fetch_text e) end.

Definition status (a : agent) (now : Z) : Response :=
  let sources := match aresolver a with Some r => source_names r | None => [] end in
  let idle := duration_string (truncate_to Second (sat64 (now - lastSeen a))) in
  mkResponse true "" false ∅ (Some (mkStatus pid (local_rfc3339 (startedAt a)) sources (hits a) idle)) [].

Definition dispatch (a : agent) (c : conn) (req : Request) : Response * agent :=
  match ReqOp req with
  | OpStatus => (status a (answered c), a)
  | OpLock => (resp_ok, a)
  | OpIsMapped =>
      let mapped := match aresolver a with
                    | None => false
                    | Some r => IsMapped ds_match cwd r (ReqPath req) end in
      (mkResponse true "" mapped ∅ None [], a)
  | OpFetchEnv =>
      (match aresolver a with
       | None => resp_env ∅
       | Some r => env_response (FetchEnv ds_match cwd r (aheap a) (ReqPath req)) end, a)
  | OpFetchEnvCwd =>
      (match aresolver a with
       | None => resp_env ∅
       | Some r => env_response (FetchEnvCwd ds_match home cwd r (aheap a) (ReqCwd req) (ReqCommand req)) end, a)
  | OpCwdCommands =>
      let commands := match aresolver a with
                      | None => []
                      | Some r => ResolverCwdCommands ds_match home cwd r (ReqCwd req) end in
      (mkResponse true "" false ∅ None commands, a)
  | OpReload =>
      if negb (reloads a) then (resp_error "reload not supported", a)
      else match loadAndBuild (disk c) (aheap a) with
      | Err e => (resp_error (load_text e), a)
      | Ok (next, h) =>
          (* swap, then wipe the outgoing resolver *)
          let h' := match aresolver a with Some old => (Wipe old h).2 | None => h end in
          (resp_ok, with_resolver a (Some next) h')
      end
  | OpOther s => (resp_error ("unknown op " +:+ quoted s), a)
  end.

(** What a handler puts on the wire; a message WriteMessage refuses sends nothing. *)
Definition send (r : Response) : string :=
  match WriteMessage r with Ok out => out | Err _ => EmptyString end.

(** [hits.Add] and [lastSeen.Store], and [a.cancel()]. *)
Definition counted (a : agent) (c : conn) : agent :=
  mkAgent (startedAt a) (wrap64 (hits a + 1)) (seen c) (aresolver a) (reloads a) (cancelled a) (aheap a).

Definition cancel (a : agent) : agent :=
  mkAgent (startedAt a) (hits a) (lastSeen a) (aresolver a) (reloads a) true (aheap a).

(** handle; the cancellation 50 ms after a lock reply is part of the result. *)
Definition handle (a : agent) (c : conn) : string * agent :=
  match deadline_err c with
  | Some e => (send (resp_error ("set deadline: " +:+ e)), a)
  | None =>
      match checkPeerUid uid (cpeer c) with
      | Some _ => (send (resp_error "unauthorized"), a)
      | None =>
          match ReadMessage (A := Request) (input c) with
          | Err e => (send (resp_error (frame_text e)), a)
          | Ok (req, _) =>
              let '(resp, a2) := dispatch (counted a c) c req in
              (send resp, match ReqOp req with OpLock => cancel a2 | _ => a2 end)
          end
      end
  end.

Definition handle_all (a : agent) (cs : list conn) : agent := fold_left (fun a c => (handle a c).2) cs a.

(** The tick of idleLoop: cancel when the last request is too long ago. *)
Definition idle_tick (idleTimeout now : Z) (a : agent) : agent :=
  if (idleTimeout <=? 0)%Z then a
  else if (idleTimeout <? sat64 (now - lastSeen a))%Z then cancel a
  else a.

(** The end of Shutdown: the resolver is wiped and dropped. *)
Definition drop_resolver (a : agent) : agent :=
  with_resolver a None (match aresolver a with Some r => (Wipe r (aheap a)).2 | None => aheap a end).

(** ** The accept loop *)

(** A running server: the agent, the handlers that hold a slot, the replies of the
    finished ones, the connections closed unserved, and what Serve returned. *)
Record server := mkServer {
  sagent : agent;
  running : gmap nat conn;
  replies : gmap nat string;
  finished : list (nat * conn);
  dropped : list nat;
  returned : option (res string unit)
}.

Definition maxConcurrentAgentConns : nat := 64.

(** The select on the semaphore of capacity [cap], [maxConcurrentAgentConns] unless a test lowers it. *)
Definition accept (cap : nat) (s : server) (id : nat) (c : conn) : server :=
  if (size (running s) <? cap)%nat then
    mkServer (sagent s) (<[id := c]> (running s)) (replies s) (finished s) (dropped s) (returned s)
  else mkServer (sagent s) (running s) (replies s) (finished s) (id :: dropped s) (returned s).

(** A handler runs and gives its slot back. *)
Definition finish (s : server) (id : nat) : server :=
  match running s !! id with
  | None => s
  | Some c => let '(out, a') := handle (sagent s) c in
      mkServer a' (delete id (running s)) (<[id := out]> (replies s)) (finished s ++ [(id, c)])
               (dropped s) (returned s)
  end.

Definition on_agent (f : agent -> agent) (s : server) : server :=
  mkServer (f (sagent s)) (running s) (replies s) (finished s) (dropped s) (returned s).

(** Accept fails: a clean return when the context is cancelled or the listener closed. *)
Definition accept_error (s : server) (net_closed : bool) (e : string) : server :=
  mkServer (sagent s) (running s) (replies s) (finished s) (dropped s)
           (Some (if cancelled (sagent s) || net_closed then Ok tt else Err e)).

Definition known (s : server) (id : nat) : Prop :=
  is_Some (running s !! id) \/ id ∈ (finished s).*1 \/ id ∈ dropped s.

Inductive serve_step (cap : nat) (idleTimeout : Z) : server -> server -> Prop :=
| step_accept s id c : returned s = None -> ~ known s id -> serve_step cap idleTimeout s (accept cap s id c)
| step_finish s id : is_Some (running s !! id) -> serve_step cap idleTimeout s (finish s id)
| step_idle s now : serve_step cap idleTimeout s (on_agent (idle_tick idleTimeout now) s)
| step_signal s : serve_step cap idleTimeout s (on_agent cancel s)
| step_return s net_closed e : returned s = None -> serve_step cap idleTimeout s (accept_error s net_closed e).

(** ** Client *)

Inductive CallErr := Connect (e : string) | SetDeadlineErr (e : string) | CallFrame (e : FrameErr) | AgentSays (e : string).

(** Client.call on a connection: the results of dialling and SetDeadline, and what
    the other end answers to the bytes it is sent. *)
Definition call (dial deadline : res string unit) (server : string -> string) (req : Request)
    : res CallErr Response :=
  _ ← wrap_err Connect dial;
  _ ← wrap_err SetDeadlineErr deadline;
  out ← wrap_err CallFrame (WriteMessage req);
  '(resp, _) ← wrap_err CallFrame (ReadMessage (A := Response) (server out));
  if negb (ROK resp) then Err (AgentSays (RError resp)) else Ok resp.

Definition req_of (op : Op) : Request := mkRequest op "" "" "".
Definition ClientStatus dial dl server : res CallErr (option Status) :=
  RStatus <$> call dial dl server (req_of OpStatus).
Definition ClientLock dial dl server : res CallErr unit := (fun _ => tt) <$> call dial dl server (req_of OpLock).
Definition ClientIsMapped dial dl server path : res CallErr bool :=
  RMapped <$> call dial dl server (mkRequest OpIsMapped path "" "").
Definition ClientFetchEnv dial dl server path : res CallErr (gmap string string) :=
  REnv <$> call dial dl server (mkRequest OpFetchEnv path "" "").
Definition ClientFetchEnvCwd dial dl server pwd command : res CallErr (gmap string string) :=
  REnv <$> call dial dl server (mkRequest OpFetchEnvCwd "" pwd command).
Definition ClientCwdCommands dial dl server pwd : res CallErr (list string) :=
  RCommands <$> call dial dl server (mkRequest OpCwdCommands "" pwd "").
Definition ClientReload dial dl server : res CallErr unit := (fun _ => tt) <$> call dial dl server (req_of OpReload).

(** ** The store the agent serves *)

(** [a] serves the configuration [cfg]: the local sources of its resolver, and no
    other local source that still has bags, point to the bags of [cfg]. *)
Record serves (a : agent) (r : resolver) (cfg : Config) : Prop := {
  sv_res : aresolver a = Some r;
  sv_cfg : rcfg r = Some (Sources cfg);
  sv_index : index r = NewIndex home cwd (Mappings cfg);
  sv_store : exists p, stores (aheap a) !! p = Some (Secrets cfg)
    /\ forall name c, rsources r !! name = Some (SrcLocal c) -> cells (aheap a) !! c = Some (Some p);
  sv_only : forall c q, cells (aheap a) !! c = Some (Some q) -> exists name, rsources r !! name = Some (SrcLocal c)
}.

Lemma loadAndBuild_inv load h r h' :
  loadAndBuild load h = Ok (r, h') ->
  exists cfg, load_config load = Ok cfg /\ BuildResolver home cwd builders h cfg = Ok (r, h').
Proof.
  unfold loadAndBuild. destruct (load_config load) as [cfg|e]; [|done]. cbn [mbind res_bind].
  destruct (BuildResolver _ _ _ _ _) as [[r1 h1]|e] eqn:Hb; [|done]. intros [= <- <-]. by exists cfg.
Qed.

Lemma BuildResolver_fields h cfg r h' : BuildResolver home cwd builders h cfg = Ok (r, h') ->
  rcfg r = Some (Sources cfg) /\ index r = NewIndex home cwd (Mappings cfg).
Proof.
  unfold BuildResolver. destruct (res_fold _ _ _) as [[srcs h1]|e]; [|done]. by intros [= <- <-].
Qed.

(** A resolver built next to the one that is served takes over when it is wiped. *)
Lemma takeover a r cfg cfg' r' h' :
  serves a r cfg -> BuildResolver home cwd builders (aheap a) cfg' = Ok (r', h') ->
  serves (with_resolver a (Some r') (Wipe r h').2) r' cfg'.
Proof.
  rewrite Wipe_wiped. intros [_ _ _ (p & Hp & Hl) Honly] Hb. destruct (BuildResolver_fields _ _ _ _ Hb) as [Hcfg Hidx].
  destruct (BuildResolver_spec _ _ _ _ _ _ _ Hb) as (p' & Hp' & Hst & [Hl' _ Hold' Honly' _]). simpl in *.
  assert (Hkeep : forall name c, rsources r' !! name = Some (SrcLocal c) -> c ∉ local_cells r).
  { intros name c Hn (old & Ho)%elem_of_local_cells. destruct (Hl' _ _ Hn) as [_ Hnone].
    rewrite (Hl _ _ Ho) in Hnone. done. }
  split; cbn [with_resolver aresolver aheap]; [done|done|done| |].
  - exists p'. split.
    + rewrite wiped_store_other; [rewrite Hst; apply lookup_insert_eq|].
      intros c (old & Ho)%elem_of_local_cells. rewrite Hold' by (rewrite (Hl _ _ Ho); by eexists).
      rewrite (Hl _ _ Ho). intros [= ->]. by rewrite Hp in Hp'.
    + intros name c Hn. rewrite wiped_cell, decide_False by (by eapply Hkeep). by destruct (Hl' _ _ Hn).
  - intros c q. rewrite wiped_cell. destruct (decide _) as [Hin|Hin]; [by destruct (cells h' !! c)|].
    intros [Hq|?]%Honly'; [|done]. destruct (Honly _ _ Hq) as [old Ho]. exfalso. apply Hin.
    apply elem_of_local_cells. by exists old.
Qed.

Lemma dispatch_spec a c req :
  (dispatch a c req).2 = a \/
  (ReqOp req = OpReload /\ exists r h, loadAndBuild (disk c) (aheap a) = Ok (r, h)
   /\ (dispatch a c req).2 = with_resolver a (Some r) (match aresolver a with Some old => (Wipe old h).2 | None => h end)).
Proof.
  unfold dispatch. destruct (ReqOp req); try by left.
  destruct (negb (reloads a)); [by left|]. destruct (loadAndBuild _ _) as [[r h]|e] eqn:Hl; [|by left].
  right. split; [done|]. by exists r, h.
Qed.

(** The parts of the state that hold secrets. *)
Definition secrets_of (a : agent) : option resolver * heap := (aresolver a, aheap a).

Lemma handle_spec a c :
  secrets_of (handle a c).2 = secrets_of a \/
  exists r h, loadAndBuild (disk c) (aheap a) = Ok (r, h)
    /\ secrets_of (handle a c).2 = (Some r, match aresolver a with Some old => (Wipe old h).2 | None => h end).
Proof.
  unfold handle. destruct (deadline_err c); [by left|]. destruct (checkPeerUid uid (cpeer c)); [by left|].
  destruct (ReadMessage (input c)) as [[req rest]|e]; [|by left].
  destruct (dispatch_spec (counted a c) c req) as [Hd|(Hop & r & h & Hl & Hd)];
    destruct (dispatch (counted a c) c req) as [resp a2]; simpl in Hd; subst a2.
  - left. by destruct (ReqOp req).
  - right. exists r, h. split; [done|]. by rewrite Hop.
Qed.

Lemma serves_secrets a a' r cfg : secrets_of a' = secrets_of a -> serves a r cfg -> serves a' r cfg.
Proof. unfold secrets_of. intros [= Hr Hh] [? ? ? ? ?]. split; rewrite ?Hr, ?Hh; done. Qed.

Lemma handle_serves a r cfg c :
  serves a r cfg ->
  exists r' cfg', serves (handle a c).2 r' cfg' /\ (r' = r /\ cfg' = cfg \/ load_config (disk c) = Ok cfg').
Proof.
  intros Hs. destruct (handle_spec a c) as [He|(r' & h & Hl & He)].
  - exists r, cfg. split; [by eapply serves_secrets|by left].
  - apply loadAndBuild_inv in Hl as (cfg' & Hc & Hb). exists r', cfg'. split; [|by right].
    rewrite (sv_res _ _ _ Hs) in He. eapply serves_secrets; [|by eapply takeover]. exact He.
Qed.

(** A freshly built resolver serves its configuration. *)
Lemma fresh_serves load h0 r h a :
  loadAndBuild load h0 = Ok (r, h) -> (forall c q, cells h0 !! c <> Some (Some q)) ->
  aresolver a = Some r -> aheap a = h ->
  exists cfg, load_config load = Ok cfg /\ serves a r cfg.
Proof.
  intros (cfg & Hc & Hb)%loadAndBuild_inv Hclean Hr Hh. exists cfg. split; [done|].
  destruct (BuildResolver_fields _ _ _ _ Hb) as [Hcfg Hidx].
  destruct (BuildResolver_spec _ _ _ _ _ _ _ Hb) as (p & _ & Hst & [Hl _ _ Honly _]).
  split; rewrite ?Hh; [done|done|done| |].
  - exists p. split; [rewrite Hst; apply lookup_insert_eq|]. intros name c Hn. by apply (Hl _ _ Hn).
  - intros c q [Hq|?]%Honly; [by apply Hclean in Hq|done].
Qed.

(** The end of Shutdown leaves no source with a bag. *)
Lemma drop_erases a r cfg : serves a r cfg -> forall c q, cells (aheap (drop_resolver a)) !! c <> Some (Some q).
Proof.
  intros [Hres _ _ _ Honly] c q. unfold drop_resolver. rewrite Hres. cbn [with_resolver aheap].
  rewrite Wipe_wiped, wiped_cell. destruct (decide _) as [Hin|Hin]; [by destruct (_ !! c)|].
  intros Hq. apply Hin, elem_of_local_cells. by eapply Honly.
Qed.

(** C4.  The agent serves one complete configuration at a time.  From a start with
    a freshly built resolver, after any sequence of connections, hostile ones,
    failed reloads and locks included, its resolver is whole: it was built from the
    configuration of the start or of one of the reloads, its local sources all have
    that configuration's secrets, and no local source of any earlier resolver has a
    bag left.  After the end of Shutdown none has. *)
Theorem agent_serves_one_store load h0 r h a cs :
  loadAndBuild load h0 = Ok (r, h) ->
  (forall c q, cells h0 !! c <> Some (Some q)) ->
  aresolver a = Some r -> aheap a = h ->
  exists r' cfg, serves (handle_all a cs) r' cfg
  /\ (load_config load = Ok cfg \/ exists c, c ∈ cs /\ load_config (disk c) = Ok cfg)
  /\ forall c q, cells (aheap (drop_resolver (handle_all a cs))) !! c <> Some (Some q).
Proof.
  intros Hb Hclean Hr Hh. destruct (fresh_serves _ _ _ _ _ Hb Hclean Hr Hh) as (cfg0 & Hc0 & Hs0).
  assert (Hg : forall cs a r cfg, serves a r cfg -> exists r' cfg', serves (handle_all a cs) r' cfg'
    /\ (cfg' = cfg \/ exists c, c ∈ cs /\ load_config (disk c) = Ok cfg')).
  { clear. induction cs as [|c cs IH]; intros a r cfg Hs; simpl; [exists r, cfg; by auto|].
    destruct (handle_serves _ _ _ c Hs) as (r1 & cfg1 & Hs1 & Ho1).
    destruct (IH _ _ _ Hs1) as (r2 & cfg2 & Hs2 & Ho2). exists r2, cfg2. split; [done|].
    destruct Ho2 as [->|(c' & ? & ?)]; [|right; exists c'; set_solver].
    destruct Ho1 as [[_ ->]|?]; [by left|]. right. exists c. set_solver. }
  destruct (Hg cs a r cfg0 Hs0) as (r' & cfg & Hs & Ho). exists r', cfg. split; [done|]. split.
  - destruct Ho as [->|?]; auto.
  - by eapply drop_erases.
Qed.

(** ** Authorisation and replies *)

Definition with_input (c : conn) (i : string) : conn :=
  mkConn (deadline_err c) (cpeer c) i (seen c) (answered c) (disk c).

(** C5.  Another user's process learns nothing and changes nothing.  The peer check
    passes exactly for a Unix socket whose credentials were read and name the agent's
    own user; without it the agent's state is unchanged and the reply is the same
    whatever the agent holds and whatever the peer sent. *)
Theorem unauthorized_learns_nothing a c :
  (checkPeerUid uid (cpeer c) = None <->
     is_unix (cpeer c) = true /\ syscall_err (cpeer c) = None /\ control_err (cpeer c) = None
     /\ ucred (cpeer c) = Ok uid)
  /\ (checkPeerUid uid (cpeer c) <> None ->
       (handle a c).2 = a /\ forall a' i, (handle a' (with_input c i)).1 = (handle a c).1).
Proof.
  split.
  - unfold checkPeerUid. destruct (is_unix _); simpl; [|naive_solver]. destruct (syscall_err _); [naive_solver|].
    destruct (control_err _); [naive_solver|]. destruct (ucred _) as [u|]; [|naive_solver].
    destruct (Z.eqb_spec u uid); naive_solver.
  - intros Hp. unfold handle. simpl. destruct (deadline_err c); [done|]. by destruct (checkPeerUid _ _).
Qed.

Context `{!CodecLaws Request, !CodecLaws Response}.

Lemma WriteMessage_framed `{CodecLaws A} (v : A) out : WriteMessage v = Ok out -> json_ok v -> ReadMessage out = Ok (v, "").
Proof.
  intros Hw Hv. pose proof (ReadMessage_WriteMessage v out "" Hv Hw) as Hr. by rewrite str_app_nil_r in Hr.
Qed.

Lemma handle_request a c req out :
  json_ok req -> WriteMessage req = Ok out -> deadline_err c = None -> checkPeerUid uid (cpeer c) = None ->
  handle a (with_input c out) =
    (send (dispatch (counted a c) c req).1,
     match ReqOp req with OpLock => cancel (dispatch (counted a c) c req).2 | _ => (dispatch (counted a c) c req).2 end).
Proof.
  intros Hj Hw Hd Hp. unfold handle. simpl. rewrite Hd, Hp, (WriteMessage_framed _ _ Hw Hj).
  change (counted a (with_input c out)) with (counted a c).
  assert (dispatch (counted a c) (with_input c out) req = dispatch (counted a c) c req) as -> by done.
  by destruct (dispatch (counted a c) c req).
Qed.

(** C6.  The client sees what the agent computed.  For the agent's own user, a call
    returns exactly the response dispatch computed, its error when that response is
    an error, and an end-of-file when the response is too large for a frame; the
    agent's state is then dispatch's, cancelled after a lock. *)
Theorem rpc_faithful a c req out :
  json_ok req -> WriteMessage req = Ok out -> deadline_err c = None -> checkPeerUid uid (cpeer c) = None ->
  json_ok (dispatch (counted a c) c req).1 ->
  let resp := (dispatch (counted a c) c req).1 in
  let a' := (dispatch (counted a c) c req).2 in
  call (Ok tt) (Ok tt) (fun s => (handle a (with_input c s)).1) req =
    match WriteMessage resp with
    | Err _ => Err (CallFrame EEof)
    | Ok _ => if ROK resp then Ok resp else Err (AgentSays (RError resp))
    end
  /\ (handle a (with_input c out)).2 = (match ReqOp req with OpLock => cancel a' | _ => a' end).
Proof.
  intros Hj Hw Hd Hp Hr. cbv zeta. rewrite (handle_request _ _ _ _ Hj Hw Hd Hp). split; [|done].
  unfold call. cbn [wrap_err mbind res_bind]. rewrite Hw. cbn [wrap_err mbind res_bind].
  rewrite (handle_request _ _ _ _ Hj Hw Hd Hp). cbn [fst]. unfold send.
  destruct (WriteMessage (dispatch (counted a c) c req).1) as [o|e] eqn:Ho; [|done].
  rewrite (WriteMessage_framed _ _ Ho Hr). cbn [wrap_err mbind res_bind]. by destruct (ROK _).
Qed.

(** A status reply always claims the agent was idle for no time: handle stores
    the time of the request before dispatch reads it back, so the answer is "0s"
    whenever the two are less than a second apart. *)
Theorem status_idle_zero a c req out st :
  json_ok req -> WriteMessage req = Ok out -> ReqOp req = OpStatus ->
  deadline_err c = None -> checkPeerUid uid (cpeer c) = None ->
  (seen c <= answered c < seen c + Second)%Z ->
  RStatus (dispatch (counted a c) c req).1 = Some st ->
  (handle a (with_input c out)).1 = send (dispatch (counted a c) c req).1 /\ SIdleFor st = "0s".
Proof.
  intros Hj Hw Hop Hd Hp Ht Hst. rewrite (handle_request _ _ _ _ Hj Hw Hd Hp). split; [done|].
  unfold dispatch in Hst. rewrite Hop in Hst. injection Hst as <-. cbn [SIdleFor lastSeen counted].
  replace (truncate_to Second (sat64 (answered c - seen c))) with 0%Z; [reflexivity|].
  unfold truncate_to, sat64, Second in *. rewrite Z.rem_small; lia.
Qed.

(** ** The accept loop *)

(** The finished connections handled one after the other. *)
Definition replay1 (am : agent * gmap nat string) (ic : nat * conn) : agent * gmap nat string :=
  ((handle am.1 ic.2).2, <[ic.1 := (handle am.1 ic.2).1]> am.2).

Definition replay (a0 : agent) (l : list (nat * conn)) : agent * gmap nat string := fold_left replay1 l (a0, ∅).

(** Equal up to the cancelled flag. *)
Definition up_to_cancel (a b : agent) : Prop := a = b \/ a = cancel b.

Lemma dispatch_cancel a c req :
  dispatch (counted (cancel a) c) c req = ((dispatch (counted a c) c req).1, cancel (dispatch (counted a c) c req).2).
Proof.
  unfold dispatch. destruct (ReqOp req); try done. simpl. destruct (negb (reloads a)); [done|].
  by destruct (loadAndBuild _ _) as [[??]|].
Qed.

Lemma handle_cancel a c : handle (cancel a) c = ((handle a c).1, cancel (handle a c).2).
Proof.
  unfold handle. destruct (deadline_err c); [done|]. destruct (checkPeerUid _ _); [done|].
  destruct (ReadMessage (input c)) as [[req rest]|e]; [|done]. rewrite dispatch_cancel.
  destruct (dispatch (counted a c) c req) as [resp a2]. simpl. f_equal. by destruct (ReqOp req).
Qed.

Lemma cancel_up_to a b : up_to_cancel a b -> up_to_cancel (cancel a) b.
Proof. intros [->| ->]; by right. Qed.

Lemma handle_up_to a b c : up_to_cancel a b ->
  (handle a c).1 = (handle b c).1 /\ up_to_cancel (handle a c).2 (handle b c).2.
Proof. intros [->| ->]; [split; [done|by left]|]. rewrite handle_cancel. split; [done|by right]. Qed.

Record serve_inv (cap : nat) (a0 : agent) (s : server) : Prop := {
  si_cap : (size (running s) <= cap)%nat;
  si_agent : up_to_cancel (sagent s) (replay a0 (finished s)).1;
  si_replies : replies s = (replay a0 (finished s)).2;
  si_nodup : NoDup ((finished s).*1 ++ dropped s);
  si_apart : forall id, is_Some (running s !! id) -> id ∉ (finished s).*1 ++ dropped s
}.

Lemma accept_inv cap a0 s id c : ~ known s id -> serve_inv cap a0 s -> serve_inv cap a0 (accept cap s id c).
Proof.
  unfold known. intros Hk [Hcap Ha Hr Hnd Hap].
  assert (id ∉ (finished s).*1 ++ dropped s) by (rewrite elem_of_app; tauto).
  assert (Hnone : running s !! id = None) by (apply eq_None_not_Some; tauto).
  unfold accept. destruct (Nat.ltb_spec (size (running s)) cap); split; simpl; try done.
  - rewrite map_size_insert_None by done. lia.
  - intros id' [->|[_ ?]]%lookup_insert_is_Some; [done|by apply Hap].
  - rewrite <- Permutation_middle. by constructor.
  - intros id' Hs. rewrite elem_of_app, elem_of_cons. intros [?|[->|?]]; [|by rewrite Hnone in Hs; destruct Hs|];
      by apply (Hap _ Hs), elem_of_app; auto.
Qed.

Lemma finish_inv cap a0 s id : serve_inv cap a0 s -> serve_inv cap a0 (finish s id).
Proof.
  intros [Hcap Ha Hr Hnd Hap]. unfold finish. destruct (running s !! id) as [c|] eqn:Hc; [|by split].
  destruct (handle_up_to _ _ c Ha) as [Hout Hst]. destruct (handle (sagent s) c) as [out a'] eqn:Hh.
  cbn [fst snd] in *.
  assert (Hrep : replay a0 (finished s ++ [(id, c)]) = replay1 (replay a0 (finished s)) (id, c))
    by (unfold replay; by rewrite fold_left_app).
  split; cbn [running sagent replies finished dropped]; rewrite ?Hrep.
  - rewrite map_size_delete_Some by (by eexists). lia.
  - exact Hst.
  - unfold replay1. cbn [fst snd]. by rewrite Hr, Hout.
  - rewrite fmap_app. simpl. rewrite <- app_assoc. simpl. rewrite <- Permutation_middle. constructor; [|done].
    apply Hap. by eexists.
  - intros id' [Hne Hs]%lookup_delete_is_Some. rewrite fmap_app, <- app_assoc, !elem_of_app. simpl.
    rewrite list_elem_of_singleton. intros [?|[->|?]]; [|done|]; by apply (Hap _ Hs), elem_of_app; auto.
Qed.

Lemma on_agent_inv cap a0 s f : (forall a, f a = a \/ f a = cancel a) -> serve_inv cap a0 s -> serve_inv cap a0 (on_agent f s).
Proof.
  intros Hf [Hcap Ha Hr Hnd Hap]. split; simpl; try done.
  destruct (Hf (sagent s)) as [->| ->]; [done|]. by apply cancel_up_to.
Qed.

Definition serve_init (a0 : agent) : server := mkServer a0 ∅ ∅ [] [] None.

End Agent.
End Agent.
