(* ===== verification/AgentSealed.v ===== *)
(** * From a sealed configuration to a command's environment

    The encryption pass, the reload callback, the resolver and the agent composed:
    what was sealed on disk is what a mapped command is served.  Also the worked
    example of the agent's theorems. *)

From S2P Require Import Prelude GoString GoPath GoTime ConfigModel Mapping Crypto NameId Seal SealRoundtrip SealStable Toys Protocol Resolver Agent.
Import Config Mapping Crypto NameId Seal SealRoundtrip Protocol Resolver Agent.

Module AgentSealed.

(** [v] asks for one key of a bag of [c], whose value is [x]. *)
Record bag_var (c : Config) (v : VarRef) (x : string) : Prop := {
  bv_value : Value v = "";
  bv_name : Name v <> "";
  bv_source : is_Some (Sources c !! Source v);
  bv_ref : Ref v <> "";
  bv_key : Key v <> "";
  bv_secret : exists bag, Secrets c !! Ref v = Some bag /\ bag !! Key v = Some x
}.

Definition all_local (c : Config) : Prop := map_Forall (fun _ sc => Type_ sc = "local") (Sources c).

Section Local.
Context `{Remotes, MapRange}.
Context (home cwd : option string) (builders : gmap string builder) (Hlocal : builders !! LocalTypeName = Some BLocal).

Lemma build_source_local p srcs h nsc :
  Type_ nsc.2 = "local" ->
  exists c h', build_source builders p (srcs, h) nsc = Ok (<[nsc.1 := SrcLocal c]> srcs, h').
Proof.
  intros Ht. unfold build_source, Build. rewrite Ht. change "local" with LocalTypeName. rewrite Hlocal.
  cbn [wrap_err mbind res_bind]. by eexists _, _.
Qed.

Lemma BuildResolver_local h cfg :
  all_local cfg -> exists r h', BuildResolver home cwd builders h cfg = Ok (r, h')
    /\ forall name, is_Some (Sources cfg !! name) -> exists c, rsources r !! name = Some (SrcLocal c).
Proof.
  intros Hall. unfold BuildResolver. set (p := fresh _). set (h0 := mkHeap _ _).
  assert (Hg : forall l srcs h1, Forall (fun nsc : string * SourceConfig => Type_ nsc.2 = "local") l ->
    exists srcs' h2, res_fold (build_source builders p) (srcs, h1) l = Ok (srcs', h2)
      /\ forall name, (name ∈ l.*1 \/ exists c, srcs !! name = Some (SrcLocal c)) ->
                      exists c, srcs' !! name = Some (SrcLocal c)).
  { induction l as [|nsc l IH]; intros srcs h1 HF; simpl.
    - exists srcs, h1. split; [done|]. intros name [Hn|?]; [set_solver|done].
    - inversion HF as [|?? Ht HF']; subst. destruct (build_source_local p srcs h1 nsc Ht) as (c & h2 & ->).
      destruct (IH (<[nsc.1 := SrcLocal c]> srcs) h2 HF') as (srcs' & h3 & -> & Hs).
      exists srcs', h3. split; [done|]. intros name Hn. apply Hs.
      destruct (decide (name = nsc.1)) as [->|Hne]; [right; exists c; apply lookup_insert_eq|].
      rewrite lookup_insert_ne by done. set_solver. }
  destruct (Hg (map_range 41 (Sources cfg)) ∅ h0) as (srcs' & h2 & -> & Hs).
  { apply Forall_forall. intros [name sc] Hin. apply elem_of_map_range in Hin. by apply (Hall name). }
  eexists _, h2. split; [done|]. intros name [sc Hsc]. apply Hs. left.
  apply list_elem_of_fmap. exists (name, sc). split; [done|]. by apply elem_of_map_range.
Qed.

Lemma fetchVars_bag r cfg p h vars xs :
  stores h !! p = Some (Secrets cfg) ->
  (forall name c, rsources r !! name = Some (SrcLocal c) -> cells h !! c = Some (Some p)) ->
  (forall name, is_Some (Sources cfg !! name) -> exists c, rsources r !! name = Some (SrcLocal c)) ->
  Forall2 (bag_var cfg) vars xs ->
  fetchVars r h vars = Ok (fold_left (fun env vx => <[Name vx.1 := vx.2]> env) (zip vars xs) ∅).
Proof.
  intros Hst Hcell Hsrc HF. unfold fetchVars. generalize (∅ : gmap string string).
  induction HF as [|v x vars xs [Hv Hn Hs Hr Hk (bag & Hb & Hx)] _ IH]; intros out; simpl; [done|].
  assert (fetch_var r h out v = Ok (<[Name v := x]> out)) as ->; [|apply IH].
  unfold fetch_var. rewrite Hv. simpl. destruct (Hsrc _ Hs) as [c Hc]. rewrite Hc. simpl.
  unfold local_Fetch. rewrite (Hcell _ _ Hc), Hst. simpl.
  apply str_empty_false in Hn, Hr, Hk. rewrite Hr, Hb, Hk. cbn [negb]. rewrite Hx. cbn [wrap_err mbind res_bind].
  rewrite Hn. unfold pickValue. rewrite Hk. cbn [negb]. by rewrite lookup_singleton_eq.
Qed.
End Local.

Section Served.
Context `{Remotes, AEAD, !AEADLaws, Rand, !RandLaws, NameMapCodec, !NameMapCodecLaws, MapRange, Codec Request, Codec Response}.
Context (ds_match : string -> string -> option bool) (home cwd : option string).
Context (pid : Z) (akey : string) (builders : gmap string builder).
Context (fetch_text : FetchErr -> string) (load_text : LoadErr -> string) (frame_text : FrameErr -> string)
  (local_rfc3339 : Z -> string) (quoted : string -> string).

#[local] Notation dispatch := (dispatch ds_match home cwd pid akey builders fetch_text load_text local_rfc3339 quoted).

Definition reload_of (a : agent) (cn : conn) : agent := (dispatch a cn (req_of OpReload)).2.
Definition fetch_of (a : agent) (cn : conn) (path : string) : Response :=
  (dispatch a cn (mkRequest OpFetchEnv path "" "")).1.

(** C2.  What was sealed is what is served.  Take a configuration of local sources
    that validates, seal it under the agent's key in any run of EncryptInPlace, and
    let an agent that serves some other configuration reload it: a fetch for a path
    whose vars each ask for one key of a bag answers with the secrets as they were
    before sealing, the last var of a name winning. *)
Theorem sealed_secret_is_served c n c' n' prev a r0 cfg0 cn cn' path xs :
  EncryptInPlace c akey n = Ok (c', n') ->
  prev_names akey c = Ok prev -> names_wf prev -> sealable c ->
  (forall nm, IDMap c' = Some nm -> codec_ok nm) ->
  Validate c = None -> all_local c -> builders !! LocalTypeName = Some BLocal ->
  serves home cwd a r0 cfg0 -> reloads a = true -> disk cn = Ok c' ->
  let vars := Lookup ds_match (NewIndex home cwd (Mappings c)) (absOr cwd path path) in
  Forall2 (bag_var c) vars xs ->
  fetch_of (reload_of a cn) cn' path =
    resp_env (fold_left (fun env vx => <[Name vx.1 := vx.2]> env) (zip vars xs) ∅).
Proof.
  intros Henc Hprev Hwf Hsl Hcodec Hval Hall Hlocal Hs Hre Hdisk vars HF.
  pose proof (unseal_seal _ _ _ _ _ _ Henc Hprev Hwf Hsl Hcodec) as Hdec.
  set (c2 := mkConfig _ _ _ _ _ _ _) in Hdec.
  assert (Hload : load_config akey (disk cn) = Ok c2).
  { unfold load_config. rewrite Hdisk. cbn [wrap_err mbind res_bind]. rewrite Hdec. cbn [wrap_err mbind res_bind].
    assert (Validate c2 = Validate c) as -> by reflexivity. by rewrite Hval. }
  destruct (BuildResolver_local home cwd builders Hlocal (aheap a) c2 Hall) as (r & h & Hb & Hsrc).
  assert (Hra : reload_of a cn = with_resolver a (Some r) (Wipe r0 h).2).
  { unfold reload_of, Agent.dispatch. cbn [req_of ReqOp]. rewrite Hre. cbn [negb]. unfold loadAndBuild.
    rewrite Hload. cbn [mbind res_bind]. rewrite Hb. cbn [wrap_err]. by rewrite (sv_res _ _ _ _ _ Hs). }
  destruct (takeover _ _ _ _ _ _ _ _ _ Hs Hb) as [Hres _ Hidx (p & Hp & Hcell) _].
  unfold fetch_of, Agent.dispatch. rewrite Hra. cbn [ReqOp ReqPath]. rewrite Hres. unfold FetchEnv. rewrite Hidx.
  change (NewIndex home cwd (Mappings c2)) with (NewIndex home cwd (Mappings c)).
  assert (HF2 : Forall2 (bag_var c2) vars xs) by (eapply Forall2_impl; [exact HF|]; by intros v x []; split).
  by rewrite (fetchVars_bag r c2 p _ _ _ Hp Hcell Hsrc HF2).
Qed.
End Served.

(** ** Codecs and a worked agent *)

Definition op_of (s : string) : Op :=
  if String.eqb s "status" then OpStatus else if String.eqb s "is_mapped" then OpIsMapped
  else if String.eqb s "fetch_env" then OpFetchEnv else if String.eqb s "lock" then OpLock
  else if String.eqb s "reload" then OpReload else if String.eqb s "fetch_env_cwd" then OpFetchEnvCwd
  else if String.eqb s "cwd_commands" then OpCwdCommands else OpOther s.

#[local] Instance toy_request : Codec Request := {|
  marshal_json r := Some (Toys.to_text [op_name (ReqOp r); ReqPath r; ReqCwd r; ReqCommand r]);
  unmarshal_json s := l ← Toys.of_text (A := list string) s;
                      match l with [o; p; w; c] => Some (mkRequest (op_of o) p w c) | _ => None end;
  json_ok r := op_of (op_name (ReqOp r)) = ReqOp r
|}.

#[local] Instance toy_request_laws : CodecLaws Request.
Proof.
  constructor. intros [o p w c] Ho. cbn [json_ok toy_request ReqOp] in Ho. eexists. split; [reflexivity|].
  split; [apply Toys.to_text_nonempty|]. cbn [unmarshal_json toy_request ReqOp ReqPath ReqCwd ReqCommand].
  rewrite Toys.of_to_text. cbn [mbind option_bind]. by rewrite Ho.
Qed.

Definition status_pos (st : Status) : list positive :=
  [encode (SPID st); encode (SStartedAt st); encode (SSources st); encode (SHits st); encode (SIdleFor st)].

Definition pos_status (l : list positive) : option Status :=
  match l with
  | [a; b; c; d; e] =>
      a ← decode a; b ← decode b; c ← decode c; d ← decode d; e ← decode e; Some (mkStatus a b c d e)
  | _ => None
  end.

#[local] Instance toy_response : Codec Response := {|
  marshal_json r := Some (Toys.to_text [encode (ROK r); encode (RError r); encode (RMapped r); encode (REnv r);
    encode (status_pos <$> RStatus r); encode (RCommands r)]);
  unmarshal_json s :=
    l ← Toys.of_text (A := list positive) s;
    match l with
    | [a; b; c; d; e; f] =>
        a ← decode a; b ← decode b; c ← decode c; d ← decode d; e ← decode e; f ← decode f;
        Some (mkResponse a b c d (e ≫= pos_status) f)
    | _ => None
    end;
  json_ok _ := True
|}.

#[local] Instance toy_response_laws : CodecLaws Response.
Proof.
  constructor. intros [a b c d e f] _. eexists. split; [reflexivity|]. split; [apply Toys.to_text_nonempty|].
  cbn [unmarshal_json toy_response ROK RError RMapped REnv RStatus RCommands]. rewrite Toys.of_to_text.
  cbn [mbind option_bind]. rewrite !decode_encode. cbn [mbind option_bind]. do 2 f_equal.
  destruct e as [[p1 p2 p3 p4 p5]|]; [|done]. cbn. by rewrite !decode_encode.
Qed.

#[local] Existing Instance toy_aead.
#[local] Existing Instance toy_rand.
#[local] Existing Instance no_remotes.
#[local] Existing Instance Toys.toy_codec.
#[local] Existing Instance Toys.toy_codec_laws.

Definition ex_builders : gmap string builder := default ∅ registered.
Definition meta : Meta := SealStable.ex_meta.
Definition first_config : Config :=
  mkConfig 1 meta (mkAgentConfig "" "" None None) {["old" := mkSource "local" ∅]} [] {["b" := {["k" := "gone"]}]} None.
Definition new_config : Config :=
  mkConfig 1 meta (mkAgentConfig "" "" None None) {["loc" := mkSource "local" ∅]}
    [mkMapping "/bin/app" "" "" [] [ex_var "DB" "loc" "prod" "db"; ex_var "TOKEN" "loc" "prod" "token"]]
    {["prod" := {["token" := "s3cret"; "db" := "hunter2"]}]} None.

#[local] Existing Instance map_range_default.

Definition seal (c : Config) : Config := match EncryptInPlace c toy_key 0 with Ok (c', _) => c' | Err _ => c end.
Definition seal_calls (c : Config) : nat := match EncryptInPlace c toy_key 0 with Ok (_, n) => n | Err _ => 0 end.

Definition me : peer := mkPeer true None None (Ok 1000%Z).
Definition say (req : Request) : string := match WriteMessage req with Ok s => s | Err _ => "" end.
Definition from (p : peer) (req : Request) (d : Config) : conn := mkConn None p (say req) 5 6 (Ok d).
Definition silent (A : Type) (_ : A) : string := "error".
Definition noglob (_ _ : string) : option bool := Some false.

Definition agent_built : option (resolver * heap) :=
  match loadAndBuild (Some "/h") (Some "/") toy_key ex_builders (Ok (seal first_config)) (mkHeap ∅ ∅) with
  | Ok x => Some x | Err _ => None
  end.
Definition ex_agent : agent :=
  match agent_built with
  | Some (r, h) => mkAgent 0 0 0 (Some r) true false h
  | None => mkAgent 0 0 0 None true false (mkHeap ∅ ∅)
  end.

#[local] Notation Handle := (handle noglob (Some "/h") (Some "/") 1000 77 toy_key ex_builders (silent _) (silent _) (silent _)
  (fun _ => "now") id).
#[local] Notation HandleAll := (handle_all noglob (Some "/h") (Some "/") 1000 77 toy_key ex_builders (silent _) (silent _)
  (silent _) (fun _ => "now") id).
#[local] Notation Dispatch := (Agent.dispatch noglob (Some "/h") (Some "/") 77 toy_key ex_builders (silent _) (silent _)
  (fun _ => "now") id).

Definition fetch_app : Request := mkRequest OpFetchEnv "/bin/app" "" "".
Definition ex_conns : list conn :=
  [from (mkPeer true None None (Ok 0%Z)) (req_of OpLock) new_config; from me (req_of OpReload) (seal new_config);
   from me fetch_app new_config; from me (req_of OpReload) new_config].

Lemma agent_built_run : exists r h, agent_built = Some (r, h)
  /\ loadAndBuild (Some "/h") (Some "/") toy_key ex_builders (Ok (seal first_config)) (mkHeap ∅ ∅) = Ok (r, h).
Proof.
  assert (Hs : (if agent_built then true else false) = true) by (vm_compute; reflexivity).
  unfold agent_built in *. destruct (loadAndBuild _ _ _ _ _ _) as [[r h]|e]; [|done]. by exists r, h.
Qed.

Lemma ex_agent_state : exists r h, agent_built = Some (r, h) /\ aresolver ex_agent = Some r /\ aheap ex_agent = h.
Proof.
  destruct agent_built_run as (r & h & Hb & _). exists r, h. split; [exact Hb|]. unfold ex_agent. rewrite Hb.
  exact (conj eq_refl eq_refl).
Qed.

Lemma agent_serves_one_store_witness : exists r cfg,
  serves (Some "/h") (Some "/") (HandleAll ex_agent ex_conns) r cfg
  /\ (forall c q, cells (aheap (drop_resolver (HandleAll ex_agent ex_conns))) !! c <> Some (Some q))
  /\ (Handle (HandleAll ex_agent ex_conns) (from me fetch_app new_config)).1
     = send (resp_env {["DB" := "hunter2"; "TOKEN" := "s3cret"]}).
Proof.
  destruct agent_built_run as (r & h & Hb & Hl). destruct ex_agent_state as (r1 & h1 & Hb1 & Hr & Hh).
  rewrite Hb in Hb1. apply (inj Some) in Hb1. apply pair_equal_spec in Hb1 as [-> ->].
  destruct (agent_serves_one_store noglob (Some "/h") (Some "/") 1000 77 toy_key ex_builders (silent _) (silent _) (silent _)
    (fun _ => "now") id (Ok (seal first_config)) (mkHeap ∅ ∅) r1 h1 ex_agent ex_conns Hl ltac:(done) Hr Hh)
    as (r' & cfg & Hs & _ & Hd).
  exists r', cfg. split; [exact Hs|]. split; [exact Hd|]. vm_compute. reflexivity.
Defined.

Definition reloaded : agent := (Handle ex_agent (from me (req_of OpReload) (seal new_config))).2.

Lemma rpc_faithful_witness :
  call (Ok tt) (Ok tt) (fun s => (Handle reloaded (with_input (from me fetch_app new_config) s)).1) fetch_app
  = Ok (resp_env {["DB" := "hunter2"; "TOKEN" := "s3cret"]}).
Proof.
  destruct (rpc_faithful noglob (Some "/h") (Some "/") 1000 77 toy_key ex_builders (silent _) (silent _) (silent _)
    (fun _ => "now") id reloaded (from me fetch_app new_config) fetch_app (say fetch_app)) as [Hc _];
    [reflexivity|vm_compute; reflexivity|reflexivity|reflexivity|exact I|].
  rewrite Hc. vm_compute. reflexivity.
Defined.

Lemma status_idle_zero_witness : exists st,
  RStatus (Dispatch (counted ex_agent (from me (req_of OpStatus) new_config)) (from me (req_of OpStatus) new_config)
             (req_of OpStatus)).1 = Some st /\ SIdleFor st = "0s" /\ SHits st = 1%Z.
Proof.
  eexists. split; [reflexivity|]. split; [|vm_compute; reflexivity].
  eapply (status_idle_zero noglob (Some "/h") (Some "/") 1000 77 toy_key ex_builders (silent _) (silent _) (silent _)
    (fun _ => "now") id ex_agent (from me (req_of OpStatus) new_config) (req_of OpStatus) (say (req_of OpStatus)));
    [reflexivity|vm_compute; reflexivity|reflexivity|reflexivity|reflexivity|vm_compute; split; congruence|reflexivity].
Defined.

#[local] Notation Step := (serve_step noglob (Some "/h") (Some "/") 1000 77 toy_key ex_builders (silent _) (silent _) (silent _)
  (fun _ => "now") id 1 0).
#[local] Notation Finish := (finish noglob (Some "/h") (Some "/") 1000 77 toy_key ex_builders (silent _) (silent _) (silent _)
  (fun _ => "now") id).

Definition ex_conn : conn := from me (req_of OpLock) new_config.
Definition ex_server : server :=
  Finish (accept 1 (accept 1 (serve_init ex_agent) 1 ex_conn) 2 ex_conn) 1.


Lemma new_config_sealable : sealable new_config.
Proof.
  split.
  - apply (bool_decide_unpack _). vm_compute. exact I.
  - apply (bool_decide_unpack _). vm_compute. exact I.
  - assert (Hk : forall key, key ∈ ["db"; "token"] -> forall name, plain name -> var_plain (ex_var name "loc" "prod" key)
      /\ var_refs_ok new_config (ex_var name "loc" "prod" key)).
    { intros key Hk name Hn. split.
      - apply list_elem_of_In in Hk as [<-|[<-|[]]]; split; try reflexivity; [exact Hn|apply map_Forall_empty|exact Hn|apply map_Forall_empty].
      - right. exists (mkSource "local" ∅). split; [reflexivity|]. intros _.
        apply list_elem_of_In in Hk as [<-|[<-|[]]]; vm_compute; (split; [discriminate|]); right; left; by eexists. }
    constructor; [|constructor]. simpl. constructor; [|constructor; [|constructor]]; apply Hk; solve [set_solver|reflexivity].
Qed.

Definition served : gmap string string := {["DB" := "hunter2"; "TOKEN" := "s3cret"]}.

Lemma ex_bag_vars : Forall2 (bag_var new_config)
  (Lookup noglob (NewIndex (Some "/h") (Some "/") (Mappings new_config)) (absOr (Some "/") "/bin/app" "/bin/app"))
  ["hunter2"; "s3cret"].
Proof.
  assert (Hl : Lookup noglob (NewIndex (Some "/h") (Some "/") (Mappings new_config)) (absOr (Some "/") "/bin/app" "/bin/app")
    = [ex_var "DB" "loc" "prod" "db"; ex_var "TOKEN" "loc" "prod" "token"]) by (vm_compute; reflexivity).
  rewrite Hl. constructor; [|constructor; [|constructor]]; split; try discriminate; try reflexivity;
    first [by eexists|eexists; split; vm_compute; reflexivity].
Qed.

Lemma ex_agent_serves : exists r cfg, serves (Some "/h") (Some "/") ex_agent r cfg.
Proof.
  destruct agent_built_run as (r & h & Hb & Hl). destruct ex_agent_state as (r1 & h1 & Hb1 & Hr & Hh).
  rewrite Hb in Hb1. apply (inj Some) in Hb1. apply pair_equal_spec in Hb1 as [-> ->].
  apply loadAndBuild_inv in Hl as (cfg & _ & Hl). destruct (BuildResolver_fields _ _ _ _ _ _ _ Hl) as [Hc Hi].
  exists r1, cfg. destruct (BuildResolver_spec _ _ _ _ _ _ _ Hl) as (p & _ & Hst & [Hloc _ _ Honly _]).
  split; rewrite ?Hh; [done|done|done| |].
  - exists p. split; [rewrite Hst; apply lookup_insert_eq|]. intros name c Hn. by apply (Hloc _ _ Hn).
  - intros c q Hq. by destruct (Honly _ _ Hq) as [?|?].
Qed.

Lemma sealed_secret_is_served_witness :
  (fetch_of noglob (Some "/h") (Some "/") 77 toy_key ex_builders (silent _) (silent _) (fun _ => "now") id
     (reload_of noglob (Some "/h") (Some "/") 77 toy_key ex_builders (silent _) (silent _) (fun _ => "now") id
        ex_agent (from me (req_of OpReload) (seal new_config)))
     (from me fetch_app new_config) "/bin/app")
  = resp_env served.
Proof.
  destruct ex_agent_serves as (r0 & cfg0 & Hs).
  apply (sealed_secret_is_served noglob (Some "/h") (Some "/") 77 toy_key ex_builders (silent _) (silent _) (fun _ => "now") id
    new_config 0 (seal new_config) (seal_calls new_config) empty_names ex_agent r0 cfg0
    (from me (req_of OpReload) (seal new_config)) (from me fetch_app new_config) "/bin/app" ["hunter2"; "s3cret"]).
  - vm_compute. reflexivity.
  - reflexivity.
  - exact SealStable.empty_names_wf.
  - exact new_config_sealable.
  - intros ? _. exact I.
  - reflexivity.
  - apply (bool_decide_unpack _). vm_compute. exact I.
  - reflexivity.
  - exact Hs.
  - vm_compute. reflexivity.
  - reflexivity.
  - exact ex_bag_vars.
Defined.
End AgentSealed.
