(* ===== verification/Shells.v ===== *)
(** * Runtime directory, pidfile and per-shell directories (src/internal/agent/paths.go, paths_unix.go, pidfile.go, socket_unix.go; Listen and Shutdown of server.go)

    The socket is a file without content: binding creates it, closing the listener
    unlinks it.  Whether a process is alive, who owns a directory and its mode are
    what the outside says. *)

From S2P Require Import Prelude GoString GoPath GoTime Fs Store Toys.
Import GoPath GoTime Store Fs.

Module Shells.

Record Paths := mkPaths { PDir : string; Socket : string; PidFile : string; LogFile : string; ShellsDir : string }.

Inductive AErr :=
| AFs (e : FErr)
| AVerify (dir : string) (e : FErr)
| ANotDir (dir : string)
| AOwner (dir : string) (got want : Z)
| AMode (dir : string) (mode : Z) (e : FErr)
| AParsePid (path : string)
| ANotPid
| ARunning (pid : Z)
| ALock (e : SErr)
| ASocket (path : string) (e : FErr).

Definition is_not_exist (e : FErr) : bool := match e with ENoEnt _ => true | _ => false end.

Definition ShellWrapDir (p : Paths) (shellPid : Z) : string := Join [ShellsDir p; format_int shellPid; "bin"].

(** The loop of parseShellPid on an int64. *)
Fixpoint parse_pid_loop (s : string) (pid : Z) : option Z :=
  match s with
  | EmptyString => Some pid
  | String c s' =>
      if is_digit c then parse_pid_loop s' (wrap64 (pid * 10 + (Z.of_nat (byte_val c) - 48))) else None
  end.

Definition parseShellPid (name : string) : option Z := parse_pid_loop name 0.

Section Shells.
Context `{Os}.
Context (uid : Z) (signal0 : Z -> bool) (dir_owner dir_mode : string -> Z).

(** os.Getenv and os.TempDir *)
Definition Getenv (k : string) : string := default EmptyString (getenv k).
Definition TempDir : string := let d := Getenv "TMPDIR" in if str_empty d then "/tmp" else d.

Definition runtimeBaseDir : string :=
  let d := Getenv "XDG_RUNTIME_DIR" in
  if negb (str_empty d) then Join [d; "jitenv"] else Join [TempDir; "jitenv-" +:+ format_int uid].

Definition socketEndpoint (baseDir : string) : string := Join [baseDir; "agent.sock"].

Definition paths_in (dir : string) : Paths :=
  mkPaths dir (socketEndpoint dir) (Join [dir; "agent.pid"]) (Join [dir; "agent.log"]) (Join [dir; "shells"]).

Definition ResolvePaths : Paths := paths_in runtimeBaseDir.

Definition verifyRuntimeDir (dir : string) : M AErr unit :=
  st ← mapErr (AVerify dir) (lstat dir);
  match st with
  | NDir =>
      if negb (dir_owner dir =? uid)%Z then throw (AOwner dir (dir_owner dir) uid)
      else if negb (dir_mode dir =? 448)%Z then mapErr (AMode dir (dir_mode dir)) (chmod dir 448)
      else mret tt
  | _ => throw (ANotDir dir)
  end.

Definition DefaultPaths : M AErr Paths :=
  let p := ResolvePaths in
  _ ← mapErr AFs (mkdir_all (PDir p));
  _ ← verifyRuntimeDir (PDir p);
  mret p.

(** PidAlive; [signal0] says whether kill(pid, 0) finds the process. *)
Definition PidAlive (pid : Z) : bool := if (pid <=? 0)%Z then false else signal0 pid.

(** One entry of GcOrphanShells. *)
Definition is_orphan (e : string * node) : bool :=
  match e.2 with
  | NDir => match parseShellPid e.1 with
            | None => false
            | Some pid => negb ((0 <? pid)%Z && PidAlive pid)
            end
  | _ => false
  end.

Fixpoint gc_entries (shellsDir : string) (es : list (string * node)) : M AErr unit :=
  match es with
  | [] => mret tt
  | e :: es' =>
      _ ← (if is_orphan e then ignore (remove_all (Join [shellsDir; e.1])) else mret tt : M AErr unit);
      gc_entries shellsDir es'
  end.

Definition GcOrphanShells (shellsDir : string) : M AErr unit :=
  r ← attempt (read_dir shellsDir);
  match r with
  | Err e => if is_not_exist e then mret tt else throw (AFs e)
  | Ok es => gc_entries shellsDir es
  end.

(** ** Pidfile *)

Definition WritePidFile (path : string) (pid : Z) : M AErr unit :=
  mapErr AFs (write_file path (format_int pid +:+ str1 LF) 384).

Definition ReadPidFile (path : string) : M AErr Z :=
  r ← attempt (read_file path);
  match r with
  | Err e => if is_not_exist e then mret 0%Z else throw (AFs e)
  | Ok b => match atoi (trim_space b) with Some pid => mret pid | None => throw (AParsePid path) end
  end.

Definition RemovePidFile (path : string) : M AErr unit :=
  r ← attempt (remove path);
  match r with
  | Ok _ => mret tt
  | Err e => if is_not_exist e then mret tt else throw (AFs e)
  end.

(** ** Listen and Shutdown *)

(** Bind under umask 0177, then chmod; closing a bound listener unlinks it. *)
Definition listenSocket (path : string) : M AErr unit :=
  _ ← mapErr (ASocket path) (create_excl path 384);
  on_err (mapErr AFs (chmod path 384)) (ignore (remove path) : M AErr unit).

Definition LockPath (p : Paths) : string := PidFile p +:+ ".lock".

Definition release (p : Paths) : M AErr unit := fun w => (Ok tt, Release (LockPath p) w).

Definition Listen (p : Paths) (pid : Z) : M AErr unit :=
  _ ← (ignore (GcOrphanShells (ShellsDir p)) : M AErr unit);
  r ← attempt (Acquire (LockPath p));
  match r with
  | Err (SLockHeld _) =>
      existing ← attempt (ReadPidFile (PidFile p));
      throw (ARunning (match existing with Ok n => n | Err _ => 0%Z end))
  | Err e => throw (ALock e)
  | Ok _ =>
      _ ← (ignore (remove (Socket p)) : M AErr unit);
      _ ← on_err (listenSocket (Socket p)) (release p);
      WritePidFile (PidFile p) pid
  end.

(** The files of Shutdown, after the handlers have drained. *)
Definition ShutdownFiles (p : Paths) : M AErr unit :=
  _ ← (ignore (remove (Socket p)) : M AErr unit);
  _ ← (ignore (RemovePidFile (PidFile p)) : M AErr unit);
  release p.

End Shells.

(** ** Reaping dead shells *)

Section Reaping.
Context `{Os} (signal0 : Z -> bool).

(** The entries ReadDir reports. *)
Definition entries (f : files) (dir : string) : list (string * node) :=
  omap (fun c => n ← f !! c; Some (Base c, n)) (sort_strings (children f dir)).

Definition orphan_dirs (f : files) (dir : string) : list string :=
  (fun e => Join [dir; e.1]) <$> filter (fun e => is_orphan signal0 e = true) (entries f dir).

(** The files without what is below the directories [gone]. *)
Definition without (gone : list string) (f : files) : files :=
  filter (fun kv => Forall (fun d => under d kv.1 = false) gone) f.

Lemma without_nil f : without [] f = f.
Proof. apply map_eq. intros k. apply option_eq. intros n. unfold without. rewrite map_lookup_filter_Some. naive_solver. Qed.

Lemma without_cons d gone f : without gone (without [d] f) = without (d :: gone) f.
Proof.
  apply map_eq. intros k. apply option_eq. intros n. unfold without. rewrite !map_lookup_filter_Some. cbn [fst].
  rewrite !Forall_cons, Forall_nil. tauto.
Qed.

Lemma remove_all_without d w r w' :
  remove_all d w = (r, w') ->
  (fs w' = fs w /\ fails (tick w) = true) \/ fs w' = without [d] (fs w).
Proof.
  unfold remove_all. intros [(e & -> & -> & [Hf|?])|(a & f & -> & -> & Ha & _)]%syscall_inv; [by left|done|right].
  injection Ha as Ha. simpl. subst f. apply map_filter_ext. intros k n _. simpl. rewrite Forall_cons, Forall_nil. tauto.
Qed.

Lemma gc_entries_spec dir es w r w' :
  gc_entries signal0 dir es w = (r, w') ->
  let ds := (fun e => Join [dir; e.1]) <$> filter (fun e => is_orphan signal0 e = true) es in
  exists gone, gone `sublist_of` ds /\ fs w' = without gone (fs w)
    /\ ((forall t, fails t = false) -> gone = ds).
Proof.
  cbv zeta. revert w. induction es as [|e es IH]; intros w.
  - intros [= <- <-]. exists []. rewrite without_nil. done.
  - cbn [gc_entries]. intros [(u & w1 & H1 & H2)|(x & H1 & ->)]%M_bind_inv.
    2: { destruct (is_orphan signal0 e); discriminate H1. }
    destruct (IH _ H2) as (gone & Hsub & Hfs & Hall). rewrite filter_cons.
    destruct (is_orphan signal0 e) eqn:Ho.
    + rewrite decide_True by done. unfold ignore in H1. destruct (remove_all _ w) as [r1 w1'] eqn:Hr.
      injection H1 as _ Hw1. cbn [snd] in Hw1. subst w1'. cbn [fmap list_fmap].
      apply remove_all_without in Hr as [[Hsame Hfail]|Hgone].
      * exists gone. split; [by apply sublist_cons|]. split; [by rewrite Hfs, Hsame|]. intros Hno. by rewrite Hno in Hfail.
      * exists (Join [dir; e.1] :: gone). split; [by apply sublist_skip|].
        split; [by rewrite Hfs, Hgone, without_cons|]. intros Hno. by rewrite Hall.
    + rewrite decide_False by done. injection H1 as _ <-. by exists gone.
Qed.

Lemma digits_val_ge s z v : (0 <= z)%Z -> digits_val z s = Some v -> (z <= v)%Z.
Proof.
  revert z. induction s as [|c s IH]; intros z Hz; simpl; [intros [= ->]; lia|].
  destruct (is_digit c); [|done]. intros Hv%IH; lia.
Qed.

Lemma parse_pid_loop_val s z v :
  (0 <= z)%Z -> (v < 2 ^ 63)%Z -> digits_val z s = Some v -> parse_pid_loop s z = Some v.
Proof.
  revert z. induction s as [|c s IH]; intros z Hz Hv; simpl; [done|]. destruct (is_digit c) eqn:Hc; [|done].
  intros Hd. assert (Hb : (48 <= byte_val c)%nat) by (unfold is_digit, in_range in Hc; bools; by apply Nat.leb_le).
  rewrite Nat2Z.inj_sub in Hd by done. change (Z.of_nat 48) with 48%Z in Hd.
  assert (Hz' : (0 <= z * 10 + (Z.of_nat (byte_val c) - 48))%Z) by lia.
  pose proof (digits_val_ge _ _ _ Hz' Hd) as Hle.
  replace (wrap64 (z * 10 + (Z.of_nat (byte_val c) - 48))) with (z * 10 + (Z.of_nat (byte_val c) - 48))%Z.
  - apply IH; [lia|done|done].
  - unfold wrap64. rewrite Z.mod_small; lia.
Qed.

Lemma parseShellPid_itoa n : (n < 2 ^ 63)%N -> parseShellPid (itoa n) = Some (Z.of_N n).
Proof. intros Hn. apply parse_pid_loop_val; [lia|lia|apply digits_val_itoa]. Qed.

Lemma parseShellPid_digits name pid : parseShellPid name = Some pid -> forall_bytes is_digit name = true.
Proof.
  unfold parseShellPid. generalize 0%Z. induction name as [|c s IH]; intros z; simpl; [done|].
  destruct (is_digit c); [|done]. apply IH.
Qed.

Lemma digits_plain name : name <> "" -> forall_bytes is_digit name = true -> plain_elem name.
Proof.
  intros Hne Hd. split; [split; [|split; [done|]]|].
  - by eapply forall_bytes_not_contains.
  - by intros ->.
  - by intros ->.
Qed.

Lemma Base_not_nil p : Base p <> "".
Proof. unfold Base. destruct (str_empty p); [done|]. cbv zeta. str_cases (split_path (trim_right (Ascii.eqb SLASH) p)).2; done. Qed.

Lemma Join_child l x : Forall plain_elem (l ++ [x]) -> l <> [] -> Join [abs_path l; x] = abs_path l +:+ "/" +:+ x.
Proof.
  intros HF Hne. assert (Hj : Join [abs_path l; x] = Clean (abs_path (l ++ [x]))).
  { unfold Join. cbn [drop_empty]. unfold abs_path at 1. rewrite str_app_cons.
    change (Clean (join "/" [abs_path l; x]) = Clean (abs_path (l ++ [x]))). f_equal.
    unfold abs_path. rewrite join_app_last by done. simpl. by rewrite !str_app_assoc. }
  rewrite Hj, Clean_abs_path by (by apply clean_list_true_plain).
  unfold abs_path. rewrite join_app_last by done. by rewrite !str_app_assoc.
Qed.

Lemma under_spec d p : under d p = true -> exists rest, p +:+ "/" = d +:+ "/" +:+ rest.
Proof.
  unfold under. destruct (String.eqb_spec p d) as [->|_]; [by exists EmptyString; rewrite str_app_nil_r|].
  simpl. intros [t ->]%has_prefix_spec. exists (t +:+ "/"). by rewrite !str_app_assoc.
Qed.

Lemma under_child l x y p :
  Forall plain_elem (l ++ [x]) -> Forall plain_elem (l ++ [y]) -> l <> [] ->
  under (Join [abs_path l; x]) p = true -> under (Join [abs_path l; y]) p = true -> x = y.
Proof.
  intros Hx Hy Hne Hux Huy. rewrite Join_child in Hux, Huy by done.
  apply under_spec in Hux as (r1 & H1). apply under_spec in Huy as (r2 & H2). rewrite H1, <- !str_app_assoc in H2.
  apply (inj (String.append _)) in H2. apply (inj (String.append "/")) in H2.
  apply Forall_app in Hx as [_ [[[Hxs _] _] _]%Forall_cons]. apply Forall_app in Hy as [_ [[[Hys _] _] _]%Forall_cons].
  by apply (app_sep_inj SLASH) in H2 as [? _].
Qed.

(**  Reaping never touches a live shell.  Whatever system calls fail,
    GcOrphanShells signal0 only ever removes whole directories below the shells directory
    that are named by digits and whose process is gone; without failures it removes
    all of them; and everything in the directory of a live shell stays. *)
Theorem GcOrphanShells_exact l w r w' :
  Forall plain_elem l -> l <> [] -> fs w !! abs_path l = Some NDir ->
  GcOrphanShells signal0 (abs_path l) w = (r, w') ->
  (exists gone, gone `sublist_of` orphan_dirs (fs w) (abs_path l) /\ fs w' = without gone (fs w)
     /\ ((forall t, fails t = false) -> gone = orphan_dirs (fs w) (abs_path l)))
  /\ (forall e, is_orphan signal0 e = true <-> e.2 = NDir /\ exists pid, parseShellPid e.1 = Some pid
        /\ ((pid <= 0)%Z \/ signal0 pid = false))
  /\ (forall n p, (0 < n < 2 ^ 63)%N -> signal0 (Z.of_N n) = true ->
        under (Join [abs_path l; itoa n]) p = true -> fs w' !! p = fs w !! p).
Proof.
  intros Hl Hne Hd Hr.
  assert (Horph : forall e, is_orphan signal0 e = true <-> e.2 = NDir /\ exists pid, parseShellPid e.1 = Some pid
        /\ ((pid <= 0)%Z \/ signal0 pid = false)).
  { intros [name n]. unfold is_orphan, PidAlive. cbn [fst snd].
    destruct n as [| |]; [split; [done|by intros [? _]]..|]. destruct (parseShellPid name) as [pid|]; [|naive_solver].
    destruct (Z.ltb_spec 0 pid), (Z.leb_spec pid 0); simpl; try lia; [|naive_solver].
    destruct (signal0 pid) eqn:Hs; simpl; split; try done.
    - intros [_ (q & [= <-] & [?|?])]; [lia|congruence].
    - intros _. split; [done|]. exists pid. auto. }
  assert (Hgone : exists gone, gone `sublist_of` orphan_dirs (fs w) (abs_path l) /\ fs w' = without gone (fs w)
     /\ ((forall t, fails t = false) -> gone = orphan_dirs (fs w) (abs_path l))).
  { unfold GcOrphanShells in Hr. apply M_bind_inv in Hr as [(r0 & w1 & H0 & H1)|(e & H0 & ->)].
    2: { unfold attempt in H0. by destruct (read_dir (abs_path l) w). }
    unfold attempt in H0. destruct (read_dir (abs_path l) w) as [r1 w0] eqn:Hrd. injection H0 as <- <-.
    unfold read_dir in Hrd. apply syscall_inv in Hrd as [(e & -> & -> & Hw)|(es & f & -> & -> & Ha & _)].
    - exists []. split; [apply sublist_nil_l|].
      assert (w' = step w (fs w)) as -> by (destruct (is_not_exist e); by injection H1).
      rewrite without_nil. split; [done|]. intros Hno. rewrite Hno in Hw. destruct Hw as [|Ha]; [done|].
      unfold link_depth in Ha. simpl in Ha. rewrite Hd in Ha. cbn [mbind res_bind] in Ha. by rewrite Hd in Ha.
    - unfold link_depth in Ha. simpl in Ha. rewrite Hd in Ha. cbn [mbind res_bind] in Ha. rewrite Hd in Ha.
      injection Ha as <- <-. by apply gc_entries_spec in H1. }
  split; [done|]. split; [done|]. destruct Hgone as (gone & Hsub & Hfs & _). intros n p Hn Halive Hu.
  rewrite Hfs. unfold without. apply option_eq. intros nd. rewrite map_lookup_filter_Some. cbn [fst].
  split; [by intros [? _]|]. intros Hp. split; [done|]. apply Forall_forall. intros d Hin.
  destruct (under d p) eqn:Hud; [|done]. exfalso. eapply elem_of_sublist in Hin; [|exact Hsub].
  unfold orphan_dirs in Hin. apply list_elem_of_fmap in Hin as ([name nd'] & -> & [Ho Hin]%list_elem_of_filter).
  cbn [fst] in *. apply Horph in Ho as (_ & pid & Hpid & Hdead). cbn [fst] in Hpid.
  assert (Hname : name <> "").
  { unfold entries in Hin. apply list_elem_of_omap in Hin as (c & _ & Hc). destruct (fs w !! c); [|done].
    injection Hc as <- _. apply Base_not_nil. }
  assert (Hpl : forall x, x <> "" -> forall_bytes is_digit x = true -> Forall plain_elem (l ++ [x])).
  { intros x Hx Hxd. apply Forall_app. split; [done|]. constructor; [by apply digits_plain|constructor]. }
  assert (itoa n = name) as <-.
  { eapply under_child; [| | |exact Hu|exact Hud]; [apply Hpl; auto using itoa_not_nil, itoa_digits| |done].
    apply Hpl; [done|by eapply parseShellPid_digits]. }
  rewrite parseShellPid_itoa in Hpid by lia. injection Hpid as <-. destruct Hdead as [|Hs]; [lia|congruence].
Qed.

(** ** One agent at a time *)

(** Runs that take and give back no lock. *)
Definition lock_free {E A} (m : M E A) : Prop := forall w, locks (m w).2 = locks w.

Lemma lock_free_syscall {A} (act : files -> res FErr (A * files)) : lock_free (syscall act).
Proof. intros w. unfold syscall. destruct (fails (tick w)); [done|]. by destruct (act (fs w)) as [[a f]|e]. Qed.

Lemma lock_free_bind {E A B} (m : M E A) (f : A -> M E B) :
  lock_free m -> (forall a, lock_free (f a)) -> lock_free (m ≫= f).
Proof.
  intros Hm Hf w. unfold mbind, M_bind. specialize (Hm w). destruct (m w) as [[a|e] w1]; simpl in *; [|done].
  by rewrite Hf.
Qed.

Lemma lock_free_mapErr {E F A} (f : E -> F) (m : M E A) : lock_free m -> lock_free (mapErr f m).
Proof. intros Hm w. specialize (Hm w). unfold mapErr. by destruct (m w). Qed.

Lemma lock_free_attempt {E F A} (m : M E A) : lock_free m -> lock_free (attempt m : M F (res E A)).
Proof. intros Hm w. specialize (Hm w). unfold attempt. by destruct (m w). Qed.

Lemma lock_free_ignore {E F A} (m : M E A) : lock_free m -> lock_free (ignore m : M F unit).
Proof. intros Hm w. apply Hm. Qed.

Lemma lock_free_ret {E A} (r : res E A) : lock_free (lift r).
Proof. done. Qed.

Lemma lock_free_write q data : lock_free (write q data).
Proof. intros w. unfold write. by destruct (fails (tick w)). Qed.

Lemma lock_free_write_file q data mode : lock_free (write_file q data mode).
Proof.
  apply lock_free_bind; [intros w; apply lock_free_syscall|]. intros q'.
  apply lock_free_bind; [apply lock_free_attempt, lock_free_write|]. intros r.
  apply lock_free_bind; [apply lock_free_attempt, lock_free_syscall|]. intros c. by destruct r, c.
Qed.

Lemma lock_free_gc dir : lock_free (GcOrphanShells signal0 dir).
Proof.
  apply lock_free_bind; [apply lock_free_attempt, lock_free_syscall|]. intros [es|e].
  - induction es as [|x es IH]; [done|]. cbn [gc_entries]. apply lock_free_bind; [|intros _; exact IH].
    destruct (is_orphan signal0 x); [apply lock_free_ignore, lock_free_syscall|done].
  - by destruct (is_not_exist e).
Qed.

(** What the reaper leaves of the files. *)
Lemma gc_without dir w r w' :
  GcOrphanShells signal0 dir w = (r, w') ->
  exists gone, fs w' = without gone (fs w) /\ forall d, d ∈ gone -> exists name, d = Join [dir; name]
    /\ name <> "" /\ forall_bytes is_digit name = true.
Proof.
  unfold GcOrphanShells. intros [(r0 & w1 & H0 & H1)|(e & H0 & ->)]%M_bind_inv.
  2: { unfold attempt in H0. by destruct (read_dir dir w). }
  unfold attempt in H0. destruct (read_dir dir w) as [r1 w0] eqn:Hrd. injection H0 as <- <-.
  unfold read_dir in Hrd. apply syscall_inv in Hrd as [(e & -> & -> & _)|(es & f & -> & -> & Ha & _)].
  - exists []. rewrite without_nil. assert (w' = step w (fs w)) as -> by (destruct (is_not_exist e); by injection H1).
    split; [done|]. intros d Hd. by apply not_elem_of_nil in Hd.
  - destruct (follow link_depth (fs w) dir) as [q|]; [|done]. cbn [mbind res_bind] in Ha.
    destruct (fs w !! q) as [[| |]|]; try done. injection Ha as <- <-.
    apply gc_entries_spec in H1 as (gone & Hsub & Hfs & _). exists gone. split; [done|]. intros d Hd.
    eapply elem_of_sublist in Hd; [|exact Hsub].
    apply list_elem_of_fmap in Hd as ([name nd] & -> & [Ho Hin]%list_elem_of_filter). exists name.
    split; [done|]. apply list_elem_of_omap in Hin as (c & _ & Hc). simpl in Hc. destruct (fs w !! c); [|done].
    injection Hc as <- _. split; [apply Base_not_nil|]. unfold is_orphan in Ho. cbn [fst snd] in Ho.
    destruct nd; [done..|]. destruct (parseShellPid (Base c)) eqn:Hp; [|done]. by eapply parseShellPid_digits.
Qed.

Lemma gc_keeps_siblings l x w r w' :
  Forall plain_elem (l ++ [x]) -> l <> [] -> x <> "shells" ->
  GcOrphanShells signal0 (Join [abs_path l; "shells"]) w = (r, w') ->
  fs w' !! Join [abs_path l; x] = fs w !! Join [abs_path l; x].
Proof.
  intros Hx Hne Hsh (gone & -> & Hgone)%gc_without. unfold without. apply option_eq. intros n.
  rewrite map_lookup_filter_Some. split; [by intros [? _]|]. intros Hn. split; [done|]. cbn [fst].
  apply Forall_forall. intros d Hd. destruct (under d _) eqn:Hu; [|done]. exfalso.
  destruct (Hgone _ Hd) as (name & -> & Hname & Hdig).
  assert (Hl : Forall plain_elem l) by (by apply Forall_app in Hx as [? _]).
  assert (Hs : Forall plain_elem (l ++ ["shells"])).
  { apply Forall_app. split; [done|]. constructor; [|constructor]. by repeat split. }
  assert (Hss : Forall plain_elem ((l ++ ["shells"]) ++ [name])).
  { apply Forall_app. split; [done|]. constructor; [by apply digits_plain|constructor]. }
  assert (Hjs : Join [abs_path l; "shells"] = abs_path (l ++ ["shells"])).
  { rewrite Join_child by done. unfold abs_path. rewrite join_app_last by done. by rewrite !str_app_assoc. }
  rewrite Hjs, (Join_child _ name) in Hu by (done || by destruct l). rewrite <- Hjs in Hu.
  apply under_spec in Hu as (rest & Hr). rewrite !Join_child, <- !str_app_assoc in Hr by done.
  apply (inj (String.append _)) in Hr. apply (inj (String.append "/")) in Hr.
  apply Forall_app in Hx as [_ [[[Hxs _] _] _]%Forall_cons].
  by apply (app_sep_inj SLASH) in Hr as [-> _].
Qed.

(** Acquire: the lock is taken, or nothing but the lock file has been created. *)
Lemma Acquire_inv path w r w' :
  Acquire path w = (r, w') ->
  (forall q, q <> path -> fs w' !! q = fs w !! q)
  /\ match r with
     | Ok _ => path ∉ locks w /\ locks w' = {[path]} ∪ locks w
     | Err e => locks w' = locks w
        /\ (path ∈ locks w -> (forall t, fails t = false) -> fs w !! path <> Some NDir -> e = SLockHeld path)
     end.
Proof.
  unfold Acquire. intros [(u & w1 & H1 & H2)|(e & H1 & ->)]%M_bind_inv.
  - apply mapErr_inv in H1 as (r0 & Ho & Hr0). unfold open_lockfile in Ho.
    apply syscall_inv in Ho as [(e & -> & _)|(a & f & -> & -> & Ha & _)]; [done|].
    assert (Hf : forall q, q <> path -> f !! q = fs w !! q).
    { intros q Hq. destruct (fs w !! path) as [[| |]|]; [by injection Ha as _ <-..|done|].
      injection Ha as _ <-. by apply lookup_insert_ne. }
    unfold flock in H2. cbn [tick step fs locks] in H2. destruct (fails (S (tick w))) eqn:Hfail.
    + injection H2 as <- <-. split; [done|]. split; [done|]. intros _ Hno. by rewrite Hno in Hfail.
    + case_bool_decide; injection H2 as <- <-; (split; [done|]); simpl; by auto.
  - apply mapErr_inv in H1 as (r0 & Ho & Hr0). unfold open_lockfile in Ho.
    apply syscall_inv in Ho as [(e' & -> & -> & Hw)|(a & f & -> & _)]; [|done]. injection Hr0 as ->.
    split; [done|]. split; [done|]. intros _ Hno Hnd. destruct Hw as [Hf|Ha]; [by rewrite Hno in Hf|].
    by destruct (fs w !! path) as [[| |]|].
Qed.

Lemma ReadPidFile_reads path w r w' : ReadPidFile path w = (r, w') -> reads w w'.
Proof.
  unfold ReadPidFile. intros [(r0 & w1 & H1 & H2)|(e & H1 & ->)]%M_bind_inv; unfold attempt in H1;
    destruct (read_file path w) as [r1 w0] eqn:Hr; [|done]. injection H1 as <- <-.
  apply read_file_reads in Hr. destruct r1 as [b|e].
  - destruct (atoi (trim_space b)); by injection H2 as _ <-.
  - destruct (is_not_exist e); by injection H2 as _ <-.
Qed.

Lemma lock_free_listenSocket path : lock_free (listenSocket path).
Proof.
  apply lock_free_bind; [apply lock_free_mapErr; intros w; apply lock_free_syscall|]. intros _ w. unfold on_err.
  pose proof (lock_free_mapErr AFs (chmod path 384) (lock_free_syscall _) w) as Hc.
  destruct (mapErr AFs (chmod path 384) w) as [[a|e] w1]; simpl in *; [done|].
  rewrite <- Hc. apply (lock_free_syscall _ w1).
Qed.

Lemma lock_free_ReadPidFile path : lock_free (ReadPidFile path).
Proof.
  apply lock_free_bind; [apply lock_free_attempt, lock_free_syscall|]. intros [b|e].
  - by destruct (atoi (trim_space b)).
  - by destruct (is_not_exist e).
Qed.

Lemma listen_bound p pid w r w' :
  (_ ← (ignore (remove (Socket p)) : M AErr unit);
   _ ← on_err (listenSocket (Socket p)) (release p);
   WritePidFile (PidFile p) pid) w = (r, w') -> r = Ok tt -> locks w' = locks w.
Proof.
  intros [(u & w1 & H1 & H2)|(e & _ & ->)]%M_bind_inv Hok; [|done].
  apply M_bind_inv in H2 as [(u2 & w2 & H2 & H3)|(e & _ & ->)]; [|done].
  pose proof (lock_free_ignore (F := AErr) (remove (Socket p)) (lock_free_syscall _) w) as L1. rewrite H1 in L1.
  pose proof (lock_free_listenSocket (Socket p) w1) as L2. unfold on_err in H2.
  destruct (listenSocket (Socket p) w1) as [[a|e] w3]; [|done]. injection H2 as _ <-.
  pose proof (lock_free_mapErr AFs _ (lock_free_write_file (PidFile p) (format_int pid +:+ str1 LF) 384) w3) as L3.
  change (mapErr AFs (write_file (PidFile p) (format_int pid +:+ str1 LF) 384) w3) with (WritePidFile (PidFile p) pid w3) in L3.
  rewrite H3 in L3. cbn [snd] in *. congruence.
Qed.

(** C32.  Two agents never share a runtime directory.  Listen succeeds only by taking
    the lock next to the pidfile, which it then holds; and while another agent holds
    it Listen fails, takes no lock and leaves the running agent's socket and pidfile
    as they are, whatever system calls fail. *)
Theorem Listen_exclusive l pid w r w' :
  Forall plain_elem l -> l <> [] ->
  let p := paths_in (abs_path l) in
  Listen signal0 p pid w = (r, w') ->
  (r = Ok tt -> LockPath p ∉ locks w /\ locks w' = {[LockPath p]} ∪ locks w)
  /\ (LockPath p ∈ locks w ->
       r <> Ok tt /\ locks w' = locks w
       /\ fs w' !! Socket p = fs w !! Socket p /\ fs w' !! PidFile p = fs w !! PidFile p).
Proof.
  intros Hl Hne p. unfold Listen.
  intros [(u & w1 & H1 & H2)|(e & H1 & ->)]%M_bind_inv; [|done].
  unfold ignore in H1. destruct (GcOrphanShells signal0 (ShellsDir p) w) as [rg wg] eqn:Hgc. injection H1 as _ <-. cbn [snd] in *.
  assert (Hlk : locks wg = locks w) by (pose proof (lock_free_gc (ShellsDir p) w) as Hg; by rewrite Hgc in Hg).
  assert (Hpl : forall x, plain_elem x -> Forall plain_elem (l ++ [x])).
  { intros x Hx. apply Forall_app. split; [done|]. by constructor. }
  assert (Hsock : fs wg !! Socket p = fs w !! Socket p)
    by (eapply gc_keeps_siblings; [apply Hpl; by repeat split|done|done|exact Hgc]).
  assert (Hpid : fs wg !! PidFile p = fs w !! PidFile p)
    by (eapply gc_keeps_siblings; [apply Hpl; by repeat split|done|done|exact Hgc]).
  apply M_bind_inv in H2 as [(ra & w2 & H2 & H3)|(e & H2 & ->)].
  2: { unfold attempt in H2. by destruct (Acquire _ _). }
  unfold attempt in H2. destruct (Acquire (LockPath p) wg) as [ra' w2'] eqn:Hacq. injection H2 as <- <-.
  apply Acquire_inv in Hacq as [Hfs Hra].
  assert (Hns : Socket p <> LockPath p /\ PidFile p <> LockPath p).
  { unfold LockPath. subst p. cbn [Socket PidFile paths_in]. unfold socketEndpoint.
    rewrite !Join_child by (done || (apply Hpl; by repeat split)). rewrite <- !str_app_assoc.
    split; intros He; apply (inj (String.append _)) in He; discriminate He. }
  destruct ra' as [[]|e].
  - destruct Hra as [Hnot Hlk2]. split; [intros Hok|intros Hin; rewrite Hlk in Hnot; by apply Hnot in Hin].
    rewrite <- Hlk. split; [done|]. rewrite <- Hlk2. by eapply listen_bound.
  - destruct Hra as [Hlk2 _].
    assert (Hend : r <> Ok tt /\ locks w' = locks w2' /\ fs w' = fs w2').
    { destruct e; try (injection H3 as <- <-; done).
      apply M_bind_inv in H3 as [(x & w3 & H3 & H4)|(x & H3 & ->)].
      - unfold attempt in H3. destruct (ReadPidFile (PidFile p) w2') as [rp wp] eqn:Hp. injection H3 as _ <-.
        injection H4 as <- <-. split; [done|]. split; [|apply reads_fs; by eapply ReadPidFile_reads].
        pose proof (lock_free_ReadPidFile (PidFile p) w2') as Hf. by rewrite Hp in Hf.
      - unfold attempt in H3. by destruct (ReadPidFile _ _). }
    destruct Hend as (Hr & Hlk3 & Hfs3). split; [done|]. intros _. split; [done|].
    rewrite Hlk3, Hlk2, Hlk, Hfs3. destruct Hns as [Hn1 Hn2].
    by rewrite !Hfs, Hsock, Hpid by done.
Qed.
End Reaping.

(** ** A runtime directory with a live shell, a dead one and a stray directory *)

#[local] Instance ex_os : Os := Toys.still_os None.

Definition ex_alive (pid : Z) : bool := (pid =? 12)%Z.
Definition ex_owner (_ : string) : Z := 1000%Z.
Definition ex_files : files :=
  {["/run/jitenv/shells" := NDir; "/run/jitenv/shells/12" := NDir; "/run/jitenv/shells/12/injected" := NFile "7" 384 0;
    "/run/jitenv/shells/34" := NDir; "/run/jitenv/shells/34/bin" := NDir; "/run/jitenv/shells/notes" := NDir]}.

Lemma GcOrphanShells_exact_witness :
  let w' := (GcOrphanShells ex_alive "/run/jitenv/shells" (start ex_files)).2 in
  fs w' !! "/run/jitenv/shells/12/injected" = Some (NFile "7" 384 0)
  /\ fs w' !! "/run/jitenv/shells/34/bin" = None /\ fs w' !! "/run/jitenv/shells/notes" = Some NDir.
Proof.
  destruct (GcOrphanShells ex_alive "/run/jitenv/shells" (start ex_files)) as [r w'] eqn:Hr. cbn [snd].
  destruct (GcOrphanShells_exact ex_alive ["run"; "jitenv"; "shells"] (start ex_files) r w') as ((gone & _ & Hfs & Hall) & _ & Hlive).
  - repeat constructor; done.
  - done.
  - vm_compute. reflexivity.
  - exact Hr.
  - split; [|rewrite Hfs, (Hall (fun _ => eq_refl)); split; vm_compute; reflexivity].
    rewrite (Hlive 12%N); [reflexivity|lia|reflexivity|vm_compute; reflexivity].
Defined.

Definition ex_paths : Paths := paths_in "/run/jitenv".
Definition ex_running : world := (Listen ex_alive ex_paths 12 (start ex_files)).2.

Lemma Listen_exclusive_witness :
  (Listen ex_alive ex_paths 12 (start ex_files)).1 = Ok tt
  /\ (Listen ex_alive ex_paths 99 ex_running).1 = Err (ARunning 12)
  /\ fs (Listen ex_alive ex_paths 99 ex_running).2 !! Socket ex_paths = Some (NFile "" 384 1760000000).
Proof.
  split; [vm_compute; reflexivity|]. split; [vm_compute; reflexivity|].
  destruct (Listen ex_alive ex_paths 99 ex_running) as [r w'] eqn:Hr. cbn [snd].
  destruct (Listen_exclusive ex_alive ["run"; "jitenv"] 99 ex_running r w') as [_ Hx].
  - repeat constructor; done.
  - done.
  - exact Hr.
  - destruct Hx as (_ & _ & Hs & _).
    + apply (bool_decide_unpack _). vm_compute. exact I.
    + change (Socket (paths_in (abs_path ["run"; "jitenv"]))) with (Socket ex_paths) in Hs. rewrite Hs.
      vm_compute. reflexivity.
Defined.

(** Reading back the pid another agent wrote. *)
Example pidfile_ex : (ReadPidFile "/run/jitenv/agent.pid" ex_running).1 = Ok 12%Z
  /\ (DefaultPaths 1000 ex_owner (fun _ => 493%Z) (start ∅)).1 = Ok (paths_in "/tmp/jitenv-1000").
Proof. vm_compute. done. Qed.
End Shells.
