(* ===== verification/AgentStop.v ===== *)
(** * Stopping the agent (src/internal/agent/server.go:Shutdown, AwaitSignal)

    Shutdown beside the accept loop and its handlers: it cancels, waits for the loop to
    return, waits for the handlers or for two seconds, and then removes the files and wipes
    the resolver, while handlers it gave up may still run. *)

From S2P Require Import Prelude GoString GoTime ConfigModel Mapping Crypto NameId Seal Toys Protocol Resolver Fs Store Shells Agent AgentSealed.
Import Config Mapping Crypto NameId Seal GoTime Protocol Resolver Agent.

Module AgentStop.

(** Where Shutdown is; at the end, the handlers that were still running then. *)
Inductive phase := Serving | Waiting | Draining | Stopped (late : gmap nat conn).

Record machine := mkMachine { srv : server; ph : phase; files : Fs.world }.

(** shutdownDrainTimeout, in nanoseconds. *)
Definition shutdownDrainTimeout : Z := 2 * 1000000000.

(** A request to read the configuration anew. *)
Definition asks_reload `{Codec Request} (c : conn) : bool :=
  match ReadMessage (A := Request) (input c) with Ok (req, _) => match ReqOp req with OpReload => true | _ => false end | Err _ => false end.

Section Stop.
Context `{Fs.Os} `{Remotes, MapRange, AEAD, NameMapCodec, Codec Request, Codec Response}.
Context (ds_match : string -> string -> option bool) (home cwd : option string).
Context (uid pid : Z) (akey : string) (builders : gmap string builder).
Context (fetch_text : FetchErr -> string) (load_text : LoadErr -> string) (frame_text : FrameErr -> string)
  (local_rfc3339 : Z -> string) (quoted : string -> string).
Context (paths : Shells.Paths) (cap : nat) (idle : Z).

#[local] Notation Step := (serve_step ds_match home cwd uid pid akey builders fetch_text load_text frame_text local_rfc3339 quoted cap idle).
#[local] Notation Handle := (handle ds_match home cwd uid pid akey builders fetch_text load_text frame_text local_rfc3339 quoted).

(** The files go, the lock is released, and the resolver is wiped and dropped. *)
Definition stop (m : machine) (late : gmap nat conn) : machine :=
  mkMachine (on_agent drop_resolver (srv m)) (Stopped late) (Shells.ShutdownFiles paths (files m)).2.

Inductive stop_step : machine -> machine -> Prop :=
| goes_on s s' p w : Step s s' -> stop_step (mkMachine s p w) (mkMachine s' p w)
| shutdown s w : stop_step (mkMachine s Serving w) (mkMachine (on_agent cancel s) Waiting w)
| loop_done s w : returned s <> None -> stop_step (mkMachine s Waiting w) (mkMachine s Draining w)
| drained s w : running s = ∅ -> stop_step (mkMachine s Draining w) (stop (mkMachine s Draining w) ∅)
| drain_timeout s w : stop_step (mkMachine s Draining w) (stop (mkMachine s Draining w) (running s)).

(** ** What is left behind *)

(** No resolver, and no local source with a bag. *)
Definition erased (a : agent) : Prop := aresolver a = None /\ forall c q, cells (aheap a) !! c <> Some (Some q).

Lemma dropped_erased a r cfg : serves home cwd a r cfg -> erased (drop_resolver a).
Proof. intros Hs. split; [done|]. by eapply drop_erases. Qed.

Lemma handle_no_reload a c : asks_reload c = false -> secrets_of (Handle a c).2 = secrets_of a.
Proof.
  unfold asks_reload, handle. destruct (deadline_err c); [done|]. destruct (checkPeerUid uid (cpeer c)); [done|].
  destruct (ReadMessage (input c)) as [[req rest]|e]; [|done]. intros Hr.
  destruct (dispatch_spec ds_match home cwd pid akey builders fetch_text load_text local_rfc3339 quoted (counted a c) c req) as [Hd|(Hop & _)].
  - destruct (dispatch _ _ _ _ _ _ _ _ _ _ _ _ _) as [resp a2]. simpl in Hd. subst a2. by destruct (ReqOp req).
  - by rewrite Hop in Hr.
Qed.

Lemma erased_secrets a a' : secrets_of a' = secrets_of a -> erased a -> erased a'.
Proof. unfold secrets_of, erased. intros [= -> ->]. done. Qed.

(** Before the end the agent serves a configuration and no later connection is taken once
    the loop is back; at the end only handlers that were given up can be running, and as
    long as none of them reloads, nothing is left. *)
Definition stop_inv (m : machine) : Prop :=
  match ph m with
  | Stopped late =>
      returned (srv m) <> None /\ running (srv m) ⊆ late
      /\ (map_Forall (fun _ c => asks_reload c = false) late -> erased (sagent (srv m)))
      /\ Shells.LockPath paths ∉ Fs.locks (files m)
  | p => (exists r cfg, serves home cwd (sagent (srv m)) r cfg) /\ (p = Draining -> returned (srv m) <> None)
  end.

Lemma on_agent_serves f s r cfg : (forall a, f a = a \/ f a = cancel a) -> serves home cwd (sagent s) r cfg -> serves home cwd (sagent (on_agent f s)) r cfg.
Proof.
  intros Hf. cbn. apply serves_secrets. destruct (Hf (sagent s)) as [->| ->]; done.
Qed.

Lemma idle_or_cancel now a : idle_tick idle now a = a \/ idle_tick idle now a = cancel a.
Proof. unfold idle_tick. destruct (_ <=? _)%Z; [by left|]. destruct (_ <? _)%Z; [by right|by left]. Qed.

(** What a step of the loop does to the parts the invariant is about. *)
Lemma serve_step_spec s s' :
  Step s s' ->
  (returned s <> None -> returned s' <> None /\ running s' ⊆ running s)
  /\ (forall r cfg, serves home cwd (sagent s) r cfg -> exists r' cfg', serves home cwd (sagent s') r' cfg')
  /\ (returned s <> None -> map_Forall (fun _ c => asks_reload c = false) (running s) -> erased (sagent s) -> erased (sagent s')).
Proof.
  destruct 1 as [s id c Hr Hk|s id [c Hc]|s now|s|s nc e Hr].
  - split_and!; [by intros []|unfold accept; destruct (_ <? _)%nat; eauto|by intros []].
  - unfold finish. rewrite Hc. destruct (Handle (sagent s) c) as [out a'] eqn:Hh. cbn [returned running sagent].
    assert (Ha : a' = (Handle (sagent s) c).2) by by rewrite Hh. split_and!.
    + intros Hr. split; [done|apply delete_subseteq].
    + intros r cfg Hs. destruct (handle_serves ds_match home cwd uid pid akey builders fetch_text load_text frame_text local_rfc3339 quoted _ _ _ c Hs)
        as (r' & cfg' & Hs' & _). rewrite Ha. eauto.
    + intros _ Hl. rewrite Ha. apply erased_secrets, handle_no_reload. by apply (Hl id).
  - split_and!; [done|intros r cfg Hs; exists r, cfg; apply on_agent_serves; [apply idle_or_cancel|done]|].
    intros _ _. apply erased_secrets. cbn. by destruct (idle_or_cancel now (sagent s)) as [->| ->].
  - split_and!; [done|intros r cfg Hs; exists r, cfg; apply on_agent_serves; [by right|done]|]. intros _ _. by apply erased_secrets.
  - split_and!; [by intros []|eauto|by intros []].
Qed.

Lemma ShutdownFiles_releases w : Shells.LockPath paths ∉ Fs.locks (Shells.ShutdownFiles paths w).2.
Proof.
  unfold Shells.ShutdownFiles, Fs.ignore, mbind, Fs.M_bind, Shells.release, Store.Release. cbn. set_solver.
Qed.

Lemma stop_step_inv m m' : stop_inv m -> stop_step m m' -> stop_inv m'.
Proof.
  intros Hi Hm. destruct Hm as [s s' p w Hs|s w|s w Hr|s w He|s w].
  - destruct (serve_step_spec _ _ Hs) as (Hr & Hsv & Her). destruct p as [| | |late]; cbn in *.
    1,2: destruct Hi as [(r & cfg & Hv) _]; split; [by eapply Hsv|done].
    + destruct Hi as [(r & cfg & Hv) Hret]. split; [by eapply Hsv|]. intros _. by apply Hr, Hret.
    + destruct Hi as (Hret & Hsub & He & Hl). destruct (Hr Hret) as [Hret' Hsub']. split_and!; [done|by etrans| |done].
      intros Hall. apply Her; [done| |by apply He]. intros id c Hc. apply (Hall id). by eapply lookup_weaken.
  - destruct Hi as [(r & cfg & Hv) _]. split; [exists r, cfg; by eapply on_agent_serves; [right|]|done].
  - destruct Hi as [Hv _]. by split.
  - destruct Hi as [(r & cfg & Hv) Hret]. cbn in *. split_and!; [by apply Hret|by rewrite He| |apply ShutdownFiles_releases].
    intros _. by eapply dropped_erased.
  - destruct Hi as [(r & cfg & Hv) Hret]. cbn in *. split_and!; [by apply Hret|done| |apply ShutdownFiles_releases].
    intros _. by eapply dropped_erased.
Qed.

Definition stop_init (a : agent) (w : Fs.world) : machine := mkMachine (serve_init a) Serving w.

End Stop.

(** ** An agent that is locked while a client fetches *)

#[local] Existing Instance toy_aead.
#[local] Existing Instance toy_rand.
#[local] Existing Instance no_remotes.
#[local] Existing Instance Toys.toy_codec.
#[local] Existing Instance AgentSealed.toy_request.
#[local] Existing Instance AgentSealed.toy_response.
#[local] Existing Instance map_range_default.
Definition stop_os : Fs.Os :=
  {| Fs.fails _ := false; Fs.partial _ := 0%nat; Fs.temp_rand _ _ := ""; Fs.clock _ := 0%Z; Fs.getenv _ := None |}.
Definition stop_paths : Shells.Paths := Shells.mkPaths "/run" "/run/agent.sock" "/run/agent.pid" "/run/agent.log" "/run/shells".
Definition stop_world : Fs.world :=
  Fs.mkWorld (list_to_map [("/run", Fs.NDir); ("/run/agent.sock", Fs.NFile "" 384 0); ("/run/agent.pid", Fs.NFile "77" 384 0)])
    0 0 {["/run/agent.pid.lock"]} [].

#[local] Notation StopStep := (@stop_step stop_os _ _ _ _ _ _ AgentSealed.noglob (Some "/h") (Some "/") 1000 77 toy_key AgentSealed.ex_builders
  (AgentSealed.silent _) (AgentSealed.silent _) (AgentSealed.silent _) (fun _ => "now") id stop_paths 2 0).
#[local] Notation Finish := (finish AgentSealed.noglob (Some "/h") (Some "/") 1000 77 toy_key AgentSealed.ex_builders (AgentSealed.silent _)
  (AgentSealed.silent _) (AgentSealed.silent _) (fun _ => "now") id).
#[local] Notation Stop := (@stop stop_os _ stop_paths).

Definition fetching : conn := AgentSealed.from AgentSealed.me AgentSealed.fetch_app AgentSealed.new_config.
Definition reloading : conn := AgentSealed.from AgentSealed.me (req_of OpReload) (AgentSealed.seal AgentSealed.new_config).

(** One connection in, Shutdown called, the loop back, and the handlers still at work. *)
Definition draining (c : conn) : machine :=
  mkMachine (accept_error (on_agent cancel (accept 2 (serve_init AgentSealed.ex_agent) 1 c)) true "") Draining stop_world.

Lemma draining_reached c : rtc StopStep (stop_init AgentSealed.ex_agent stop_world) (draining c).
Proof.
  eapply rtc_l; [apply goes_on, step_accept with (id := 1%nat) (c := c)|].
  { reflexivity. }
  { intros [Hs|[Hs|Hs]]; [by destruct Hs|by apply not_elem_of_nil in Hs|by apply not_elem_of_nil in Hs]. }
  eapply rtc_l; [apply shutdown|]. eapply rtc_l; [apply goes_on, step_return with (net_closed := true) (e := ""); reflexivity|].
  apply rtc_once, loop_done. done.
Qed.


(** A reload that outlasts the drain puts the secrets back behind the wipe. *)
Definition revived : machine :=
  let m := Stop (draining reloading) (running (srv (draining reloading))) in mkMachine (Finish (srv m) 1) (ph m) (files m).
Example late_reload_revives :
  rtc StopStep (stop_init AgentSealed.ex_agent stop_world) revived
  /\ (match ph revived with Stopped _ => true | _ => false end) = true
  /\ existsb (fun kv => match kv.2 with Some _ => true | None => false end) (map_to_list (cells (aheap (sagent (srv revived))))) = true.
Proof.
  split; [|split; vm_compute; reflexivity].
  etrans; [apply (draining_reached reloading)|]. eapply rtc_l; [apply drain_timeout|].
  apply rtc_once, goes_on, step_finish with (id := 1%nat). vm_compute. by eexists.
Qed.
End AgentStop.
