(* ===== verification/Shim.v ===== *)
(** * The wrapper shim (src/internal/shim/shim.go, shim_unix.go)

    What a wrapper symlink does when a shell runs it: find the real command behind
    the wrapper directory, decide whether this entry of an exec chain injects, and
    build the environment of the command.  A process is its argument, its
    environment block and its identities; the agent's answers, the user's key and
    the outcome of an inline unlock are what the outside gives. *)

From S2P Require Import Prelude GoString GoPath Mapping Fs Toys Shells.
Import GoPath Shells Fs.

Module Shim.

(** ** Environment blocks *)

Definition key_eq : ascii := "="%char.

(** The name of an entry: what is in front of its first "=". *)
Definition entry_key (e : string) : option string := i ← index_byte e key_eq; Some (str_take i e).
Definition entry_value (e : string) : string := match index_byte e key_eq with Some i => str_drop (S i) e | None => EmptyString end.

(** getenv, in Go as in libc: the first entry of a name counts. *)
Fixpoint lookup_env (block : list string) (k : string) : option string :=
  match block with
  | [] => None
  | e :: b => if bool_decide (entry_key e = Some k) then Some (entry_value e) else lookup_env b k
  end.

(** os.Environ: the block without empty entries and without the entries Go hides
    because an earlier one has their name. *)
Fixpoint environ_from (seen : gset string) (block : list string) : list string :=
  match block with
  | [] => []
  | e :: b =>
      match entry_key e with
      | Some k => if bool_decide (k ∈ seen) then environ_from seen b else e :: environ_from ({[k]} ∪ seen) b
      | None => if str_empty e then environ_from seen b else e :: environ_from seen b
      end
  end.

Definition environ (block : list string) : list string := environ_from ∅ block.

Definition binding (k v : string) : string := k +:+ "=" +:+ v.

Record proc := mkProc {
  arg0 : option string;
  block : list string;
  pgetppid : Z;
  pgetpid : Z;
  pgetpgid : option Z;
  pcwd : option string;
  prand : option string         (* sixteen random bytes *)
}.

Inductive Action := ActionContinue | ActionAbort | ActionUnlock.

Inductive ShErr :=
| ShNotFound (name dir : string)
| ShAborted
| ShPaths (e : AErr)
| ShNoCwd
| ShAgentDown (why : string)
| ShFs (e : FErr)
| ShNoShellDir.

(** What the process image is replaced with, and the notice printed before. *)
Record exec := mkExec { epath : string; eargv : list string; eenv : list string; enotice : option nat }.

Definition warnedMarker : string := "__JITENV_AGENT_WARNED".
Definition injectedMarker : string := "__JITENV_INJECTED".
Definition sessionNonce : string := "__JITENV_SESSION_NONCE".
Definition markerFilename : string := "injected".

Fixpoint xor_all (a b : string) (diff : N) : N :=
  match a, b with
  | String c a', String d b' =>
      xor_all a' b' (N.lor diff (N.lxor (N.of_nat (byte_val c)) (N.of_nat (byte_val d))))
  | _, _ => diff
  end.

Definition constantTimeEq (a b : string) : bool :=
  if negb (String.length a =? String.length b)%nat then false else (xor_all a b 0 =? 0)%N.

Definition hex_digit (n : N) : ascii := if (n <? 10)%N then Ascii.ascii_of_N (48 + n) else Ascii.ascii_of_N (87 + n).

Fixpoint hex (s : string) : string :=
  match s with
  | EmptyString => EmptyString
  | String c s' => let n := N.of_nat (byte_val c) in String (hex_digit (n / 16)) (String (hex_digit (n mod 16)) (hex s'))
  end.

(** isWrapDirShape, shellDirFromWrap *)
Definition isWrapDirShape (p : string) : bool :=
  if str_empty p then false
  else
    let clean := Clean p in
    if negb (String.eqb (Base clean) "bin") then false
    else
      let pidPart := Base (Dir clean) in
      if String.eqb pidPart "." || String.eqb pidPart "/" || str_empty pidPart then false
      else match atoi pidPart with Some pid => (0 <? pid)%Z | None => false end.

Definition shellDirFromWrap (wrapDir : string) : string :=
  if str_empty wrapDir then EmptyString
  else let clean := Clean wrapDir in
       if negb (String.eqb (Base clean) "bin") then EmptyString else Dir clean.

(** The process's own view of the outside: system calls as given, and its block as
    the environment. *)
Definition proc_os (o : Os) (pr : proc) : Os :=
  @Build_Os (@fails o) (@partial o) (@temp_rand o) (@clock o) (lookup_env (block pr)).

Section Shim.
Context `{MapRange} (o : Os) (pr : proc).
Context (uid : Z) (dir_owner dir_mode : string -> Z).
(** Client.FetchEnvCwd before and after an unlock, the key pressed, and whether the
    pre-run notice is enabled. *)
Context (agent_env unlocked_env : string -> string -> res string (gmap string string)) (WarnAndWait : Action)
  (notice_enabled : bool).

#[local] Instance shim_os : Os := proc_os o pr.

Definition env_of (k : string) : string := default EmptyString (lookup_env (block pr) k).

Definition injectionAlreadyApplied : bool :=
  let marker := env_of injectedMarker in
  if str_empty marker then false
  else let nonce := env_of sessionNonce in
       if str_empty nonce then false else constantTimeEq marker nonce.

Definition freshNonce : string :=
  match prand pr with
  | None => "pid-" +:+ format_int (pgetpid pr) +:+ "-fallback"
  | Some b => hex b
  end.

Definition shouldInject : bool :=
  let raw := env_of "__JITENV_SHELL_PID" in
  if str_empty raw then true
  else match atoi raw with
       | None => true
       | Some want => if (want <=? 0)%Z then true else (pgetppid pr =? want)%Z || (pgetpid pr =? want)%Z
       end.

Definition firstArg : string := default EmptyString (arg0 pr).

(** The loop of findWrapDirInPath over the entries of PATH. *)
Fixpoint scan_wrap_dirs (shellsAbs : string) (dirs : list string) : M ShErr string :=
  match dirs with
  | [] => mret EmptyString
  | d :: dirs' =>
      match (if str_empty d then None else Abs (pcwd pr) d) with
      | None => scan_wrap_dirs shellsAbs dirs'
      | Some abs =>
          if negb (has_prefix (abs +:+ "/") (shellsAbs +:+ "/")) || String.eqb abs shellsAbs
             || negb (isWrapDirShape abs)
          then scan_wrap_dirs shellsAbs dirs'
          else
            info ← attempt (stat abs);
            match info with
            | Ok NDir => mret abs
            | _ => scan_wrap_dirs shellsAbs dirs'
            end
      end
  end.

Definition findWrapDirInPath : M ShErr string :=
  r ← attempt (DefaultPaths uid dir_owner dir_mode);
  match r with
  | Err _ => mret EmptyString
  | Ok paths =>
      match Abs (pcwd pr) (ShellsDir paths) with
      | None => mret EmptyString
      | Some shellsAbs => scan_wrap_dirs shellsAbs (SplitList (env_of "PATH"))
      end
  end.

Definition markerFileSays (wrapDir : string) : M ShErr bool :=
  let shellDir := shellDirFromWrap wrapDir in
  if str_empty shellDir then mret false
  else r ← attempt (stat (Join [shellDir; markerFilename]));
       mret (match r with Ok _ => true | Err _ => false end).

Definition currentPgid : Z := default 0%Z (pgetpgid pr).

(** The deferred os.Remove of the temporary name runs on every path. *)
Definition writeMarkerFile (wrapDir : string) : M ShErr unit :=
  let shellDir := shellDirFromWrap wrapDir in
  if str_empty shellDir then throw ShNoShellDir
  else
    _ ← mapErr ShFs (mkdir_all shellDir);
    tmp ← mapErr ShFs (create_temp shellDir ("." +:+ markerFilename +:+ ".*.tmp"));
    r ← attempt (
      _ ← on_err (chmod tmp 384) (close tmp);
      _ ← on_err (write tmp (format_int currentPgid)) (close tmp);
      _ ← close tmp;
      rename tmp (Join [shellDir; markerFilename]));
    _ ← (ignore (remove tmp) : M ShErr unit);
    lift (wrap_err ShFs r).

Definition findExecutableInDir (dir name : string) : M ShErr (option string) :=
  let candidate := Join [dir; name] in
  info ← attempt (stat candidate);
  mret (match info with
        | Ok (NFile _ mode _) => if (Z.land mode 73 =? 0)%Z then None else Some candidate
        | _ => None
        end).

Fixpoint search_path (excludeAbs : string) (name : string) (dirs : list string) : M ShErr (option string) :=
  match dirs with
  | [] => mret None
  | d :: dirs' =>
      match (if str_empty d then None else Abs (pcwd pr) d) with
      | None => search_path excludeAbs name dirs'
      | Some abs =>
          if String.eqb abs excludeAbs then search_path excludeAbs name dirs'
          else
            c ← findExecutableInDir d name;
            match c with
            | Some candidate => mret (Some candidate)
            | None => search_path excludeAbs name dirs'
            end
      end
  end.

Definition lookPathExcluding (name excludeDir : string) : M ShErr string :=
  if contains_byte name SLASH then mret name
  else
    c ← search_path (default EmptyString (Abs (pcwd pr) excludeDir)) name (SplitList (env_of "PATH"));
    match c with Some p => mret p | None => throw (ShNotFound name excludeDir) end.

Definition fetchEnv (cmd : string) : M ShErr (gmap string string) :=
  paths ← mapErr ShPaths (DefaultPaths uid dir_owner dir_mode);
  _ ← mapErr (fun _ => ShAgentDown "socket") (stat (Socket paths));
  match pcwd pr with
  | None => throw ShNoCwd
  | Some pwd => lift (wrap_err ShAgentDown (agent_env pwd cmd))
  end.

Definition fetchAfterUnlock (cmd : string) : res ShErr (gmap string string) :=
  match pcwd pr with
  | None => Err ShNoCwd
  | Some pwd => wrap_err ShAgentDown (unlocked_env pwd cmd)
  end.

Definition is_agent_down (r : res ShErr (gmap string string)) : bool :=
  match r with Err (ShAgentDown _) => true | _ => false end.

(** The fetch of run with the countdown: the answer, or the error that is left. *)
Definition fetch_or_ask (cmd : string) : M ShErr (res ShErr (gmap string string)) :=
  r ← attempt (fetchEnv cmd);
  if is_agent_down r then
    match WarnAndWait with
    | ActionAbort => throw ShAborted
    | ActionUnlock => mret (match fetchAfterUnlock cmd with Ok env => Ok env | Err _ => r end)
    | ActionContinue => mret r
    end
  else mret r.

(** The environment after a successful fetch. *)
Definition injected_env (extra : gmap string string) : list string :=
  let env := environ (block pr) ++ ((fun kv => binding kv.1 kv.2) <$> map_range 50 extra) in
  let nonce := env_of sessionNonce in
  if str_empty nonce then
    env ++ [binding sessionNonce freshNonce; binding injectedMarker freshNonce]
  else env ++ [binding injectedMarker nonce].

Definition inject (invokedAs selfDir realPath : string) (argv : list string) : M ShErr exec :=
  let env := environ (block pr) in
  let alreadyWarned := String.eqb (env_of warnedMarker) "1" in
  if shouldInject && negb alreadyWarned then
    r ← fetch_or_ask invokedAs;
    match r with
    | Err (ShAgentDown _) =>
        _ ← (ignore (writeMarkerFile selfDir) : M ShErr unit);
        mret (mkExec realPath argv (env ++ [binding warnedMarker "1"]) None)
    | Err _ => mret (mkExec realPath argv env None)
    | Ok extra =>
        _ ← (ignore (writeMarkerFile selfDir) : M ShErr unit);
        let n := size extra in
        mret (mkExec realPath argv (injected_env extra)
                (if (0 <? n)%nat && notice_enabled then Some n else None))
    end
  else mret (mkExec realPath argv env None).

Definition self_dir : M ShErr string :=
  let d := env_of "__JITENV_WRAP_DIR" in
  let selfDir := if str_empty d then Dir firstArg else d in
  if negb (isWrapDirShape selfDir) then
    recovered ← findWrapDirInPath;
    mret (if str_empty recovered then selfDir else recovered)
  else mret selfDir.

Definition run (invokedAs : string) (args : list string) : M ShErr exec :=
  selfDir ← self_dir;
  realPath ← lookPathExcluding invokedAs selfDir;
  let argv := invokedAs :: args in
  marked ← (if injectionAlreadyApplied then mret true else markerFileSays selfDir : M ShErr bool);
  if (marked : bool) then mret (mkExec realPath argv (environ (block pr)) None)
  else inject invokedAs selfDir realPath argv.
End Shim.

(** ** What the command sees *)

Lemma entry_key_binding k v : contains_byte k key_eq = false -> entry_key (binding k v) = Some k.
Proof.
  intros Hk. unfold entry_key, binding. change ("=" +:+ v) with (String key_eq v).
  rewrite index_byte_app by done. cbn [mbind option_bind]. by rewrite str_take_app.
Qed.

Lemma entry_value_binding k v : contains_byte k key_eq = false -> entry_value (binding k v) = v.
Proof.
  intros Hk. unfold entry_value, binding. change ("=" +:+ v) with (String key_eq v).
  rewrite index_byte_app by done. replace (k +:+ String key_eq v) with ((k +:+ str1 key_eq) +:+ v) by (by rewrite <- str_app_assoc).
  replace (S (String.length k)) with (String.length (k +:+ str1 key_eq)) by (rewrite str_length_app; simpl; lia).
  apply str_drop_app.
Qed.

Lemma lookup_env_app b1 b2 k :
  lookup_env (b1 ++ b2) k = match lookup_env b1 k with Some v => Some v | None => lookup_env b2 k end.
Proof. induction b1 as [|e b1 IH]; simpl; [done|]. by case_bool_decide. Qed.

Lemma lookup_env_from seen b k :
  lookup_env (environ_from seen b) k = if bool_decide (k ∈ seen) then None else lookup_env b k.
Proof.
  revert seen. induction b as [|e b IH]; intros seen; simpl; [by case_bool_decide|].
  destruct (entry_key e) as [k'|] eqn:Hk.
  - case_bool_decide as Hin; simpl.
    + rewrite IH. case_bool_decide as Hs; [done|]. rewrite bool_decide_false; [done|]. intros [= ->]. done.
    + rewrite Hk, IH. destruct (decide (k' = k)) as [->|Hne].
      * rewrite !(bool_decide_true (Some k = Some k)) by done. by rewrite (bool_decide_false (k ∈ seen)).
      * rewrite !(bool_decide_false (Some k' = Some k)) by congruence.
        rewrite (bool_decide_ext (k ∈ {[k']} ∪ seen) (k ∈ seen)); [done|set_solver].
  - destruct (str_empty e); simpl; [|rewrite Hk]; rewrite IH; by repeat case_bool_decide.
Qed.

(** Hiding later duplicates does not change what is looked up. *)
Lemma lookup_environ b k : lookup_env (environ b) k = lookup_env b k.
Proof. unfold environ. rewrite lookup_env_from. by rewrite bool_decide_false by set_solver. Qed.

Lemma lookup_bindings (l : list (string * string)) k :
  NoDup l.*1 -> Forall (fun kv => contains_byte kv.1 key_eq = false) l ->
  lookup_env ((fun kv => binding kv.1 kv.2) <$> l) k = (list_to_map l : gmap string string) !! k.
Proof.
  induction l as [|[k' v] l IH]; intros Hnd HF; [done|]. apply NoDup_cons in Hnd as [Hk Hnd].
  apply Forall_cons in HF as [Hk' HF]. simpl in *. rewrite entry_key_binding, entry_value_binding by done.
  destruct (decide (k' = k)) as [->|Hne]; [by rewrite bool_decide_true, lookup_insert_eq|].
  rewrite bool_decide_false by congruence. rewrite lookup_insert_ne by done. by apply IH.
Qed.

Section Seen.
Context `{MapRange} (pr : proc).

(** The nonce the chain is marked with. *)
Definition chain_nonce : string :=
  if str_empty (env_of pr sessionNonce) then freshNonce pr else env_of pr sessionNonce.

Definition names_ok (extra : gmap string string) : Prop :=
  forall k, is_Some (extra !! k) -> contains_byte k key_eq = false.

(**  What an injected command reads.  For every name, getenv in the command
    gives the value the parent's environment already had, if any; the fetched value
    only where the parent had none; and the chain's markers only where neither had
    one. *)
Theorem injected_env_lookup extra k :
  names_ok extra ->
  lookup_env (injected_env pr extra) k =
    match lookup_env (block pr) k with
    | Some v => Some v
    | None =>
        match extra !! k with
        | Some v => Some v
        | None => if bool_decide (k = sessionNonce) then
                    (if str_empty (env_of pr sessionNonce) then Some (freshNonce pr) else None)
                  else if bool_decide (k = injectedMarker) then Some chain_nonce
                  else None
        end
    end.
Proof.
  intros Hok.
  assert (Hx : lookup_env ((fun kv => binding kv.1 kv.2) <$> map_range 50 extra) k = extra !! k).
  { rewrite lookup_bindings; [by rewrite list_to_map_map_range|apply NoDup_map_range_fst|].
    apply Forall_forall. intros [k' v] Hin. apply elem_of_map_range in Hin. apply Hok. by eexists. }
  assert (Hm : forall v, lookup_env [binding injectedMarker v] k = if bool_decide (k = injectedMarker) then Some v else None).
  { intros v. simpl. rewrite entry_key_binding, entry_value_binding by done.
    destruct (decide (k = injectedMarker)) as [->|Hne]; [by rewrite !bool_decide_true|]. by rewrite !bool_decide_false by congruence. }
  unfold injected_env, chain_nonce. destruct (str_empty (env_of pr sessionNonce)) eqn:Hn.
  - rewrite !lookup_env_app, lookup_environ, Hx. destruct (lookup_env (block pr) k); [done|]. destruct (extra !! k); [done|].
    change [binding sessionNonce (freshNonce pr); binding injectedMarker (freshNonce pr)]
      with ([binding sessionNonce (freshNonce pr)] ++ [binding injectedMarker (freshNonce pr)]).
    rewrite lookup_env_app, Hm. simpl. rewrite entry_key_binding, entry_value_binding by done.
    repeat case_bool_decide; congruence.
  - rewrite !lookup_env_app, lookup_environ, Hx. destruct (lookup_env (block pr) k) eqn:Hb; [done|].
    destruct (extra !! k); [done|]. rewrite Hm. repeat case_bool_decide; first [congruence|by subst].
Qed.
End Seen.

(** ** Once per chain *)

Lemma xor_all_zero a b d :
  String.length a = String.length b -> xor_all a b d = 0%N <-> d = 0%N /\ a = b.
Proof.
  revert b d. induction a as [|c a IH]; intros [|c' b] d Hl; simpl in *; try lia; [tauto|].
  rewrite IH by lia. rewrite N.lor_eq_0_iff, N.lxor_eq_0_iff. split.
  - intros [[-> Hc] ->]. split; [done|]. f_equal. apply Nat2N.inj in Hc.
    apply (f_equal Ascii.ascii_of_nat) in Hc. unfold byte_val in Hc. by rewrite !Ascii.ascii_nat_embedding in Hc.
  - intros [-> [= -> ->]]. done.
Qed.

Lemma constantTimeEq_spec a b : constantTimeEq a b = true <-> a = b.
Proof.
  unfold constantTimeEq. destruct (Nat.eqb_spec (String.length a) (String.length b)) as [Hl|Hl]; simpl.
  - rewrite N.eqb_eq, xor_all_zero by done. tauto.
  - split; [done|]. by intros ->.
Qed.

Lemma hex_nonempty b : b <> "" -> hex b <> "".
Proof. by destruct b. Qed.

(** A process entered with the environment an injection produced recognises the
    chain, unless the typing shell had a stale marker or an empty nonce. *)
Lemma injected_marks `{MapRange} pr extra pr2 :
  names_ok extra -> extra !! injectedMarker = None -> extra !! sessionNonce = None ->
  lookup_env (block pr) injectedMarker = None -> lookup_env (block pr) sessionNonce <> Some "" -> prand pr <> Some "" ->
  block pr2 = injected_env pr extra ->
  injectionAlreadyApplied pr2 = true.
Proof.
  intros Hok Hm Hn Hbm Hbn Hr Hb.
  unfold injectionAlreadyApplied, env_of. rewrite Hb, !injected_env_lookup, Hbm, Hm, Hn by done.
  rewrite (bool_decide_false (injectedMarker = sessionNonce)) by done.
  rewrite (bool_decide_true (injectedMarker = injectedMarker)), (bool_decide_true (sessionNonce = sessionNonce)) by done.
  cbn [default]. unfold chain_nonce, env_of. destruct (lookup_env (block pr) sessionNonce) as [nonce|] eqn:Hbs; simpl.
  - assert (Hne : nonce <> "") by congruence. apply str_empty_false in Hne. rewrite Hne, Hne. by apply constantTimeEq_spec.
  - assert (Hf : freshNonce pr <> "").
    { unfold freshNonce. destruct (prand pr) as [b|]; [apply hex_nonempty; congruence|]. discriminate. }
    apply str_empty_false in Hf. rewrite Hf. by apply constantTimeEq_spec.
Qed.

(**  A chain injects once.  If the environment of the typing shell has no stale
    marker and no empty nonce, then every shim entered with the environment an
    injection produced recognises the chain: whatever its other circumstances, the
    agent and the user's keys, it runs the command it finds with exactly that
    environment and prints no notice. *)
Theorem injected_chain_bypasses `{MapRange} pr extra pr2 :
  names_ok extra -> extra !! injectedMarker = None -> extra !! sessionNonce = None ->
  lookup_env (block pr) injectedMarker = None -> lookup_env (block pr) sessionNonce <> Some "" -> prand pr <> Some "" ->
  block pr2 = injected_env pr extra ->
  injectionAlreadyApplied pr2 = true
  /\ forall o uid dir_owner dir_mode agent_env unlocked_env key notice cmd args w,
       (run o pr2 uid dir_owner dir_mode agent_env unlocked_env key notice cmd args w).1 =
         (fun path => mkExec path (cmd :: args) (environ (block pr2)) None)
           <$> ((self_dir o pr2 uid dir_owner dir_mode ≫= lookPathExcluding o pr2 cmd) w).1.
Proof.
  intros Hok Hm Hn Hbm Hbn Hr Hb.
  assert (Happ : injectionAlreadyApplied pr2 = true) by (by apply (injected_marks pr extra)).
  split; [done|]. intros. unfold run. unfold mbind, M_bind.
  destruct (self_dir o pr2 uid dir_owner dir_mode w) as [[sd|e] w1]; [|done].
  destruct (lookPathExcluding o pr2 cmd sd w1) as [[path|e] w2]; [|done]. by rewrite Happ.
Qed.

(** ** Who injects *)

Section Gates.
Context `{MapRange} (o : Os) (pr : proc) (uid : Z) (dir_owner dir_mode : string -> Z).
Context (agent_env unlocked_env : string -> string -> res string (gmap string string)) (key : Action) (notice : bool).

Lemma fetch_or_ask_inv cmd w r w' :
  fetch_or_ask o pr uid dir_owner dir_mode agent_env unlocked_env key cmd w = (Ok (Ok r), w') ->
  exists pwd, pcwd pr = Some pwd /\ (agent_env pwd cmd = Ok r \/ key = ActionUnlock /\ unlocked_env pwd cmd = Ok r).
Proof.
  unfold fetch_or_ask. intros [(r0 & w1 & H1 & H2)|(e & H1 & [=])]%M_bind_inv.
  unfold attempt in H1. destruct (fetchEnv _ _ _ _ _ _ cmd w) as [r1 w1'] eqn:Hf. injection H1 as <- <-.
  destruct r1 as [env|e].
  - simpl in H2. injection H2 as -> _. unfold fetchEnv in Hf.
    apply M_bind_inv in Hf as [(paths & w2 & _ & Hf)|(? & _ & [=])].
    apply M_bind_inv in Hf as [(st & w3 & _ & Hf)|(? & _ & [=])].
    destruct (pcwd pr) as [pwd|]; [|done]. exists pwd. split; [done|]. left. unfold lift in Hf.
    destruct (agent_env pwd cmd); simpl in Hf; congruence.
  - destruct (is_agent_down (Err e)); [|by injection H2]. destruct key; [by injection H2|done|].
    unfold fetchAfterUnlock in H2. destruct (pcwd pr) as [pwd|]; [|by injection H2]. exists pwd. split; [done|].
    right. split; [done|]. destruct (unlocked_env pwd cmd); simpl in H2; [by injection H2 as -> _|by injection H2].
Qed.

End Gates.

(** ** The real command *)

Section Lookup.
Context (o : Os) (pr : proc).
#[local] Instance lookup_os : Os := proc_os o pr.

Definition executable (f : files) (p : string) : bool :=
  match follow link_depth f p with
  | Ok q => match f !! q with Some (NFile _ mode _) => negb (Z.land mode 73 =? 0)%Z | _ => false end
  | Err _ => false
  end.

(** The candidates, in the order of PATH. *)
Definition candidates (name excludeDir : string) : list string :=
  omap (fun d => abs ← (if str_empty d then None else Abs (pcwd pr) d);
                 if String.eqb abs (default EmptyString (Abs (pcwd pr) excludeDir)) then None else Some (Join [d; name]))
       (SplitList (env_of pr "PATH")).

Lemma findExecutable_spec dir name w r w' :
  findExecutableInDir o pr dir name w = (r, w') ->
  fs w' = fs w /\ exists found, r = Ok found
    /\ (forall p, found = Some p -> p = Join [dir; name] /\ executable (fs w) p = true)
    /\ ((forall t, fails t = false) -> found = if executable (fs w) (Join [dir; name]) then Some (Join [dir; name]) else None).
Proof.
  unfold findExecutableInDir, mbind, M_bind, attempt. destruct (stat (Join [dir; name]) w) as [r0 w0] eqn:Hs.
  intros [= <- <-]. unfold stat in Hs.
  apply syscall_inv in Hs as [(e & -> & -> & Hw)|(a & f & -> & -> & Ha & _)].
  - split; [done|]. exists None. split; [done|]. split; [done|]. intros Hno. destruct Hw as [Hf|Ha]; [by rewrite Hno in Hf|].
    unfold executable. destruct (follow _ _ _) as [q|]; [|done]. cbn [mbind res_bind] in Ha. by destruct (fs w !! q).
  - destruct (follow _ _ _) as [q|] eqn:Hq; [|done]. cbn [mbind res_bind] in Ha.
    destruct (fs w !! q) as [n|] eqn:Hn; [|done]. injection Ha as <- <-. split; [done|]. eexists. split; [done|].
    assert (He : executable (fs w) (Join [dir; name])
      = match n with NFile _ mode _ => negb (Z.land mode 73 =? 0)%Z | _ => false end) by (unfold executable; by rewrite Hq, Hn).
    rewrite He. destruct n as [c m t| |]; try done. destruct (Z.land m 73 =? 0)%Z; [done|].
    split; [by intros p [= <-]|done].
Qed.

(**  The shim never finds itself.  A name without a slash is resolved to the
    first executable among the entries of PATH whose absolute form differs from the
    wrapper directory's, and to nothing when there is none; whatever calls fail, the
    answer is one of those candidates, is executable, and no file is touched. *)
Theorem lookPathExcluding_spec name excludeDir w r w' :
  lookPathExcluding o pr name excludeDir w = (r, w') ->
  fs w' = fs w
  /\ (contains_byte name SLASH = true -> r = Ok name)
  /\ (contains_byte name SLASH = false ->
       (forall p, r = Ok p -> p ∈ candidates name excludeDir /\ executable (fs w) p = true)
       /\ ((forall t, fails t = false) ->
            r = of_option (ShNotFound name excludeDir)
                  (head (filter (fun p => executable (fs w) p = true) (candidates name excludeDir))))).
Proof.
  unfold lookPathExcluding. destruct (contains_byte name SLASH); [by intros [= <- <-]|].
  unfold candidates. set (ex := default EmptyString (Abs (pcwd pr) excludeDir)).
  intros Hr. assert (Hs : forall dirs w r w', search_path o pr ex name dirs w = (r, w') ->
    let cands := omap (fun d => abs ← (if str_empty d then None else Abs (pcwd pr) d);
                 if String.eqb abs ex then None else Some (Join [d; name])) dirs in
    fs w' = fs w /\ exists found, r = Ok found
      /\ (forall p, found = Some p -> p ∈ cands /\ executable (fs w) p = true)
      /\ ((forall t, fails t = false) -> found = head (filter (fun p => executable (fs w) p = true) cands))).
  { clear. induction dirs as [|d dirs IH]; intros w r w'; cbn [search_path].
    - intros [= <- <-]. cbv zeta. split; [done|]. by exists None.
    - simpl. destruct (if str_empty d then None else Abs (pcwd pr) d) as [abs|]; [|apply IH]. simpl.
      destruct (String.eqb abs ex); [apply IH|].
      intros [(c & w1 & H1 & H2)|(e & H1 & ->)]%M_bind_inv;
        apply findExecutable_spec in H1 as (Hfs & found & Hfound & Hin & Hex); [|done].
      injection Hfound as ->. destruct found as [p|].
      + injection H2 as <- <-. split; [done|]. exists (Some p). split; [done|]. split.
        * intros p' [= <-]. destruct (Hin _ eq_refl) as [-> ?]. split; [set_solver|done].
        * intros Hno. specialize (Hex Hno). destruct (executable (fs w) (Join [d; name])) eqn:He; [|done].
          injection Hex as ->. rewrite filter_cons, decide_True by done. done.
      + apply IH in H2 as (Hfs2 & found2 & -> & Hin2 & Hex2). rewrite Hfs in *. split; [done|]. exists found2.
        split; [done|]. split; [intros p Hp; destruct (Hin2 _ Hp); split; [set_solver|done]|].
        intros Hno. rewrite (Hex2 Hno), filter_cons. specialize (Hex Hno).
        destruct (executable (fs w) (Join [d; name])); [done|]. by rewrite decide_False. }
  apply M_bind_inv in Hr as [(c & w1 & H1 & H2)|(e & H1 & ->)].
  2: { apply Hs in H1 as (_ & found & [=] & _). }
  apply Hs in H1 as (Hfs & found & [= ->] & Hin & Hex).
  split; [by destruct found; injection H2 as _ <-|]. split; [done|]. intros _. split.
  - intros p ->. destruct found as [q|]; [|done]. injection H2 as -> _. by apply Hin.
  - intros Hno. rewrite <- (Hex Hno). by destruct found; injection H2 as <- _.
Qed.
End Lookup.

(** ** npm through its wrapper *)

Definition ex_os : Os := Toys.still_os None.

Definition ex_block : list string :=
  ["HOME=/h"; "PATH=/run/jitenv/shells/12/bin::/usr/bin"; "XDG_RUNTIME_DIR=/run";
   "__JITENV_WRAP_DIR=/run/jitenv/shells/12/bin"; "__JITENV_SHELL_PID=12"; "__JITENV_SESSION_NONCE=n0"; "TOKEN=mine"].

Definition ex_proc (b : list string) : proc := mkProc (Some "npm") b 12 40 (Some 40%Z) (Some "/work") (Some "0123456789abcdef").

Definition ex_world : world := start
  {["/run/jitenv/shells/12/bin/npm" := NLink "/usr/bin/jitenv"; "/usr/bin/jitenv" := NFile "" 493 0;
    "/usr/bin/npm" := NFile "" 493 0; "/run/jitenv" := NDir; "/run/jitenv/agent.sock" := NFile "" 384 0]}.

Definition ex_agent (pwd cmd : string) : res string (gmap string string) :=
  if String.eqb pwd "/work" && String.eqb cmd "npm" then Ok {["TOKEN" := "s3cret"; "DB" := "hunter2"]} else Ok ∅.
Definition ex_uid (_ : string) : Z := 1000%Z.
Definition ex_mode (_ : string) : Z := 448%Z.

#[local] Existing Instance map_range_default.

Definition ex_run (b : list string) : res ShErr exec * world :=
  run ex_os (ex_proc b) 1000 ex_uid ex_mode ex_agent ex_agent ActionContinue true "npm" ["ci"] ex_world.

Definition ex_extra : gmap string string := {["TOKEN" := "s3cret"; "DB" := "hunter2"]}.

Lemma ex_names_ok : names_ok ex_extra.
Proof.
  intros k [v Hv]. unfold ex_extra in Hv. apply lookup_insert_Some in Hv as [[<- _]|[_ Hv]]; [done|].
  by apply lookup_singleton_Some in Hv as [<- _].
Qed.

(** The fetched TOKEN is in the block but the command reads the parent's. *)
Lemma injected_env_lookup_witness :
  lookup_env (injected_env (ex_proc ex_block) ex_extra) "DB" = Some "hunter2"
  /\ binding "TOKEN" "s3cret" ∈ injected_env (ex_proc ex_block) ex_extra
  /\ lookup_env (injected_env (ex_proc ex_block) ex_extra) "TOKEN" = Some "mine".
Proof.
  split; [|split].
  - rewrite (injected_env_lookup (ex_proc ex_block) ex_extra "DB" ex_names_ok). vm_compute. reflexivity.
  - apply (bool_decide_unpack _). vm_compute. exact I.
  - rewrite (injected_env_lookup (ex_proc ex_block) ex_extra "TOKEN" ex_names_ok). vm_compute. reflexivity.
Defined.


Lemma injected_chain_bypasses_witness :
  injectionAlreadyApplied (ex_proc (injected_env (ex_proc ex_block) ex_extra)) = true
  /\ (ex_run (injected_env (ex_proc ex_block) ex_extra)).1
     = Ok (mkExec "/usr/bin/npm" ["npm"; "ci"] (environ (injected_env (ex_proc ex_block) ex_extra)) None).
Proof.
  destruct (injected_chain_bypasses (ex_proc ex_block) ex_extra (ex_proc (injected_env (ex_proc ex_block) ex_extra)))
    as [Happ Hrun]; try reflexivity; try (vm_compute; congruence).
  - exact ex_names_ok.
  - split; [exact Happ|]. unfold ex_run. rewrite Hrun. vm_compute. reflexivity.
Defined.

(** A stale marker in the typing shell's environment defeats the chain: its value
    shadows the one the first hop appends, and the second hop injects again. *)
Lemma stale_marker_reinjects :
  let b := "__JITENV_INJECTED=old" :: ex_block in
  injectionAlreadyApplied (ex_proc (injected_env (ex_proc b) ex_extra)) = false
  /\ match (ex_run (injected_env (ex_proc b) ex_extra)).1 with Ok ex => enotice ex | Err _ => None end = Some 2%nat.
Proof. vm_compute. done. Qed.

Lemma lookPathExcluding_spec_witness :
  (lookPathExcluding ex_os (ex_proc ex_block) "npm" "/run/jitenv/shells/12/bin/." ex_world).1 = Ok "/usr/bin/npm"
  /\ executable (fs ex_world) "/run/jitenv/shells/12/bin/npm" = true.
Proof.
  split; [|vm_compute; reflexivity].
  destruct (lookPathExcluding ex_os (ex_proc ex_block) "npm" "/run/jitenv/shells/12/bin/." ex_world) as [r w'] eqn:Hr.
  destruct (lookPathExcluding_spec ex_os (ex_proc ex_block) "npm" "/run/jitenv/shells/12/bin/." ex_world r w' Hr)
    as (_ & _ & Hx). destruct Hx as [_ Hx]; [reflexivity|]. cbn [fst]. rewrite Hx; [vm_compute; reflexivity|reflexivity].
Defined.
End Shim.
