(* ===== verification/Sha256.v ===== *)
(** * SHA-256 (crypto/sha256, as the sync engine uses it)

    The hash of the merge fence, in hexadecimal, executable. *)

From S2P Require Import Prelude GoString.

Module Sha256.

Local Open Scope N_scope.

Definition word : N := 4294967296.
Definition add32 (a b : N) : N := (a + b) mod word.
Definition rotr (n x : N) : N := N.lor (N.shiftr x n) (N.shiftl x (32 - n) mod word).
Definition not32 (x : N) : N := word - 1 - x.

Definition Sigma0 (x : N) : N := N.lxor (rotr 2 x) (N.lxor (rotr 13 x) (rotr 22 x)).
Definition Sigma1 (x : N) : N := N.lxor (rotr 6 x) (N.lxor (rotr 11 x) (rotr 25 x)).
Definition sigma0 (x : N) : N := N.lxor (rotr 7 x) (N.lxor (rotr 18 x) (N.shiftr x 3)).
Definition sigma1 (x : N) : N := N.lxor (rotr 17 x) (N.lxor (rotr 19 x) (N.shiftr x 10)).
Definition choose (x y z : N) : N := N.lxor (N.land x y) (N.land (not32 x) z).
Definition majority (x y z : N) : N := N.lxor (N.land x y) (N.lxor (N.land x z) (N.land y z)).

Definition primes : list N :=
  [2; 3; 5; 7; 11; 13; 17; 19; 23; 29; 31; 37; 41; 43; 47; 53; 59; 61; 67; 71; 73; 79; 83; 89; 97; 101; 103; 107; 109;
   113; 127; 131; 137; 139; 149; 151; 157; 163; 167; 173; 179; 181; 191; 193; 197; 199; 211; 223; 227; 229; 233; 239;
   241; 251; 257; 263; 269; 271; 277; 281; 283; 293; 307; 311].

(** The integer cube root, bit by bit from 2^[bits]. *)
Fixpoint cube_root (bits : nat) (n acc : N) : N :=
  match bits with
  | O => acc
  | S b => let c := acc + N.shiftl 1 (N.of_nat b) in cube_root b n (if c * c * c <=? n then c else acc)
  end.

(** The first 32 bits of the fractional parts of cube and square roots. *)
Definition round_constants : list N :=
  Eval vm_compute in map (fun p => cube_root 36 (N.shiftl p 96) 0 mod word) primes.
Definition initial_hash : list N :=
  Eval vm_compute in map (fun p => N.sqrt (N.shiftl p 64) mod word) (take 8 primes).

(** Sixteen words of a block, most significant byte first. *)
Fixpoint words (bytes : list N) : list N :=
  match bytes with
  | a :: b :: c :: d :: rest => (((a * 256 + b) * 256 + c) * 256 + d) :: words rest
  | _ => []
  end.

(** The message schedule, latest word first. *)
Fixpoint schedule (rounds : nat) (w : list N) : list N :=
  match rounds with
  | O => w
  | S n =>
      let at_ (i : nat) := nth i w 0 in
      schedule n (add32 (sigma1 (at_ 1%nat)) (add32 (at_ 6%nat) (add32 (sigma0 (at_ 14%nat)) (at_ 15%nat))) :: w)
  end.

Definition round (h : list N) (kw : N * N) : list N :=
  match h with
  | [a; b; c; d; e; f; g; hh] =>
      let t1 := add32 hh (add32 (Sigma1 e) (add32 (choose e f g) (add32 kw.1 kw.2))) in
      let t2 := add32 (Sigma0 a) (majority a b c) in
      [add32 t1 t2; a; b; c; add32 d t1; e; f; g]
  | _ => h
  end.

Definition block_step (h : list N) (block : list N) : list N :=
  let w := rev (schedule 48 (rev (words block))) in
  zip_with add32 h (fold_left round (zip round_constants w) h).

Fixpoint blocks (fuel : nat) (bytes : list N) : list (list N) :=
  match fuel with
  | O => []
  | S n => match bytes with [] => [] | _ => take 64 bytes :: blocks n (drop 64 bytes) end
  end.

Definition padded (bytes : list N) : list N :=
  let l := N.of_nat (length bytes) in
  let zeros := N.to_nat ((119 - l mod 64) mod 64) in
  bytes ++ [128] ++ repeat 0 zeros
  ++ map (fun i => N.shiftr (l * 8) (8 * i) mod 256) [7; 6; 5; 4; 3; 2; 1; 0].

Fixpoint bytes_of (s : string) : list N :=
  match s with EmptyString => [] | String c s' => N.of_nat (byte_val c) :: bytes_of s' end.

Definition hex_digit (n : N) : ascii := Ascii.ascii_of_N (if n <? 10 then 48 + n else 87 + n).

Definition hex_word (w : N) : string :=
  foldr (fun i acc => String (hex_digit (N.shiftr w (4 * i) mod 16)) acc) EmptyString [7; 6; 5; 4; 3; 2; 1; 0].

(** hex.EncodeToString(sha256.Sum256(s)) *)
Definition sha256_hex (s : string) : string :=
  let p := padded (bytes_of s) in
  foldr (fun w acc => hex_word w +:+ acc) EmptyString
        (fold_left block_step (blocks (S (length p)) p) initial_hash).

(** Published test vectors: one block, and a message that needs two. *)
Example sha256_abc :
  sha256_hex "abc" = "ba7816bf8f01cfea414140de5dae2223b00361a396177a9cb410ff61f20015ad".
Proof. vm_compute. reflexivity. Qed.

Example sha256_two_blocks :
  sha256_hex "abcdbcdecdefdefgefghfghighijhijkijkljklmklmnlmnomnopnopq" =
  "248d6a61d20638b8e5c026930c3e6039a33ce45964ff2167f6ecedd419db06c1".
Proof. vm_compute. reflexivity. Qed.

Example sha256_empty :
  sha256_hex "" = "e3b0c44298fc1c149afbf4c8996fb92427ae41e4649b934ca495991b7852b855".
Proof. vm_compute. reflexivity. Qed.

(** Never the empty string, which the fence reserves for "no base". *)
Lemma hex_word_nonempty w s : hex_word w +:+ s <> "".
Proof. unfold hex_word. simpl. discriminate. Qed.

Lemma length_zip_with_some h h' : h <> [] -> h' <> [] -> zip_with add32 h h' <> [].
Proof. by destruct h, h'. Qed.

Lemma round_nonempty h kw : h <> [] -> round h kw <> [].
Proof. by destruct h as [|? [|? [|? [|? [|? [|? [|? [|? [|? ?]]]]]]]]]. Qed.

Lemma block_step_nonempty h b : h <> [] -> block_step h b <> [].
Proof.
  intros Hh. unfold block_step. cbv zeta. apply length_zip_with_some; [done|].
  generalize (zip round_constants (rev (schedule 48 (rev (words b))))). intros l. revert h Hh.
  induction l as [|kw l IH]; intros h Hh; [done|]. simpl. by apply IH, round_nonempty.
Qed.

Lemma sha256_nonempty s : sha256_hex s <> "".
Proof.
  unfold sha256_hex. cbv zeta. set (l := blocks _ _).
  assert (Hne : fold_left block_step l initial_hash <> []).
  { assert (Hi : initial_hash <> []) by done. revert Hi. generalize initial_hash. generalize l. clear.
    induction l as [|b l IH]; intros h Hh; [done|]. simpl. by apply IH, block_step_nonempty. }
  destruct (fold_left block_step l initial_hash) as [|w ws]; [done|]. apply hex_word_nonempty.
Qed.
End Sha256.
