(* ===== verification/Sync.v ===== *)
(** * Configuration sync (src/internal/syncconfig)

    The sidecar with its wrapped data key, the sealed blob, the merge decision and
    the push and pull engine.  A remote is whatever an adapter reads and writes: the
    engine is written against the interface [Remote] and threads its state. *)

From S2P Require Import Prelude GoString Base64 ConfigModel Crypto Store Sha256.
Import Config Crypto Store.

Module Sync.

(** ** Merge decisions (merge.go) *)

Inductive MergeDecision :=
| DecideNoop | DecideFastForward | DecidePushNeeded | DecideDiverged | DecideNoRemote | DecideNoBase.

#[export] Instance MergeDecision_eq_dec : EqDecision MergeDecision.
Proof. solve_decision. Defined.

Definition decision_string (d : MergeDecision) : string :=
  match d with
  | DecideNoop => "up-to-date"
  | DecideFastForward => "behind (pull will fast-forward)"
  | DecidePushNeeded => "ahead (push to publish local changes)"
  | DecideDiverged => "diverged (local and remote both changed)"
  | DecideNoRemote => "no remote state yet (push to publish)"
  | DecideNoBase => "no local base snapshot (pull blocked; reconcile manually)"
  end.

Definition Decide (localHash remoteHash baseHash : string) (remotePresent : bool) : MergeDecision :=
  if negb remotePresent then DecideNoRemote
  else if String.eqb localHash remoteHash then DecideNoop
  else if str_empty baseHash then DecideNoBase
  else
    let localChanged := negb (String.eqb localHash baseHash) in
    let remoteChanged := negb (String.eqb remoteHash baseHash) in
    if negb localChanged && remoteChanged then DecideFastForward
    else if localChanged && negb remoteChanged then DecidePushNeeded
    else if localChanged && remoteChanged then DecideDiverged
    else DecideNoop.

(** ** Hashes, the data key and blobs (syncconfig.go) *)

Definition HashConfig (configBytes : string) : string := Sha256.sha256_hex configBytes.

Definition dekWrapAAD : string := "sync.dek".
Definition blobSealAADPrefix : string := "sync.blob".
Definition blobAAD (metaHash : string) : string := blobSealAADPrefix +:+ ":" +:+ metaHash.

Record SMeta := mkSMeta { Hash : string; SchemaVersion : Z }.

Record Adapter := mkAdapter { AName : string; AType : string; AParams : gmap string any; BaseHash : string }.

Record File := mkFile {
  FVersion : Z;
  FSalt : string;
  FArgonTime : Z;
  FArgonMemoryKiB : Z;
  FArgonThreads : Z;
  WrappedDEK : string;
  Adapters : list Adapter
}.

Definition SidecarVersion : Z := 1.

Inductive SyErr :=
| NoRemoteState
| RemoteIncomplete
| PreconditionFailed
| AdapterErr (what : string)
| PushIncomplete
| PushCheck (e : SyErr)
| PushNoBase (remote : string)
| PushAdvanced (remote base : string)
| PushConcurrent (force : bool)
| SealFailed (e : CErr)
| PullIncomplete
| Divergence (d : MergeDecision) (local remote base : string)
| OpenFailed
| HashMismatch (got claims : string)
| BadSidecarSalt
| WeakKDF
| NoWrappedDEK
| WrongPassphrase
| ParamErr (e : CErr).

Section Keys.
Context `{AEAD, Rand, Argon}.

Definition argonParams (f : File) : res SyErr (ArgonParams * string) :=
  match Base64.decode (FSalt f) with
  | None => Err BadSidecarSalt
  | Some salt =>
      let p := mkParams (FArgonTime f) (FArgonMemoryKiB f) (FArgonThreads f) in
      if (Time p <? MinArgonTime)%Z || (MemKiB p <? MinArgonMemKiB)%Z || (Threads p <? MinArgonThreads)%Z
         || (String.length salt <? MinSaltLen)%nat
      then Err WeakKDF else Ok (p, salt)
  end.

Definition DeriveMasterKey (f : File) (passphrase : string) : res SyErr string :=
  '(p, salt) ← argonParams f; Ok (DeriveKey passphrase salt p).

Definition NewDEK : R CErr string := rand_bytes KeyLen.

Definition with_dek (f : File) (env : string) : File :=
  mkFile (FVersion f) (FSalt f) (FArgonTime f) (FArgonMemoryKiB f) (FArgonThreads f) env (Adapters f).

Definition WrapDEK (f : File) (masterKey dek : string) : R CErr File :=
  env ← EncryptFieldBytes masterKey dek dekWrapAAD; mret (with_dek f env).

Definition UnwrapDEK (f : File) (masterKey : string) : res SyErr string :=
  if str_empty (WrappedDEK f) then Err NoWrappedDEK
  else match DecryptFieldBytes masterKey (WrappedDEK f) dekWrapAAD with
       | Ok dek => Ok dek
       | Err _ => Err WrongPassphrase
       end.

Definition SealBlob (dek configBytes metaHash : string) : R CErr string := Seal dek configBytes (blobAAD metaHash).

Definition OpenBlob (dek blob metaHash : string) : res SyErr string :=
  match Open dek blob (blobAAD metaHash) with Ok pt => Ok pt | Err _ => Err OpenFailed end.

(** ** Adapter parameters (params.go) *)

(** [None] is the panic of AAD on an empty name or key. *)
Definition adapterParamAAD (adapterName key : string) : option string := AAD ["syncadapter"; adapterName; key].

Definition encrypt_param (masterKey name : string) (ps : gmap string any) (kv : string * any)
    : R CErr (gmap string any) :=
  match kv.2 with
  | AStr s =>
      if str_empty s || IsEnvelope s then mret ps
      else match adapterParamAAD name kv.1 with
           | None => R_err AADPanic
           | Some ad => env ← EncryptField masterKey s ad; mret (<[kv.1 := AStr env]> ps)
           end
  | _ => mret ps
  end.

Definition with_params (a : Adapter) (ps : gmap string any) : Adapter := mkAdapter (AName a) (AType a) ps (BaseHash a).
Definition with_base (a : Adapter) (h : string) : Adapter := mkAdapter (AName a) (AType a) (AParams a) h.

Context `{MapRange}.

Definition EncryptParams (masterKey : string) (a : Adapter) : R CErr Adapter :=
  ps ← R_fold (encrypt_param masterKey (AName a)) (AParams a) (map_range 60 (AParams a)); mret (with_params a ps).

Definition decrypt_param (masterKey name : string) (out : gmap string any) (kv : string * any)
    : res CErr (gmap string any) :=
  match kv.2 with
  | AStr s =>
      if negb (IsEnvelope s) then Ok (<[kv.1 := AStr s]> out)
      else match adapterParamAAD name kv.1 with
           | None => Err AADPanic
           | Some ad => pt ← DecryptField masterKey s ad; Ok (<[kv.1 := AStr pt]> out)
           end
  | v => Ok (<[kv.1 := v]> out)
  end.

Definition DecryptParams (masterKey : string) (a : Adapter) : res CErr (gmap string any) :=
  res_fold (decrypt_param masterKey (AName a)) ∅ (map_range 61 (AParams a)).
End Keys.

(** FindAdapter, and what assigning through the pointer it returns does. *)
Fixpoint find_from (i : nat) (l : list Adapter) (name : string) : option (Adapter * nat) :=
  match l with
  | [] => None
  | a :: l' => if String.eqb (AName a) name then Some (a, i) else find_from (S i) l' name
  end.

Definition FindAdapter (f : File) (name : string) : option (Adapter * nat) := find_from 0 (Adapters f) name.

Definition with_adapter (f : File) (i : nat) (a : Adapter) : File :=
  mkFile (FVersion f) (FSalt f) (FArgonTime f) (FArgonMemoryKiB f) (FArgonThreads f) (WrappedDEK f)
         (<[i := a]> (Adapters f)).

Definition SetBaseHash (f : File) (name hash : string) : File :=
  match FindAdapter f name with
  | Some (a, i) => with_adapter f i (with_base a hash)
  | None => f
  end.

(** ** The engine (engine.go) *)

(** syncadapter.Adapter's Pull and Push over the state of a remote. *)
Class Remote (W : Type) := {
  remote_pull : W -> res SyErr (string * SMeta) * W;
  remote_push : string -> SMeta -> W -> res SyErr unit * W
}.

Definition short (h : string) : string :=
  if str_empty h then "-" else if (12 <? String.length h)%nat then str_take 12 h else h.

Record PullResult := mkPull { PDecision : MergeDecision; Applied : option string; PHash : string }.

Section Engine.
Context `{AEAD, Rand} {W : Type} `{Remote W}.

(** The soft fence: what a push without force refuses. *)
Definition push_fence (pulled : res SyErr (string * SMeta)) (base localHash : string) : option SyErr :=
  match pulled with
  | Err NoRemoteState => None
  | Err RemoteIncomplete => Some PushIncomplete
  | Err e => Some (PushCheck e)
  | Ok (_, rmeta) =>
      if str_empty base then
        if negb (String.eqb (Hash rmeta) localHash) then Some (PushNoBase (short (Hash rmeta))) else None
      else if negb (String.eqb (Hash rmeta) base) && negb (String.eqb (Hash rmeta) localHash) then
        Some (PushAdvanced (short (Hash rmeta)) (short base))
      else None
  end.

(** PushConfig: the new anchor on success, the adapter entry, the next random draw
    and the remote. *)
Definition PushConfig (ad : Adapter) (dek cfgBytes : string) (schemaVersion : Z) (force : bool) (n : nat) (w : W)
    : res SyErr string * Adapter * nat * W :=
  let localHash := HashConfig cfgBytes in
  let '(pulled, w1) := remote_pull w in
  match (if force then None else push_fence pulled (BaseHash ad) localHash) with
  | Some e => (Err e, ad, n, w1)
  | None =>
      match SealBlob dek cfgBytes localHash n with
      | Err e => (Err (SealFailed e), ad, n, w1)
      | Ok (blob, n1) =>
          let '(pushed, w2) := remote_push blob (mkSMeta localHash schemaVersion) w1 in
          match pushed with
          | Err PreconditionFailed => (Err (PushConcurrent force), ad, n1, w2)
          | Err e => (Err e, ad, n1, w2)
          | Ok _ => (Ok localHash, with_base ad localHash, n1, w2)
          end
      end
  end.

Definition PullConfig (ad : Adapter) (dek localCfgBytes : string) (adopt : bool) (w : W)
    : res SyErr PullResult * Adapter * W :=
  let localHash := HashConfig localCfgBytes in
  let '(pulled, w1) := remote_pull w in
  match pulled with
  | Err RemoteIncomplete => (Err PullIncomplete, ad, w1)
  | _ =>
      let missing := match pulled with Err NoRemoteState => true | _ => false end in
      match (if missing then Ok (EmptyString, mkSMeta EmptyString 0) else pulled) with
      | Err e => (Err e, ad, w1)
      | Ok (blob, rmeta) =>
          let decision0 := Decide localHash (Hash rmeta) (BaseHash ad) (negb missing) in
          let decision := if bool_decide (decision0 = DecideNoBase) && adopt then DecideFastForward else decision0 in
          match decision with
          | DecideNoRemote | DecidePushNeeded => (Ok (mkPull decision None localHash), ad, w1)
          | DecideNoop => (Ok (mkPull decision None localHash), with_base ad localHash, w1)
          | DecideDiverged | DecideNoBase =>
              (Err (Divergence decision localHash (Hash rmeta) (BaseHash ad)), ad, w1)
          | DecideFastForward =>
              match OpenBlob dek blob (Hash rmeta) with
              | Err e => (Err e, ad, w1)
              | Ok plaintext =>
                  if negb (String.eqb (HashConfig plaintext) (Hash rmeta)) then
                    (Err (HashMismatch (short (HashConfig plaintext)) (short (Hash rmeta))), ad, w1)
                  else (Ok (mkPull decision (Some plaintext) (Hash rmeta)), with_base ad (Hash rmeta), w1)
              end
          end
      end
  end.
End Engine.

(** ** The merge table *)

(** What Decide answers, as a table over which of the three snapshots agree. *)
Lemma Decide_spec l r b present :
  match Decide l r b present with
  | DecideNoRemote => present = false
  | DecideNoop => present = true /\ l = r
  | DecideNoBase => present = true /\ l <> r /\ b = ""
  | DecideFastForward => present = true /\ l = b /\ r <> b /\ b <> ""
  | DecidePushNeeded => present = true /\ l <> b /\ r = b /\ b <> ""
  | DecideDiverged => present = true /\ l <> b /\ r <> b /\ l <> r /\ b <> ""
  end.
Proof.
  unfold Decide. destruct present; [|done]. cbn [negb].
  destruct (String.eqb_spec l r) as [->|Hlr]; [done|].
  str_cases b; [done|].
  destruct (String.eqb_spec l b) as [->|Hlb], (String.eqb_spec r b) as [->|Hrb]; simpl; done.
Qed.
End Sync.
