(* ===== verification/SyncProtocol.v ===== *)
(** * Several machines and one remote

    The push and pull engine run by any number of machines that share a remote: an
    execution is a sequence of edits, pushes and pulls.  The history of what was
    published is a ghost of the model.  Force and adopt, with which a user opts out
    of the fence, are not steps. *)

From S2P Require Import Prelude GoString ConfigModel Crypto Store Sha256 Sync.
Import Crypto Sync.

Module SyncProtocol.

Section Facts.
Context `{AEAD, Rand} {W : Type} `{Remote W}.

Lemma PushConfig_ok ad dek cfg ver force n w h ad' n' w' :
  PushConfig ad dek cfg ver force n w = (Ok h, ad', n', w') ->
  h = HashConfig cfg /\ ad' = with_base ad h
  /\ exists blob, SealBlob dek cfg h n = Ok (blob, n')
     /\ remote_push blob (mkSMeta h ver) (remote_pull w).2 = (Ok tt, w')
     /\ (force = false -> push_fence (remote_pull w).1 (BaseHash ad) h = None).
Proof.
  unfold PushConfig. destruct (remote_pull w) as [pulled w1]. cbn [fst snd].
  destruct (if force then None else push_fence pulled (BaseHash ad) (HashConfig cfg)) eqn:Hf; [done|].
  destruct (SealBlob dek cfg (HashConfig cfg) n) as [[blob n1]|e] eqn:Hs; [|done].
  destruct (remote_push blob _ w1) as [[[]|e] w2] eqn:Hp; [|by destruct e].
  intros [= <- <- <- <-]. split; [done|]. split; [done|]. exists blob. split; [done|]. split; [done|].
  intros ->. done.
Qed.

(** A failed push leaves the anchor alone. *)
Lemma PushConfig_err ad dek cfg ver force n w e ad' n' w' :
  PushConfig ad dek cfg ver force n w = (Err e, ad', n', w') -> ad' = ad.
Proof.
  unfold PushConfig. destruct (remote_pull w) as [pulled w1]. destruct (if force then _ else _); [by intros [= _ <-]|].
  destruct (SealBlob _ _ _ _) as [[blob n1]|]; [|by intros [= _ <-]].
  destruct (remote_push _ _ _) as [[u|e'] w2]; [done|]. destruct e'; by intros [= _ <-].
Qed.

(** An applied pull: the decision, the blob it opened and what it checked. *)
Lemma PullConfig_applied ad dek cfg adopt w r ad' w' pt :
  PullConfig ad dek cfg adopt w = (Ok r, ad', w') -> Applied r = Some pt ->
  exists blob meta, (remote_pull w).1 = Ok (blob, meta)
    /\ (Decide (HashConfig cfg) (Hash meta) (BaseHash ad) true = DecideFastForward
        \/ (adopt = true /\ Decide (HashConfig cfg) (Hash meta) (BaseHash ad) true = DecideNoBase))
    /\ OpenBlob dek blob (Hash meta) = Ok pt /\ HashConfig pt = Hash meta
    /\ ad' = with_base ad (Hash meta) /\ PHash r = Hash meta /\ PDecision r = DecideFastForward.
Proof.
  unfold PullConfig. destruct (remote_pull w) as [pulled w1]. cbn [fst]. intros Hr Ha.
  destruct pulled as [[blob meta]|e].
  - cbn [negb] in Hr. set (d := Decide _ _ _ _) in *. destruct (bool_decide (d = DecideNoBase) && adopt) eqn:Hb.
    + bools. exists blob, meta. split; [done|]. split; [right; split; done|].
      destruct (OpenBlob dek blob (Hash meta)) as [p|]; [|done].
      destruct (String.eqb_spec (HashConfig p) (Hash meta)); [|done]. cbn [negb] in Hr.
      injection Hr as <- <- <-. injection Ha as ->. done.
    + destruct d eqn:Hd; try (injection Hr as <- _ _; done); try done.
      exists blob, meta. split; [done|]. split; [by left|].
      destruct (OpenBlob dek blob (Hash meta)) as [p|]; [|done].
      destruct (String.eqb_spec (HashConfig p) (Hash meta)); [|done]. cbn [negb] in Hr.
      injection Hr as <- <- <-. injection Ha as ->. done.
  - exfalso. destruct e; try done. cbn [negb Decide] in Hr. rewrite bool_decide_false in Hr by done.
    cbn [andb] in Hr. by injection Hr as <- _ _.
Qed.

Lemma open_step ad dek blob meta d (w1 w' : W) (r : res SyErr PullResult) ad' :
  match OpenBlob dek blob (Hash meta) with
  | Err e => (Err e, ad, w1)
  | Ok pt =>
      if negb (String.eqb (HashConfig pt) (Hash meta)) then
        (Err (HashMismatch (short (HashConfig pt)) (short (Hash meta))), ad, w1)
      else (Ok (mkPull d (Some pt) (Hash meta)), with_base ad (Hash meta), w1)
  end = (r, ad', w') ->
  ad' = ad \/ exists res, r = Ok res /\ ad' = with_base ad (PHash res)
    /\ (exists blob0 meta0, @Ok SyErr _ (blob, meta) = Ok (blob0, meta0) /\ PHash res = Hash meta0)
    /\ (PDecision res = DecideNoop \/ is_Some (Applied res)).
Proof.
  destruct (OpenBlob dek blob (Hash meta)) as [pt|]; [|intros Hr; injection Hr as _ <- _; by left].
  destruct (negb _); intros Hr; [injection Hr as _ <- _; by left|].
  injection Hr as <- <- _. right. eexists. split; [done|]. split; [done|].
  split; [by exists blob, meta|by right].
Qed.

(** The anchor after a pull is the old one or the hash of what local now is. *)
Lemma PullConfig_base ad dek cfg adopt w r ad' w' :
  PullConfig ad dek cfg adopt w = (r, ad', w') ->
  ad' = ad \/ exists res, r = Ok res /\ ad' = with_base ad (PHash res)
    /\ (exists blob meta, (remote_pull w).1 = Ok (blob, meta) /\ PHash res = Hash meta)
    /\ (PDecision res = DecideNoop \/ is_Some (Applied res)).
Proof.
  unfold PullConfig. destruct (remote_pull w) as [pulled w1]. cbn [fst]. destruct pulled as [[blob meta]|e].
  - cbn [negb]. set (d := Decide _ _ _ _).
    assert (Hd : d = DecideNoop -> HashConfig cfg = Hash meta).
    { intros Hd. pose proof (Decide_spec (HashConfig cfg) (Hash meta) (BaseHash ad) true) as Hs. fold d in Hs.
      rewrite Hd in Hs. by destruct Hs. }
    destruct (bool_decide (d = DecideNoBase) && adopt).
    + apply open_step.
    + destruct d; try (intros Hr; injection Hr as _ <- _; by left); [|apply open_step].
      intros Hr. injection Hr as <- <- _. right. eexists. split; [done|]. split; [done|].
      split; [exists blob, meta; split; [done|by apply Hd]|by left].
  - destruct e; try (intros Hr; injection Hr as _ <- _; by left).
Qed.
End Facts.

(** ** The shared remote *)

#[export] Instance ideal_remote : Remote (option (string * SMeta)) := {|
  remote_pull w := (match w with Some p => Ok p | None => Err NoRemoteState end, w);
  remote_push blob meta _ := (Ok tt, Some (blob, meta))
|}.

(** A machine: the bytes of its config.toml and its entry of the sidecar. *)
Record node := mkNode { content : string; entry : Adapter }.

(** What was published: the bytes and the pair the remote was given. *)
Record version := mkVersion { vbytes : string; vblob : string; vmeta : SMeta }.

Record system := mkSystem {
  nodes : gmap nat node;
  shared : option (string * SMeta);
  drawn : nat;
  history : list version          (* latest first *)
}.

Section Protocol.
Context `{AEAD, !AEADLaws, Rand, !RandLaws}.
(** The data key every machine unwraps, the schema version, and what the CLI leaves
    on disk of the bytes it pulled: nothing when they do not parse or validate. *)
Context (dek : string) (ver : Z) (rewrite : string -> option string).

Definition edit (m : nat) (x : string) (s : system) : system :=
  mkSystem (alter (fun nd => mkNode x (entry nd)) m (nodes s)) (shared s) (drawn s) (history s).

Definition push_at (m : nat) (s : system) : res SyErr string * system :=
  match nodes s !! m with
  | None => (Err NoRemoteState, s)
  | Some nd =>
      let '(r, ad, n, w) := PushConfig (entry nd) dek (content nd) ver false (drawn s) (shared s) in
      (r, mkSystem (<[m := mkNode (content nd) ad]> (nodes s)) w n
            (match r, w with
             | Ok _, Some (blob, meta) => mkVersion (content nd) blob meta :: history s
             | _, _ => history s
             end))
  end.

Definition pull_at (m : nat) (s : system) : res SyErr PullResult * system :=
  match nodes s !! m with
  | None => (Err NoRemoteState, s)
  | Some nd =>
      let '(r, ad, w) := PullConfig (entry nd) dek (content nd) false (shared s) in
      let nd' := match r with
                 | Ok res =>
                     match Applied res with
                     | Some pt => match rewrite pt with Some x => mkNode x ad | None => nd end
                     | None => mkNode (content nd) ad
                     end
                 | Err _ => nd
                 end in
      (r, mkSystem (<[m := nd']> (nodes s)) w (drawn s) (history s))
  end.

Inductive sync_step (s : system) : system -> Prop :=
| step_edit m x : sync_step s (edit m x s)
| step_push m : sync_step s (push_at m s).2
| step_pull m : sync_step s (pull_at m s).2.

(** Nothing published, no machine anchored. *)
Definition fresh_system (s : system) : Prop :=
  shared s = None /\ history s = [] /\ map_Forall (fun _ nd => BaseHash (entry nd) = "") (nodes s).

Definition published (s : system) (h : string) : Prop :=
  exists v, v ∈ history s /\ h = HashConfig (vbytes v).

Record sync_inv (s : system) : Prop := {
  iv_shared : shared s = (fun v => (vblob v, vmeta v)) <$> head (history s);
  iv_hist : Forall (fun v => Hash (vmeta v) = HashConfig (vbytes v)
                             /\ OpenBlob dek (vblob v) (Hash (vmeta v)) = Ok (vbytes v)) (history s);
  iv_base : map_Forall (fun _ nd => BaseHash (entry nd) = "" \/ published s (BaseHash (entry nd))) (nodes s)
}.

Lemma SealBlob_open cfg h n blob n' : SealBlob dek cfg h n = Ok (blob, n') -> OpenBlob dek blob h = Ok cfg.
Proof.
  intros Hs. unfold OpenBlob. by rewrite (proj1 (Open_Seal _ _ _ _ _ _ (blobAAD h) Hs) eq_refl).
Qed.

Lemma push_ok m s h s' :
  push_at m s = (Ok h, s') ->
  exists nd blob, nodes s !! m = Some nd /\ h = HashConfig (content nd)
    /\ nodes s' = <[m := mkNode (content nd) (with_base (entry nd) h)]> (nodes s)
    /\ history s' = mkVersion (content nd) blob (mkSMeta h ver) :: history s
    /\ shared s' = Some (blob, mkSMeta h ver)
    /\ OpenBlob dek blob h = Ok (content nd)
    /\ push_fence (remote_pull (shared s)).1 (BaseHash (entry nd)) h = None.
Proof.
  unfold push_at. destruct (nodes s !! m) as [nd|]; [|done].
  destruct (PushConfig _ _ _ _ _ _ _) as [[[r ad] n] w] eqn:Hp. intros [= -> <-].
  apply PushConfig_ok in Hp as (-> & -> & blob & Hs & Hw & Hf). simpl in Hw. injection Hw as <-.
  exists nd, blob. repeat split; try done; [by eapply SealBlob_open|by apply Hf].
Qed.

Lemma push_inv m s : sync_inv s -> sync_inv (push_at m s).2.
Proof.
  intros [Hsh Hh Hb]. destruct (push_at m s) as [r s'] eqn:Hp. cbn [snd]. destruct r as [h|e].
  - apply push_ok in Hp as (nd & blob & Hm & -> & Hn & Hhist & Hs' & Ho & _).
    split; rewrite ?Hhist, ?Hs', ?Hn; simpl; [done|by constructor|].
    intros m' nd' [[<- <-]|[_ Hnd]]%lookup_insert_Some.
    + right. exists (mkVersion (content nd) blob (mkSMeta (HashConfig (content nd)) ver)). rewrite Hhist. set_solver.
    + destruct (Hb _ _ Hnd) as [?|(v & Hv & ?)]; [by left|]. right. exists v. rewrite Hhist. set_solver.
  - unfold push_at in Hp. destruct (nodes s !! m) as [nd|] eqn:Hm; [|by injection Hp as _ <-].
    destruct (PushConfig _ _ _ _ _ _ _) as [[[r ad] n] w] eqn:Hpc. injection Hp as -> <-.
    pose proof (PushConfig_err _ _ _ _ _ _ _ _ _ _ _ Hpc) as ->.
    assert (w = shared s) as ->.
    { unfold PushConfig in Hpc. simpl in Hpc.
      destruct (push_fence _ _ _); [by injection Hpc|]. by destruct (SealBlob _ _ _ _) as [[]|]; [|injection Hpc]. }
    split; simpl; [done|done|]. intros m' nd' [[<- <-]|[_ Hnd]]%lookup_insert_Some; [exact (Hb m nd Hm)|exact (Hb m' nd' Hnd)].
Qed.

Lemma pull_inv m s : sync_inv s -> sync_inv (pull_at m s).2.
Proof.
  intros [Hsh Hh Hb]. unfold pull_at. destruct (nodes s !! m) as [nd|] eqn:Hm; [|done].
  destruct (PullConfig _ _ _ _ _) as [[r ad] w] eqn:Hp. cbn [snd].
  assert (w = shared s) as ->.
  { unfold PullConfig in Hp. simpl in Hp. destruct (shared s) as [[blob meta]|]; repeat case_match; by injection Hp. }
  split; simpl; [done|done|]. intros m' nd' [[<- <-]|[_ Hnd]]%lookup_insert_Some; [|exact (Hb m' nd' Hnd)].
  pose proof (Hb m nd Hm) as Hold. cbn beta in Hold.
  apply PullConfig_base in Hp as [->|(res & -> & -> & (blob & meta & Hpull & Heq) & _)].
  - destruct r as [res|]; [|exact Hold]. destruct (Applied res) as [pt|]; [destruct (rewrite pt)|]; exact Hold.
  - simpl in Hpull. rewrite Hsh in Hpull.
    assert (Hnew : published s (Hash meta)).
    { destruct (history s) as [|v hist] eqn:Hhist; [done|]. simpl in Hpull. injection Hpull as _ <-.
      exists v. rewrite Hhist. apply Forall_cons in Hh as [[? _] _]. split; [set_solver|done]. }
    rewrite <- Heq in Hnew. destruct (Applied res) as [pt|]; [destruct (rewrite pt); [right|exact Hold]|right]; exact Hnew.
Qed.

Lemma reachable_inv s s' : fresh_system s -> rtc sync_step s s' -> sync_inv s'.
Proof.
  intros (Hs & Hh & Hb) Hrun. assert (Hi : sync_inv s).
  { split; rewrite ?Hs, ?Hh; [done|done|]. intros m nd Hnd. left. by apply (Hb m). }
  clear Hs Hh Hb. induction Hrun as [|x y z Hxy _ IH]; [done|]. apply IH. destruct Hxy.
  - destruct Hi as [Hs Hh Hb]. split; simpl; [done|done|]. intros m' nd Hnd.
    apply lookup_alter_Some in Hnd as [(-> & nd0 & Hnd0 & ->)|[_ Hnd]]; [exact (Hb m' nd0 Hnd0)|exact (Hb m' nd Hnd)].
  - by apply push_inv.
  - by apply pull_inv.
Qed.

(** A machine with nothing of its own to lose. *)
Definition clean_at (s : system) (m : nat) : Prop :=
  exists nd, nodes s !! m = Some nd /\ BaseHash (entry nd) <> "" /\ HashConfig (content nd) = BaseHash (entry nd).

(** A machine whose file and anchor both are the version of hash [h]. *)
Definition synced_at (h : string) (s : system) (m : nat) : Prop :=
  exists nd, nodes s !! m = Some nd /\ HashConfig (content nd) = h /\ BaseHash (entry nd) = h.

Lemma synced_clean h s m : h <> "" -> synced_at h s m -> clean_at s m.
Proof. intros Hh (nd & Hn & Hc & Hb). exists nd. by rewrite Hc, Hb. Qed.

(** What a clean machine's pull does when the remote holds a version that opens. *)
Lemma pull_clean m s blob h v x pt :
  shared s = Some (blob, mkSMeta h v) -> OpenBlob dek blob h = Ok pt -> HashConfig pt = h ->
  rewrite pt = Some x -> HashConfig x = h -> clean_at s m ->
  let s' := (pull_at m s).2 in
  synced_at h s' m /\ shared s' = shared s /\ forall m', m' <> m -> nodes s' !! m' = nodes s !! m'.
Proof.
  intros Hsh Ho Hp Hx Hhx (nd & Hm & Hne & Hc). unfold pull_at. rewrite Hm, Hsh. unfold PullConfig. simpl.
  pose proof (Decide_spec (HashConfig (content nd)) h (BaseHash (entry nd)) true) as Hd.
  destruct (Decide _ _ _ _) eqn:Hde; try (destruct Hd as (_ & Hd1 & Hd2 & Hd3); congruence).
  - destruct Hd as (_ & Hd). rewrite bool_decide_false by done. simpl. rewrite Hd. split; [|split; [done|]].
    + exists (mkNode (content nd) (with_base (entry nd) h)). cbn [nodes]. by rewrite lookup_insert_eq.
    + intros m' Hn. by rewrite lookup_insert_ne.
  - rewrite bool_decide_false by done. simpl. rewrite Ho, Hp, String.eqb_refl. simpl. rewrite Hx.
    split; [|split; [done|]].
    + exists (mkNode x (with_base (entry nd) h)). cbn [nodes]. by rewrite lookup_insert_eq.
    + intros m' Hn. by rewrite lookup_insert_ne.
  - done.
  - destruct Hd as (_ & _ & Hd). congruence.
Qed.

Definition pull_all (s : system) (ms : list nat) : system := fold_left (fun s m => (pull_at m s).2) ms s.

Lemma pull_all_clean blob h v x pt ms s (l : list nat) :
  OpenBlob dek blob h = Ok pt -> HashConfig pt = h -> rewrite pt = Some x -> HashConfig x = h ->
  shared s = Some (blob, mkSMeta h v) ->
  Forall (clean_at s) ms -> Forall (synced_at h s) l ->
  Forall (synced_at h (pull_all s ms)) (l ++ ms) /\ shared (pull_all s ms) = shared s.
Proof.
  intros Ho Hp Hx Hhx. revert s l. induction ms as [|m ms IH]; intros s l Hsh Hms Hl.
  - by rewrite app_nil_r.
  - apply Forall_cons in Hms as [Hm Hms]. assert (Hne : h <> "") by (rewrite <- Hp; apply Sha256.sha256_nonempty).
    destruct (pull_clean m s blob h v x pt Hsh Ho Hp Hx Hhx Hm) as (Hs1 & Hs2 & Hoth). simpl.
    set (s' := (pull_at m s).2) in *.
    assert (Hkeep : forall m', synced_at h s m' -> synced_at h s' m').
    { intros m' Hsync. destruct (decide (m' = m)) as [->|Hn]; [done|].
      destruct Hsync as (nd & Hnd & Hrest). exists nd. by rewrite Hoth. }
    destruct (IH s' (l ++ [m])) as [Hall Hkeep2].
    + by rewrite Hs2.
    + eapply Forall_impl; [exact Hms|]. intros m' Hc. destruct (decide (m' = m)) as [->|Hn]; [by eapply synced_clean|].
      destruct Hc as (nd & Hnd & Hrest). exists nd. by rewrite Hoth.
    + apply Forall_app. split; [|by constructor]. eapply Forall_impl; [exact Hl|done].
    + rewrite <- app_assoc in Hall. split; [exact Hall|]. by rewrite Hkeep2.
Qed.


(** Without that proviso the machine that pulled is ahead of the remote although nobody
    edited its file: the anchor is the hash of the bytes pulled, the file is not. *)
Lemma rewritten_pull_is_ahead m s blob h v x pt :
  shared s = Some (blob, mkSMeta h v) -> OpenBlob dek blob h = Ok pt -> HashConfig pt = h ->
  rewrite pt = Some x -> HashConfig x <> h -> HashConfig x <> "" -> clean_at s m ->
  (forall nd, nodes s !! m = Some nd -> HashConfig (content nd) <> h) ->
  exists nd', nodes (pull_at m s).2 !! m = Some nd'
    /\ Decide (HashConfig (content nd')) h (BaseHash (entry nd')) true = DecidePushNeeded.
Proof.
  intros Hsh Ho Hp Hx Hhx Hnx (nd & Hm & Hne & Hc) Hdiff. specialize (Hdiff _ Hm).
  unfold pull_at. rewrite Hm, Hsh. unfold PullConfig. simpl.
  assert (Hd : Decide (HashConfig (content nd)) h (BaseHash (entry nd)) true = DecideFastForward).
  { unfold Decide. simpl. rewrite (proj2 (String.eqb_neq _ _) Hdiff), <- Hc, String.eqb_refl, Hc.
    str_cases (BaseHash (entry nd)); [done|]. simpl. destruct (String.eqb_spec h (BaseHash (entry nd))); [congruence|done]. }
  rewrite Hd, bool_decide_false by done. simpl. rewrite Ho, Hp, String.eqb_refl. simpl. rewrite Hx.
  exists (mkNode x (with_base (entry nd) h)). split; [cbn [nodes]; by rewrite lookup_insert_eq|]. cbn [content entry with_base BaseHash].
  assert (h <> "") by (rewrite <- Hp; apply Sha256.sha256_nonempty).
  unfold Decide. simpl. rewrite (proj2 (String.eqb_neq _ _) Hhx), String.eqb_refl. str_cases h; [done|]. done.
Qed.

(** What binding the hash into the associated data does, and what it does not: a blob
    opens under the hash it was sealed with only, so a pair mixed from two pushes is
    refused, but the whole pair of an earlier push is a fast-forward for a machine that
    is in sync. *)
Lemma blob_bound_to_hash cfg h n blob n' h' :
  SealBlob dek cfg h n = Ok (blob, n') -> (h' <> h -> OpenBlob dek blob h' = Err OpenFailed).
Proof.
  intros Hs Hne. unfold OpenBlob.
  destruct (Open dek blob (blobAAD h')) as [pt|] eqn:Ho; [|done]. exfalso.
  assert (Hh : blobAAD h' = blobAAD h) by (eapply Open_Seal; [exact Hs|eauto]).
  unfold blobAAD in Hh. apply str_app_inj_l in Hh. by apply str_app_inj_l in Hh.
Qed.
Lemma replayed_pair_fast_forwards m s v :
  sync_inv s -> v ∈ history s -> clean_at s m ->
  (forall nd, nodes s !! m = Some nd -> BaseHash (entry nd) <> Hash (vmeta v)) ->
  exists r, (pull_at m (mkSystem (nodes s) (Some (vblob v, vmeta v)) (drawn s) (history s))).1 = Ok r
    /\ PDecision r = DecideFastForward /\ Applied r = Some (vbytes v).
Proof.
  intros [_ Hh _] Hv (nd & Hm & Hne & Hc) Hold. specialize (Hold _ Hm).
  rewrite Forall_forall in Hh. destruct (Hh _ Hv) as [Hhash Hopen].
  unfold pull_at, PullConfig. cbn [nodes shared remote_pull ideal_remote]. rewrite Hm. cbn [negb].
  assert (Hd : Decide (HashConfig (content nd)) (Hash (vmeta v)) (BaseHash (entry nd)) true = DecideFastForward).
  { unfold Decide. cbn [negb]. rewrite Hc, (proj2 (String.eqb_neq _ _) Hold), String.eqb_refl.
    str_cases (BaseHash (entry nd)); [done|]. cbn [negb andb].
    destruct (String.eqb_spec (Hash (vmeta v)) (BaseHash (entry nd))); [congruence|done]. }
  rewrite Hd, bool_decide_false by done. cbn [andb]. rewrite Hopen, Hhash, String.eqb_refl. cbn [negb].
  eexists. split; [done|]. by split.
Qed.
End Protocol.

(** ** Two machines *)

#[local] Existing Instance toy_aead.
#[local] Existing Instance toy_rand.

Definition w_dek : string := pad 32.
Definition w_entry : Adapter := mkAdapter "home" "file" ∅ "".
Definition w_system : system := mkSystem {[0%nat := mkNode "a" w_entry; 1%nat := mkNode "a" w_entry]} None 0 [].
Definition w_synced : system :=
  edit 0 "b" (pull_at w_dek Some 1 (push_at w_dek 1 0 w_system).2).2.

Lemma w_fresh : fresh_system w_system.
Proof.
  refine (conj eq_refl (conj eq_refl _)). intros m nd Hnd. unfold w_system in Hnd. cbn [nodes] in Hnd.
  apply lookup_insert_Some in Hnd as [[_ <-]|[_ Hnd]]; [done|].
  apply lookup_singleton_Some in Hnd as [_ <-]. done.
Qed.

Lemma w_run : rtc (sync_step w_dek 1 Some) w_system w_synced.
Proof.
  eapply rtc_l; [apply (step_push _ _ _ _ 0)|]. eapply rtc_l; [apply (step_pull _ _ _ _ 1)|].
  eapply rtc_l; [apply (step_edit _ _ _ _ 0 "b")|]. apply rtc_refl.
Qed.

Definition w_pushed : system := (push_at w_dek 1 0 w_synced).2.

Lemma w_push : push_at w_dek 1 0 w_synced = (Ok (HashConfig "b"), w_pushed).
Proof. vm_cast_no_check (@eq_refl _ (@Ok SyErr _ (HashConfig "b"), w_pushed)). Qed.

Lemma w_clean : Forall (clean_at w_pushed) [1%nat].
Proof.
  constructor; [|constructor]. exists (mkNode "a" (with_base w_entry (HashConfig "a"))).
  split; [vm_compute; reflexivity|]. split; [apply Sha256.sha256_nonempty|vm_cast_no_check (@eq_refl string (HashConfig "a"))].
Qed.


End SyncProtocol.
