(* ===== verification/GoDuration.v ===== *)
(** * time.ParseDuration, and the idle timeout (src/internal/unlock/unlock.go)

    The language's duration syntax, with its 64-bit overflow checks; the fractional
    part goes through a binary64 product and quotient, as in the library. *)

From Stdlib Require Import Floats.SpecFloat.
From S2P Require Import Prelude GoString GoTime.
Import GoTime.

Module GoDuration.
Local Open Scope Z_scope.

(** ** binary64 *)

Definition f64 (z : Z) : spec_float := binary_normalize 53 1024 z 0 false.
Definition f64_mul : spec_float -> spec_float -> spec_float := SFmul 53 1024.
Definition f64_div : spec_float -> spec_float -> spec_float := SFdiv 53 1024.

(** uint64(x) of a float in range: towards zero. *)
Definition f64_trunc (x : spec_float) : Z :=
  match x with
  | S754_finite false m e => Z.shiftl (Zpos m) e
  | _ => 0
  end.

(** ** The scanner *)

Definition digit (c : ascii) : Z := Z.of_nat (byte_val c) - 48.

(** leadingInt: the value and the rest, [None] on overflow. *)
Fixpoint leadingInt (x : Z) (s : string) : option (Z * string) :=
  match s with
  | String c s' =>
      if is_digit c then
        if 2 ^ 63 / 10 <? x then None
        else let x' := x * 10 + digit c in
             if 2 ^ 63 <? x' then None else leadingInt x' s'
      else Some (x, s)
  | EmptyString => Some (x, s)
  end.

(** leadingFraction: the digits that fit, their scale, and the rest. *)
Fixpoint leadingFraction (x : Z) (scale : spec_float) (overflow : bool) (s : string) : Z * spec_float * string :=
  match s with
  | String c s' =>
      if is_digit c then
        if overflow then leadingFraction x scale true s'
        else if (2 ^ 63 - 1) / 10 <? x then leadingFraction x scale true s'
        else let y := x * 10 + digit c in
             if 2 ^ 63 <? y then leadingFraction x scale true s'
             else leadingFraction y (f64_mul scale (f64 10)) false s'
      else (x, scale, s)
  | EmptyString => (x, scale, s)
  end.

Definition is_unit_end (c : ascii) : bool := Ascii.eqb c "." || is_digit c.

Fixpoint unit_name (s : string) : string * string :=
  match s with
  | String c s' => if is_unit_end c then (EmptyString, s) else let '(u, r) := unit_name s' in (String c u, r)
  | EmptyString => (EmptyString, EmptyString)
  end.

Definition Minute : Z := 60 * Second.

Definition unit_value (u : string) : option Z :=
  if String.eqb u "ns" then Some 1
  else if String.eqb u "us" || String.eqb u (utf8 [194; 181]%nat +:+ "s") || String.eqb u (utf8 [206; 188]%nat +:+ "s")
  then Some 1000
  else if String.eqb u "ms" then Some 1000000
  else if String.eqb u "s" then Some Second
  else if String.eqb u "m" then Some Minute
  else if String.eqb u "h" then Some Hour
  else None.

(** One component: number, fraction, unit; the value in nanoseconds and the rest. *)
Definition component (s : string) : option (Z * string) :=
  match s with
  | EmptyString => None
  | String c _ =>
      if negb (is_unit_end c) then None
      else
        '(v, s1) ← leadingInt 0 s;
        let pre := negb (String.length s =? String.length s1)%nat in
        let '(f, scale, s2, post) :=
          match s1 with
          | String "." t =>
              let '(f, scale, t') := leadingFraction 0 (f64 1) false t in
              (f, scale, t', negb (String.length t =? String.length t')%nat)
          | _ => (0, f64 1, s1, false)
          end in
        if negb pre && negb post then None
        else
          let '(u, s3) := unit_name s2 in
          if str_empty u then None
          else
            unit ← unit_value u;
            if 2 ^ 63 / unit <? v then None
            else
              let v := v * unit in
              let v := if 0 <? f then v + f64_trunc (f64_mul (f64 f) (f64_div (f64 unit) scale)) else v in
              if 2 ^ 63 <? v then None else Some (v, s3)
  end.

Fixpoint components (fuel : nat) (d : Z) (s : string) : option Z :=
  match fuel with
  | O => None
  | S n =>
      match s with
      | EmptyString => Some d
      | _ =>
          '(v, s') ← component s;
          let d := d + v in
          if 2 ^ 63 <? d then None else components n d s'
      end
  end.

Definition ParseDuration (s : string) : option Z :=
  let '(neg, s) := match s with
                   | String "-" t => (true, t)
                   | String "+" t => (false, t)
                   | _ => (false, s)
                   end in
  if String.eqb s "0" then Some 0
  else if str_empty s then None
  else
    d ← components (S (String.length s)) 0 s;
    if neg then Some (- d)
    else if 2 ^ 63 - 1 <? d then None else Some d.

(** ** The idle timeout *)

Definition ParseIdle (s : string) : Z :=
  if str_empty s then 30 * Minute
  else match ParseDuration s with
       | None => 30 * Minute
       | Some d => if d <? 0 then 30 * Minute else d
       end.

Example durations :
  map ParseDuration ["1h30m"; "1.5h"; "-1.5h"; "100ms"; ".5s"; "0"; "1"; ""; "3000000h"; "0.000000001s"; "1h1h"; "+5s"]
  = [Some 5400000000000; Some 5400000000000; Some (-5400000000000); Some 100000000; Some 500000000; Some 0; None;
     None; None; Some 1; Some 7200000000000; Some 5000000000].
Proof. vm_compute. reflexivity. Qed.

(** ** What the scanner guarantees *)

Lemma leadingInt_shorter x s v r : leadingInt x s = Some (v, r) -> (String.length r <= String.length s)%nat.
Proof.
  revert x. induction s as [|c s IH]; intros x; simpl; [by intros [= _ <-]|].
  destruct (is_digit c); [|intros [= _ <-]; simpl; lia].
  destruct (_ <? _); [done|]. destruct (_ <? _); [done|]. intros Hr%IH. lia.
Qed.

Lemma leadingFraction_shorter x sc o s f sc' r :
  leadingFraction x sc o s = (f, sc', r) -> (String.length r <= String.length s)%nat.
Proof.
  revert x sc o. induction s as [|c s IH]; intros x sc o; simpl; [by intros [= _ _ <-]|].
  destruct (is_digit c); [|intros [= _ _ <-]; simpl; lia].
  destruct o; [intros Hr%IH; lia|]. destruct (_ <? _); [intros Hr%IH; lia|].
  destruct (_ <? _); intros Hr%IH; lia.
Qed.

Lemma unit_name_shorter s u r : unit_name s = (u, r) -> u <> "" -> (String.length r < String.length s)%nat.
Proof.
  revert u. induction s as [|c s IH]; intros u; simpl; [by intros [= <- _]|].
  destruct (is_unit_end c); [by intros [= <- _]|]. destruct (unit_name s) as [u' r'] eqn:Hu.
  intros [= <- <-] _. destruct u' as [|c' u']; [|specialize (IH _ eq_refl ltac:(done)); lia].
  destruct s as [|c' s]; [injection Hu as <-; simpl; lia|]. simpl in Hu.
  destruct (is_unit_end c'); [injection Hu as <-; simpl; lia|]. destruct (unit_name s); by injection Hu.
Qed.

Lemma unit_positive u z : unit_value u = Some z -> 0 < z.
Proof.
  unfold unit_value, Second, Minute, Hour. repeat (destruct (String.eqb u _); [by intros [= <-]|]).
  simpl. repeat (destruct (String.eqb u _); [by intros [= <-]|]). done.
Qed.

Lemma is_digit_val c : is_digit c = true -> (48 <= byte_val c <= 57)%nat.
Proof.
  unfold is_digit, in_range. change (byte_val "0"%char) with 48%nat. change (byte_val "9"%char) with 57%nat.
  intros [H1%Nat.leb_le H2%Nat.leb_le]%andb_prop. lia.
Qed.

Lemma leadingInt_range x s v r : 0 <= x -> leadingInt x s = Some (v, r) -> 0 <= v.
Proof.
  revert x. induction s as [|c s IH]; intros x Hx; simpl; [by intros [= <- _]|].
  destruct (is_digit c) eqn:Hd; [|by intros [= <- _]]. destruct (_ <? _); [done|]. destruct (_ <? _); [done|].
  apply is_digit_val in Hd. apply IH. unfold digit. lia.
Qed.

Lemma f64_trunc_nonneg x : 0 <= f64_trunc x.
Proof. destruct x as [[]|[]| |[] m e]; simpl; try lia. apply Z.shiftl_nonneg. lia. Qed.

(** A component consumes its text and fits in 64 bits. *)
Lemma component_spec s v r :
  component s = Some (v, r) -> (String.length r < String.length s)%nat /\ 0 <= v <= 2 ^ 63.
Proof.
  unfold component. destruct s as [|c s]; [done|]. destruct (is_unit_end c); [|done]. cbn [negb].
  destruct (leadingInt 0 (String c s)) as [[v0 s1]|] eqn:Hi; [|done]. cbn [mbind option_bind].
  pose proof (leadingInt_range 0 _ _ _ (Z.le_refl 0) Hi) as Hv0. apply leadingInt_shorter in Hi.
  set (p := match s1 with String "." t => _ | _ => _ end).
  assert (Hp : forall f sc s2 b, p = (f, sc, s2, b) -> (String.length s2 <= String.length s1)%nat).
  { intros f sc s2 b. unfold p. destruct s1 as [|c1 t]; [by intros [= _ _ <- _]|].
    destruct c1 as [[] [] [] [] [] [] [] []]; try (by intros [= _ _ <- _]).
    destruct (leadingFraction _ _ _ t) as [[f' sc'] t'] eqn:Hf. intros [= _ _ <- _].
    apply leadingFraction_shorter in Hf. simpl. lia. }
  destruct p as [[[f sc] s2] post]. specialize (Hp _ _ _ _ eq_refl).
  destruct (negb _ && negb post); [done|]. destruct (unit_name s2) as [u s3] eqn:Hu.
  str_cases u; [done|]. destruct (unit_value u) as [unit|] eqn:Hun; [|done]. cbn [mbind option_bind].
  destruct (Z.ltb_spec (2 ^ 63 / unit) v0) as [|Hle]; [done|]. cbv zeta.
  destruct (2 ^ 63 <? _) eqn:Hb; [done|]. apply Z.ltb_ge in Hb. intros [= <- <-].
  apply unit_name_shorter in Hu; [|done]. apply unit_positive in Hun. split; [lia|]. split; [|exact Hb].
  pose proof (f64_trunc_nonneg (f64_mul (f64 f) (f64_div (f64 unit) sc))). destruct (0 <? f); nia.
Qed.

(** The loop ends with the text: more fuel changes nothing. *)
Lemma components_fuel n m d s : (String.length s < n)%nat -> (n <= m)%nat -> components m d s = components n d s.
Proof.
  revert m d s. induction n as [|n IH]; intros m d s Hs Hm; [lia|]. destruct m as [|m]; [lia|].
  cbn [components]. destruct s as [|c s]; [done|]. destruct (component (String c s)) as [[v r]|] eqn:Hc; [|done].
  cbn [mbind option_bind]. cbv zeta. destruct (_ <? _); [done|]. apply component_spec in Hc as [Hl _]. apply IH; lia.
Qed.

Lemma components_range n d s d' : 0 <= d <= 2 ^ 63 -> components n d s = Some d' -> 0 <= d' <= 2 ^ 63.
Proof.
  revert d s. induction n as [|n IH]; intros d s Hd; [done|]. cbn [components]. destruct s as [|c s]; [by intros [= <-]|].
  destruct (component (String c s)) as [[v r]|] eqn:Hc; [|done]. cbn [mbind option_bind]. cbv zeta.
  destruct (Z.ltb_spec (2 ^ 63) (d + v)); [done|]. apply component_spec in Hc as [_ Hv]. apply IH. lia.
Qed.

(** Whatever the configuration says, the agent's timeout is a duration. *)
Lemma ParseIdle_range s : 0 <= ParseIdle s < 2 ^ 63.
Proof.
  assert (Hdef : 0 <= 30 * Minute < 2 ^ 63) by (by vm_compute).
  unfold ParseIdle. str_cases s; [done|]. destruct (ParseDuration s) as [d|] eqn:Hd; [|done].
  destruct (Z.ltb_spec d 0); [done|]. split; [done|]. unfold ParseDuration in Hd.
  destruct (match s with String "-" t => _ | _ => _ end) as [neg t]. destruct (String.eqb t "0"); [by injection Hd as <-|].
  destruct (str_empty t); [done|]. destruct (components _ 0 t) as [d'|] eqn:Hc; [|done]. cbn [mbind option_bind] in Hd.
  apply components_range in Hc; [|lia]. destruct neg; [injection Hd as <-; lia|].
  destruct (Z.ltb_spec (2 ^ 63 - 1) d'); [done|]. injection Hd as <-. lia.
Qed.

Lemma digits_val_grows x s v : 0 <= x -> digits_val x s = Some v -> x <= v.
Proof.
  revert x. induction s as [|c s IH]; intros x Hx; simpl; [by intros [= ->]|].
  destruct (is_digit c); [|done]. intros Hv%IH; lia.
Qed.

Definition no_digit_head (r : string) : Prop := match r with String c _ => is_digit c = false | EmptyString => True end.

(** The scanner reads the digits of a number that fits. *)
Lemma leadingInt_number r x s v :
  no_digit_head r -> 0 <= x -> digits_val x s = Some v -> v <= 2 ^ 63 -> leadingInt x (s +:+ r) = Some (v, r).
Proof.
  intros Hr. revert x. induction s as [|c s IH]; intros x Hx Hv Hle.
  - simpl in Hv. injection Hv as <-. destruct r as [|c r]; [done|]. simpl in *. by rewrite Hr.
  - rewrite str_app_cons. simpl in Hv |- *. destruct (is_digit c) eqn:Hc; [|done].
    apply is_digit_val in Hc. assert (Hdig : Z.of_nat (byte_val c - 48) = digit c) by (unfold digit; lia).
    rewrite Hdig in Hv. assert (Hd : 0 <= digit c <= 9) by (unfold digit; lia).
    pose proof (digits_val_grows (x * 10 + digit c) s v ltac:(lia) Hv) as Hge.
    destruct (Z.ltb_spec (2 ^ 63 / 10) x) as [Hlt|_]; [change (2 ^ 63 / 10) with 922337203685477580 in Hlt; lia|].
    destruct (Z.ltb_spec (2 ^ 63) (x * 10 + digit c)); [lia|]. by apply IH; [lia|..].
Qed.

(** A whole number of minutes is read exactly, up to the largest that fits. *)
Lemma ParseIdle_minutes n :
  (Z.of_N n * Minute < 2 ^ 63) -> ParseIdle (itoa n +:+ "m") = Z.of_N n * Minute.
Proof.
  intros Hn. pose proof (itoa_digits n) as Hd. pose proof (digits_val_itoa n) as Hv.
  destruct (itoa n) as [|c s] eqn:Hi; [by destruct (itoa_not_nil n)|].
  assert (Hc : is_digit c = true) by (simpl in Hd; by destruct (is_digit c)).
  assert (Hle : Z.of_N n <= 2 ^ 63 / Minute) by (apply Z.div_le_lower_bound; [done|]; unfold Minute in *; lia).
  assert (Hcomp : component (String c s +:+ "m") = Some (Z.of_N n * Minute, "")).
  { unfold component. rewrite str_app_cons. unfold is_unit_end at 1. rewrite Hc, orb_true_r. cbn [negb].
    rewrite <- str_app_cons, (leadingInt_number "m" 0 _ _ eq_refl (Z.le_refl 0) Hv)
      by (change (2 ^ 63 / Minute) with 153722867 in Hle; lia).
    cbn [mbind option_bind]. rewrite str_length_app.
    destruct (Nat.eqb_spec (String.length (String c s) + String.length "m") (String.length "m")) as [He|_]; [simpl in He; lia|].
    set (z := Z.of_N n) in *. cbn -[unit_name unit_value f64 f64_mul f64_div f64_trunc Z.mul Z.ltb Z.pow Z.div].
    change (unit_name "m") with ("m", ""). cbn [str_empty]. change (unit_value "m") with (Some Minute).
    cbn [mbind option_bind]. change (0 <? 0) with false. cbv iota.
    destruct (Z.ltb_spec (2 ^ 63 / Minute) z); [lia|].
    destruct (Z.ltb_spec (2 ^ 63) (z * Minute)); [lia|done]. }
  assert (Hpd : ParseDuration (String c s +:+ "m") = Some (Z.of_N n * Minute)).
  { unfold ParseDuration. rewrite str_app_cons.
    replace (match c with "-"%char => _ | _ => _ end) with (false, String c (s +:+ "m")).
    2: { destruct c as [[] [] [] [] [] [] [] []]; try done. }
    destruct (String.eqb_spec (String c (s +:+ "m")) "0") as [He|_]; [injection He as _ He; by destruct s|].
    cbn [str_empty]. cbn [components]. rewrite str_app_cons in Hcomp. rewrite Hcomp. cbn [mbind option_bind]. cbv zeta.
    rewrite Z.add_0_l. destruct (Z.ltb_spec (2 ^ 63) (Z.of_N n * Minute)); [lia|]. cbn [components].
    destruct (String.length (String c (s +:+ "m"))) eqn:Hl; [done|]. cbn [components mbind option_bind].
    destruct (Z.ltb_spec (2 ^ 63 - 1) (Z.of_N n * Minute)); [lia|done]. }
  unfold ParseIdle. rewrite Hpd. rewrite str_app_cons. cbn [str_empty].
  destruct (Z.ltb_spec (Z.of_N n * Minute) 0); [unfold Minute, Second in *; lia|done].
Qed.
End GoDuration.
