(* ===== verification/ConfigPath.v ===== *)
(** * Where the files are (src/internal/config/path.go, path_unix.go)

    The configuration and its sync sidecar, from a flag, the environment or the XDG
    defaults. *)

From S2P Require Import Prelude GoString GoPath Fs.
Import Fs.

Module ConfigPath.

Section Paths.
Context `{Os}.

(** os.Getenv *)
Definition env (k : string) : string := default EmptyString (getenv k).

(** os.UserHomeDir *)
Definition UserHomeDir : option string :=
  let h := env "HOME" in if str_empty h then None else Some h.

Definition platformDefaultPath : option string :=
  let xdg := env "XDG_CONFIG_HOME" in
  xdg ← (if str_empty xdg then home ← UserHomeDir; Some (GoPath.Join [home; ".config"]) else Some xdg);
  Some (GoPath.Join [xdg; "jitenv"; "config.toml"]).

Definition DefaultPath : option string :=
  let p := env "JITENV_CONFIG" in if negb (str_empty p) then Some p else platformDefaultPath.

Definition Resolve (explicit : string) : option string :=
  if negb (str_empty explicit) then Some explicit else DefaultPath.

Definition DefaultSyncPath : option string :=
  let p := env "JITENV_CONFIG_SYNC" in
  if negb (str_empty p) then Some p
  else cfg ← DefaultPath; Some (GoPath.Join [GoPath.Dir cfg; "sync.toml"]).

Definition ResolveSync (explicit : string) : option string :=
  if negb (str_empty explicit) then Some explicit else DefaultSyncPath.

End Paths.

Definition os_env (kvs : list (string * string)) : Os :=
  Build_Os (fun _ => false) (fun _ => 0%nat) (fun t i => itoa (N.of_nat (t + i))) (fun t => Z.of_nat t)
           (fun k => snd <$> List.find (fun kv => String.eqb kv.1 k) kvs).

(** A configuration named by the environment takes its sidecar along. *)
Example resolved :
  @Resolve (os_env [("HOME", "/home/u")]) "" = Some "/home/u/.config/jitenv/config.toml"
  /\ @Resolve (os_env []) "" = None
  /\ @ResolveSync (os_env [("JITENV_CONFIG", "/tmp/a/c.toml")]) "" = Some "/tmp/a/sync.toml"
  /\ @ResolveSync (os_env [("JITENV_CONFIG", "c.toml")]) "" = Some "sync.toml".
Proof. split; [reflexivity|]. split; [reflexivity|]. split; reflexivity. Qed.
End ConfigPath.
