(* ===== verification/Rendocs.v ===== *)
(** * Version pins in the published pages (src/internal/rendocs)

    The renderer that puts a release's version between the markers of the pages under web/:
    the three marker families, the check of their counts, the bail on a rewrite of more than
    half of a file, and the walk over the directory.  A page whose markers come in pairs is
    rendered to the same page with the text between them replaced. *)

From S2P Require Import Prelude GoString GoPath Fs ConfigPath.
Import GoPath Fs ConfigPath.

Module Rendocs.

(** ** The families of markers *)

Record Release := mkRelease { Tag : string }.
Definition Bare (r : Release) : string := trim_prefix (Tag r) "v".

Inductive family := Version | Artifact | Asof.
Definition families : list family := [Version; Artifact; Asof].

Definition start_of (s : family) : string :=
  match s with
  | Version => "<!-- VERSION:start -->"
  | Artifact => "<!-- ARTIFACT_VERSION:start -->"
  | Asof => "<!-- VERSION:asof:start -->"
  end.
Definition end_of (s : family) : string :=
  match s with
  | Version => "<!-- VERSION:end -->"
  | Artifact => "<!-- ARTIFACT_VERSION:end -->"
  | Asof => "<!-- VERSION:asof:end -->"
  end.
Definition replace (s : family) (r : Release) (ext : string) : string :=
  match s with
  | Version => Tag r
  | Artifact => Bare r
  | Asof => if String.eqb ext ".md" then "_Docs current as of " +:+ Tag r +:+ "._" else Tag r
  end.

Inductive RErr :=
| Unbalanced (start : string) (starts ends : nat)
| TooLarge (path : string) (changed total : nat)
| Prerelease (tag : string)
| NoTag (e : string)
| RFs (e : FErr).

(** ** Rendering *)

(** strings.Count, for a separator that is not empty. *)
Fixpoint count_from (skip : nat) (s sep : string) : nat :=
  match s with
  | EmptyString => 0
  | String _ s' =>
      match skip with
      | S skip' => count_from skip' s' sep
      | O => if has_prefix s sep then S (count_from (String.length sep - 1) s' sep) else count_from 0 s' sep
      end
  end.
Definition count (s sep : string) : nat := count_from 0 s sep.

Definition checkBalanced (content : string) (s : family) : res RErr unit :=
  let starts := count content (start_of s) in
  let ends := count content (end_of s) in
  if (starts =? ends)%nat then Ok tt else Err (Unbalanced (start_of s) starts ends).

(** The leftmost matches of start(.*?)end, each replaced; [n] bounds their number. *)
Fixpoint replace_all (n : nat) (start stop repl s : string) : string :=
  match n with
  | O => s
  | S n' =>
      match index_str s start with
      | None => s
      | Some i =>
          let rest := str_drop (i + String.length start) s in
          match index_str rest stop with
          | None => s
          | Some j => str_take i s +:+ repl +:+ replace_all n' start stop repl (str_drop (j + String.length stop) rest)
          end
      end
  end.
Definition ReplaceAllLiteral (start stop repl s : string) : string := replace_all (String.length s) start stop repl s.

Definition render_family (r : Release) (ext : string) (out : string) (s : family) : res RErr string :=
  _ ← checkBalanced out s;
  Ok (ReplaceAllLiteral (start_of s) (end_of s) (start_of s +:+ replace s r ext +:+ end_of s) out).

Fixpoint render_families (r : Release) (ext : string) (l : list family) (out : string) : res RErr string :=
  match l with
  | [] => Ok out
  | s :: l' => out ← render_family r ext out s; render_families r ext l' out
  end.

Definition Render (content : string) (r : Release) (ext : string) : res RErr string := render_families r ext families content.

(** ** How much of a file changed *)

Fixpoint common_prefix (a b : list ascii) : nat :=
  match a, b with
  | x :: a', y :: b' => if Ascii.eqb x y then S (common_prefix a' b') else 0
  | _, _ => 0
  end.

(** The common suffix of what follows the common prefix. *)
Definition lineEditBytes (a b : string) : nat :=
  let a := String.list_ascii_of_string a in
  let b := String.list_ascii_of_string b in
  let p := common_prefix a b in
  let s := common_prefix (reverse (drop p a)) (reverse (drop p b)) in
  length a - p - s.

Definition edited (la lb : list string) : nat :=
  sum_list ((fun i =>
    let lineA := default EmptyString (la !! i) in
    let lineB := default EmptyString (lb !! i) in
    if String.eqb lineA lineB then 0 else lineEditBytes lineA lineB) <$> seq 0 (length la `max` length lb))%nat.

(** The changed bytes and the bytes they are a part of; the code divides them. *)
Definition changedFraction (a b : string) : nat * nat :=
  if String.eqb a b then (0, 1)%nat
  else if (String.length a =? 0)%nat then (1, 1)%nat
  else (edited (split_byte LF a) (split_byte LF b), String.length a).
Definition more_than_half (f : nat * nat) : bool := (f.2 <? 2 * f.1)%nat.

Definition RenderFile (path content : string) (r : Release) : res RErr (string * bool) :=
  rendered ← Render content r (to_lower (Ext path));
  if String.eqb rendered content then Ok (content, false)
  else
    let frac := changedFraction content rendered in
    if more_than_half frac then Err (TooLarge path frac.1 frac.2) else Ok (rendered, true).

Definition IsStableTag (tag : string) : bool :=
  let t := trim_space tag in
  if str_empty t then false else negb (contains_str (trim_prefix t "v") "-").

(** ** The run *)

Record Result := mkResult { RTag : string; Changed : list string }.

(** filepath.Rel for a path below the root. *)
Definition Rel (root path : string) : string :=
  let b := Clean root in let t := Clean path in
  if String.eqb b t then "."
  else if String.eqb b "." then t
  else trim_prefix t (if String.eqb b "/" then b else b +:+ "/").

Section Run.
(** [gh] is what the gh program prints, or why it failed. *)
Context `{Os} (gh : res string string).

Definition ghLatestTag : res string string :=
  stdout ← wrap_err (fun e => "gh release view: " +:+ e) gh;
  let tag := trim_space stdout in
  if str_empty tag then Err "gh release view returned an empty tagName" else Ok tag.

Definition looksLikeTag (s : string) : bool := has_prefix s "v" && negb (exists_byte (cutset "/ ") s).

Definition ResolveTag : res RErr string :=
  let name := env "GITHUB_REF_NAME" in
  if negb (str_empty name) && looksLikeTag name then Ok name
  else
    let ref := env "GITHUB_REF" in
    if negb (str_empty ref) && negb (String.eqb (trim_prefix ref "refs/tags/") ref) then Ok (trim_prefix ref "refs/tags/")
    else wrap_err NoTag ghLatestTag.

(** What is done with a path that is no directory; whether it changed. *)
Definition render_path (dry : bool) (rel : Release) (path : string) : M RErr bool :=
  let ext := to_lower (Ext path) in
  if negb (String.eqb ext ".md") && negb (String.eqb ext ".html") then mret false
  else
    raw ← mapErr RFs (read_file path);
    '(rendered, changed) ← lift (RenderFile path raw rel);
    if negb changed then mret false
    else if dry : bool then mret true
    else
      info ← attempt (stat path);
      let mode := match info with Ok (NFile _ m _) => m | _ => 420%Z end in
      _ ← mapErr RFs (write_file path rendered mode);
      mret true.

(** filepath.WalkDir: the root and what is below it, each directory before its entries and
    these by name.  Rendering changes no directory, so the order can be told beforehand. *)
Definition walk_key (p : string) : string :=
  String.string_of_list_ascii ((fun c => if Ascii.eqb c "/" then NUL else c) <$> String.list_ascii_of_string p).
Definition walk_order (f : files) (root : string) : list string :=
  merge_sort (fun a b => String.le (walk_key a) (walk_key b)) (filter (fun p => under root p = true) (map_to_list f).*1).

Fixpoint visit (dry : bool) (rel : Release) (root : string) (l : list string) : M RErr (list string) :=
  match l with
  | [] => mret []
  | p :: l' =>
      n ← mapErr RFs (lstat p);
      match n with
      | NDir => _ ← mapErr RFs (read_dir p); visit dry rel root l'
      | _ => changed ← render_path dry rel p; ps ← visit dry rel root l'; mret (if changed : bool then Rel root p :: ps else ps)
      end
  end.

Definition visit_all (dry : bool) (rel : Release) (root : string) : M RErr (list string) := fun w =>
  visit dry rel root (walk_order (fs w) root) w.
Definition WalkDir (dry : bool) (rel : Release) (root : string) : M RErr (list string) :=
  _ ← mapErr RFs (lstat root); visit_all dry rel root.

Definition Run (DocsDir tag0 : string) (DryRun : bool) : M RErr Result :=
  let t := trim_space tag0 in
  tag ← lift (if str_empty t then ResolveTag else Ok t);
  if negb (IsStableTag tag) then throw (Prerelease tag)
  else changed ← WalkDir DryRun (mkRelease tag) DocsDir; mret (mkResult tag changed).

(** The program's exit code. *)
Definition main (docs tag : string) (dryRun : bool) : M RErr Z :=
  r ← attempt (Run docs tag dryRun); mret (match r : res RErr Result with Err _ => 1%Z | Ok _ => 0%Z end).
End Run.

(** ** Pages *)

(** A page as its author sees it: spans, each behind some text, and the text at the end. *)
Record part := mkPart { text : string; fam : family; inner : string }.
Fixpoint show (l : list part) (tail : string) : string :=
  match l with
  | [] => tail
  | p :: l' => text p +:+ (start_of (fam p) +:+ (inner p +:+ (end_of (fam p) +:+ show l' tail)))
  end.

Definition mark (opening : bool) (s : family) : string := if opening then start_of s else end_of s.
Definition plain (t : string) : Prop := forall b s, contains_str t (mark b s) = false.
Definition plain_part (p : part) : Prop := plain (text p) /\ plain (inner p).
Definition fill (r : Release) (ext : string) (p : part) : part := mkPart (text p) (fam p) (replace (fam p) r ext).

#[export] Instance family_eq_dec : EqDecision family.
Proof. solve_decision. Defined.

(** No match of [m] begins inside [p] when [rest] follows. *)
Fixpoint clear (p m rest : string) : Prop :=
  match p with
  | EmptyString => True
  | String c p' => has_prefix (String c (p' +:+ rest)) m = false /\ clear p' m rest
  end.

Lemma clear_app a b m rest : clear a m (b +:+ rest) -> clear b m rest -> clear (a +:+ b) m rest.
Proof.
  intros Ha Hb. induction a as [|c a IH]; [done|]. destruct Ha as [Hc Ha]. rewrite str_app_cons. cbn [clear].
  rewrite <- str_app_assoc. auto.
Qed.

Lemma clear_index p m rest : clear p m rest -> index_str (p +:+ rest) m = Nat.add (String.length p) <$> index_str rest m.
Proof.
  induction p as [|c p IH]; intros Hc; [rewrite str_app_nil_l; by destruct (index_str rest m)|]. destruct Hc as [Hc Hp].
  rewrite str_app_cons. cbn [index_str String.length]. rewrite Hc, (IH Hp). by destruct (index_str rest m).
Qed.

Lemma clear_count p m rest : clear p m rest -> count (p +:+ rest) m = count rest m.
Proof.
  induction p as [|c p IH]; intros Hc; [done|]. destruct Hc as [Hc Hp]. rewrite str_app_cons. unfold count in *. cbn [count_from].
  by rewrite Hc, (IH Hp).
Qed.

Lemma count_skip p rest m : count_from (String.length p) (p +:+ rest) m = count rest m.
Proof. induction p as [|c p IH]; [done|]. rewrite str_app_cons. cbn [count_from String.length]. done. Qed.

Lemma count_match m rest : m <> EmptyString -> count (m +:+ rest) m = S (count rest m).
Proof.
  intros Hm. destruct m as [|c m]; [done|]. rewrite str_app_cons. unfold count. cbn [count_from].
  rewrite <- str_app_cons, has_prefix_app. f_equal. cbn [String.length]. rewrite <- count_skip with (p := m) at 1. unfold count. f_equal. lia.
Qed.

Lemma index_match m rest : index_str (m +:+ rest) m = Some 0%nat.
Proof. destruct (m +:+ rest) eqn:He; cbn [index_str]; by rewrite <- He, has_prefix_app. Qed.

(** ** Where markers can begin *)

Definition opener : ascii := "<".
Definition opens (rest : string) : Prop := match rest with EmptyString => True | String c _ => c = opener end.

(** A marker opens with its only opener. *)
Lemma mark_shape b s : exists m, mark b s = String opener m /\ contains_byte m opener = false.
Proof. destruct b, s; eexists; split; reflexivity. Qed.

Lemma mark_opens b s rest : opens (mark b s +:+ rest).
Proof. by destruct b, s. Qed.

Lemma mark_other b s b' s' rest : mark b s <> mark b' s' -> has_prefix (mark b s +:+ rest) (mark b' s') = false.
Proof. intros Hne. destruct b, s, b', s'; first [reflexivity|by destruct (Hne eq_refl)]. Qed.

Lemma clear_no_opener p b s rest : contains_byte p opener = false -> clear p (mark b s) rest.
Proof.
  destruct (mark_shape b s) as (m & -> & _). induction p as [|c p IH]; intros Hp; [done|].
  cbn [contains_byte exists_byte] in Hp. apply orb_false_iff in Hp as [Hc Hp]. split; [|by apply IH].
  cbn [has_prefix]. by rewrite Hc.
Qed.

Lemma has_prefix_app_inv a b m :
  has_prefix (a +:+ b) m = true -> has_prefix a m = true \/ exists c v, m = a +:+ String c v /\ has_prefix b (String c v) = true.
Proof.
  revert m. induction a as [|d a IH]; intros m Hm.
  - rewrite str_app_nil_l in Hm. destruct m as [|c v]; [by left|]. right. by exists c, v.
  - destruct m as [|c m]; [by left|]. rewrite str_app_cons in Hm. cbn [has_prefix] in *.
    apply andb_true_iff in Hm as [Hc Hm]. rewrite Hc. apply Ascii.eqb_eq in Hc as ->.
    destruct (IH m Hm) as [Hp|(e & v & -> & Hp)]; [by left|]. right. by exists e, v.
Qed.

Lemma clear_text t b s rest : contains_str t (mark b s) = false -> opens rest -> clear t (mark b s) rest.
Proof.
  intros Ht Ho. induction t as [|c t IH]; [done|]. unfold contains_str in *. cbn [index_str clear] in *.
  destruct (has_prefix (String c t) (mark b s)) eqn:Hp; [done|]. split.
  - apply not_true_is_false. intros Hq. rewrite <- str_app_cons in Hq.
    apply has_prefix_app_inv in Hq as [Hq|(d & v & Hm & Hq)]; [congruence|].
    destruct (mark_shape b s) as (m & Hs & Hn). rewrite Hs, str_app_cons in Hm. injection Hm as _ ->.
    destruct rest as [|e rest]; [done|]. cbn in Ho. subst e. cbn [has_prefix] in Hq. apply andb_true_iff in Hq as [He _].
    rewrite contains_byte_app in Hn. apply orb_false_iff in Hn as [_ Hn]. cbn [contains_byte exists_byte] in Hn.
    apply orb_false_iff in Hn as [Hn _]. apply Ascii.eqb_eq in He. subst d. by rewrite Ascii.eqb_refl in Hn.
  - apply IH. by destruct (index_str t (mark b s)).
Qed.

Lemma clear_mark b s b' s' rest : mark b s <> mark b' s' -> clear (mark b s) (mark b' s') rest.
Proof.
  intros Hne. pose proof (mark_other b s b' s' rest Hne) as Hp. destruct (mark_shape b s) as (m & Hs & Hn). rewrite Hs in *.
  split; [done|]. by apply clear_no_opener.
Qed.

(** ** Rendering a page *)

Lemma replace_skip n start stop repl p rest :
  clear p start rest -> replace_all n start stop repl (p +:+ rest) = p +:+ replace_all n start stop repl rest.
Proof.
  intros Hc. destruct n as [|n]; [done|]. cbn [replace_all]. rewrite (clear_index _ _ _ Hc).
  destruct (index_str rest start) as [i|]; cbn [fmap option_fmap option_map]; [|done].
  assert (Hd : forall k, str_drop (String.length p + k) (p +:+ rest) = str_drop k rest).
  { intros k. clear Hc. induction p as [|c p IH]; [done|]. apply IH. }
  assert (Ht : str_take (String.length p + i) (p +:+ rest) = p +:+ str_take i rest).
  { clear. induction p as [|c p IH]; [done|]. rewrite !str_app_cons. cbn [String.length Nat.add str_take]. by rewrite IH. }
  rewrite <- Nat.add_assoc, Hd, Ht. destruct (index_str _ stop); [by rewrite <- str_app_assoc|done].
Qed.

Lemma replace_hit n start stop repl x rest :
  clear x stop (stop +:+ rest) ->
  replace_all (S n) start stop repl (start +:+ (x +:+ (stop +:+ rest))) = repl +:+ replace_all n start stop repl rest.
Proof.
  intros Hc. cbn [replace_all]. rewrite index_match, Nat.add_0_l, str_drop_app, (clear_index _ _ _ Hc), index_match.
  cbn [fmap option_fmap option_map str_take]. rewrite Nat.add_0_r, str_app_nil_l. do 2 f_equal.
  rewrite <- str_length_app, str_app_assoc. apply str_drop_app.
Qed.

Section Page.
Context (r : Release) (ext : string) (Htag : contains_byte (Tag r) opener = false).

Definition fill_in (s : family) (p : part) : part := if decide (fam p = s) then fill r ext p else p.
Definition replacement (s : family) : string := start_of s +:+ replace s r ext +:+ end_of s.

Lemma no_opener_plain x : contains_byte x opener = false -> plain x.
Proof.
  intros Hx b s. unfold contains_str. rewrite <- (str_app_nil_r x), clear_index by by apply clear_no_opener. by destruct b, s.
Qed.

Lemma replace_plain s : plain (replace s r ext).
Proof.
  apply no_opener_plain. destruct s; cbn [replace]; [done| |destruct (String.eqb ext ".md"); [|done]].
  - unfold Bare, trim_prefix. destruct (has_prefix _ _) eqn:Hp; [|done]. apply has_prefix_spec in Hp as [t Ht].
    rewrite Ht, str_drop_app. rewrite Ht, contains_byte_app in Htag. by apply orb_false_iff in Htag as [_ ?].
  - by rewrite !contains_byte_app, Htag.
Qed.

Lemma fill_in_plain s l : Forall plain_part l -> Forall plain_part (fill_in s <$> l).
Proof.
  intros Hl. apply Forall_fmap. eapply Forall_impl; [exact Hl|]. intros p [Ht Hi]. unfold compose, fill_in.
  destruct (decide _); [|by split]. by split; [|apply replace_plain].
Qed.

Lemma tail_clear tail b s : plain tail -> clear tail (mark b s) EmptyString.
Proof. intros Ht. by apply clear_text. Qed.

(** How often a marker occurs in a page. *)
Lemma count_show l tail b s :
  Forall plain_part l -> plain tail ->
  count (show l tail) (mark b s) = length (filter (fun p => fam p = s) l).
Proof.
  intros Hl Ht. induction Hl as [|p l [Hp Hi] _ IH]; cbn [show].
  - rewrite <- (str_app_nil_r tail), clear_count by by apply tail_clear. by destruct b, s.
  - change (start_of (fam p)) with (mark true (fam p)). change (end_of (fam p)) with (mark false (fam p)).
    rewrite clear_count by (apply clear_text; [done|apply mark_opens]).
    assert (Hmark : forall b' s' rest, count (mark b' s' +:+ rest) (mark b s)
              = ((if decide (b' = b /\ s' = s) then 1 else 0) + count rest (mark b s))%nat).
    { intros b' s' rest. destruct (decide (b' = b /\ s' = s)) as [[-> ->]|Hne]; [apply count_match; by destruct b, s|].
      apply clear_count, clear_mark. intros He. apply Hne. by destruct b, s, b', s'. }
    rewrite Hmark, clear_count by (apply clear_text; [done|apply mark_opens]). rewrite Hmark, IH, filter_cons.
    destruct b; repeat case_decide; cbn [length]; first [lia|naive_solver].
Qed.

Lemma checkBalanced_show l tail s : Forall plain_part l -> plain tail -> checkBalanced (show l tail) s = Ok tt.
Proof.
  intros Hl Ht. unfold checkBalanced. rewrite (count_show l tail true s Hl Ht : count _ (start_of s) = _).
  by rewrite (count_show l tail false s Hl Ht : count _ (end_of s) = _), Nat.eqb_refl.
Qed.

Lemma replace_show s l tail n :
  Forall plain_part l -> plain tail -> (length l <= n)%nat ->
  replace_all n (start_of s) (end_of s) (replacement s) (show l tail) = show (fill_in s <$> l) tail.
Proof.
  intros Hl Ht. revert n. induction Hl as [|p l [Hp Hi] _ IH]; intros n Hn; cbn [show fmap list_fmap].
  - rewrite <- (str_app_nil_r tail), replace_skip by by apply (tail_clear tail true s). by destruct n, s.
  - rewrite replace_skip by (apply (clear_text _ true s); [done|apply (mark_opens true)]). unfold fill_in at 1 2 3 4.
    destruct (decide (fam p = s)) as [<-|Hne].
    + destruct n as [|n]; [cbn in Hn; lia|]. rewrite replace_hit by (apply (clear_text _ false (fam p)); [done|apply (mark_opens false)]).
      cbn [fill text fam inner]. unfold replacement. rewrite <- !str_app_assoc. do 4 f_equal. apply IH. cbn in Hn. lia.
    + rewrite (replace_skip _ _ _ _ (start_of (fam p))) by (apply (clear_mark true _ true); intros He; by destruct (fam p), s).
      rewrite (replace_skip _ _ _ _ (inner p)) by (apply (clear_text _ true s); [done|apply (mark_opens false)]).
      rewrite (replace_skip _ _ _ _ (end_of (fam p))) by (apply (clear_mark false _ true); intros He; by destruct (fam p), s).
      do 4 f_equal. apply IH. cbn in Hn. lia.
Qed.

Lemma show_length l tail : (length l <= String.length (show l tail))%nat.
Proof.
  induction l as [|p l IH]; cbn [show length]; [lia|]. rewrite !str_length_app.
  assert (0 < String.length (start_of (fam p)))%nat by (destruct (fam p); cbn; lia). lia.
Qed.

Lemma render_family_show s l tail :
  Forall plain_part l -> plain tail -> render_family r ext (show l tail) s = Ok (show (fill_in s <$> l) tail).
Proof.
  intros Hl Ht. unfold render_family. rewrite checkBalanced_show by done. cbn. f_equal.
  unfold ReplaceAllLiteral. by apply replace_show; [..|apply show_length].
Qed.

Lemma Render_show l tail :
  Forall plain_part l -> plain tail -> Render (show l tail) r ext = Ok (show (fill r ext <$> l) tail).
Proof.
  intros Hl Ht. unfold Render, families. cbn [render_families].
  rewrite render_family_show by done. cbn [mbind res_bind].
  rewrite render_family_show by (done || by apply fill_in_plain). cbn [mbind res_bind].
  rewrite render_family_show by (done || by repeat apply fill_in_plain). cbn [mbind res_bind]. do 2 f_equal.
  rewrite <- !list_fmap_compose. apply list_fmap_ext. intros i [t s x] _. unfold compose, fill_in, fill.
  by destruct s; cbn.
Qed.

(** A page is rendered to the same page with every span filled and nothing else changed,
    and what comes out is rendered to itself. *)
Theorem Render_page l tail :
  Forall plain_part l -> plain tail ->
  exists out, Render (show l tail) r ext = Ok out /\ out = show (fill r ext <$> l) tail /\ Render out r ext = Ok out.
Proof.
  intros Hl Ht. eexists. split_and!; [by apply Render_show|done|]. rewrite Render_show; [|clear Ht|done].
  - rewrite <- list_fmap_compose. do 2 f_equal.
  - apply Forall_fmap. eapply Forall_impl; [exact Hl|]. intros p [Hp _]. split; [done|apply replace_plain].
Qed.
End Page.

(** ** The bail *)

Lemma common_prefix_spec a b :
  exists p x y, a = p ++ x /\ b = p ++ y /\ length p = common_prefix a b.
Proof.
  revert b. induction a as [|c a IH]; intros b; [by exists [], [], b|]. destruct b as [|d b]; [by exists [], (c :: a), []|].
  cbn [common_prefix]. destruct (Ascii.eqb_spec c d) as [->|]; [|by exists [], (c :: a), (d :: b)].
  destruct (IH b) as (p & x & y & Ha & Hb & Hl). exists (d :: p), x, y. cbn. by rewrite Ha at 1; rewrite Hb at 1; rewrite Hl.
Qed.

(** The bytes counted for a line are what is left of it between a prefix and a suffix that
    the rewritten line shares. *)
Lemma lineEditBytes_spec a b :
  exists p x y s, String.list_ascii_of_string a = p ++ x ++ s /\ String.list_ascii_of_string b = p ++ y ++ s
    /\ length x = lineEditBytes a b.
Proof.
  unfold lineEditBytes. set (la := String.list_ascii_of_string a). set (lb := String.list_ascii_of_string b).
  destruct (common_prefix_spec la lb) as (p & x & y & Ha & Hb & Hl). rewrite <- Hl.
  assert (Hx : drop (length p) la = x) by (rewrite Ha; apply drop_app_length).
  assert (Hy : drop (length p) lb = y) by (rewrite Hb; apply drop_app_length). rewrite Hx, Hy.
  destruct (common_prefix_spec (reverse x) (reverse y)) as (s & u & v & Hu & Hv & Hs). rewrite <- Hs.
  apply (f_equal reverse) in Hu, Hv. rewrite reverse_involutive, reverse_app in Hu, Hv.
  exists p, (reverse u), (reverse v), (reverse s). split_and!; [by rewrite <- Hu|by rewrite <- Hv|].
  rewrite Ha, length_app, Hu, length_app, !length_reverse. lia.
Qed.

(** A file is left alone, refused, or replaced by a rendering that rewrites half of it at most. *)
Lemma RenderFile_bounded path content r out changed :
  RenderFile path content r = Ok (out, changed) ->
  Render content r (to_lower (Ext path)) = Ok out
  /\ if changed then out <> content /\ (2 * edited (split_byte LF content) (split_byte LF out) <= String.length content)%nat else out = content.
Proof.
  unfold RenderFile. destruct (Render content r _) as [o|] eqn:Hr; [|done]. cbn [mbind res_bind].
  destruct (String.eqb_spec o content) as [->|Hne]; [by intros [= <- <-]|].
  destruct (more_than_half _) eqn:Hm; [done|]. intros [= <- <-]. split; [done|]. split; [done|].
  unfold changedFraction, more_than_half in Hm. destruct (String.eqb_spec content o) as [->|]; [done|].
  destruct (Nat.eqb_spec (String.length content) 0); cbn [fst snd] in Hm; [done|]. apply Nat.ltb_ge in Hm. lia.
Qed.

(** Markers in the wrong order have equal counts, so the page passes as it is. *)
Example end_before_start_unnoticed :
  let page := "a <!-- VERSION:end --> v0.1 <!-- VERSION:start --> b" in Render page (mkRelease "v0.2") ".md" = Ok page.
Proof. vm_compute. reflexivity. Qed.

(** A version on a line of its own is matched, but joining the lines shifts all that follow,
    and the page is refused. *)
Definition own_line (v : string) : string := "<p><!-- VERSION:start -->" +:+ v +:+ "<!-- VERSION:end --></p>".
Definition next_lines : string := join (str1 LF) [""; "Installing the program"; "Running it in a directory"; "Updating the configuration"; "Removing it again"].
Example own_line_refused :
  match RenderFile "index.html" (own_line (str1 LF +:+ "v0.1" +:+ str1 LF) +:+ next_lines) (mkRelease "v0.2") with Err (TooLarge _ _ _) => true | _ => false end = true
  /\ RenderFile "index.html" (own_line "v0.1" +:+ next_lines) (mkRelease "v0.2") = Ok (own_line "v0.2" +:+ next_lines, true).
Proof. vm_compute. auto. Qed.

(** ** The run *)

Section Dry.
Context `{Os} (gh : res string string).

(** What leaves the files as they are, however it ends. *)
Definition quiet {E A} (m : M E A) : Prop := forall w r w', m w = (r, w') -> fs w' = fs w.

Lemma quiet_bind {E A B} (m : M E A) (f : A -> M E B) : quiet m -> (forall a, quiet (f a)) -> quiet (m ≫= f).
Proof.
  intros Hm Hf w r w' Hr. apply M_bind_inv in Hr as [(a & w1 & Ha & Hr)|(e & Ha & _)]; apply Hm in Ha as <-; [by apply Hf in Hr|done].
Qed.
Lemma quiet_reads {A} (m : M FErr A) : (forall w r w', m w = (r, w') -> reads w w') -> quiet (mapErr RFs m).
Proof. intros Hm w r w' Hr. apply mapErr_inv in Hr as (r0 & Hr & _). by eapply reads_fs, Hm. Qed.
Lemma quiet_ret {E A} (a : A) : quiet (mret a : M E A).
Proof. by intros w r w' [= _ <-]. Qed.
Lemma quiet_lift {E A} (x : res E A) : quiet (lift x).
Proof. by intros w r w' [= _ <-]. Qed.

Lemma lstat_quiet p : quiet (mapErr RFs (lstat p)).
Proof. apply quiet_reads. intros w r w'. apply syscall_reads. intros f n g. destruct (f !! p); [by intros [= _ <-]|done]. Qed.
Lemma read_dir_quiet p : quiet (mapErr RFs (read_dir p)).
Proof.
  apply quiet_reads. intros w r w'. apply syscall_reads. intros f n g. destruct (follow _ _ _) as [q|]; [|done].
  cbn [mbind res_bind]. destruct (f !! q) as [[]|]; [done..|by intros [= _ <-]|done].
Qed.

Lemma render_path_dry rel p : quiet (render_path true rel p).
Proof.
  unfold render_path. destruct (_ && _); [apply quiet_ret|]. apply quiet_bind; [apply quiet_reads, read_file_reads|].
  intros raw. apply quiet_bind; [apply quiet_lift|]. intros [out []]; apply quiet_ret.
Qed.

Lemma visit_dry rel root l : quiet (visit true rel root l).
Proof.
  induction l as [|p l IH]; cbn [visit]; [apply quiet_ret|]. apply quiet_bind; [apply lstat_quiet|]. intros n.
  assert (Hf : quiet (changed ← render_path true rel p; ps ← visit true rel root l; mret (if changed : bool then Rel root p :: ps else ps) : M RErr (list string))).
  { apply quiet_bind; [apply render_path_dry|]. intros c. apply quiet_bind; [apply IH|]. intros ps. apply quiet_ret. }
  destruct n; [done..|]. apply quiet_bind; [apply read_dir_quiet|done].
Qed.

(** A dry run writes nothing. *)
Lemma Run_dry DocsDir tag : quiet (Run gh DocsDir tag true).
Proof.
  unfold Run. apply quiet_bind; [apply quiet_lift|]. intros t. destruct (negb _); [apply quiet_lift|].
  apply quiet_bind; [|intros; apply quiet_ret]. apply quiet_bind; [apply lstat_quiet|]. intros _ w r w'. apply visit_dry.
Qed.
End Dry.

(** A release renders the pages it finds, in order, and a second run finds nothing to do;
    a page that is refused ends the run behind the ones that are written already. *)
Definition pages_os : Os := {| fails _ := false; partial _ := 0%nat; temp_rand _ _ := ""; clock _ := 0%Z; getenv _ := None |}.
Definition pages : files :=
  list_to_map [("web", NDir); ("web/a.html", NFile (own_line "v0.1") 420 0); ("web/b.txt", NFile (own_line "v0.1") 420 0);
    ("web/docs", NDir); ("web/docs/c.md", NFile (own_line "v0.1") 420 0)].
Example run_settles :
  let one := @Run pages_os (Err "no gh") "web" " v0.2 " false (start pages) in
  one.1 = Ok (mkResult "v0.2" ["a.html"; "docs/c.md"])
  /\ match fs one.2 !! "web/docs/c.md", fs one.2 !! "web/b.txt" with
     | Some (NFile c _ _), Some (NFile b _ _) => String.eqb c (own_line "v0.2") && String.eqb b (own_line "v0.1")
     | _, _ => false
     end = true
  /\ (@Run pages_os (Err "no gh") "web" "v0.2" false one.2).1 = Ok (mkResult "v0.2" []).
Proof. vm_compute. auto. Qed.
Example refused_in_the_middle :
  let w := (@Run pages_os (Err "no gh") "web" "v0.2" false (start (<["web/b.md" := NFile "<!-- VERSION:end -->" 420 0]> pages))).2 in
  match fs w !! "web/a.html", fs w !! "web/docs/c.md" with
  | Some (NFile a _ _), Some (NFile c _ _) => String.eqb a (own_line "v0.2") && String.eqb c (own_line "v0.1")
  | _, _ => false
  end = true.
Proof. vm_compute. auto. Qed.
End Rendocs.
