(* ===== verification/Unlock.v ===== *)
(** * Unlocking (src/internal/unlock)

    The bounded passphrase retry every entry point shares, and the flow that turns a
    passphrase into a running agent: load, derive, migrate, spawn. *)

From S2P Require Import Prelude GoString GoPath Fs ConfigModel Crypto NameId Seal Store Shells ConfigPath GoDuration.
Import Fs Config Crypto NameId Store Shells.

Module Unlock.

Definition DefaultPassphraseAttempts : nat := 3.

(** ** The retry loop (prompt.go)

    [readPw i] is what the user answers the i-th time; a result comes with the
    number of prompts shown and of "try again" notices printed.  [Err None] is the
    pair of nils an empty loop would return. *)
Section Retry.
Context {E K : Type} (readPw : nat -> res E string) (derive : string -> res E K) (isWrong : E -> bool).

Fixpoint retry_from (left i notices : nat) (lastErr : option E) : res (option E) K * nat * nat :=
  match left with
  | O => (Err lastErr, i, notices)
  | S left' =>
      match readPw i with
      | Err e => (Err (Some e), S i, notices)
      | Ok pw =>
          match derive pw with
          | Ok key => (Ok key, S i, notices)
          | Err e =>
              if negb (isWrong e) then (Err (Some e), S i, notices)
              else retry_from left' (S i) (if (0 <? left')%nat then S notices else notices) (Some e)
          end
      end
  end.

Definition deriveWithRetry (attempts : Z) : res (option E) K * nat * nat :=
  let n := if (attempts <=? 0)%Z then DefaultPassphraseAttempts else Z.to_nat attempts in
  retry_from n 0 0 None.

Definition PromptWithRetry := deriveWithRetry.

(** ** The contract *)

(** Answer [i] is a passphrase that is merely wrong. *)
Definition wrong_at (i : nat) : Prop :=
  exists pw e, readPw i = Ok pw /\ derive pw = Err e /\ isWrong e = true.

(** What the i-th answer settles, if it settles anything. *)
Definition verdict (i : nat) : option (res E K) :=
  match readPw i with
  | Err e => Some (Err e)
  | Ok pw =>
      match derive pw with
      | Ok k => Some (Ok k)
      | Err e => if isWrong e then None else Some (Err e)
      end
  end.

Lemma verdict_none i : verdict i = None <-> wrong_at i.
Proof.
  unfold verdict, wrong_at. split.
  - intros Hv. destruct (readPw i) as [pw|e]; [|done]. destruct (derive pw) as [k|e] eqn:Hd; [done|].
    destruct (isWrong e) eqn:Hw; [|done]. by exists pw, e.
  - intros (pw & e & -> & -> & ->). done.
Qed.

Lemma retry_from_spec left i notices lastErr r p m :
  retry_from left i notices lastErr = (r, p, m) ->
  (exists k, (i <= k < i + left)%nat /\ (forall j, (i <= j < k)%nat -> wrong_at j) /\ p = S k
     /\ m = (notices + (k - i))%nat
     /\ match verdict k with Some (Ok key) => r = Ok key | Some (Err e) => r = Err (Some e) | None => False end)
  \/ ((forall j, (i <= j < i + left)%nat -> wrong_at j) /\ p = (i + left)%nat /\ m = (notices + pred left)%nat
      /\ match left with
         | O => r = Err lastErr
         | S l => exists pw e, readPw (i + l) = Ok pw /\ derive pw = Err e /\ r = Err (Some e)
         end).
Proof.
  revert i notices lastErr. induction left as [|left IH]; intros i notices lastErr; cbn [retry_from].
  - intros [= <- <- <-]. right. split; [intros; lia|]. split; [lia|]. split; [lia|done].
  - assert (Hstop : forall v, verdict i = Some v -> (r, p, m) = (match v with Ok k => Ok k | Err e => Err (Some e) end, S i, notices) ->
      exists k, (i <= k < i + S left)%nat /\ (forall j, (i <= j < k)%nat -> wrong_at j) /\ p = S k
       /\ m = (notices + (k - i))%nat
       /\ match verdict k with Some (Ok key) => r = Ok key | Some (Err e) => r = Err (Some e) | None => False end).
    { intros v Hv [= -> -> ->]. exists i. split; [lia|]. split; [intros; lia|]. split; [done|]. split; [lia|].
      rewrite Hv. by destruct v. }
    destruct (readPw i) as [pw|e] eqn:Hr; [|intros Heq; left; eapply Hstop; [unfold verdict; by rewrite ?Hr, ?Hd, ?Hw|by rewrite <- Heq]].
    destruct (derive pw) as [k|e] eqn:Hd; [intros Heq; left; eapply Hstop; [unfold verdict; by rewrite ?Hr, ?Hd, ?Hw|by rewrite <- Heq]|].
    destruct (isWrong e) eqn:Hw; cbn [negb]; [|intros Heq; left; eapply Hstop; [unfold verdict; by rewrite ?Hr, ?Hd, ?Hw|by rewrite <- Heq]].
    clear Hstop. assert (Hi : wrong_at i) by (by exists pw, e).
    assert (Hall : forall k, (forall j, (S i <= j < k)%nat -> wrong_at j) -> forall j, (i <= j < k)%nat -> wrong_at j).
    { intros k Hk j Hj. destruct (decide (j = i)) as [->|]; [done|]. apply Hk. lia. }
    intros [(k & Hk & Hwr & -> & -> & Hv)|(Hwr & -> & -> & Hl)]%IH.
    + left. exists k. split; [lia|]. split; [by apply Hall|]. split; [done|]. split; [|done].
      destruct (Nat.ltb_spec 0 left); lia.
    + right. split; [apply Hall; intros j Hj; apply Hwr; lia|]. split; [lia|].
      split; [destruct (Nat.ltb_spec 0 left); lia|].
      destruct left as [|l].
      * exists pw, e. rewrite Nat.add_0_r. by split.
      * destruct Hl as (pw' & e' & H1 & H2 & H3). exists pw', e'. by rewrite <- Nat.add_succ_comm.
Qed.
End Retry.



(** ** From a passphrase to an agent (unlock.go) *)

Inductive UErr :=
| UNoHome
| UStore (e : SErr)
| UMigrate (e : SErr)
| UPaths (e : AErr)
| USpawn (what : string).

Record Result := mkResult { RSocket : string; RMigrated : bool; RCfgPath : string }.

Section Spawn.
Context `{Os, Rand, AEAD, Toml, Argon, NameMapCodec, MapRange}.
Context (uid : Z) (dir_owner dir_mode : string -> Z).
(** What the user types, and the start of the background process. *)
Context (answers : nat -> res SErr string) (SpawnDaemon : Paths -> string -> Z -> string -> M UErr unit).

Definition is_incorrect (e : SErr) : bool := match e with SIncorrectPassphrase => true | _ => false end.

(** Two nils would be the empty key. *)
Definition PromptAndDeriveKey (cfg : Config) (attempts : Z) : res SErr string :=
  match deriveWithRetry answers (DeriveKeyFromMeta cfg) is_incorrect attempts with
  | (Ok key, _, _) => Ok key
  | (Err (Some e), _, _) => Err e
  | (Err None, _, _) => Ok EmptyString
  end.

Definition Spawn (cfgPath : string) : M UErr Result :=
  resolved ← lift (of_option UNoHome (ConfigPath.Resolve cfgPath));
  cfg ← mapErr UStore (Load resolved);
  key ← lift (wrap_err UStore (PromptAndDeriveKey cfg 0));
  migrated ← mapErr UMigrate (MigrateToOpaqueIDs resolved key);
  cfg ← (if migrated : bool then mapErr UStore (Load resolved) else mret cfg);
  paths ← mapErr UPaths (DefaultPaths uid dir_owner dir_mode);
  _ ← SpawnDaemon paths resolved (GoDuration.ParseIdle (IdleTimeout (CAgent cfg))) key;
  mret (mkResult (Socket paths) migrated resolved).

(** A key that was not derived is never handed on. *)
Lemma PromptAndDeriveKey_ok cfg attempts key :
  PromptAndDeriveKey cfg attempts = Ok key -> exists i pw, answers i = Ok pw /\ DeriveKeyFromMeta cfg pw = Ok key.
Proof.
  unfold PromptAndDeriveKey. destruct (deriveWithRetry _ _ _ attempts) as [[r p] m] eqn:Hr.
  unfold deriveWithRetry in Hr. cbv zeta in Hr. set (n := if (attempts <=? 0)%Z then _ else _) in Hr.
  assert (Hn : (1 <= n)%nat) by (unfold n, DefaultPassphraseAttempts; destruct (Z.leb_spec attempts 0); lia).
  apply retry_from_spec in Hr as [(k & _ & _ & _ & _ & Hv)|(_ & _ & _ & Hl)].
  - unfold verdict in Hv. destruct (answers k) as [pw|e] eqn:Ha; [|by subst r].
    destruct (DeriveKeyFromMeta cfg pw) as [key'|e] eqn:Hd.
    + subst r. intros [= ->]. by exists k, pw.
    + destruct (is_incorrect e); [done|by subst r].
  - destruct n as [|l]; [lia|]. by destruct Hl as (pw & e & _ & _ & ->).
Qed.
End Spawn.
End Unlock.
