(* ===== verification/Bag.v ===== *)
(** * jitenv bag import (src/internal/cli/bag.go, bag_import.go)

    Gathering pairs from a .env file, standard input or named variables, merging
    them into a bag under a collision policy, and the command around them. *)

From S2P Require Import Prelude GoString GoPath GoTime Fs Atomic Dotenv ConfigModel Crypto NameId Seal SealIds.
From S2P Require Import SealRoundtrip SealStable Store StoreMigrate StoreSweep Edit Shells GoDuration ConfigPath Unlock Toys.
Import Fs Config Crypto NameId Seal SealIds SealRoundtrip Store StoreMigrate StoreSweep Edit.

Module Bag.

Inductive collisionPolicy := collisionAsk | collisionOverwrite | collisionSkip.

Record upsertStats := mkStats { Added : nat; Overwritten : nat; Skipped : nat }.
Definition Total (u : upsertStats) : nat := Added u + Overwritten u.

Record importPair := mkPair { Key : string; Value : string }.

#[export] Instance importPair_eq_dec : EqDecision importPair.
Proof. solve_decision. Defined.

(** ** Merging

    [ask i k] is the answer to the i-th question, which is about key [k]; the keys
    asked about are returned. *)
Definition upsert_step (policy : collisionPolicy) (ask : option (nat -> string -> bool))
    (acc : gmap string string * upsertStats * list string) (p : importPair)
    : gmap string string * upsertStats * list string :=
  let '(bag, stats, asked) := acc in
  match bag !! Key p with
  | Some _ =>
      let '(overwrite, asked) :=
        match policy with
        | collisionOverwrite => (true, asked)
        | collisionSkip => (false, asked)
        | collisionAsk =>
            match ask with
            | None => (false, asked)
            | Some f => (f (length asked) (Key p), asked ++ [Key p])
            end
        end in
      if negb overwrite then (bag, mkStats (Added stats) (Overwritten stats) (S (Skipped stats)), asked)
      else (<[Key p := Value p]> bag, mkStats (Added stats) (S (Overwritten stats)) (Skipped stats), asked)
  | None => (<[Key p := Value p]> bag, mkStats (S (Added stats)) (Overwritten stats) (Skipped stats), asked)
  end.

Definition bagUpsert (cfg : Config) (name : string) (pairs : list importPair) (policy : collisionPolicy)
    (ask : option (nat -> string -> bool)) : Config * upsertStats * list string :=
  let '(bag, stats, asked) :=
    fold_left (upsert_step policy ask) pairs (default ∅ (Secrets cfg !! name), mkStats 0 0 0, []) in
  (with_secrets cfg (<[name := bag]> (Secrets cfg)), stats, asked).

(** ** Gathering *)

Inductive BErr :=
| BadPolicy (s : string)
| NoInputSource
| ManyInputSources
| BFs (e : FErr)
| BStdin
| ParseErrors (l : list Dotenv.ParseError)
| BadEnvName (name : string)
| NothingToImport
| BNoHome
| BLoad (path : string) (e : SErr)
| BStore (e : SErr)
| BDecrypt (e : EErr)
| BInvalid (e : ValidateErr).

Definition parseCollisionPolicy (s : string) : res BErr collisionPolicy :=
  let t := to_lower (trim_space s) in
  if String.eqb t "ask" || str_empty t then Ok collisionAsk
  else if String.eqb t "overwrite" then Ok collisionOverwrite
  else if String.eqb t "skip" then Ok collisionSkip
  else Err (BadPolicy s).

(** The range over runes: every byte of a rune outside ASCII is refused. *)
Fixpoint env_name_from (i : nat) (s : string) : bool :=
  match s with
  | EmptyString => true
  | String r s' =>
      (Ascii.eqb r "_" || is_lower r || is_upper r || ((0 <? i)%nat && is_digit r)) && env_name_from (S i) s'
  end.

Definition isValidEnvName (s : string) : bool := if str_empty s then false else env_name_from 0 s.

(** dedupePairs: the last occurrence of a key stays, at its place. *)
Definition last_index (pairs : list Dotenv.Pair) : gmap string nat :=
  fold_left (fun m ip => <[Dotenv.Key ip.2 := ip.1]> m) (imap pair pairs) ∅.

Definition dedupePairs (pairs : list Dotenv.Pair) : list importPair :=
  let lastIdx := last_index pairs in
  omap (fun ip => if bool_decide (lastIdx !! Dotenv.Key ip.2 = Some ip.1)
                  then Some (mkPair (Dotenv.Key ip.2) (Dotenv.Value ip.2)) else None) (imap pair pairs).

Definition parseDotenvPairs (input : string) : res BErr (list importPair) :=
  let (pairs, perrs) := Dotenv.Parse input in
  match perrs with
  | [] => Ok (dedupePairs pairs)
  | _ => Err (ParseErrors perrs)
  end.

Record importOpts := mkOpts {
  bag : string;
  fromFile : string;
  fromEnv : list string;
  fromStdin : bool;
  onCollision : string;
  dryRun : bool
}.

(** What a run prints, on either stream. *)
Inductive Line :=
| NotSet (names : list string)
| MigrationNotice (backup : string)
| WouldImport (stats : upsertStats) (bag : string)
| Imported (stats : upsertStats) (bag : string).

Section Import.
Context `{Os, Rand, !RandLaws, AEAD, !AEADLaws, Toml, !TomlLaws, Argon, NameMapCodec, !NameMapCodecLaws, MapRange}.
(** Standard input, the passphrases typed, the i-th line read from the terminal
    ([None]: no terminal), the working directory and the agent's reload. *)
Context (stdin : res BErr string) (answers : nat -> res SErr string) (tty : nat -> option string).
Context (cwd : option string) (pingAgentReload : M BErr unit).

Fixpoint env_pairs (names : list string) (seen : gset string) (pairs : list importPair) (missing : list string)
    : res BErr (list importPair * list string) :=
  match names with
  | [] => Ok (pairs, missing)
  | raw :: names' =>
      let name := trim_space raw in
      if str_empty name then env_pairs names' seen pairs missing
      else if negb (isValidEnvName name) then Err (BadEnvName name)
      else if bool_decide (name ∈ seen) then env_pairs names' seen pairs missing
      else
        match getenv name with
        | None => env_pairs names' ({[name]} ∪ seen) pairs (missing ++ [name])
        | Some val => env_pairs names' ({[name]} ∪ seen) (pairs ++ [mkPair name val]) missing
        end
  end.

Definition pairsFromEnv (names : list string) : res BErr (list importPair * list string) :=
  env_pairs names ∅ [] [].

Definition gatherImportPairs (opts : importOpts) : M BErr (list importPair * list string) :=
  let n := ((if str_empty (fromFile opts) then 0 else 1) + (if bool_decide (fromEnv opts = []) then 0 else 1)
            + (if fromStdin opts then 1 else 0))%nat in
  if (n =? 0)%nat then throw NoInputSource
  else if (1 <? n)%nat then throw ManyInputSources
  else if negb (str_empty (fromFile opts)) then
    data ← mapErr BFs (read_file (fromFile opts));
    pairs ← lift (parseDotenvPairs data);
    mret (pairs, [])
  else if fromStdin opts then
    data ← lift stdin;
    pairs ← lift (parseDotenvPairs data);
    mret (pairs, [])
  else lift (pairsFromEnv (fromEnv opts)).

Definition askOverwrite (i : nat) (key : string) : bool :=
  match tty i with
  | None => false
  | Some line => let line := to_lower (trim_space line) in String.eqb line "y" || String.eqb line "yes"
  end.

Definition notice (missing : list string) : list Line := if bool_decide (missing = []) then [] else [NotSet missing].

(** From the migration on. *)
Definition import_rest (opts : importOpts) (pairs : list importPair) (missing : list string)
    (policy : collisionPolicy) (cfgPath key : string) : M BErr (list Line) :=
  migrated ← mapErr BStore (MigrateToOpaqueIDs cfgPath key);
  shown ← (if migrated : bool then b ← MigrationBackupPath cwd cfgPath; mret [MigrationNotice b] else mret []);
  cfg ← mapErr BStore (Load cfgPath);
  cfg ← lift (wrap_err BDecrypt (DecryptInPlace cfg key));
  let '(cfg, stats, _) := bagUpsert cfg (bag opts) pairs policy (Some askOverwrite) in
  let cfg := ensure_local 70 cfg in
  match Validate cfg with
  | Some e => throw (BInvalid e)
  | None =>
      _ ← mapErr BStore (saveAndReencrypt cfgPath cfg key);
      _ ← (ignore pingAgentReload : M BErr unit);
      mret (notice missing ++ shown ++ [Imported stats (bag opts)])
  end.

Definition runBagImport (opts : importOpts) : M BErr (list Line) :=
  policy ← lift (parseCollisionPolicy (onCollision opts));
  '(pairs, missing) ← gatherImportPairs opts;
  if bool_decide (pairs = []) then throw NothingToImport
  else
    cfgPath ← lift (of_option BNoHome (ConfigPath.Resolve (ConfigPath.env "JITENV_CONFIG")));
    cfg ← mapErr (BLoad cfgPath) (Load cfgPath);
    key ← lift (wrap_err BStore (Unlock.PromptAndDeriveKey answers cfg 0));
    if dryRun opts then
      cfg ← lift (wrap_err BDecrypt (DecryptInPlace cfg key));
      let '(_, stats, _) := bagUpsert cfg (bag opts) pairs policy (Some (fun _ _ => true)) in
      mret (notice missing ++ [WouldImport stats (bag opts)])
    else
      import_rest opts pairs missing policy cfgPath key.
End Import.

(** ** What a merge does *)

(** The keys a list of pairs shares with a bag, in the order of the list. *)
Definition hits (old : gmap string string) (pairs : list importPair) : list string :=
  filter (fun k => is_Some (old !! k)) (Key <$> pairs).

(** Whether the policy gives the bag's entry up; questions are numbered by hits. *)
Definition chosen (policy : collisionPolicy) (ask : option (nat -> string -> bool)) (hs : list string) (k : string) : bool :=
  match policy, ask with
  | collisionOverwrite, _ => true
  | collisionAsk, Some f => match list_find (k =.) hs with Some (i, _) => f i k | None => false end
  | _, _ => false
  end.

Lemma chosen_app policy ask hs l k : k ∈ hs -> chosen policy ask (hs ++ l) k = chosen policy ask hs k.
Proof.
  intros Hk. destruct policy; try done. destruct ask as [f|]; [|done]. simpl.
  destruct (list_find_elem_of (k =.) hs k Hk eq_refl) as [[i x] Hf]. by rewrite Hf, (list_find_app_l _ _ _ _ _ Hf).
Qed.

Lemma chosen_last f hs k : k ∉ hs -> chosen collisionAsk (Some f) (hs ++ [k]) k = f (length hs) k.
Proof.
  intros Hk. simpl. rewrite list_find_app_r.
  - cbn [list_find]. rewrite decide_True by done. done.
  - apply list_find_None, Forall_forall. intros x Hx ->. done.
Qed.

Record merged (old : gmap string string) (pairs : list importPair) (policy : collisionPolicy)
    (ask : option (nat -> string -> bool)) (new : gmap string string) (stats : upsertStats) (asked : list string) : Prop := {
  mg_other : forall k, k ∉ Key <$> pairs -> new !! k = old !! k;
  mg_pair : forall p, p ∈ pairs -> new !! Key p =
    Some (match old !! Key p with Some v => if chosen policy ask (hits old pairs) (Key p) then Value p else v | None => Value p end);
  mg_asked : asked = match policy, ask with collisionAsk, Some _ => hits old pairs | _, _ => [] end;
  mg_added : Added stats + length (hits old pairs) = length pairs;
  mg_skipped : Overwritten stats + Skipped stats = length (hits old pairs);
  mg_total : Overwritten stats = length (filter (fun k => chosen policy ask (hits old pairs) k = true) (hits old pairs))
}.

Lemma hits_app old pairs p :
  hits old (pairs ++ [p]) = hits old pairs ++ (if decide (is_Some (old !! Key p)) then [Key p] else []).
Proof. unfold hits. rewrite fmap_app, filter_app. simpl. f_equal. Qed.

Lemma hits_sub old pairs k : k ∈ hits old pairs <-> is_Some (old !! k) /\ k ∈ Key <$> pairs.
Proof. unfold hits. by rewrite list_elem_of_filter. Qed.

Lemma filter_Forall_ext {A} (P Q : A -> Prop) `{!forall x, Decision (P x), !forall x, Decision (Q x)} l :
  Forall (fun x => P x <-> Q x) l -> filter P l = filter Q l.
Proof.
  induction 1 as [|x l Hx _ IH]; [done|]. rewrite !filter_cons, IH. destruct (decide (P x)), (decide (Q x)); tauto.
Qed.

(** One more pair, whose key is new to the list. *)
Lemma merged_snoc old pairs policy ask l v p (b b' : gmap string string) :
  Key p ∉ Key <$> pairs -> (forall k, k ∉ Key <$> pairs -> b !! k = old !! k) ->
  (forall q, q ∈ pairs -> b !! Key q =
    Some (match old !! Key q with Some o => if chosen policy ask (hits old pairs) (Key q) then Value q else o | None => Value q end)) ->
  (forall k, k <> Key p -> b' !! k = b !! k) -> b' !! Key p = Some v ->
  v = match old !! Key p with
      | Some o => if chosen policy ask (hits old pairs ++ l) (Key p) then Value p else o | None => Value p end ->
  (forall k, k ∉ Key <$> (pairs ++ [p]) -> b' !! k = old !! k)
  /\ forall q, q ∈ pairs ++ [p] -> b' !! Key q =
     Some (match old !! Key q with
           | Some o => if chosen policy ask (hits old pairs ++ l) (Key q) then Value q else o | None => Value q end).
Proof.
  intros Hnew Ho Hp Hb' Hv ->. split.
  - intros k Hk. rewrite fmap_app in Hk. rewrite Hb'; [apply Ho|]; set_solver.
  - intros q [Hq|Hq]%elem_of_app; [|apply list_elem_of_singleton in Hq as ->; done].
    pose proof (list_elem_of_fmap_2 Key _ _ Hq) as Hkq.
    rewrite Hb', (Hp q Hq) by (intros He; by rewrite He in Hkq). destruct (old !! Key q) eqn:Hoq; [|done].
    rewrite chosen_app; [done|]. apply hits_sub. split; [by eexists|done].
Qed.

Lemma upsert_fold old pairs policy ask new stats asked :
  NoDup (Key <$> pairs) -> fold_left (upsert_step policy ask) pairs (old, mkStats 0 0 0, []) = (new, stats, asked) ->
  merged old pairs policy ask new stats asked.
Proof.
  revert new stats asked. induction pairs as [|p pairs IH] using rev_ind; intros new stats asked Hnd Hf.
  { injection Hf as <- <- <-. split; try done; [set_solver|]. by destruct policy, ask. }
  rewrite fold_left_app in Hf. rewrite fmap_app in Hnd. apply NoDup_app in Hnd as (Hnd & Hx & _).
  destruct (fold_left _ pairs _) as [[b s] a] eqn:Hb. destruct (IH _ _ _ Hnd eq_refl) as [Ho Hp Ha Had Hsk Hto].
  assert (Hnew : Key p ∉ Key <$> pairs) by (intros Hin; apply (Hx _ Hin); set_solver).
  assert (Hold : b !! Key p = old !! Key p) by by apply Ho.
  assert (Hfilter : forall l, filter (fun k => chosen policy ask (hits old pairs ++ l) k = true) (hits old pairs)
    = filter (fun k => chosen policy ask (hits old pairs) k = true) (hits old pairs)).
  { intros l. apply filter_Forall_ext, Forall_forall. intros k Hk. by rewrite chosen_app. }
  cbn [fold_left upsert_step] in Hf. rewrite Hold in Hf. destruct (old !! Key p) as [v|] eqn:Hop.
  2: { injection Hf as <- <- <-.
       assert (Hh : hits old (pairs ++ [p]) = hits old pairs ++ []) by (rewrite hits_app, Hop; by rewrite decide_False by by intros []).
       destruct (merged_snoc _ _ _ _ [] (Value p) _ _ (<[Key p := Value p]> b) Hnew Ho Hp) as [H1 H2];
         [intros; by apply lookup_insert_ne|apply lookup_insert_eq|by rewrite Hop|].
       split; rewrite ?Hh; try done; rewrite ?app_nil_r; try done; rewrite ?length_app; cbn [Added length]; lia. }
  assert (Hh : hits old (pairs ++ [p]) = hits old pairs ++ [Key p]) by (rewrite hits_app, Hop; by rewrite decide_True by eauto).
  assert (Hkh : Key p ∉ hits old pairs) by (intros [_ Hin]%hits_sub; done).
  set (ow := chosen policy ask (hits old pairs ++ [Key p]) (Key p)) in *.
  assert (Hf' : (if ow then (<[Key p := Value p]> b, mkStats (Added s) (S (Overwritten s)) (Skipped s),
                    match policy, ask with collisionAsk, Some _ => a ++ [Key p] | _, _ => a end)
                 else (b, mkStats (Added s) (Overwritten s) (S (Skipped s)),
                    match policy, ask with collisionAsk, Some _ => a ++ [Key p] | _, _ => a end)) = (new, stats, asked)).
  { revert Hf. unfold ow. destruct policy; try done. destruct ask as [f|]; [|done]. rewrite chosen_last by done.
    rewrite Ha. by destruct (f _ _). }
  clear Hf. assert (Hask : match policy, ask with collisionAsk, Some _ => a ++ [Key p] | _, _ => a end
    = match policy, ask with collisionAsk, Some _ => hits old pairs ++ [Key p] | _, _ => [] end).
  { rewrite Ha. by destruct policy, ask. }
  rewrite Hask in Hf'.
  assert (Hcount : length (filter (fun k => chosen policy ask (hits old pairs ++ [Key p]) k = true) (hits old pairs ++ [Key p]))
    = (Overwritten s + if ow then 1 else 0)%nat).
  { rewrite filter_app, length_app, Hfilter, <- Hto. f_equal. rewrite filter_cons. fold ow.
    destruct ow; [by rewrite decide_True|by rewrite decide_False]. }
  destruct ow eqn:How; injection Hf' as <- <- <-.
  - destruct (merged_snoc _ _ _ _ [Key p] (Value p) _ _ (<[Key p := Value p]> b) Hnew Ho Hp) as [H1 H2];
      [intros; by apply lookup_insert_ne|apply lookup_insert_eq|rewrite Hop; unfold ow in How; by rewrite How|].
    split; rewrite ?Hh, ?Hcount, ?length_app; cbn [Added Overwritten Skipped length]; try done; lia.
  - destruct (merged_snoc _ _ _ _ [Key p] v _ _ b Hnew Ho Hp) as [H1 H2]; [done|by rewrite Hold|rewrite Hop; unfold ow in How; by rewrite How|].
    split; rewrite ?Hh, ?Hcount, ?length_app; cbn [Added Overwritten Skipped length]; try done; lia.
Qed.

(**  Merging into a bag is exact.  For pairs of distinct keys the merge changes
    the named bag only, creating it if need be: a key that is not imported keeps its
    value, an imported key the bag lacks gets its new value, and one it has gets it
    exactly when the policy gives the old one up; the user is asked about the shared
    keys, once each and in order, under the ask policy and never otherwise; and the
    counts reported are those of the new, the replaced and the kept keys. *)
Theorem bagUpsert_spec cfg name pairs policy ask cfg' stats asked :
  NoDup (Key <$> pairs) -> bagUpsert cfg name pairs policy ask = (cfg', stats, asked) ->
  exists new, cfg' = with_secrets cfg (<[name := new]> (Secrets cfg))
    /\ merged (default ∅ (Secrets cfg !! name)) pairs policy ask new stats asked.
Proof.
  intros Hnd Hb. unfold bagUpsert in Hb. destruct (fold_left _ _ _) as [[new s] a] eqn:Hf.
  injection Hb as <- <- <-. exists new. split; [done|]. by apply upsert_fold.
Qed.

(** ** Duplicate keys in the input *)

Lemma last_index_app pairs p :
  last_index (pairs ++ [p]) = <[Dotenv.Key p := length pairs]> (last_index pairs).
Proof. unfold last_index. rewrite imap_app, fold_left_app. cbn. by rewrite Nat.add_0_r. Qed.

(** [i] is the last place of its key. *)
Definition last_at (pairs : list Dotenv.Pair) (i : nat) (p : Dotenv.Pair) : Prop :=
  pairs !! i = Some p /\ forall j q, (i < j)%nat -> pairs !! j = Some q -> Dotenv.Key q <> Dotenv.Key p.

Lemma last_index_spec pairs i p :
  pairs !! i = Some p -> last_index pairs !! Dotenv.Key p = Some i <-> last_at pairs i p.
Proof.
  revert i p. induction pairs as [|x pairs IH] using rev_ind; intros i p Hi; [done|].
  rewrite last_index_app. apply lookup_app_Some in Hi as [Hi|[Hlen Hi]].
  - pose proof (lookup_lt_Some _ _ _ Hi) as Hlt. destruct (decide (Dotenv.Key x = Dotenv.Key p)) as [He|Hne].
    + rewrite He, lookup_insert_eq. split; [intros [= Hl]; lia|]. intros [_ Hlast]. exfalso.
      apply (Hlast (length pairs) x Hlt); [|done]. by rewrite lookup_app_r, Nat.sub_diag.
    + rewrite lookup_insert_ne, (IH _ _ Hi) by done. unfold last_at. rewrite lookup_app_l by done. split.
      * intros [H1 H2]. split; [done|]. intros j q Hj [Hq|[_ Hq]]%lookup_app_Some; [by eapply H2|].
        by apply list_lookup_singleton_Some in Hq as [_ <-].
      * intros [H1 H2]. split; [done|]. intros j q Hj Hq. eapply H2; [exact Hj|].
        rewrite lookup_app_l; [done|by eapply lookup_lt_Some].
  - apply list_lookup_singleton_Some in Hi as [Hz <-]. assert (i = length pairs) as -> by lia.
    rewrite lookup_insert_eq. split; [|done]. intros _. split; [by rewrite lookup_app_r, Nat.sub_diag|].
    intros j q Hj Hq%lookup_lt_Some. rewrite length_app in Hq. simpl in Hq. lia.
Qed.

Lemma elem_of_dedupe pairs kv :
  kv ∈ dedupePairs pairs <-> exists i p, last_at pairs i p /\ kv = mkPair (Dotenv.Key p) (Dotenv.Value p).
Proof.
  unfold dedupePairs. rewrite list_elem_of_omap. split.
  - intros ([i p] & Hin & Hx). apply elem_of_lookup_imap in Hin as (j & q & [= -> ->] & Hi). cbn [fst snd] in Hx.
    case_bool_decide as Hl; [|done]. injection Hx as <-. exists j, q. split; [|done]. by apply last_index_spec.
  - intros (i & p & [Hi Hlast] & ->). exists (i, p). split; [apply elem_of_lookup_imap; by exists i, p|].
    cbn [fst snd]. by rewrite bool_decide_eq_true_2 by by apply last_index_spec.
Qed.

Lemma NoDup_omap_keys {A} (f : A -> option importPair) l :
  NoDup l -> (forall x y a b, x ∈ l -> y ∈ l -> f x = Some a -> f y = Some b -> Key a = Key b -> x = y) ->
  NoDup (Key <$> omap f l).
Proof.
  induction 1 as [|x l Hx Hnd IH]; intros Hf; simpl; [constructor|].
  assert (IH' : NoDup (Key <$> omap f l)) by (apply IH; intros; eapply Hf; set_solver).
  destruct (f x) as [a|] eqn:Hfx; [|done]. simpl. constructor; [|done].
  intros (b & Hk & (y & Hy & Hfy)%list_elem_of_omap)%list_elem_of_fmap. apply Hx.
  rewrite (Hf x y a b); set_solver.
Qed.

Lemma dedupe_NoDup pairs : NoDup (Key <$> dedupePairs pairs).
Proof.
  assert (Hpick : forall n r c, (if bool_decide (last_index pairs !! Dotenv.Key r = Some n)
      then Some (mkPair (Dotenv.Key r) (Dotenv.Value r)) else None) = Some c ->
    last_index pairs !! Key c = Some n) by (intros n r c; case_bool_decide; intros Hc; by simplify_eq).
  apply NoDup_omap_keys.
  - apply NoDup_alt. intros i j x Hi Hj. rewrite list_lookup_imap in Hi, Hj.
    apply fmap_Some in Hi as (p & _ & ->). apply fmap_Some in Hj as (q & _ & [= -> _]). done.
  - intros [i p] [j q] a b Hi Hj Ha Hb Hk. cbn [fst snd] in *.
    apply elem_of_lookup_imap in Hi as (i' & p' & [= <- <-] & Hi).
    apply elem_of_lookup_imap in Hj as (j' & q' & [= <- <-] & Hj).
    apply Hpick in Ha, Hb. rewrite Hk, Hb in Ha. injection Ha as ->. congruence.
Qed.

(** Of the assignments a dotenv block makes to a key, the last one is imported, as
    the shell sourcing the block would have it. *)
Theorem dedupePairs_last pairs :
  NoDup (Key <$> dedupePairs pairs)
  /\ forall k v, mkPair k v ∈ dedupePairs pairs <->
     exists i p, last_at pairs i p /\ Dotenv.Key p = k /\ Dotenv.Value p = v.
Proof.
  split; [apply dedupe_NoDup|]. intros k v. rewrite elem_of_dedupe. naive_solver.
Qed.

(** ** The command *)

Section Command.
Context `{Os, Rand, !RandLaws, AEAD, !AEADLaws, Toml, !TomlLaws, Argon, NameMapCodec, !NameMapCodecLaws, MapRange}.
Context (stdin : res BErr string) (answers : nat -> res SErr string) (tty : nat -> option string).
Context (cwd : option string) (pingAgentReload : M BErr unit).

#[local] Notation gather := (gatherImportPairs stdin).
#[local] Notation run := (runBagImport stdin answers tty cwd pingAgentReload).

Lemma env_pairs_NoDup names seen pairs missing ps ms :
  env_pairs names seen pairs missing = Ok (ps, ms) -> NoDup (Key <$> pairs) -> (forall k, k ∈ Key <$> pairs -> k ∈ seen) ->
  NoDup (Key <$> ps).
Proof.
  revert seen pairs missing. induction names as [|raw names IH]; intros seen pairs missing; cbn [env_pairs].
  - by intros [= <- <-].
  - destruct (str_empty _); [by apply IH|]. destruct (negb _); [done|]. case_bool_decide as Hin; [by apply IH|].
    destruct (getenv _) as [val|]; intros Hr Hnd Hsub; eapply IH; try exact Hr; try done; [|set_solver..].
    rewrite fmap_app. apply NoDup_app. split; [done|]. split; [|apply NoDup_singleton].
    intros k Hk Hk'. apply list_elem_of_singleton in Hk' as ->. by apply Hin, Hsub.
Qed.

(** Whatever is gathered has one pair per key, and gathering only reads. *)
Lemma gather_spec opts w r w' :
  gather opts w = (r, w') -> reads w w' /\ forall pairs missing, r = Ok (pairs, missing) -> NoDup (Key <$> pairs).
Proof.
  assert (Hself : forall w0, reads w0 w0) by (intros w0; by apply evolves_refl).
  assert (Hdot : forall s l, parseDotenvPairs s = Ok l -> NoDup (Key <$> l)).
  { intros s l. unfold parseDotenvPairs. destruct (Dotenv.Parse s) as [ps [|e es]]; [|done].
    intros [= <-]. apply dedupe_NoDup. }
  unfold gatherImportPairs. intros Hr. destruct (_ =? 0)%nat; [injection Hr as <- <-; by split|].
  destruct (1 <? _)%nat; [injection Hr as <- <-; by split|].
  destruct (negb (str_empty (fromFile opts))); [|destruct (fromStdin opts)].
  - apply M_bind_inv in Hr as [(b & w1 & (r0 & Hb & _)%mapErr_inv & Hr)|(e & (r0 & Hb & _)%mapErr_inv & ->)];
      apply read_file_reads in Hb; [|by split].
    unfold lift, mbind, M_bind in Hr. destruct (parseDotenvPairs b) as [l|] eqn:Hp; injection Hr as <- <-;
      (split; [done|]); [|done]. intros ps ms [= <- <-]. by eapply Hdot.
  - unfold lift, mbind, M_bind in Hr. destruct stdin as [b|]; [|injection Hr as <- <-; by split].
    destruct (parseDotenvPairs b) as [l|] eqn:Hp; injection Hr as <- <-;
      (split; [done|]); [|done]. intros ps ms [= <- <-]. by eapply Hdot.
  - unfold lift in Hr. injection Hr as <- <-. split; [done|]. intros ps ms Hp.
    eapply env_pairs_NoDup; [exact Hp|constructor|set_solver].
Qed.

(** A dry run writes nothing: whatever happens, every file is untouched at every
    moment of the run. *)
Theorem dry_run_reads opts w r w' : dryRun opts = true -> run opts w = (r, w') -> reads w w'.
Proof.
  intros Hd Hr. unfold runBagImport in Hr. rewrite Hd in Hr.
  apply M_bind_inv in Hr as [(p & w1 & [_ ->]%lift_inv & Hr)|(e & [_ ->]%lift_inv & ->)]; [|by apply evolves_refl].
  apply M_bind_inv in Hr as [([pairs missing] & w1 & Hg & Hr)|(e & Hg & ->)]; apply gather_spec in Hg as [Hrd _]; [|done].
  case_bool_decide; [by injection Hr as _ <-|].
  apply M_bind_inv in Hr as [(path & w2 & [_ ->]%lift_inv & Hr)|(e & [_ ->]%lift_inv & ->)]; [|done].
  apply M_bind_inv in Hr as [(c & w2 & (r0 & Hl & _)%mapErr_inv & Hr)|(e & (r0 & Hl & _)%mapErr_inv & ->)];
    apply Load_spec in Hl as [Hl _]; pose proof (reads_trans _ _ _ Hrd Hl) as Hrd2; [|done].
  apply M_bind_inv in Hr as [(k & w3 & [_ ->]%lift_inv & Hr)|(e & [_ ->]%lift_inv & ->)]; [|done].
  apply M_bind_inv in Hr as [(d & w3 & [_ ->]%lift_inv & Hr)|(e & [_ ->]%lift_inv & ->)]; [|done].
  destruct (bagUpsert _ _ _ _ _) as [[? ?] ?]. by injection Hr as _ <-.
Qed.

(** The configuration an import of [pairs] makes of [c]. *)
Definition edited (opts : importOpts) (pairs : list importPair) (policy : collisionPolicy) (c : Config) : Config :=
  ensure_local 70 (bagUpsert c (bag opts) pairs policy (Some (askOverwrite tty))).1.1.

Lemma edited_content opts pairs policy c c' : content c = content c' ->
  content (edited opts pairs policy c) = content (edited opts pairs policy c').
Proof.
  intros Hc. unfold edited. apply ensure_local_content. unfold content in Hc. injection Hc as Hs Hm Hse.
  unfold bagUpsert. rewrite Hse. destruct (fold_left _ _ _) as [[new s] a].
  unfold content, with_secrets. cbn [fst Sources Mappings Secrets]. by rewrite Hs, Hm.
Qed.

Lemma edited_names key opts pairs policy d : prev_names key (edited opts pairs policy d) = prev_names key d.
Proof.
  unfold edited, bagUpsert, ensure_local. destruct (fold_left _ _ _) as [[new s] a]. cbn [fst].
  by destruct (_ !! localSourceName _ _).
Qed.

Lemma import_rest_spec opts pairs missing policy path key w r w' old m t c0 c1 :
  quick -> no_meta path -> (forall rnd, temp_name (GoPath.Dir path) savePattern rnd <> path) ->
  (forall v r0 v', pingAgentReload v = (r0, v') -> fs v' = fs v) ->
  fs w !! path = Some (NFile old m t) -> old_names_wf old key ->
  loaded old = Some c0 -> DecryptInPlace c0 key = Ok c1 -> sealable c1 -> codable key c1 ->
  (forall d, content d = content c1 ->
    sealable (edited opts pairs policy d) /\ codable key (edited opts pairs policy d)) ->
  import_rest tty cwd pingAgentReload opts pairs missing policy path key w = (r, w') ->
  holds path key (match r with Ok _ => edited opts pairs policy c1 | Err _ => c1 end) (fs w').
Proof.
  intros Hq Hmeta Hname Hping Hp Hwf Hl0 Hd1 Hsl Hcod Hnew Hr. unfold import_rest in Hr.
  eapply unlocked_step in Hr as [[[e ->] Hr]|(shown & d & nm & w6 & data & m' & t' & Hr & Hf & Ho & Hcd & Hprev & Hnw)];
    [exact Hr|clear old m t Hp Hwf Hl0|done..].
  assert (Hkeep : holds path key c1 (fs w6)) by by exists data, m', t'.
  destruct (Hnew d Hcd) as [Hsl2 Hcod2]. rewrite <- (edited_names key opts pairs policy d) in Hprev.
  unfold edited in Hprev, Hsl2, Hcod2. pose proof (edited_content opts pairs policy d c1 Hcd) as Hed.
  unfold edited at 1 in Hed. destruct (bagUpsert d _ _ _ _) as [[ce stats] asked]. cbn [fst] in *.
  destruct (Validate _); [injection Hr as <- <-; exact Hkeep|].
  assert (Hsave : forall rs w8, mapErr BStore (saveAndReencrypt path (ensure_local 70 ce) key) w6 = (rs, w8) ->
    holds path key (match rs with Ok _ => edited opts pairs policy c1 | Err _ => c1 end) (fs w8)).
  { intros rs w8 (r8 & Hs8 & ->)%mapErr_inv. eapply save_opens in Hs8; [|exact Hmeta|exact Hname|exact Hprev|done..].
    destruct r8 as [[]|]; cbn [wrap_err].
    - destruct Hs8 as (data8 & t8 & Hf8 & (cf & d8 & nm8 & H8a & H8b & H8c & H8d)). exists data8, 384%Z, t8.
      split; [exact Hf8|]. exists cf, d8, nm8. rewrite H8c, Hed. done.
    - unfold holds. rewrite Hs8. by apply Hkeep. }
  apply M_bind_inv in Hr as [([] & w8 & Hsv & Hr)|(e & Hsv & ->)]; apply Hsave in Hsv; [|exact Hsv].
  apply M_bind_inv in Hr as [([] & w9 & Hpi & Hr)|(e & Hpi & ->)]; unfold ignore in Hpi; [|done].
  injection Hpi as <-. injection Hr as <- <-. destruct (pingAgentReload w8) as [rp wp] eqn:Hpg.
  cbn [snd]. by rewrite (Hping _ _ _ Hpg).
Qed.

End Command.

(** ** Imports that work, and two that show their limits *)

#[local] Existing Instance toy_aead.
#[local] Existing Instance toy_rand.
#[local] Existing Instance Toys.toy_toml.
#[local] Existing Instance Toys.toy_codec.

Definition ex_os : Os := Build_Os (fun _ => false) (fun _ => 0%nat) (fun t i => itoa (N.of_nat (t + i)))
  (fun _ => 1760000000%Z) (fun k => if String.eqb k "JITENV_CONFIG" then Some "/h/config.toml" else None).

(** The file [jitenv config init] makes. *)
Definition ex_init : world := (@InitNew ex_os toy_rand toy_aead Toys.toy_toml Toys.toy_argon "/h/config.toml" "pw" (start ∅)).2.
Definition ex_file (w : world) : string :=
  match fs w !! "/h/config.toml" with Some (NFile s _ _) => s | _ => EmptyString end.
Definition ex_cfg (w : world) : Config := default (fresh_config "" "") (loaded (ex_file w)).

Definition ex_opts : importOpts := mkOpts "prod" "" [] true "ask" false.

Lemma ex_bag_quick : @quick ex_os.
Proof.
  intros i j. cbn [clock ex_os]. rewrite Z.sub_diag. split; [vm_compute; split; discriminate|vm_compute; reflexivity].
Qed.

Definition ex_import (input : string) (w : world) : res BErr (list Line) * world :=
  @runBagImport ex_os toy_rand toy_aead Toys.toy_toml Toys.toy_argon Toys.toy_codec map_range_default
    (Ok input) (fun _ => Ok "pw") (fun _ => Some "y") (Some "/") (mret tt)
    ex_opts w.

Definition ex_key : string :=
  match @Unlock.PromptAndDeriveKey toy_aead Toys.toy_argon (fun _ => Ok "pw") (ex_cfg ex_init) 0 with
  | Ok k => k | Err _ => EmptyString end.
#[local] Existing Instance map_range_default.

Definition ex_open (w : world) : res EErr Config := DecryptInPlace (ex_cfg w) ex_key.
Definition ex_plain : Config := match ex_open ex_init with Ok d => d | Err _ => ex_cfg ex_init end.
Definition ex_input : string := "A=1" +:+ str1 LF +:+ "B=two" +:+ str1 LF +:+ "A=3".
Definition ex_pairs : list importPair := [mkPair "B" "two"; mkPair "A" "3"].

Definition ex_bag : Config := with_secrets ex_plain {["prod" := {["B" := "old"; "K" := "kept"]}]}.
Definition ex_ask : nat -> string -> bool := fun _ k => String.eqb k "B".
Definition ex_merge := bagUpsert ex_bag "prod" ex_pairs collisionAsk (Some ex_ask).

Lemma bagUpsert_spec_witness :
  ex_merge = (ex_merge.1.1, mkStats 1 1 0, ["B"])
  /\ exists new, Secrets ex_merge.1.1 !! "prod" = Some new /\ new !! "B" = Some "two" /\ new !! "K" = Some "kept".
Proof.
  assert (Hrun : ex_merge = (ex_merge.1.1, mkStats 1 1 0, ["B"])) by (vm_compute; reflexivity).
  split; [exact Hrun|].
  destruct (bagUpsert_spec ex_bag "prod" ex_pairs collisionAsk (Some ex_ask) _ _ _
    ltac:(apply (bool_decide_unpack _); vm_compute; exact I) Hrun) as (new & Hc & Hm).
  exists new. split; [rewrite Hc; vm_compute; reflexivity|]. split.
  - assert (Hin : mkPair "B" "two" ∈ ex_pairs) by (apply (bool_decide_unpack _); vm_compute; exact I).
    pose proof (mg_pair _ _ _ _ _ _ _ Hm _ Hin) as Hb. cbn [Key] in Hb. rewrite Hb. vm_compute. reflexivity.
  - rewrite (mg_other _ _ _ _ _ _ _ Hm "K") by (apply (bool_decide_unpack _); vm_compute; exact I).
    vm_compute. reflexivity.
Defined.

Lemma ex_names_wf : old_names_wf (ex_file ex_init) ex_key.
Proof.
  intros c nm Hl Hn. replace (loaded (ex_file ex_init)) with (Some (ex_cfg ex_init)) in Hl by (vm_compute; reflexivity).
  apply (inj Some) in Hl as <-. vm_compute in Hn. injection Hn as <-. exact SealStable.empty_names_wf.
Qed.

Lemma ex_plain_sealable : sealable ex_plain.
Proof.
  split; [apply (bool_decide_unpack _); vm_compute; exact I..|].
  replace (Mappings ex_plain) with (@nil Mapping) by (vm_compute; reflexivity). constructor.
Qed.

Lemma ex_edited_sealable c : content c = content ex_plain -> sealable (edited (fun _ => Some "y") ex_opts ex_pairs collisionAsk c).
Proof.
  intros Hc. eapply sealable_content; [symmetry; by apply edited_content|].
  split.
  - apply (bool_decide_unpack _). vm_compute. exact I.
  - apply (bool_decide_unpack _). vm_compute. exact I.
  - replace (Mappings _) with (@nil Mapping) by (vm_compute; reflexivity). constructor.
Qed.

Definition ex_run : res BErr (list Line) * world := ex_import ex_input ex_init.


(** A value that looks sealed is stored as it is, and the file no longer unlocks. *)
Example envelope_value_bricks :
  let run := ex_import ("X=" +:+ EnvelopePrefix +:+ "AAAA") ex_init in
  is_ok run.1 = true /\ is_ok (ex_open run.2) = false.
Proof. vm_compute. split; reflexivity. Qed.

(** An import goes ahead while another session holds the lock of the file. *)
Example import_ignores_lock :
  let locked := mkWorld (fs ex_init) (tick ex_init) (draws ex_init) {["/h/config.toml.tui.lock"]} (trace ex_init) in
  is_ok (ex_import ex_input locked).1 = true.
Proof. vm_compute. reflexivity. Qed.

(** A source of another kind that is called local takes the place of a local one. *)
Example local_name_taken :
  let c := with_sources ex_plain {["local" := mkSource "aws" ∅]} in
  localSourceName 71 c = "local" /\ ensure_local 70 c = c.
Proof. vm_compute. split; reflexivity. Qed.
End Bag.
