(* ===== verification/Gitauth.v ===== *)
(** * Git credentials (src/internal/gitauth)

    From a clone URL to the name of a bag, the answers given to git's credential
    prompts, and the helper script git runs to ask for them. *)

From S2P Require Import Prelude GoString GoPath Fs Atomic ConfigPath.
Import Fs Atomic.

Module Gitauth.

(** ** Bag names (url.go) *)

Definition is_alnum (r : ascii) : bool := is_lower r || is_digit r.

(** The loop over the lowered name.  Every byte of a rune outside ASCII takes the
    default branch, where a second one in a row adds nothing. *)
Fixpoint sanitize_loop (s : string) (prevDash started : bool) : string :=
  match s with
  | EmptyString => EmptyString
  | String r s' =>
      if is_alnum r then String r (sanitize_loop s' false true)
      else if negb prevDash && started then String "-" (sanitize_loop s' true true)
      else sanitize_loop s' prevDash started
  end.

Definition sanitizeBagName (s : string) : string :=
  let out := trim_right (Ascii.eqb "-") (sanitize_loop (to_lower s) false false) in
  if str_empty out then "repo" else out.

Definition deriveBagName (host path : string) : string :=
  match rev (filter (fun p => p <> EmptyString) (split_byte "/" path)) with
  | [] => "repo"
  | last :: before =>
      let out := trim_suffix last ".git" :: before in
      sanitizeBagName (join "-" (rev (if (2 <? length out)%nat then take 2 out else out)))
  end.

(** The search for a free name; the fuel is enough by [dedupe_total]. *)
Fixpoint dedupe_from (fuel : nat) (hint : string) (n : N) (existing : gset string) : option string :=
  match fuel with
  | O => None
  | S fuel' =>
      let candidate := hint +:+ "-" +:+ itoa n in
      if bool_decide (candidate ∈ existing) then dedupe_from fuel' hint (n + 1) existing else Some candidate
  end.

Definition DedupeBagName (hint : string) (existing : gset string) : option string :=
  if bool_decide (hint ∈ existing) then dedupe_from (S (size existing)) hint 2 existing else Some hint.

(** ** Clone URLs

    net/url: what Parse finds in a URL, and the text of one with these parts. *)
Record URL := mkURL { Scheme : string; User : bool; Host : string; UPath : string }.
Class NetUrl := {
  url_parse : string -> option URL;
  url_string : string -> string -> string -> string
}.

Inductive UrlErr :=
| UrlEmpty
| SshStyle (raw : string)
| UrlParse
| CleartextHttp
| SchemeLater (scheme : string)
| SchemeUnsupported (scheme : string)
| EmbedsCredential
| NoHost
| NoRepository.

Definition ParseCloneURL `{NetUrl} (raw0 : string) : res UrlErr (string * string) :=
  let raw := trim_space raw0 in
  if str_empty raw then Err UrlEmpty
  else if has_prefix raw "git@" || (contains_str raw "@" && negb (contains_str raw "://")) then Err (SshStyle raw)
  else
    match url_parse raw with
    | None => Err UrlParse
    | Some u =>
        let scheme := to_lower (Scheme u) in
        if String.eqb scheme "https" then
          if User u then Err EmbedsCredential
          else if str_empty (Host u) then Err NoHost
          else
            let path := trim_right (Ascii.eqb "/") (trim_left (Ascii.eqb "/") (UPath u)) in
            if str_empty path then Err NoRepository
            else Ok (url_string (Scheme u) (Host u) ("/" +:+ path), deriveBagName (Host u) path)
        else if String.eqb scheme "http" then Err CleartextHttp
        else if String.eqb scheme "ssh" || String.eqb scheme "git" then Err (SchemeLater (Scheme u))
        else Err (SchemeUnsupported (Scheme u))
    end.

(** ** Answering git (askpass.go) *)

Definition JitenvGitTokenEnv : string := "JITENV_GIT_TOKEN".
Definition GitUsernameForToken : string := "oauth2".

(** strings.IndexAny(s, " \t") *)
Fixpoint index_blank (s : string) : option nat :=
  match s with
  | EmptyString => None
  | String c s' => if Ascii.eqb c " " || Ascii.eqb c TAB then Some O else S <$> index_blank s'
  end.

Definition firstWord (s : string) : string :=
  let s := trim_space s in
  let s := match index_blank s with Some i => str_take i s | None => s end in
  trim_suffix s ":".

Section Askpass.
Context `{Os}.

(** What is printed. *)
Definition Askpass (prompt : string) : string :=
  let w := firstWord prompt in
  let answer := if String.eqb w "Username" then GitUsernameForToken
                else if String.eqb w "Password" then ConfigPath.env JitenvGitTokenEnv
                else EmptyString in
  answer +:+ str1 LF.

(** newGitAskpassInternalCmd *)
Definition gitAskpass (args : list string) : string := Askpass (join " " args).

(** ** The helper script *)

Inductive GErr :=
| GNoHome
| GFs (e : FErr).

Definition shimPath : option string :=
  let base := ConfigPath.env "XDG_DATA_HOME" in
  if negb (str_empty base) then Some (GoPath.Join [base; "jitenv"; "bin"; "git-askpass.sh"])
  else
    home ← ConfigPath.UserHomeDir;
    Some (GoPath.Join [home; ".local"; "share"; "jitenv"; "bin"; "git-askpass.sh"]).

Definition ShimPath : option string := shimPath.

(** The POSIX body. *)
Definition shimBody (jitenvExe : string) : string :=
  "#!/bin/sh" +:+ str1 LF +:+ "exec '" +:+ jitenvExe +:+ "' __git_askpass " +:+ str1 DQUOTE +:+ "$@" +:+ str1 DQUOTE
  +:+ str1 LF.

(** The text before the last slash of either kind. *)
Fixpoint last_sep (s : string) : option string :=
  match s with
  | EmptyString => None
  | String c s' =>
      match last_sep s' with
      | Some d => Some (String c d)
      | None => if Ascii.eqb c "/" || Ascii.eqb c BSLASH then Some EmptyString else None
      end
  end.

Definition parentDir (p : string) : string := default "." (last_sep p).

(** [defer os.Remove(tmpName)] *)
Definition with_removal {A} (m : M GErr A) (tmp : string) : M GErr A := fun w =>
  match m w with (r, w1) => (r, (remove tmp w1).2) end.

Definition writeShim (path body : string) : M GErr unit :=
  tmp ← mapErr GFs (create_temp (parentDir path) ".git-askpass.*.tmp");
  with_removal
    (_ ← on_err (mapErr GFs (chmod tmp 448)) (ignore (close tmp) : M GErr unit);
     _ ← on_err (mapErr GFs (write tmp body)) (ignore (close tmp) : M GErr unit);
     _ ← mapErr GFs (close tmp);
     mapErr GFs (rename tmp path)) tmp.

Definition EnsureShim (jitenvExe : string) : M GErr string :=
  path ← lift (of_option GNoHome shimPath);
  let body := shimBody jitenvExe in
  existing ← attempt (read_file path : M FErr string);
  if match existing with Ok s => String.eqb s body | Err _ => false end then mret path
  else
    _ ← mapErr GFs (mkdir_all (parentDir path));
    _ ← writeShim path body;
    mret path.
End Askpass.

(** ** What installing the helper leaves *)

Section Install.
Context `{Os}.

Lemma with_removal_inv {A} (m : M GErr A) tmp w r w' :
  with_removal m tmp w = (r, w') -> exists w1, m w = (r, w1) /\ w' = (remove tmp w1).2.
Proof. unfold with_removal. destruct (m w) as [r1 w1]. intros [= <- <-]. by exists w1. Qed.

(** What was there stays, but for the helper, which is complete when it changes. *)
Definition kept_or_installed (path body : string) (f g : files) : Prop :=
  forall q n, f !! q = Some n -> g !! q = Some n \/ (q = path /\ exists t, g !! q = Some (NFile body 448 t)).

Lemma off_kept path body tmp f g : f !! tmp = None -> off tmp f g -> kept_or_installed path body f g.
Proof. intros Hn Ho q n Hq. left. rewrite Ho; [done|congruence]. Qed.

(** The new file, up to the rename. *)
Lemma fill_shim path body tmp f w r w' t :
  off tmp f (fs w) -> f !! tmp = None -> tmp <> path -> fs w !! tmp = Some (NFile "" 384 t) ->
  (_ ← on_err (mapErr GFs (chmod tmp 448)) (ignore (close tmp) : M GErr unit);
   _ ← on_err (mapErr GFs (write tmp body)) (ignore (close tmp) : M GErr unit);
   _ ← mapErr GFs (close tmp);
   mapErr GFs (rename tmp path)) w = (r, w') ->
  (evolves (off tmp f) w w' /\ r <> Ok tt)
  \/ (exists t' w1, evolves (off tmp f) w w1 /\ r = Ok tt /\ w' = step w1 (<[path := NFile body 448 t']> f)).
Proof.
  intros Ho Hn Hne Hl Hr.
  apply M_bind_inv in Hr as [([] & w1 & Hc & Hr)|(e & Hc & ->)]; apply (or_close tmp f) in Hc as [Hev1 Hok1];
    try (intros r1 w2 Hc'; by apply (chmod_step GFs _ _ _ _ _ _ _ _ _ Ho Hl Hc')).
  2: { by left. }
  destruct (chmod_step GFs _ _ _ _ _ _ _ _ _ Ho Hl (Hok1 _ eq_refl)) as [_ [Ho1 Hl1]].
  apply M_bind_inv in Hr as [([] & w2 & Hc & Hr)|(e & Hc & ->)]; apply (or_close tmp f) in Hc as [Hev2 Hok2];
    try (intros r1 w3 Hc'; eapply evolves_off; [exact Ho1|]; by apply (write_produces GFs body _ _ _ _ _ _ _ Hl1 Hc')).
  2: { left. split; [by eapply evolves_trans|done]. }
  destruct (write_produces GFs body _ _ _ _ _ _ _ Hl1 (Hok2 _ eq_refl)) as (_ & c & t' & Hl2 & Hc').
  specialize (Hc' eq_refl). simpl in Hc'. subst c. pose proof (evolves_fs _ _ _ Hev2) as Ho2.
  assert (Hev : evolves (off tmp f) w w2) by (by eapply evolves_trans).
  apply M_bind_inv in Hr as [([] & w3 & Hcl & Hr)|(e & Hcl & ->)]; destruct (close_step GFs tmp f _ _ _ Ho2 Hcl) as [Hev3 Hf3].
  2: { left. split; [by eapply evolves_trans|done]. }
  rewrite <- Hf3 in Hl2. pose proof (evolves_fs _ _ _ Hev3) as Ho3.
  assert (Hev' : evolves (off tmp f) w w3) by (by eapply evolves_trans).
  apply mapErr_inv in Hr as (r0 & Hr & ->).
  apply syscall_inv in Hr as [(e & -> & -> & _)|([] & g & -> & -> & Ha & _)].
  - left. split; [|done]. eapply evolves_trans; [exact Hev'|]. by apply evolves_step.
  - right. exists t', w3. split; [exact Hev'|]. split; [done|]. rewrite Hl2 in Ha.
    assert (g = <[path := NFile body 448 t']> (delete tmp (fs w3))) as ->
      by (destruct (fs w3 !! path) as [[]|]; by simplify_eq).
    by rewrite (off_delete _ _ _ Ho3 Hn).
Qed.

Lemma writeShim_spec path body w r w' :
  (forall rnd, temp_name (parentDir path) ".git-askpass.*.tmp" rnd <> path) -> writeShim path body w = (r, w') ->
  evolves (kept_or_installed path body (fs w)) w w'
  /\ (r = Ok tt -> exists t, fs w' !! path = Some (NFile body 448 t)).
Proof.
  intros Hname Hr. unfold writeShim in Hr.
  apply M_bind_inv in Hr as [(tmp & w1 & Hc & Hr)|(e & Hc & ->)]; apply mapErr_inv in Hc as (r0 & Hc & Hr0);
    apply create_temp_loop_inv in Hc as [(n & w0 & -> & Hf0 & Hev0 & Hnone & ->)|(e' & -> & _ & Hev)]; try done.
  2: { split; [|done]. eapply evolves_mono; [|exact Hev]. intros g <- q n Hq. by left. }
  injection Hr0 as ->. specialize (Hname (temp_rand (tick w0) n)). set (tmp := temp_name _ _ _) in *.
  set (f1 := <[tmp := _]> (fs w)) in *. assert (Ho : off tmp (fs w) f1) by (intros q Hq; by apply lookup_insert_ne).
  assert (Hev1 : evolves (kept_or_installed path body (fs w)) w (step w0 f1)).
  { eapply evolves_trans; [eapply evolves_mono; [|exact Hev0]; intros g <- q x Hq; by left|].
    apply evolves_step. by eapply off_kept. }
  apply with_removal_inv in Hr as (w2 & Hr & ->). destruct (remove tmp w2) as [rr wr] eqn:Hrm. cbn [snd].
  pose proof (remove_off _ _ _ _ Hrm) as Hev5. pose proof (lookup_insert_eq (fs w) tmp _ : f1 !! tmp = _) as Hl.
  destruct (fill_shim _ _ _ _ (step w0 f1) _ _ _ Ho Hnone Hname Hl Hr) as [[Hev2 Hne]|(t' & w3 & Hev2 & -> & ->)].
  - split; [|done]. eapply evolves_trans; [exact Hev1|]. eapply evolves_mono; [intros g; by apply off_kept|].
    eapply evolves_trans; [exact Hev2|]. eapply evolves_off; [exact (evolves_fs _ _ _ Hev2)|exact Hev5].
  - set (f2 := <[path := _]> (fs w)) in *.
    assert (Hkept : forall g, off tmp f2 g -> kept_or_installed path body (fs w) g).
    { intros g Hg q x Hq. assert (q <> tmp) by congruence. rewrite Hg by done. unfold f2.
      destruct (decide (q = path)) as [->|Hqp]; [right; split; [done|]; exists t'; apply lookup_insert_eq|].
      left. by rewrite lookup_insert_ne. }
    split.
    + eapply evolves_trans; [exact Hev1|]. eapply evolves_trans; [eapply evolves_mono; [|exact Hev2]; intros g; by apply off_kept|].
      eapply evolves_trans; [apply evolves_step, Hkept, off_refl|]. eapply evolves_mono; [exact Hkept|exact Hev5].
    + intros _. exists t'. rewrite (evolves_fs _ _ _ Hev5) by done. apply lookup_insert_eq.
Qed.

Lemma shim_installed exe w r w' path :
  shimPath = Some path -> (forall rnd, temp_name (parentDir path) ".git-askpass.*.tmp" rnd <> path) ->
  EnsureShim exe w = (r, w') ->
  evolves (kept_or_installed path (shimBody exe) (fs w)) w w'
  /\ (forall p, r = Ok p -> p = path /\
       exists q m t, follow link_depth (fs w') path = Ok q /\ fs w' !! q = Some (NFile (shimBody exe) m t)).
Proof.
  intros Hpath Hname Hr. unfold EnsureShim in Hr. rewrite Hpath in Hr. cbn [of_option] in Hr.
  unfold lift, mbind at 1, M_bind at 1 in Hr. set (K := kept_or_installed path (shimBody exe) (fs w)).
  assert (HK : K (fs w)) by (intros q n Hq; by left).
  apply M_bind_inv in Hr as [(ex & w1 & Hrd & Hr)|(e & Hrd & ->)]; unfold attempt in Hrd;
    destruct (read_file path w) as [rx wx] eqn:Hx; [|done]. injection Hrd as <- <-.
  pose proof (read_file_reads _ _ _ _ Hx) as Hread. pose proof (reads_fs _ _ Hread) as Hfx.
  assert (Hev0 : evolves K w wx) by (by apply reads_evolves).
  destruct (match rx with Ok s => _ | Err _ => false end) eqn:Hsame.
  { injection Hr as <- <-. split; [done|]. intros p [= <-]. split; [done|]. destruct rx as [s|]; [|done].
    apply String.eqb_eq in Hsame as ->. apply syscall_inv in Hx as [(e & ? & _)|(a & g & [= ->] & _ & Ha & _)]; [done|].
    apply res_bind_ok in Ha as (q & Hq & Ha). destruct (fs w !! q) as [[c m t| |]|] eqn:Hl; try done.
    injection Ha as -> <-. exists q, m, t. by rewrite Hfx. }
  apply M_bind_inv in Hr as [([] & w2 & Hmk & Hr)|(e & Hmk & ->)]; apply mapErr_inv in Hmk as (rm & Hmk & _);
    apply mkdir_all_adds in Hmk; rewrite Hfx in Hmk.
  2: { split; [|done]. eapply evolves_trans; [exact Hev0|]. eapply evolves_mono; [|exact Hmk].
       intros g Hg q n Hq. left. by apply Hg. }
  assert (Hev2 : evolves K w w2).
  { eapply evolves_trans; [exact Hev0|]. eapply evolves_mono; [|exact Hmk]. intros g Hg q n Hq. left. by apply Hg. }
  pose proof (evolves_fs _ _ _ Hmk) as Hf2. cbv beta in Hf2.
  assert (HK2 : forall g, kept_or_installed path (shimBody exe) (fs w2) g -> K g).
  { intros g Hg q n Hq. by apply Hg, Hf2. }
  apply M_bind_inv in Hr as [([] & w3 & Hws & Hr)|(e & Hws & ->)]; apply writeShim_spec in Hws as [Hev3 Hok3]; try done.
  - apply (evolves_mono _ _ _ _ HK2) in Hev3. injection Hr as <- <-. split; [by eapply evolves_trans|].
    intros p [= <-]. split; [done|]. destruct (Hok3 eq_refl) as [t Ht]. exists path, 448%Z, t.
    split; [|done]. by apply (follow_file _ _ _ _ _ _ Ht).
  - apply (evolves_mono _ _ _ _ HK2) in Hev3. split; [by eapply evolves_trans|done].
Qed.

(** Installing the helper is safe beside other files.  Whichever calls fail, every
    file that was there is untouched at every moment, but for the helper itself, which
    goes from its old contents to the complete script; and after a success the path
    returned reads as the script that runs this executable. *)
Theorem EnsureShim_installs exe w r w' path :
  shimPath = Some path -> (forall rnd, temp_name (parentDir path) ".git-askpass.*.tmp" rnd <> path) ->
  EnsureShim exe w = (r, w') ->
  evolves (kept_or_installed path (shimBody exe) (fs w)) w w'
  /\ (forall p, r = Ok p -> p = path /\
       exists q m t, follow link_depth (fs w') path = Ok q /\ fs w' !! q = Some (NFile (shimBody exe) m t)).
Proof. apply shim_installed. Qed.
End Install.

(** ** Names *)

(** What follows is lower-case letters, digits and single dashes. *)
Fixpoint tidy (prev : bool) (s : string) : bool :=
  match s with
  | EmptyString => true
  | String c s' => if Ascii.eqb c "-" then negb prev && tidy true s' else is_alnum c && tidy false s'
  end.

(** Words of letters and digits, joined by single dashes. *)
Definition bag_name (s : string) : Prop := s <> EmptyString /\ tidy true s = true /\ str_last s <> Some "-"%char.

Lemma alnum_dash c : is_alnum c = true -> Ascii.eqb c "-" = false.
Proof. destruct c as [[] [] [] [] [] [] [] []]; vm_compute; congruence. Qed.

Lemma sanitize_tidy s : (forall pd, tidy pd (sanitize_loop s pd true) = true) /\ tidy true (sanitize_loop s false false) = true.
Proof.
  induction s as [|r s [IH1 IH2]]; [done|]. cbn [sanitize_loop]. destruct (is_alnum r) eqn:Hr.
  - split; [intros pd|]; cbn [tidy]; rewrite (alnum_dash _ Hr), Hr; apply IH1.
  - cbn [negb andb]. split; [|apply IH2]. intros [|]; [apply IH1|]. cbn. apply IH1.
Qed.

Lemma trim_right_tidy f s p : tidy p s = true -> tidy p (trim_right f s) = true.
Proof.
  revert p. induction s as [|c s IH]; intros p; [done|]. cbn [tidy trim_right].
  destruct (Ascii.eqb c "-") eqn:Hc; intros Hs; apply andb_true_iff in Hs as [H1 H2]; apply IH in H2;
    destruct (trim_right f s) as [|d t]; try (destruct (f c)); unfold str1; cbn [tidy] in *; rewrite ?Hc, ?H1; done.
Qed.

Lemma trim_right_end f s c : str_last (trim_right f s) = Some c -> f c = false.
Proof.
  induction s as [|d s IH]; [done|]. cbn [trim_right]. destruct (trim_right f s) as [|e t].
  - destruct (f d) eqn:Hd; [done|]. by intros [= <-].
  - intros Hl. apply IH. change (str_last (str1 d +:+ String e t) = Some c) in Hl. rewrite str_last_app in Hl.
    destruct (str_last (String e t)) eqn:He; [done|]. by apply str_last_None in He.
Qed.

Lemma sanitize_id s p st : tidy p s = true -> (st = false -> p = true) -> (forall c t, s = String c t -> p = true -> st = true -> is_alnum c = true) ->
  sanitize_loop s (p && st) st = s.
Proof.
  revert p st. induction s as [|c s IH]; intros p st Hs Hp Hc; [done|]. cbn [tidy sanitize_loop] in *.
  destruct (is_alnum c) eqn:Ha.
  - rewrite (alnum_dash _ Ha) in Hs. apply andb_true_iff in Hs as [_ Hs]. f_equal.
    apply (IH false true Hs); done.
  - destruct (Ascii.eqb_spec c "-") as [->|]; [|done]. apply andb_true_iff in Hs as [Hn Hs].
    apply negb_true_iff in Hn as ->. destruct st; [|by specialize (Hp eq_refl)]. cbn [andb negb]. f_equal.
    apply (IH true true Hs); [done|]. intros d u -> _ _. cbn [tidy] in Hs.
    destruct (Ascii.eqb d "-"); [done|]. by apply andb_true_iff in Hs as [? _].
Qed.

Lemma tidy_lower p s : tidy p s = true -> to_lower s = s.
Proof.
  assert (Hb : forall c, (is_alnum c || Ascii.eqb c "-") = true -> lower_byte c = c /\ Ascii.eqb c (byte_of 196) = false
    /\ Ascii.eqb c (byte_of 226) = false).
  { intros c. destruct c as [[] [] [] [] [] [] [] []]; vm_compute; intros; try discriminate; by repeat split. }
  revert p. induction s as [|c s IH]; intros p Hs; [done|]. cbn [tidy] in Hs.
  assert (Hc : (is_alnum c || Ascii.eqb c "-") = true /\ exists q, tidy q s = true).
  { destruct (Ascii.eqb c "-") eqn:He; apply andb_true_iff in Hs as [H1 H2]; split; eauto; by rewrite ?H1, ?orb_true_r. }
  destruct Hc as [(Hl & H1 & H2)%Hb [q Hq]]. specialize (IH q Hq).
  cbn [to_lower]. destruct s as [|d s2]; [by rewrite Hl|]. rewrite H1, H2. cbn [andb].
  rewrite Hl, IH. by destruct s2.
Qed.

(**  A bag name is always well-formed, and well-formed names are kept.  Whatever
    the repository path, the derived name is not empty and is made of lower-case
    letters and digits in words joined by single dashes, so it can be a table key and
    a part of a file name; and a name of that shape is its own sanitised form. *)
Theorem sanitizeBagName_safe s :
  bag_name (sanitizeBagName s) /\ (bag_name s -> sanitizeBagName s = s).
Proof.
  split.
  - unfold sanitizeBagName, bag_name. set (out := trim_right _ _). cbv zeta. destruct (str_empty out) eqn:He.
    + by repeat split.
    + apply str_empty_false in He. split; [done|]. split; [apply trim_right_tidy, sanitize_tidy|].
      intros Hl. by apply trim_right_end in Hl.
  - intros (Hne & Ht & Hl). unfold sanitizeBagName. rewrite (tidy_lower _ _ Ht).
    pose proof (sanitize_id s true false Ht ltac:(done) ltac:(done)) as Hid. cbn [andb] in Hid. rewrite Hid. destruct (str_last s) as [c|] eqn:Hs; [|by apply str_last_None in Hs].
    rewrite (trim_right_id _ c) by (done || by apply Ascii.eqb_neq; intros <-).
    by apply str_empty_false in Hne as ->.
Qed.

(** The names of more than one part that are tried in order. *)
Definition nth_name (hint : string) (n : N) : string := hint +:+ "-" +:+ itoa n.

Lemma nth_name_inj hint a b : nth_name hint a = nth_name hint b -> a = b.
Proof. unfold nth_name. rewrite !str_app_inj_l. apply itoa_inj. Qed.

Lemma dedupe_from_spec fuel hint n existing :
  match dedupe_from fuel hint n existing with
  | Some c => exists k, (k < fuel)%nat /\ c = nth_name hint (n + N.of_nat k) /\ c ∉ existing
      /\ forall j, (j < k)%nat -> nth_name hint (n + N.of_nat j) ∈ existing
  | None => forall j, (j < fuel)%nat -> nth_name hint (n + N.of_nat j) ∈ existing
  end.
Proof.
  revert n. induction fuel as [|fuel IH]; intros n; cbn [dedupe_from]; [intros j; lia|].
  fold (nth_name hint n). case_bool_decide as Hin.
  - assert (Hshift : forall j, nth_name hint (n + 1 + N.of_nat j) = nth_name hint (n + N.of_nat (S j)))
      by (intros j; f_equal; lia).
    specialize (IH (n + 1)%N). destruct (dedupe_from fuel hint (n + 1) existing) as [c|].
    + destruct IH as (k & Hk & -> & Hc & Hj). exists (S k). split; [lia|]. split; [apply Hshift|].
      split; [done|]. intros [|j] Hlt; [by rewrite N.add_0_r|]. rewrite <- Hshift. apply Hj. lia.
    + intros [|j] Hlt; [by rewrite N.add_0_r|]. rewrite <- Hshift. apply IH. lia.
  - exists O. rewrite N.add_0_r. split; [lia|]. split; [done|]. split; [done|]. intros j; lia.
Qed.

Lemma dedupe_total hint n existing : is_Some (dedupe_from (S (size existing)) hint n existing).
Proof.
  pose proof (dedupe_from_spec (S (size existing)) hint n existing) as Hs.
  destruct (dedupe_from _ _ _ _) as [c|]; [by exists c|]. exfalso.
  set (names := (fun j => nth_name hint (n + N.of_nat j)) <$> seq 0 (S (size existing))).
  assert (Hnd : NoDup names).
  { apply NoDup_fmap_2_strong; [|apply NoDup_seq]. intros i j _ _ He%nth_name_inj. lia. }
  assert (Hsub : list_to_set names ⊆ existing).
  { intros x Hx%elem_of_list_to_set. apply list_elem_of_fmap in Hx as (j & -> & Hj%elem_of_seq). apply Hs. lia. }
  apply subseteq_size in Hsub. rewrite size_list_to_set in Hsub by done.
  unfold names in Hsub. rewrite length_fmap, length_seq in Hsub. lia.
Qed.

Lemma DedupeBagName_free hint existing :
  exists name, DedupeBagName hint existing = Some name /\ name ∉ existing
  /\ (hint ∉ existing -> name = hint)
  /\ (hint ∈ existing -> exists n, (2 <= n)%N /\ name = nth_name hint n
        /\ forall i, (2 <= i < n)%N -> nth_name hint i ∈ existing).
Proof.
  unfold DedupeBagName. case_bool_decide as Hin; [|by exists hint].
  destruct (dedupe_total hint 2 existing) as [c Hc]. exists c. split; [done|].
  pose proof (dedupe_from_spec (S (size existing)) hint 2 existing) as Hs. rewrite Hc in Hs.
  destruct Hs as (k & Hk & -> & Hf & Hj). split; [done|]. split; [done|]. intros _.
  exists (2 + N.of_nat k)%N. split; [lia|]. split; [done|]. intros i Hi.
  replace i with (2 + N.of_nat (N.to_nat (i - 2)))%N by lia. apply Hj. lia.
Qed.

(**  The search for a bag name ends with a free one.  However many names are
    taken, DedupeBagName returns: the hint itself when it is free, otherwise the hint
    with the least number from 2 up that makes it so; the result is never a bag that
    already exists, so a clone cannot overwrite another repository's token. *)
Theorem DedupeBagName_fresh hint existing :
  exists name, DedupeBagName hint existing = Some name /\ name ∉ existing
  /\ (hint ∉ existing -> name = hint)
  /\ (hint ∈ existing -> exists n, (2 <= n)%N /\ name = nth_name hint n
        /\ forall i, (2 <= i < n)%N -> nth_name hint i ∈ existing).
Proof. apply DedupeBagName_free. Qed.

(** The last two segments of a deeper path are kept, and the host is not. *)
Example derived_names :
  deriveBagName "github.com" "Galvill/jitenv.git" = "galvill-jitenv"
  /\ deriveBagName "gitlab.example.com" "team/sub/repo" = "sub-repo"
  /\ deriveBagName "h" "/.git/" = "repo".
Proof. vm_compute. by repeat split. Qed.

Example answers :
  firstWord "Username for 'https://github.com':" = "Username" /\ firstWord "Password:" = "Password".
Proof. vm_compute. by split. Qed.
End Gitauth.
