(* ===== verification/Clone.v ===== *)
(** * jitenv clone (src/internal/cli/clone.go)

    Clone a repository with a token, keep the token in an encrypted bag, and map git
    below the clone to it.  git itself, the terminal and the post-clone editor are
    parameters. *)

From S2P Require Import Prelude GoString GoPath GoTime Fs Atomic ConfigModel Crypto NameId Seal SealIds.
From S2P Require Import SealRoundtrip SealStable Store StoreMigrate StoreSweep Edit Shells GoDuration ConfigPath Unlock Gitauth Bag Toys.
Import Fs Config Crypto NameId Seal SealIds SealRoundtrip Store StoreMigrate StoreSweep Edit.

Module Clone.

Inductive CErr :=
| CUrl (e : Gitauth.UrlErr)
| CDest
| CExists (path : string)
| CNoHome
| CLoad (path : string) (e : SErr)
| CStore (e : SErr)
| CDecrypt (e : EErr)
| CNoSecrets (bag : string)
| CNoBag (bag : string)
| CToken (what : string)
| CExe
| CShim (e : Gitauth.GErr)
| CGit (code : Z)
| CInvalid (e : ValidateErr)
| CBagLoop.                       (* never: [DedupeBagName_fresh] *)

(** What a run prints. *)
Inductive Line :=
| Migrated (backup : string)
| Warned (w : Warning)
| Done (dest bag : string).

(** ** Small helpers *)

(** The text after the last '/', or all of it. *)
Fixpoint after_last (c : ascii) (s : string) : option string :=
  match s with
  | EmptyString => None
  | String d s' => match after_last c s' with Some t => Some t | None => if Ascii.eqb d c then Some s' else None end
  end.

Definition defaultDestDir (cleanedURL : string) : string :=
  trim_suffix (default cleanedURL (after_last "/" cleanedURL)) ".git".

Definition trimNewline (b : string) : string := trim_right (fun c => Ascii.eqb c LF || Ascii.eqb c CR) b.

(** bufio.Reader.ReadBytes('\n'): up to the first newline. *)
Definition first_line (s : string) : string :=
  match index_byte s LF with Some i => str_take (S i) s | None => s end.

Definition stripEnv (env : list string) (key : string) : list string :=
  filter (fun e => has_prefix e (key +:+ "=") = false) env.

Definition bagSet (c : Config) : gset string := dom (Secrets c).

(** The environment of the one git process. *)
Definition git_env (environ : list string) (shimPath token : string) : list string :=
  stripEnv environ Gitauth.JitenvGitTokenEnv
  ++ [Gitauth.JitenvGitTokenEnv +:+ "=" +:+ token; "GIT_ASKPASS=" +:+ shimPath; "GIT_TERMINAL_PROMPT=0"].

Definition answered_yes (line : string) : bool :=
  let line := to_lower (trim_space line) in String.eqb line "y" || String.eqb line "yes".

Section Clone.
Context `{Os, Rand, !RandLaws, AEAD, !AEADLaws, Toml, !TomlLaws, Argon, NameMapCodec, !NameMapCodecLaws, MapRange, Gitauth.NetUrl}.
(** The working directory, this executable, the process environment, the passphrases
    and the token typed, standard input, and whether it is a terminal. *)
Context (cwd : option string) (exe : option string) (environ : list string).
Context (answers : nat -> res SErr string) (typed_token stdin : res CErr string) (is_terminal : bool).
(** Running [git] with arguments and an environment, the editor started afterwards,
    and the agent's reload. *)
Context (git : list string -> list string -> M CErr unit).
Context (edit : string -> string -> Mapping -> M CErr unit) (pingAgentReload : M CErr unit).

Definition readToken (fromStdin : bool) : res CErr string :=
  if fromStdin then
    all ← stdin;
    let line := trimNewline (first_line all) in
    if str_empty line then Err (CToken "no input on stdin") else Ok line
  else typed_token.

Definition runGitClone (url dest shimPath token : string) : M CErr unit :=
  git ["clone"; url; dest] (git_env environ shimPath token).

(** The mapping that lets git below the clone find the token. *)
Definition git_mapping (c : Config) (dest bag shimPath : string) : Mapping :=
  mkMapping "" "" (GoPath.ToSlash dest +:+ "/**") ["git"]
    [mkVar Gitauth.JitenvGitTokenEnv (localSourceName 71 c) bag "token" ∅ "";
     mkVar "GIT_ASKPASS" "" "" "" ∅ shimPath].

(** The bag, the mapping and the source a clone adds. *)
Definition wired (c : Config) (created : bool) (bag token dest shimPath : string) : Config :=
  let c := if created then with_secrets c (<[bag := {["token" := token]}]> (Secrets c)) else c in
  let c := with_mappings c (Mappings c ++ [git_mapping c dest bag shimPath]) in
  ensure_local 72 c.

Definition shouldOfferPostClonePrompt : bool :=
  if negb (str_empty (ConfigPath.env "CI")) then false else is_terminal.

(** The editor's error is only shown. *)
Definition post_clone (noPrompt : bool) (cfgPath key dest : string) : M CErr unit :=
  if negb noPrompt && shouldOfferPostClonePrompt then
    match stdin with
    | Ok all =>
        if answered_yes (first_line all)
        then (ignore (edit cfgPath key (mkMapping "" "" (GoPath.ToSlash dest +:+ "/**") [] [])) : M CErr unit)
        else mret tt
    | Err _ => mret tt
    end
  else mret tt.

(** The choice of the bag: the one named, or a free name for the hint. *)
Definition pick_bag (c : Config) (bagOverride bagHint : string) : option (string * bool) :=
  if negb (str_empty bagOverride) then Some (bagOverride, false)
  else (fun b => (b, true)) <$> Gitauth.DedupeBagName bagHint (bagSet c).

Definition check_override (c : Config) (bagOverride : string) : option CErr :=
  if str_empty bagOverride then None
  else if bool_decide (Secrets c = ∅) then Some (CNoSecrets bagOverride)
  else match Secrets c !! bagOverride with None => Some (CNoBag bagOverride) | Some _ => None end.

(** From the token on: the helper, the clone and the configuration. *)
Definition clone_and_wire (cfg : Config) (cfgPath key cleanedURL bagHint dest : string) (tokenStdin : bool)
    (bagOverride : string) (noPrompt : bool) : M CErr (list Line) :=
  token ← lift (readToken tokenStdin);
  exe ← lift (of_option CExe exe);
  shimPath ← mapErr CShim (Gitauth.EnsureShim exe);
  _ ← runGitClone cleanedURL dest shimPath token;
  '(finalBag, created) ← lift (of_option CBagLoop (pick_bag cfg bagOverride bagHint));
  let cfg := wired cfg created finalBag token dest shimPath in
  match Validate cfg with
  | Some e => throw (CInvalid e)
  | None =>
      _ ← mapErr CStore (saveAndReencrypt cfgPath cfg key);
      _ ← (ignore pingAgentReload : M CErr unit);
      _ ← post_clone noPrompt cfgPath key dest;
      mret ((Warned <$> Warnings cfg) ++ [Done dest finalBag])
  end.

(** From the unlock on. *)
Definition clone_unlocked (cfgPath key cleanedURL bagHint dest : string) (tokenStdin : bool) (bagOverride : string)
    (noPrompt : bool) : M CErr (list Line) :=
  migrated ← mapErr CStore (MigrateToOpaqueIDs cfgPath key);
  shown ← (if migrated : bool then b ← MigrationBackupPath cwd cfgPath; mret [Migrated b] else mret []);
  cfg ← mapErr CStore (Load cfgPath);
  cfg ← lift (wrap_err CDecrypt (DecryptInPlace cfg key));
  match check_override cfg bagOverride with
  | Some e => throw e
  | None =>
      out ← clone_and_wire cfg cfgPath key cleanedURL bagHint dest tokenStdin bagOverride noPrompt;
      mret (shown ++ out)
  end.

Definition runClone (url : string) (dir : option string) (tokenStdin : bool) (bagOverride : string) (noPrompt : bool)
    : M CErr (list Line) :=
  '(cleanedURL, bagHint) ← lift (wrap_err CUrl (Gitauth.ParseCloneURL url));
  let destDir := default (defaultDestDir cleanedURL) dir in
  absDest ← lift (of_option CDest (GoPath.Abs cwd destDir));
  st ← attempt (stat absDest : M FErr node);
  if is_ok st then throw (CExists absDest)
  else
    cfgPath ← lift (of_option CNoHome (ConfigPath.Resolve (ConfigPath.env "JITENV_CONFIG")));
    cfg ← mapErr (CLoad cfgPath) (Load cfgPath);
    key ← lift (wrap_err CStore (Unlock.PromptAndDeriveKey answers cfg 0));
    clone_unlocked cfgPath key cleanedURL bagHint absDest tokenStdin bagOverride noPrompt.
End Clone.

(** ** What a clone leaves of the configuration *)

Section Facts.
Context `{Os, Rand, !RandLaws, AEAD, !AEADLaws, Toml, !TomlLaws, Argon, NameMapCodec, !NameMapCodecLaws, MapRange, Gitauth.NetUrl}.
Context (cwd : option string) (exe : option string) (environ : list string).
Context (answers : nat -> res SErr string) (typed_token stdin : res CErr string) (is_terminal : bool).
Context (git : list string -> list string -> M CErr unit).
Context (edit : string -> string -> Mapping -> M CErr unit) (pingAgentReload : M CErr unit).

Lemma localSourceName_content site c c' : content c = content c' -> localSourceName site c = localSourceName site c'.
Proof. unfold content, localSourceName. intros Hc. by injection Hc as -> _ _. Qed.

Lemma wired_content c c' created bag token dest shim :
  content c = content c' -> content (wired c created bag token dest shim) = content (wired c' created bag token dest shim).
Proof.
  intros Hc. unfold wired. apply ensure_local_content. unfold content in Hc. injection Hc as Hs Hm Hse.
  unfold git_mapping, localSourceName, content, with_mappings, with_secrets.
  destruct created; cbn [Sources Mappings Secrets]; by rewrite Hs, Hm, Hse.
Qed.

Lemma wired_names key c created bag token dest shim :
  prev_names key (wired c created bag token dest shim) = prev_names key c.
Proof. unfold wired, ensure_local. destruct created; by destruct (_ !! localSourceName _ _). Qed.

Lemma pick_bag_content c c' o h : content c = content c' -> pick_bag c o h = pick_bag c' o h.
Proof. unfold content, pick_bag, bagSet. intros Hc. by injection Hc as _ _ ->. Qed.

(** A bag that a clone creates is new. *)
Lemma pick_bag_new c o h bag : pick_bag c o h = Some (bag, true) -> Secrets c !! bag = None.
Proof.
  unfold pick_bag. destruct (str_empty o); [|done]. cbn [negb].
  destruct (Gitauth.DedupeBagName_free h (bagSet c)) as (b & -> & Hf & _). intros [= <-]. by apply not_elem_of_dom.
Qed.

Lemma EnsureShim_keeps x w r w' q n :
  (forall p, Gitauth.shimPath = Some p -> p <> q
     /\ forall rnd, temp_name (Gitauth.parentDir p) ".git-askpass.*.tmp" rnd <> p) ->
  fs w !! q = Some n -> Gitauth.EnsureShim x w = (r, w') -> fs w' !! q = Some n.
Proof.
  intros Hp Hq Hr. destruct Gitauth.shimPath as [p|] eqn:Hs.
  - destruct (Hp _ eq_refl) as [Hne Hname].
    destruct (Gitauth.shim_installed _ _ _ _ _ Hs Hname Hr) as [Hev _].
    by destruct (evolves_fs _ _ _ Hev q n Hq) as [?|[-> _]].
  - unfold Gitauth.EnsureShim in Hr. rewrite Hs in Hr. by injection Hr as _ <-.
Qed.

#[local] Notation run := (runClone cwd exe environ answers typed_token stdin is_terminal git edit pingAgentReload).
#[local] Notation wire := (clone_and_wire exe environ typed_token stdin is_terminal git edit pingAgentReload).

(** What the parameters of a run leave alone. *)
Record quiet (path : string) : Prop := {
  qt_git : forall args env v r v', git args env v = (r, v') -> fs v' !! path = fs v !! path;
  qt_ping : forall v r v', pingAgentReload v = (r, v') -> fs v' !! path = fs v !! path;
  qt_shim : forall p, Gitauth.shimPath = Some p -> p <> path
     /\ forall rnd, temp_name (Gitauth.parentDir p) ".git-askpass.*.tmp" rnd <> p
}.

Lemma clone_and_wire_spec cfg c1 path key url hint dest tokenStdin over w r w' n nm data m t :
  quiet path -> no_meta path -> (forall rnd, temp_name (GoPath.Dir path) savePattern rnd <> path) ->
  n = NFile data m t -> fs w !! path = Some n -> opens key data c1 ->
  content cfg = content c1 -> prev_names key cfg = Ok nm -> names_wf nm ->
  (forall token bag created shim, readToken typed_token stdin tokenStdin = Ok token -> Gitauth.shimPath = Some shim ->
    pick_bag cfg over hint = Some (bag, created) ->
    sealable (wired cfg created bag token dest shim) /\ codable key (wired cfg created bag token dest shim)) ->
  wire cfg path key url hint dest tokenStdin over true w = (r, w') ->
  match r with
  | Err _ => holds path key c1 (fs w')
  | Ok _ => exists token bag created shim, readToken typed_token stdin tokenStdin = Ok token
      /\ Gitauth.shimPath = Some shim /\ pick_bag cfg over hint = Some (bag, created)
      /\ holds path key (wired c1 created bag token dest shim) (fs w')
  end.
Proof.
  intros [Hgit Hping Hshim] Hmeta Hname -> Hp Ho Hcd Hprev Hnw Hnew Hr. unfold clone_and_wire in Hr.
  assert (Hkeep : forall v, fs v !! path = Some (NFile data m t) -> holds path key c1 (fs v)) by (intros v Hv; by exists data, m, t).
  apply M_bind_inv in Hr as [(token & w1 & [Htok ->]%lift_inv & Hr)|(e & [_ ->]%lift_inv & ->)]; [|by apply Hkeep].
  apply M_bind_inv in Hr as [(x & w1 & [_ ->]%lift_inv & Hr)|(e & [_ ->]%lift_inv & ->)]; [|by apply Hkeep].
  apply M_bind_inv in Hr as [(shim & w1 & (rs & Hs & Hrs)%mapErr_inv & Hr)|(e & (rs & Hs & Hrs)%mapErr_inv & ->)];
    pose proof (EnsureShim_keeps _ _ _ _ _ _ Hshim Hp Hs) as Hp1; [|by apply Hkeep].
  assert (Hsp : Gitauth.shimPath = Some shim).
  { destruct rs as [s|]; [|done]. injection Hrs as ->. destruct Gitauth.shimPath as [p|] eqn:Hsp.
    - destruct (Hshim _ eq_refl) as [_ Hn]. destruct (Gitauth.shim_installed _ _ _ _ _ Hsp Hn Hs) as [_ Hok].
      by destruct (Hok _ eq_refl) as [-> _].
    - unfold Gitauth.EnsureShim in Hs. by rewrite Hsp in Hs. }
  apply M_bind_inv in Hr as [([] & w2 & Hg & Hr)|(e & Hg & ->)]; apply Hgit in Hg; rewrite Hp1 in Hg; [|by apply Hkeep].
  apply M_bind_inv in Hr as [([bag created] & w3 & [Hpick ->]%lift_inv & Hr)|(e & [_ ->]%lift_inv & ->)]; [|by apply Hkeep].
  symmetry in Htok.
  assert (Hpick' : pick_bag cfg over hint = Some (bag, created)) by (by destruct (pick_bag cfg over hint); simplify_eq/=).
  destruct (Hnew token bag created shim Htok Hsp Hpick') as [Hsl Hcod].
  pose proof (wired_content cfg c1 created bag token dest shim Hcd) as Hwc.
  rewrite <- (wired_names key cfg created bag token dest shim) in Hprev. revert Hr.
  generalize dependent (wired cfg created bag token dest shim). intros cw Hprev Hsl Hcod Hwc Hr.
  destruct (Validate cw); [injection Hr as <- <-; by apply Hkeep|].
  apply M_bind_inv in Hr as [([] & w8 & (r8 & Hsv & Hr8)%mapErr_inv & Hr)|(e & (r8 & Hsv & Hr8)%mapErr_inv & ->)];
    eapply save_opens in Hsv; try done; destruct r8 as [[]|]; try done.
  2: { apply Hkeep. by rewrite Hsv. }
  destruct Hsv as (data8 & t8 & Hf8 & (cf & d8 & nm8 & H8a & H8b & H8c & H8d)).
  apply M_bind_inv in Hr as [([] & w9 & Hpi & Hr)|(e & Hpi & ->)]; unfold ignore in Hpi; [|done].
  injection Hpi as <-. cbn [post_clone negb andb] in Hr. injection Hr as <- <-.
  destruct (pingAgentReload w8) as [rp wp] eqn:Hpg. apply Hping in Hpg. cbn [snd] in *.
  exists token, bag, created, shim. split; [done|]. split; [done|]. split; [done|].
  exists data8, 384%Z, t8. split; [by rewrite Hpg|]. exists cf, d8, nm8. by rewrite H8c, Hwc.
Qed.

End Facts.

(** ** A clone that works *)

#[local] Existing Instance toy_aead.
#[local] Existing Instance toy_rand.
#[local] Existing Instance Toys.toy_toml.
#[local] Existing Instance Toys.toy_codec.

Definition ex_os : Os := Build_Os (fun _ => false) (fun _ => 0%nat) (fun t i => itoa (N.of_nat (t + i)))
  (fun _ => 1760000000%Z)
  (fun k => if String.eqb k "JITENV_CONFIG" then Some "/h/config.toml"
            else if String.eqb k "XDG_DATA_HOME" then Some "/d" else None).

Definition ex_url : Gitauth.NetUrl := {|
  Gitauth.url_parse u := let rest := str_drop 8 u in
    match index_byte rest "/" with
    | Some i => Some (Gitauth.mkURL (str_take 5 u) false (str_take i rest) (str_drop i rest)) | None => None end;
  Gitauth.url_string s h p := s +:+ "://" +:+ h +:+ p
|}.

Definition ex_clone (w : world) : res CErr (list Line) * world :=
  @runClone ex_os toy_rand toy_aead Toys.toy_toml Toys.toy_argon Toys.toy_codec map_range_default ex_url
    (Some "/w") (Some "/usr/bin/jitenv") [] (fun _ => Ok "pw") (Ok "tok") (Ok "") false (fun _ _ => mret tt)
    (fun _ _ _ => mret tt) (mret tt) "https://github.com/Acme/App.git" None false "" true w.

Definition ex_run : res CErr (list Line) * world := ex_clone Bag.ex_init.

Lemma ex_clone_quick : @quick ex_os.
Proof.
  intros i j. cbn [clock ex_os]. rewrite Z.sub_diag. split; [vm_compute; split; discriminate|vm_compute; reflexivity].
Qed.

#[local] Existing Instance map_range_default.

Definition ex_wired : Config := wired Bag.ex_plain true "acme-app" "tok" "/w/App" "/d/jitenv/bin/git-askpass.sh".

Lemma ex_wired_sealable : sealable ex_wired.
Proof.
  split.
  - apply (bool_decide_unpack _). vm_compute. exact I.
  - apply (bool_decide_unpack _). vm_compute. exact I.
  - assert (Hm : Mappings ex_wired = [git_mapping Bag.ex_plain "/w/App" "acme-app" "/d/jitenv/bin/git-askpass.sh"])
      by (vm_compute; reflexivity).
    rewrite Hm. constructor; [|constructor]. constructor; [|constructor; [|constructor]].
    + split; [constructor; apply (bool_decide_unpack _); vm_compute; exact I|]. right.
      exists (mkSource "local" ∅). split; [vm_compute; reflexivity|]. intros _.
      assert (Hs : Secrets ex_wired !! "acme-app" = Some {["token" := "tok"]}) by (vm_compute; reflexivity).
      cbn [Ref Key]. rewrite Hs. split; [done|]. right. left. by eexists.
    + split; [constructor; apply (bool_decide_unpack _); vm_compute; exact I|]. by left.
Qed.


(** [--bag] asks for no key named token: the mapping of the clone then has nothing to
    read. *)
Example override_without_token :
  let c := with_secrets Bag.ex_plain {["prod" := {["other" := "x"]}]} in
  check_override c "prod" = None /\ Secrets c !! "prod" ≫= (fun kv => kv !! "token") = None.
Proof. vm_compute. by split. Qed.
End Clone.
