(* ===== verification/Chpwd.v ===== *)
(** * The prompt hook (src/internal/chpwd/chpwd.go, reconcile_unix.go)

    What runs at every prompt: the short-circuit, the commands a directory wants, the
    wrapper links of the shell, and the anchors the shell filters commands with, read
    back the way the hook in snippets/bash.sh reads them.  Modification times are whole
    seconds here, in nanoseconds. *)

From S2P Require Import Prelude GoString GoPath GoTime Fs Atomic ConfigModel Mapping Store Shells ConfigPath Toys.
Import GoPath Fs Atomic Config Store Shells GoTime.

Module Chpwd.

Inductive ChErr :=
| Usage
| BadPid (arg : string)
| ChPaths (e : AErr)
| ChConfig (e : SErr)
| ChNoHome
| ChFs (e : FErr)
| ChNoExe
| ChSymlink (path : string) (e : FErr).

(** ** The anchors sidecar *)

Definition record (kind val : string) : string := kind +:+ str1 NUL +:+ val +:+ str1 NUL.

Definition anchors_text (exact prefixes : list string) : string :=
  join EmptyString ((record "E" <$> exact) ++ (record "P" <$> prefixes)).

(** [read -rd '']: up to the next NUL; an unterminated rest is no field. *)
Fixpoint fields_from (acc s : string) : list string :=
  match s with
  | EmptyString => []
  | String c s' => if Ascii.eqb c NUL then acc :: fields_from EmptyString s' else fields_from (acc +:+ str1 c) s'
  end.

(** __jitenv_load_anchors: pairs of a kind and a value. *)
Fixpoint load_pairs (fields : list string) : list string * list string :=
  match fields with
  | kind :: val :: rest =>
      let '(exact, prefixes) := load_pairs rest in
      if String.eqb kind "E" then (val :: exact, prefixes)
      else if String.eqb kind "P" then (exact, val :: prefixes)
      else (exact, prefixes)
  | _ => ([], [])
  end.

Definition load_anchors (text : string) : list string * list string := load_pairs (fields_from EmptyString text).

(** The filter in front of is-mapped. *)
Definition prefilter (anchors : list string * list string) (resolved : string) : bool :=
  existsb (String.eqb resolved) anchors.1 || existsb (has_prefix resolved) anchors.2.

Section Chpwd.
Context `{Os, Toml, MapRange}.
Context (uid : Z) (dir_owner dir_mode : string -> Z) (ds_match : string -> string -> option bool)
  (home cwd executable : option string).

Definition lastMtimePath (paths : Paths) (pid : Z) : string := Join [Dir (ShellWrapDir paths pid); "last-mtime"].
Definition anchorsPath (paths : Paths) (pid : Z) : string := Join [Dir (ShellWrapDir paths pid); "match-anchors"].

Definition statMtime (path : string) : M ChErr Z :=
  if str_empty path then mret 0%Z
  else st ← attempt (stat path : M FErr node);
       mret (match st with Ok n => (node_mtime n * Second)%Z | Err _ => 0%Z end).

Definition readLastMtime (path : string) : M ChErr Z :=
  b ← attempt (read_file path);
  mret (match b with Ok s => default 0%Z (atoi s) | Err _ => 0%Z end).

Definition writeLastMtime (path : string) (mtime : Z) : M FErr unit :=
  _ ← mkdir_all (Dir path);
  write_file path (format_int mtime) 384.

Definition desiredCommandsFor (cfgPath : option string) (pwd : string) : M ChErr (list string * Mapping.Index) :=
  match cfgPath with
  | None => throw ChNoHome
  | Some p =>
      cfg ← mapErr ChConfig (Load p);
      let idx := Mapping.NewIndex home cwd (Mappings cfg) in
      match Mappings cfg with
      | [] => mret ([], idx)
      | _ => mret (Mapping.CwdCommands ds_match home cwd idx pwd, idx)
      end
  end.

Definition sidecar_text (idx : option Mapping.Index) : string :=
  match idx with
  | None => EmptyString
  | Some i => let '(exact, prefixes) := Mapping.Anchors i in anchors_text exact prefixes
  end.

Definition writeAnchors (path : string) (idx : option Mapping.Index) : M ChErr unit :=
  ignore (_ ← mkdir_all (Dir path); write_file path (sidecar_text idx) 384 : M FErr unit).

(** ** Wrappers (reconcile_unix.go) *)

Definition wrapperFileName (cmd : string) : string := cmd.

Definition createWrapper (wrapPath target : string) : M ChErr unit :=
  _ ← (ignore (remove wrapPath) : M ChErr unit);
  mapErr (ChSymlink wrapPath) (symlink target wrapPath).

Definition isOurs (wrapPath target : string) : M FErr bool :=
  existing ← readlink wrapPath; mret (String.eqb existing target).

(** The removals of reconcile: every entry whose name is not wanted. *)
Fixpoint sweep (wrapDir : string) (want : gset string) (es : list (string * node)) (changed : bool) : M ChErr bool :=
  match es with
  | [] => mret changed
  | e :: es' =>
      if bool_decide (e.1 ∈ want) then sweep wrapDir want es' changed
      else
        r ← attempt (remove (Join [wrapDir; e.1]));
        sweep wrapDir want es' (match r with Ok _ => true | Err _ => changed end)
  end.

Fixpoint add_missing (wrapDir target : string) (wanted : list string) (changed : bool) : M ChErr bool :=
  match wanted with
  | [] => mret changed
  | c :: cs =>
      let wrapPath := Join [wrapDir; wrapperFileName c] in
      ok ← attempt (isOurs wrapPath target);
      match ok with
      | Ok true => add_missing wrapDir target cs changed
      | _ => _ ← createWrapper wrapPath target; add_missing wrapDir target cs true
      end
  end.

Definition reconcile (wrapDir : string) (wanted : list string) : M ChErr bool :=
  match wanted with
  | [] =>
      r ← attempt (read_dir wrapDir);
      match r with
      | Err e => if is_not_exist e then mret false else throw (ChFs e)
      | Ok es => sweep wrapDir ∅ es false
      end
  | _ =>
      _ ← mapErr ChFs (mkdir_all wrapDir);
      target ← lift (of_option ChNoExe executable);
      r ← attempt (read_dir wrapDir);
      match r with
      | Err e => if is_not_exist e then add_missing wrapDir target wanted false else throw (ChFs e)
      | Ok es =>
          changed ← sweep wrapDir (list_to_set (wrapperFileName <$> wanted)) es false;
          add_missing wrapDir target wanted changed
      end
  end.

(** ** Run *)

Definition run_in (pid : Z) (paths : Paths) (oldPwd newPwd : string) : M ChErr bool :=
  let wrapDir := ShellWrapDir paths pid in
  _ ← (ignore (remove (Join [Dir wrapDir; "injected"])) : M ChErr unit);
  let cfgPath := ConfigPath.Resolve (ConfigPath.env "JITENV_CONFIG") in
  curMtime ← statMtime (default EmptyString cfgPath);
  lastMtime ← readLastMtime (lastMtimePath paths pid);
  if bool_decide (is_Some cfgPath) && String.eqb oldPwd newPwd && negb (lastMtime =? 0)%Z && (curMtime =? lastMtime)%Z
  then mret false
  else
    d ← attempt (desiredCommandsFor cfgPath newPwd);
    match d with
    | Err _ => _ ← writeAnchors (anchorsPath paths pid) None; mret false
    | Ok (wanted, idx) =>
        _ ← writeAnchors (anchorsPath paths pid) (Some idx);
        changed ← reconcile wrapDir wanted;
        _ ← (ignore (writeLastMtime (lastMtimePath paths pid) curMtime) : M ChErr unit);
        mret changed
    end.

Definition Run (args : list string) : M ChErr bool :=
  match args with
  | a0 :: oldPwd :: newPwd :: _ =>
      match atoi a0 with
      | Some pid =>
          if (pid <=? 0)%Z then throw (BadPid a0)
          else paths ← mapErr ChPaths (DefaultPaths uid dir_owner dir_mode); run_in pid paths oldPwd newPwd
      | None => throw (BadPid a0)
      end
  | _ => throw Usage
  end.
End Chpwd.

(** ** The anchors are read back *)

Definition no_nul (s : string) : Prop := contains_byte s NUL = false.

Lemma fields_from_field acc x rest :
  no_nul x -> fields_from acc (x +:+ String NUL rest) = (acc +:+ x) :: fields_from EmptyString rest.
Proof.
  unfold no_nul, contains_byte. revert acc. induction x as [|c x IH]; intros acc Hx.
  - rewrite str_app_nil_r. rewrite str_app_nil_l. cbn [fields_from]. by rewrite Ascii.eqb_refl.
  - rewrite str_app_cons. cbn [exists_byte] in Hx. bools. cbn [fields_from].
    rewrite Ascii.eqb_sym, H, IH by done. by rewrite <- str_app_assoc.
Qed.

Lemma join_empty_cons x l : join EmptyString (x :: l) = x +:+ join EmptyString l.
Proof. destruct l as [|y l]; [simpl; by rewrite str_app_nil_r|]. by rewrite join_cons. Qed.

Lemma load_record kind val rest :
  no_nul kind -> no_nul val ->
  load_anchors (record kind val +:+ rest) =
  (let '(exact, prefixes) := load_anchors rest in
   if String.eqb kind "E" then (val :: exact, prefixes)
   else if String.eqb kind "P" then (exact, val :: prefixes) else (exact, prefixes)).
Proof.
  intros Hk Hv. unfold load_anchors, record. rewrite <- !str_app_assoc. unfold str1. rewrite !str_app_cons, !str_app_nil_l.
  rewrite fields_from_field by done. rewrite fields_from_field by done. done.
Qed.

(**  The anchors survive the sidecar.  Whatever bytes but NUL the mapped paths and
    glob prefixes contain, tabs and newlines included, the hook's reader gets back from
    the file exactly the two lists the index reports, and its filter asks about a command
    exactly when one of them covers it. *)
Theorem anchors_roundtrip exact prefixes resolved :
  Forall no_nul exact -> Forall no_nul prefixes ->
  load_anchors (anchors_text exact prefixes) = (exact, prefixes)
  /\ (prefilter (load_anchors (anchors_text exact prefixes)) resolved = true <->
      resolved ∈ exact \/ exists q, q ∈ prefixes /\ has_prefix resolved q = true).
Proof.
  intros He Hp. assert (Hl : load_anchors (anchors_text exact prefixes) = (exact, prefixes)).
  { unfold anchors_text. induction He as [|x exact Hx He IH].
    - induction Hp as [|y prefixes Hy Hp IHp]; [done|]. cbn [fmap list_fmap app] in *.
      rewrite join_empty_cons, load_record by done. by rewrite IHp.
    - cbn [fmap list_fmap app]. rewrite join_empty_cons, load_record by done. by rewrite IH. }
  split; [exact Hl|]. rewrite Hl. unfold prefilter. cbn [fst snd]. rewrite orb_true_iff, !existsb_exists. split.
  - intros [(x & Hx & ->%String.eqb_eq)|(q & Hq & Hpre)]; [left; by apply list_elem_of_In|right].
    exists q. split; [by apply list_elem_of_In|done].
  - intros [Hx|(q & Hq & Hpre)]; [left|right].
    + exists resolved. split; [by apply list_elem_of_In|apply String.eqb_refl].
    + exists q. split; [by apply list_elem_of_In|done].
Qed.

Lemma anchors_roundtrip_witness :
  let weird := "/opt/a" +:+ str1 TAB +:+ "b" +:+ str1 LF in
  load_anchors (anchors_text [weird; "E"] ["/srv/"]) = ([weird; "E"], ["/srv/"])
  /\ (prefilter (load_anchors (anchors_text [weird; "E"] ["/srv/"])) "/srv/x" = true <->
      "/srv/x" ∈ [weird; "E"] \/ exists q, q ∈ ["/srv/"] /\ has_prefix "/srv/x" q = true).
Proof.
  cbv zeta. apply (anchors_roundtrip ["/opt/a" +:+ str1 TAB +:+ "b" +:+ str1 LF; "E"] ["/srv/"] "/srv/x");
    repeat constructor.
Defined.
End Chpwd.
