(* ===== verification/Reconcile.v ===== *)
(** * The wrapper directory after a reconcile (src/internal/chpwd/chpwd.go, reconcile)

    What one pass makes of the wrapper directory, name by name, and what it reports. *)

From S2P Require Import Prelude GoString GoPath GoTime Fs Atomic ConfigModel Mapping Store Shells ConfigPath Toys Chpwd.
Import GoPath Fs Atomic Config Store Shells GoTime Chpwd.

Module Reconcile.

(** The path of a name in the wrapper directory. *)
Definition slot (l : list string) (x : string) : string := Join [abs_path l; x].

Section Slots.
Context (l : list string) (Hl : Forall plain_elem l) (Hne : l <> []).

Lemma plain_snoc x : plain_elem x -> Forall plain_elem (l ++ [x]).
Proof. intros Hx. apply Forall_app. split; [exact Hl|by constructor]. Qed.

Lemma slot_abs x : plain_elem x -> slot l x = abs_path (l ++ [x]).
Proof.
  intros Hx. unfold slot. rewrite Join_child by (done || by apply plain_snoc).
  unfold abs_path. rewrite join_app_last by exact Hne. by rewrite !str_app_assoc.
Qed.

Lemma slot_inj x y : plain_elem x -> plain_elem y -> slot l x = slot l y -> x = y.
Proof.
  intros Hx Hy He. rewrite !slot_abs in He by done.
  apply (f_equal Base) in He. by rewrite !Base_abs_path in He by (by apply plain_snoc).
Qed.

Lemma Dir_slot x : plain_elem x -> Dir (slot l x) = abs_path l.
Proof. intros Hx. rewrite slot_abs by done. by apply Dir_abs_path, plain_snoc. Qed.

Lemma slot_ne x : plain_elem x -> slot l x <> abs_path l.
Proof.
  intros Hx He. rewrite slot_abs in He by done. apply (f_equal clean_comps) in He.
  rewrite (clean_comps_abs (l ++ [x])) in He by (by apply clean_list_true_plain, plain_snoc).
  rewrite (clean_comps_abs l) in He by (by apply clean_list_true_plain).
  apply (f_equal length) in He. rewrite length_app in He. simpl in He. lia.
Qed.

(** The directories above, and itself. *)
Lemma ancestors_abs n k q : Forall plain_elem k -> q ∈ ancestors n (abs_path k) ->
  exists k', Forall plain_elem k' /\ (length k' <= length k)%nat /\ q = abs_path k'.
Proof.
  revert k. induction n as [|n IH]; intros k Hk Hq.
  - apply list_elem_of_singleton in Hq as ->. by exists k.
  - cbn [ancestors] in Hq. cbv zeta in Hq. destruct (String.eqb (Dir (abs_path k)) (abs_path k)) eqn:He.
    + apply list_elem_of_singleton in Hq as ->. by exists k.
    + apply elem_of_cons in Hq as [->|Hq]; [by exists k|].
      destruct k as [|y k _] using rev_ind; [by vm_compute in He|].
      rewrite Dir_abs_path in Hq by done. apply Forall_app in Hk as [Hk _].
      destruct (IH _ Hk Hq) as (k' & Hk' & Hlen & ->). exists k'. rewrite length_app. split; [done|]. split; [lia|done].
Qed.

Lemma abs_path_inj j k : Forall plain_elem j -> Forall plain_elem k -> abs_path j = abs_path k -> j = k.
Proof.
  intros Hj Hk He. apply (f_equal clean_comps) in He.
  rewrite (clean_comps_abs j) in He by (by apply clean_list_true_plain).
  by rewrite (clean_comps_abs k) in He by (by apply clean_list_true_plain).
Qed.

(** No ancestor is a name of the directory. *)
Lemma ancestor_no_child n q : q ∈ ancestors n (abs_path l) -> Dir q = abs_path l -> q = abs_path l.
Proof.
  intros (k & Hk & Hlen & ->)%ancestors_abs HD; [|done]. destruct k as [|y k _] using rev_ind; [done|].
  rewrite Dir_abs_path in HD by done. apply Forall_app in Hk as [Hk _].
  apply abs_path_inj in HD as ->; [|done..]. rewrite length_app in Hlen. simpl in Hlen. lia.
Qed.

Lemma slot_no_ancestor n x : plain_elem x -> slot l x ∉ ancestors n (abs_path l).
Proof. intros Hx Hq. apply (slot_ne x Hx). apply (ancestor_no_child n); [done|by apply Dir_slot]. Qed.

Lemma Base_slot x : plain_elem x -> Base (slot l x) = x.
Proof. intros Hx. rewrite slot_abs by done. by apply Base_abs_path, plain_snoc. Qed.
End Slots.

Section Facts.
Context `{Os} (l : list string) (Hl : Forall plain_elem l) (Hne : l <> []).

(** A per-shell directory as the program leaves it: absent and empty, or a directory
    of files and links under plain names. *)
Record wrap_ready (f : files) : Prop := {
  wr_dir : f !! abs_path l = Some NDir \/ (f !! abs_path l = None /\ forall x, plain_elem x -> f !! slot l x = None);
  wr_names : forall p, is_Some (f !! p) -> Dir p = abs_path l -> p <> abs_path l -> exists x, plain_elem x /\ p = slot l x;
  wr_files : forall x, plain_elem x -> f !! slot l x <> Some NDir;
  wr_above : forall q c m t, q ∈ ancestors (String.length (abs_path l)) (abs_path l) -> f !! q <> Some (NFile c m t)
}.

Definition no_faults : Prop := forall t, fails t = false.

(** The entries the passes work on: plain names, none of them a directory. *)
Definition entry_ok (f : files) (x : string) : Prop := plain_elem x /\ f !! slot l x <> Some NDir.

Lemma remove_calm p w :
  no_faults -> fs w !! p <> Some NDir ->
  remove p w = (match fs w !! p with Some _ => Ok tt | None => Err (ENoEnt p) end, step w (delete p (fs w))).
Proof.
  intros Hno Hd. unfold remove, syscall. rewrite Hno. destruct (fs w !! p) as [[]|] eqn:Hp; try done.
  by rewrite delete_id.
Qed.

(** The removals: what is not wanted goes, and the flag says whether anything did. *)
Lemma sweep_calm want es changed w :
  no_faults -> Forall (fun e => entry_ok (fs w) e.1) es ->
  exists w', sweep (abs_path l) want es changed w =
      (Ok (changed || existsb (fun e : string * node => bool_decide (e.1 ∉ want /\ is_Some (fs w !! slot l e.1))) es), w')
    /\ forall q, fs w' !! q =
        if bool_decide (q ∈ slot l <$> filter (fun x => x ∉ want) es.*1) then None else fs w !! q.
Proof.
  intros Hno. revert changed w. induction es as [|e es IH]; intros changed w Hes.
  - exists w. split; [by rewrite orb_false_r|]. intros q. by rewrite bool_decide_false by (apply not_elem_of_nil).
  - apply Forall_cons in Hes as [[Hx Hnd] Hes]. cbn [sweep]. destruct (bool_decide (e.1 ∈ want)) eqn:Hw.
    + apply bool_decide_eq_true in Hw. destruct (IH changed w Hes) as (w' & -> & Hf). exists w'. split.
      * cbn [existsb]. by rewrite (bool_decide_false (e.1 ∉ want /\ _)) by tauto.
      * intros q. rewrite Hf. cbn [fmap list_fmap]. by rewrite filter_cons_False by (intros Hc; by apply Hc).
    + apply bool_decide_eq_false in Hw. unfold attempt, mbind, M_bind.
      change (Join [abs_path l; e.1]) with (slot l e.1). rewrite (remove_calm _ _ Hno Hnd).
      set (w1 := step w _) in *.
      assert (Hw1 : forall q, fs w1 !! q = if bool_decide (q = slot l e.1) then None else fs w !! q).
      { intros q. unfold w1. cbn [fs step]. case_bool_decide as Hq; [by rewrite Hq, lookup_delete_eq|by rewrite lookup_delete_ne]. }
      assert (Hes1 : Forall (fun e => entry_ok (fs w1) e.1) es).
      { eapply Forall_impl; [exact Hes|]. intros e' [Hx' Hnd']. split; [done|]. rewrite Hw1. by case_bool_decide. }
      destruct (IH (match match fs w !! slot l e.1 with Some _ => Ok tt | None => Err (ENoEnt (slot l e.1)) end with
                    | Ok _ => true | Err _ => changed end) w1 Hes1) as (w' & -> & Hf).
      exists w'. split.
      * f_equal. f_equal. cbn [existsb].
        rewrite (bool_decide_ext (e.1 ∉ want /\ is_Some (fs w !! slot l e.1)) (is_Some (fs w !! slot l e.1))) by tauto.
        destruct (fs w !! slot l e.1) as [n|] eqn:Hn.
        -- rewrite bool_decide_true by done. by rewrite orb_true_r.
        -- rewrite (bool_decide_false (is_Some None)) by (by intros []). cbn [orb]. f_equal.
           clear -Hw1 Hn. induction es as [|e' es IH]; [done|]. cbn [existsb]. rewrite IH. f_equal.
           apply bool_decide_ext. rewrite Hw1. case_bool_decide as Hq; [rewrite Hq, Hn; naive_solver|done].
      * intros q. rewrite Hf, Hw1. cbn [fmap list_fmap]. rewrite filter_cons_True by done. cbn [fmap list_fmap].
        rewrite (bool_decide_ext (q ∈ slot l e.1 :: _) (q = slot l e.1 \/ q ∈ slot l <$> filter (fun x => x ∉ want) es.*1)) by apply elem_of_cons.
        destruct (bool_decide (q ∈ slot l <$> _)) eqn:H1, (bool_decide (q = slot l e.1)) eqn:H2; bools;
          case_bool_decide; tauto || naive_solver.
Qed.
Lemma readlink_calm p w :
  no_faults -> readlink p w = (match fs w !! p with
                               | Some (NLink t) => Ok t
                               | Some _ => Err (ENotLink p)
                               | None => Err (ENoEnt p)
                               end, step w (fs w)).
Proof. intros Hno. unfold readlink, syscall. rewrite Hno. by destruct (fs w !! p) as [[]|]. Qed.

Lemma createWrapper_calm x exe w :
  no_faults -> fs w !! slot l x <> Some NDir ->
  exists w', createWrapper (slot l x) exe w = (Ok tt, w')
    /\ forall q, fs w' !! q = if bool_decide (q = slot l x) then Some (NLink exe) else fs w !! q.
Proof.
  intros Hno Hd. unfold createWrapper, ignore, mbind, M_bind, mapErr. rewrite (remove_calm _ _ Hno Hd). cbn [snd].
  unfold symlink, syscall. rewrite Hno. cbn [fs step]. rewrite lookup_delete_eq. eexists. split; [reflexivity|].
  intros q. cbn [fs step]. case_bool_decide as Hq; [by rewrite Hq, lookup_insert_eq|].
  by rewrite lookup_insert_ne, lookup_delete_ne.
Qed.

(** The additions: every wanted name is a link to the program afterwards. *)
Lemma add_missing_calm exe wanted changed w :
  no_faults -> Forall (entry_ok (fs w)) wanted ->
  exists w', add_missing (abs_path l) exe wanted changed w =
      (Ok (changed || existsb (fun c => bool_decide (fs w !! slot l c <> Some (NLink exe))) wanted), w')
    /\ forall q, fs w' !! q = if bool_decide (q ∈ slot l <$> wanted) then Some (NLink exe) else fs w !! q.
Proof.
  intros Hno. revert changed w. induction wanted as [|c cs IH]; intros changed w Hes.
  - exists w. split; [by rewrite orb_false_r|]. intros q. by rewrite bool_decide_false by (apply not_elem_of_nil).
  - apply Forall_cons in Hes as [[Hx Hnd] Hes]. cbn [add_missing]. unfold wrapperFileName, isOurs, attempt.
    change (Join [abs_path l; c]) with (slot l c). unfold mbind, M_bind. rewrite (readlink_calm _ _ Hno).
    set (w1 := step w (fs w)) in *. destruct (decide (fs w !! slot l c = Some (NLink exe))) as [Hours|Hours].
    + rewrite Hours. cbn [mret M_ret]. rewrite String.eqb_refl. destruct (IH changed w1 Hes) as (w' & -> & Hf).
      exists w'. split.
      * cbn [existsb]. by rewrite Hours, bool_decide_false by tauto.
      * intros q. rewrite Hf. cbn [fs step w1 fmap list_fmap]. destruct (decide (q = slot l c)) as [->|Hq].
        -- rewrite (bool_decide_true (_ ∈ _ :: _)) by (by left). by case_bool_decide.
        -- rewrite (bool_decide_ext (q ∈ slot l c :: _) (q ∈ slot l <$> cs)); [done|]. rewrite elem_of_cons. tauto.
    + destruct (createWrapper_calm c exe w1 Hno Hnd) as (w2 & Hcw & Hf2).
      assert (Hes2 : Forall (entry_ok (fs w2)) cs).
      { eapply Forall_impl; [exact Hes|]. intros y [Hy Hnd']. split; [done|]. rewrite Hf2. by case_bool_decide. }
      destruct (IH true w2 Hes2) as (w' & Hrec & Hf). exists w'. split.
      * cbn [existsb]. rewrite (bool_decide_true _ Hours), orb_true_r.
        assert (Hstep : (_ ← createWrapper (slot l c) exe; add_missing (abs_path l) exe cs true) w1 = (Ok true, w')).
        { unfold mbind, M_bind. by rewrite Hcw, Hrec. }
        unfold mbind, M_bind in Hstep. destruct (fs w !! slot l c) as [[| |]|] eqn:Hn; cbn [mret M_ret]; try exact Hstep.
        destruct (String.eqb_spec target exe) as [->|]; [done|exact Hstep].
      * intros q. rewrite Hf, Hf2. cbn [fs step w1 fmap list_fmap].
        rewrite (bool_decide_ext (q ∈ slot l c :: _) (q = slot l c \/ q ∈ slot l <$> cs)) by apply elem_of_cons.
        repeat case_bool_decide; tauto || naive_solver.
Qed.

(** What os.ReadDir reports of a ready directory. *)
Lemma read_dir_calm w :
  no_faults -> fs w !! abs_path l = Some NDir -> read_dir (abs_path l) w = (Ok (entries (fs w) (abs_path l)), step w (fs w)).
Proof.
  intros Hno Hd. unfold read_dir, syscall. rewrite Hno. unfold link_depth. simpl. rewrite Hd.
  cbn [mbind res_bind]. by rewrite Hd.
Qed.

Lemma entries_ready f :
  wrap_ready f -> Forall (fun e => entry_ok f e.1) (entries f (abs_path l))
    /\ (forall x, x ∈ (entries f (abs_path l)).*1 <-> plain_elem x /\ is_Some (f !! slot l x)).
Proof.
  intros [_ Hnames Hfiles _]. unfold entries.
  assert (Hin : forall e, e ∈ omap (fun c => n ← f !! c; Some (Base c, n)) (sort_strings (children f (abs_path l)))
    <-> plain_elem e.1 /\ f !! slot l e.1 = Some e.2).
  { intros [x n]. rewrite list_elem_of_omap. unfold sort_strings. setoid_rewrite merge_sort_Permutation.
    unfold children. setoid_rewrite list_elem_of_filter. split.
    - intros (p & [[HD Hp] Hk] & Hn). destruct (f !! p) as [n'|] eqn:Hfp; [|done]. cbn in Hn. injection Hn as <- <-.
      destruct (Hnames p) as (x & Hx & ->); [by exists n'|done|done|]. cbn [fst snd]. by rewrite Base_slot.
    - intros [Hx Hn]. cbn [fst snd] in *. exists (slot l x). split; [split; [split|]|].
      + by apply Dir_slot.
      + by apply slot_ne.
      + apply list_elem_of_fmap. exists (slot l x, n). split; [done|]. by apply elem_of_map_to_list.
      + rewrite Hn. cbn. by rewrite Base_slot. }
  split.
  - apply Forall_forall. intros e He. apply Hin in He as [Hx Hn]. split; [done|]. by apply Hfiles.
  - intros x. rewrite list_elem_of_fmap. split.
    + intros (e & -> & He). apply Hin in He as [Hx Hn]. split; [done|]. by eexists.
    + intros [Hx [n Hn]]. exists (x, n). split; [done|]. by apply Hin.
Qed.

(** Creating the directory changes no name in it. *)
Lemma mkdir_calm w :
  no_faults -> wrap_ready (fs w) ->
  exists w1, mkdir_all (abs_path l) w = (Ok tt, w1) /\ wrap_ready (fs w1) /\ fs w1 !! abs_path l = Some NDir
    /\ forall q, q ∉ ancestors (String.length (abs_path l)) (abs_path l) -> fs w1 !! q = fs w !! q.
Proof.
  intros Hno [Hdir Hnames Hfiles Habove]. unfold mkdir_all, syscall. rewrite Hno. cbv zeta.
  set (ds := ancestors _ _) in *.
  assert (He : existsb (fun d => match fs w !! d with Some (NFile _ _ _) => true | _ => false end) ds = false).
  { apply not_true_iff_false. intros (d & Hd & Hf)%existsb_exists. apply list_elem_of_In in Hd.
    destruct (fs w !! d) as [[c m t| |]|] eqn:Hl'; try done. by apply (Habove d c m t Hd). }
  rewrite He. eexists. split; [reflexivity|]. cbn [fs step].
  set (f1 := fold_left _ _ _).
  assert (Hf1 : forall q, f1 !! q = match fs w !! q with Some n => Some n | None => if bool_decide (q ∈ ds) then Some NDir else None end)
    by (intros q; apply mkdir_fold_lookup).
  assert (Hdir1 : f1 !! abs_path l = Some NDir).
  { rewrite Hf1. assert (Hin : abs_path l ∈ ds).
    { unfold ds. destruct (String.length (abs_path l)); cbn [ancestors]; [by left|]. cbv zeta. case_match; by left. }
    destruct Hdir as [->|[-> _]]; [done|]. by rewrite bool_decide_true. }
  assert (Hoff : forall q, q ∉ ds -> f1 !! q = fs w !! q).
  { intros q Hq. rewrite Hf1, bool_decide_false by done. by destruct (fs w !! q). }
  split; [|split; [exact Hdir1|exact Hoff]]. split.
  - by left.
  - intros p Hp HD Hpd. rewrite Hf1 in Hp. destruct (fs w !! p) as [n|] eqn:Hn; [apply Hnames; [by eexists|done..]|].
    case_bool_decide as Hin; [|by destruct Hp]. destruct Hpd. by eapply ancestor_no_child.
  - intros x Hx. rewrite Hoff by (by apply slot_no_ancestor). by apply Hfiles.
  - intros q c m t Hq. rewrite Hf1. destruct (fs w !! q) eqn:Hn; [|by rewrite bool_decide_true].
    intros [= ->]. by eapply Habove.
Qed.

(** What the directory is to hold. *)
Definition wanted_node (exe : string) (wanted : list string) (x : string) : option node :=
  if bool_decide (x ∈ wanted) then Some (NLink exe) else None.

(** A flag that is raised exactly when a name changes. *)
Definition reports (f g : files) (changed : bool) : Prop :=
  changed = true <-> exists x, plain_elem x /\ g !! slot l x <> f !! slot l x.

Lemma slot_wanted wanted x : plain_elem x -> Forall plain_elem wanted -> (slot l x ∈ slot l <$> wanted <-> x ∈ wanted).
Proof.
  intros Hx Hw. split; [|intros Hin; apply list_elem_of_fmap; by exists x].
  intros (y & He & Hin)%list_elem_of_fmap. rewrite Forall_forall in Hw. apply slot_inj in He as ->; eauto.
Qed.

(** The two passes over an existing directory. *)
Lemma passes_calm exe wanted w :
  no_faults -> wrap_ready (fs w) -> Forall plain_elem wanted ->
  exists changed w', (changed ← sweep (abs_path l) (list_to_set wanted) (entries (fs w) (abs_path l)) false;
              add_missing (abs_path l) exe wanted changed) w = (Ok changed, w')
    /\ (forall x, plain_elem x -> fs w' !! slot l x = wanted_node exe wanted x)
    /\ (forall q, (forall x, plain_elem x -> q <> slot l x) -> fs w' !! q = fs w !! q)
    /\ reports (fs w) (fs w') changed.
Proof.
  intros Hno Hready Hw. destruct (entries_ready _ Hready) as [Hes Hnames].
  set (es := entries (fs w) (abs_path l)) in *.
  destruct (sweep_calm (list_to_set wanted) es false w Hno Hes) as (w1 & Hs & Hf1).
  set (ch := existsb _ es) in Hs.
  assert (Hw1 : Forall (entry_ok (fs w1)) wanted).
  { eapply Forall_impl; [exact Hw|]. intros x Hx. split; [done|]. rewrite Hf1. case_bool_decide; [done|]. by apply Hready. }
  destruct (add_missing_calm exe wanted (false || ch) w1 Hno Hw1) as (w' & Ha & Hf2).
  set (ch2 := existsb _ wanted) in Ha.
  assert (Hgone : forall x, plain_elem x -> (slot l x ∈ slot l <$> filter (fun y => y ∉@{gset string} list_to_set wanted) es.*1
      <-> x ∉ wanted /\ is_Some (fs w !! slot l x))).
  { intros x Hx. rewrite slot_wanted; [|done|].
    - rewrite list_elem_of_filter, elem_of_list_to_set, Hnames. tauto.
    - apply Forall_forall. intros y [_ [Hy _]%Hnames]%list_elem_of_filter. done. }
  assert (Hfin : forall x, plain_elem x -> fs w' !! slot l x = wanted_node exe wanted x).
  { intros x Hx. unfold wanted_node. rewrite Hf2, Hf1.
    rewrite (bool_decide_ext _ _ (slot_wanted wanted x Hx Hw)), (bool_decide_ext _ _ (Hgone x Hx)).
    repeat case_bool_decide; try done. destruct (fs w !! slot l x) eqn:Hn; [|done]. exfalso. naive_solver. }
  exists (ch || ch2), w'. split; [|split; [exact Hfin|split]].
  - unfold mbind, M_bind. by rewrite Hs, Ha.
  - intros q Hq. rewrite Hf2, Hf1. rewrite !bool_decide_false; [done| |].
    + intros (x & -> & [_ [Hx _]%Hnames]%list_elem_of_filter)%list_elem_of_fmap. by apply (Hq x).
    + intros (x & -> & Hx)%list_elem_of_fmap. rewrite Forall_forall in Hw. by apply (Hq x); [apply Hw|].
  - unfold reports, ch, ch2. rewrite orb_true_iff, !existsb_exists.
    assert (Hkeep : forall x, plain_elem x -> x ∈ wanted -> fs w1 !! slot l x = fs w !! slot l x).
    { intros x Hx Hin. rewrite Hf1, bool_decide_false; [done|]. rewrite Hgone by done. tauto. }
    rewrite Forall_forall in Hw. rewrite Forall_forall in Hes. split.
    + intros [([x n] & He & [Hnx Hs1]%bool_decide_eq_true)|(x & Hin & Hx%bool_decide_eq_true)].
      * apply list_elem_of_In, Hes in He as [Hx _]. cbn [fst] in *. exists x. split; [done|]. rewrite Hfin by done.
        unfold wanted_node. rewrite bool_decide_false by (by rewrite elem_of_list_to_set in Hnx). by destruct Hs1 as [? ->].
      * apply list_elem_of_In in Hin. exists x. split; [by apply Hw|]. rewrite Hfin by (by apply Hw). unfold wanted_node.
        rewrite bool_decide_true by done. rewrite Hkeep in Hx by (done || by apply Hw). congruence.
    + intros (x & Hx & Hch). rewrite Hfin in Hch by done. unfold wanted_node in Hch. case_bool_decide as Hin; [right|left].
      * exists x. split; [by apply list_elem_of_In|]. apply bool_decide_eq_true. rewrite Hkeep by done. congruence.
      * destruct (fs w !! slot l x) as [n|] eqn:Hn; [|done].
        assert (Hxes : x ∈ es.*1) by (apply Hnames; split; [done|by exists n]).
        apply list_elem_of_fmap in Hxes as (e & -> & He). exists e. split; [by apply list_elem_of_In|].
        apply bool_decide_eq_true. rewrite elem_of_list_to_set. split; [done|by eexists].
Qed.

(** C31.  A reconcile leaves exactly the wrappers that are wanted.  When no call fails it
    succeeds; afterwards the wrapper directory holds, for every wanted command, the link
    to the running program, and nothing else; no other file changes but for directories
    created above it; and it reports a change exactly when some wrapper differs from
    before, so that a second pass over the same commands reports none. *)
Theorem reconcile_exact exe wanted w r w' :
  no_faults -> wrap_ready (fs w) -> Forall plain_elem wanted ->
  reconcile (Some exe) (abs_path l) wanted w = (r, w') ->
  (forall x, plain_elem x -> fs w' !! slot l x = wanted_node exe wanted x)
  /\ (forall q, (forall x, plain_elem x -> q <> slot l x) -> q ∉ ancestors (String.length (abs_path l)) (abs_path l) ->
        fs w' !! q = fs w !! q)
  /\ exists changed, r = Ok changed /\ reports (fs w) (fs w') changed.
Proof.
  intros Hno Hready Hw Hr. unfold reconcile in Hr. destruct wanted as [|c cs].
  - unfold attempt, mbind, M_bind in Hr. destruct (wr_dir _ Hready) as [Hd|[Hd Hnone]].
    + rewrite (read_dir_calm _ Hno Hd) in Hr.
      destruct (passes_calm exe [] (step w (fs w)) Hno Hready Hw) as (ch & w1 & Hp & Hfin & Hoff & Hrep).
      unfold mbind, M_bind in Hp. cbn [list_to_set] in Hp.
      destruct (sweep _ _ _ _ _) as [[ch1|e] w2] eqn:Hs; [|done]. injection Hp as -> ->.
      injection Hr as <- <-.
      split; [exact Hfin|]. split; [by intros q Hq _; apply Hoff|]. by exists ch.
    + unfold read_dir, syscall in Hr. rewrite Hno in Hr. unfold link_depth in Hr. simpl in Hr. rewrite Hd in Hr.
      cbn in Hr. rewrite Hd in Hr. injection Hr as <- <-. cbn [fs step].
      split; [intros x Hx; by rewrite Hnone|]. split; [done|]. exists false. split; [done|].
      split; [done|]. by intros (x & _ & Hx).
  - destruct (mkdir_calm w Hno Hready) as (w1 & Hmk & Hready1 & Hd1 & Hoff1).
    destruct (passes_calm exe (c :: cs) (step w1 (fs w1)) Hno Hready1 Hw) as (ch & w2 & Hp & Hfin & Hoff & Hrep).
    unfold mapErr, lift, attempt, mbind, M_bind in Hr. rewrite Hmk in Hr. cbn [wrap_err of_option] in Hr.
    rewrite (read_dir_calm _ Hno Hd1) in Hr.
    replace (wrapperFileName <$> c :: cs) with (c :: cs) in Hr by (symmetry; apply list_fmap_id).
    unfold mbind, M_bind in Hp. change (fs (step w1 (fs w1))) with (fs w1) in *. rewrite Hp in Hr. injection Hr as <- <-.
    split; [exact Hfin|]. split.
    + intros q Hq Hqa. rewrite Hoff by done. by apply Hoff1.
    + exists ch. split; [done|]. unfold reports in *. rewrite Hrep. split; intros (x & Hx & Hne'); exists x; (split; [done|]);
        by rewrite Hoff1 in * by (by apply slot_no_ancestor).
Qed.
End Facts.

(** ** A directory with a wrapper too many *)

Definition w_l : list string := ["run"; "shells"; "7"; "bin"].
Definition w_fs : files := {["/run/shells/7/bin" := NDir; "/run/shells/7/bin/old" := NLink "/usr/bin/jitenv"]}.

Lemma w_plain : Forall plain_elem w_l.
Proof. repeat constructor; done. Qed.

Lemma w_lookup p n : w_fs !! p = Some n ->
  (p = "/run/shells/7/bin" /\ n = NDir) \/ (p = "/run/shells/7/bin/old" /\ n = NLink "/usr/bin/jitenv").
Proof.
  intros Hp. unfold w_fs in Hp. apply lookup_insert_Some in Hp as [[<- <-]|[_ Hp]]; [by left|].
  apply lookup_singleton_Some in Hp as [<- <-]. by right.
Qed.

Lemma w_ready : wrap_ready w_l w_fs.
Proof.
  split.
  - left. vm_compute. reflexivity.
  - intros p [n [[-> _]|[-> _]]%w_lookup] _ Hp; [by destruct Hp|]. exists "old". split; [by repeat constructor|].
    by rewrite slot_abs by (apply w_plain || done || by repeat constructor).
  - intros x Hx [[Hp _]|[_ ?]]%w_lookup; [|done]. apply (slot_ne w_l w_plain ltac:(done) x Hx). exact Hp.
  - intros q c m t _ [[_ ?]|[_ ?]]%w_lookup; done.
Qed.

Lemma reconcile_exact_witness :
  let out := @reconcile Toys.calm_os (Some "/usr/bin/jitenv") (abs_path w_l) ["npm"; "node"] (start w_fs) in
  out.1 = Ok true
  /\ fs out.2 !! slot w_l "npm" = Some (NLink "/usr/bin/jitenv") /\ fs out.2 !! slot w_l "old" = None
  /\ (@reconcile Toys.calm_os (Some "/usr/bin/jitenv") (abs_path w_l) ["npm"; "node"] out.2).1 = Ok false.
Proof.
  cbv zeta. split; [vm_compute; reflexivity|].
  destruct (@reconcile_exact Toys.calm_os w_l w_plain ltac:(done) "/usr/bin/jitenv" ["npm"; "node"] (start w_fs) _ _
    (fun _ => eq_refl) w_ready ltac:(repeat constructor; done) (surjective_pairing _)) as (Hfin & _ & _).
  split; [rewrite Hfin by (by repeat constructor); reflexivity|].
  split; [rewrite Hfin by (by repeat constructor); reflexivity|]. vm_compute. reflexivity.
Defined.

(** The names are not checked here: a configuration that would not validate replaces a
    file anywhere by a link to the program. *)
Example unchecked_name_escapes :
  let f := {["/run/shells/7/bin" := NDir; "/home/u/.bashrc" := NFile "alias ls=ls" 420 0]} in
  let out := @reconcile Toys.calm_os (Some "/usr/bin/jitenv") "/run/shells/7/bin" ["../../../../home/u/.bashrc"] (start f) in
  isValidCommandName "../../../../home/u/.bashrc" = false
  /\ out.1 = Ok true /\ fs out.2 !! "/home/u/.bashrc" = Some (NLink "/usr/bin/jitenv").
Proof. vm_compute. split; [reflexivity|]. split; reflexivity. Qed.

(** ** Three prompts around a missing configuration *)

Section Prompts.
#[local] Existing Instance Toys.toy_toml.

Definition p_os : Os := Build_Os (fun _ => false) (fun _ => 0%nat) (fun t i => itoa (N.of_nat (t + i))) (fun t => 50 + Z.of_nat t)%Z
  (fun k => if String.eqb k "JITENV_CONFIG" then Some "/c/config.toml"
            else if String.eqb k "XDG_RUNTIME_DIR" then Some "/run" else None).
Definition p_config : string := Toys.config_text
  (mkConfig 1 (mkMeta "argon2id" 3 65536 4 "salt" "verify" "" "") (mkAgentConfig "30m" "" None None) ∅
     [mkMapping "/opt/tool" "" "" [] [mkVar "A" "" "" "" ∅ "1"]] ∅ None).
Definition p_file : node := NFile p_config 384 40.
Definition p_run (oldPwd newPwd : string) (f : files) : res ChErr bool * world :=
  @Run p_os Toys.toy_toml map_range_default 1000 (fun _ => 1000%Z) (fun _ => 448%Z) (fun _ _ => None) None (Some "/") (Some "/usr/bin/jitenv")
    ["7"; oldPwd; newPwd] (start f).
Definition p_anchors (f : files) : option (list string * list string) :=
  match f !! "/run/jitenv/shells/7/match-anchors" with Some (NFile c _ _) => Some (load_anchors c) | _ => None end.

(** The configuration is away at one prompt and back, the same file, at the next: the
    anchors of the first prompt were cleared and the last one takes the short cut, so
    the mapping stays invisible to the shell. *)
Example cleared_anchors_stay_cleared :
  let w1 := p_run "" "/a" {["/c/config.toml" := p_file]} in
  let w2 := p_run "/a" "/b" (delete "/c/config.toml" (fs w1.2)) in
  let w3 := p_run "/b" "/b" (<["/c/config.toml" := p_file]> (fs w2.2)) in
  (w1.1, w2.1, w3.1) = (Ok false, Ok false, Ok false)
  /\ p_anchors (fs w1.2) = Some (["/opt/tool"], [])
  /\ p_anchors (fs w3.2) = Some ([], []).
Proof. vm_compute. split; [reflexivity|]. split; reflexivity. Qed.
End Prompts.
End Reconcile.
