(* ===== verification/SyncFile.v ===== *)
(** * The file adapter (src/internal/syncadapters/file/file.go)

    A remote made of two sibling files, the blob and its meta, written one after
    the other.  The two writes are atomic each, but not together: the theorem says
    what a pull can make of every state a push can be cut in. *)

From S2P Require Import Prelude GoString GoPath Fs Atomic ConfigModel Crypto Protocol Store Toys Sha256 Sync.
Import Fs Atomic Config Crypto Protocol Sync.

Module SyncFile.

Section File.
Context `{Os, Codec SMeta}.

Definition metaPath (path : string) : string := path +:+ ".meta.json".
Definition probe (path : string) : string := GoPath.Join [GoPath.Dir path; ".jitenv-sync-probe"].
Definition pattern : string := ".jitenv-sync-*".

(** The constructor: the cleaned absolute path, or a refusal. *)
Definition New (cwd : option string) (cfg : gmap string any) : res SyErr string :=
  let p := match cfg !! "path" with Some (AStr s) => s | _ => EmptyString end in
  if str_empty p then Err (AdapterErr "path param is required")
  else of_option (AdapterErr "resolve path") (GoPath.Abs cwd p).

Definition io (what : string) (_ : FErr) : SyErr := AdapterErr what.

Definition Validate (path : string) : M SyErr unit :=
  _ ← mapErr (io "create dir") (mkdir_all (GoPath.Dir path));
  _ ← mapErr (io "not writable") (write_file (probe path) EmptyString 384);
  ignore (remove (probe path)).

Definition Push (path blob : string) (meta : SMeta) : M SyErr unit :=
  _ ← Validate path;
  _ ← Write (io "write blob") path blob 384 pattern;
  mb ← lift (of_option (AdapterErr "marshal meta") (marshal_json meta));
  Write (io "write meta") (metaPath path) mb 384 pattern.

Definition missing (r : res FErr string) : bool := match r with Err (ENoEnt _) => true | _ => false end.
Definition present (r : res FErr string) : bool := match r with Ok _ => true | _ => false end.

(** What the two reads amount to. *)
Definition classify (b m : res FErr string) : res SyErr (string * SMeta) :=
  if missing b && missing m then Err NoRemoteState
  else if missing b && present m then Err RemoteIncomplete
  else if missing m && present b then Err RemoteIncomplete
  else match b, m with
       | Err _, _ => Err (AdapterErr "read blob")
       | _, Err _ => Err (AdapterErr "read meta")
       | Ok blob, Ok mb =>
           match unmarshal_json mb with
           | Some meta => Ok (blob, meta)
           | None => Err (AdapterErr "parse meta")
           end
       end.

Definition Pull (path : string) : M SyErr (string * SMeta) :=
  b ← attempt (read_file path);
  m ← attempt (read_file (metaPath path));
  lift (classify b m).

(** The adapter as a remote of the engine. *)
Definition file_remote (path : string) : Remote world := {|
  remote_pull := Pull path;
  remote_push blob meta := Push path blob meta
|}.
End File.

(** ** What is on the remote *)

Section Facts.
Context `{Os, Codec SMeta}.

Definition file_at (f : files) (p : string) : res FErr string :=
  match f !! p with
  | Some (NFile c _ _) => Ok c
  | Some _ => Err (EIsDir p)
  | None => Err (ENoEnt p)
  end.

(** Neither a link nor a directory. *)
Definition plain (f : files) (p : string) : Prop :=
  match f !! p with None | Some (NFile _ _ _) => True | _ => False end.

Definition view (f : files) (path : string) : res SyErr (string * SMeta) :=
  classify (file_at f path) (file_at f (metaPath path)).

Lemma follow_plain f p : (forall t, f !! p <> Some (NLink t)) -> follow link_depth f p = Ok p.
Proof. intros Hp. unfold link_depth. simpl. destruct (f !! p) as [[]|] eqn:Hl; [done| |done..]. by destruct (Hp target). Qed.

Lemma plain_no_link f p : plain f p -> forall t, f !! p <> Some (NLink t).
Proof. unfold plain. by destruct (f !! p) as [[]|]. Qed.

Lemma read_file_plain p w :
  plain (fs w) p -> fails (tick w) = false -> read_file p w = (file_at (fs w) p, step w (fs w)).
Proof.
  intros Hp Hf. unfold read_file, syscall. rewrite Hf, (follow_plain _ _ (plain_no_link _ _ Hp)). simpl.
  unfold plain in Hp. unfold file_at. by destruct (fs w !! p) as [[]|].
Qed.

(** A pull none of whose calls fails reports what is on the remote. *)
Lemma Pull_view path w :
  plain (fs w) path -> plain (fs w) (metaPath path) -> fails (tick w) = false -> fails (S (tick w)) = false ->
  (Pull path w).1 = view (fs w) path.
Proof.
  intros Hp Hm Hf1 Hf2. unfold Pull, attempt, mbind, M_bind, lift. rewrite read_file_plain by done.
  by rewrite read_file_plain.
Qed.

(** ** A push, state by state *)

(** The probe and the temporary files are other files than the two of the remote. *)
Record placed (path : string) : Prop := {
  pl_meta : metaPath path <> path;
  pl_probe : probe path <> path /\ probe path <> metaPath path;
  pl_dirs : let ds := ancestors (String.length (GoPath.Dir path)) (GoPath.Dir path) in
            path ∉ ds /\ metaPath path ∉ ds;
  pl_temp : forall rnd, temp_name (GoPath.Dir path) pattern rnd ∉@{gset string} {[path; metaPath path]};
  pl_temp_meta : forall rnd, temp_name (GoPath.Dir (metaPath path)) pattern rnd ∉@{gset string} {[path; metaPath path]}
}.

Definition kept (path : string) (f g : files) : Prop :=
  g !! path = f !! path /\ g !! metaPath path = f !! metaPath path.

Lemma kept_off path tmp f g : tmp <> path -> tmp <> metaPath path -> off tmp f g -> kept path f g.
Proof. intros H1 H2 Ho. split; by apply Ho. Qed.

Lemma kept_trans path f g h : kept path f g -> kept path g h -> kept path f h.
Proof. intros [H1 H2] [H3 H4]. by split; [rewrite H3|rewrite H4]. Qed.

Lemma mkdir_all_kept path w r w' :
  placed path -> (forall t, fs w !! probe path <> Some (NLink t)) ->
  mkdir_all (GoPath.Dir path) w = (r, w') ->
  evolves (kept path (fs w)) w w' /\ (forall t, fs w' !! probe path <> Some (NLink t)).
Proof.
  intros [_ _ [H1 H2] _ _] Hp [(e & _ & -> & _)|(a & f & _ & -> & Ha & _)]%syscall_inv.
  - split; [by apply evolves_step|done].
  - cbv zeta in Ha. destruct (existsb _ _) in Ha; [done|]. injection Ha as _ <-. split.
    + apply evolves_step. by split; apply mkdir_fold.
    + by apply mkdir_fold_plain.
Qed.

Lemma append_off p data t f : off p f (append p data t f).
Proof. intros q Hq. unfold append. destruct (f !! p) as [[]|]; [by apply lookup_insert_ne|done..]. Qed.

Lemma write_file_off p data mode w r w' :
  (forall t, fs w !! p <> Some (NLink t)) -> write_file p data mode w = (r, w') -> evolves (off p (fs w)) w w'.
Proof.
  intros Hp Hr. unfold write_file in Hr.
  apply M_bind_inv in Hr as [(q & w1 & Hc & Hr)|(e & Hc & ->)].
  - apply syscall_inv in Hc as [(e & ? & _)|(a & f & [= <-] & -> & Ha & _)]; [done|].
    rewrite (follow_plain _ _ Hp) in Ha. cbn [mbind res_bind] in Ha.
    assert (q = p /\ off p (fs w) f) as [-> Ho].
    { destruct (fs w !! p) as [[]|]; try done; injection Ha as <- <-; (split; [done|]); intros q Hq; by apply lookup_insert_ne. }
    unfold attempt, mbind, M_bind in Hr. destruct (write p data (step w f)) as [r1 w1] eqn:Hw.
    destruct (close p w1) as [r2 w2] eqn:Hcl. apply close_idle in Hcl as ->.
    assert (Hw' : w' = step w1 (fs w1)) by (destruct r1, r2; by injection Hr).
    assert (Ho1 : evolves (off p (fs w)) w w1).
    { eapply evolves_trans; [by apply evolves_step|]. unfold write in Hw.
      destruct (fails _); injection Hw as _ <-; apply evolves_step; (eapply off_trans; [exact Ho|apply append_off]). }
    rewrite Hw'. eapply evolves_trans; [exact Ho1|]. apply evolves_step. exact (evolves_fs _ _ _ Ho1).
  - apply syscall_inv in Hc as [(e' & _ & -> & _)|(a & f & ? & _)]; [|done]. by apply evolves_step.
Qed.

Lemma kept_from path f w w' : kept path f (fs w) -> evolves (kept path (fs w)) w w' -> evolves (kept path f) w w'.
Proof. intros Hk. apply evolves_mono. intros g. by apply kept_trans. Qed.

Lemma Validate_kept path w r w' :
  placed path -> (forall t, fs w !! probe path <> Some (NLink t)) ->
  Validate path w = (r, w') -> evolves (kept path (fs w)) w w'.
Proof.
  intros Hpl Hp Hr. unfold Validate in Hr. destruct (pl_probe _ Hpl) as [Hn1 Hn2].
  apply M_bind_inv in Hr as [(u & w1 & Hm & Hr)|(e & Hm & ->)];
    apply mapErr_inv in Hm as (r0 & Hm & Hr0); destruct (mkdir_all_kept _ _ _ _ Hpl Hp Hm) as [Hev Hp1]; [|exact Hev].
  eapply evolves_trans; [exact Hev|]. pose proof (evolves_fs _ _ _ Hev) as Hk. apply kept_from; [done|].
  apply M_bind_inv in Hr as [(u' & w2 & Hw & Hr)|(e & Hw & ->)];
    apply mapErr_inv in Hw as (r1 & Hw & Hr1); apply (write_file_off _ _ _ _ _ _ Hp1) in Hw;
    apply (evolves_mono _ (kept path (fs w1))) in Hw; [|by intros; eapply kept_off|exact Hw|by intros; eapply kept_off].
  eapply evolves_trans; [exact Hw|]. unfold ignore in Hr. destruct (remove (probe path) w2) as [r2 w3] eqn:Hrm.
  injection Hr as _ <-. apply kept_from; [exact (evolves_fs _ _ _ Hw)|].
  eapply evolves_mono; [|exact (remove_off _ _ _ _ Hrm)]. intros g. by apply kept_off.
Qed.
Definition has_file (g : files) (p data : string) : Prop := exists t, g !! p = Some (NFile data 384 t).

(** The states of a push from [f]: nothing yet, the blob, or the blob and its meta. *)
Definition pushing (path blob mb : string) (f g : files) : Prop :=
  kept path f g
  \/ (has_file g path blob /\ (g !! metaPath path = f !! metaPath path \/ has_file g (metaPath path) mb)).

(** One of the two atomic writes, seen from both files. *)
Lemma write_one what path p other data w r w' :
  (p = path /\ other = metaPath path \/ p = metaPath path /\ other = path) -> placed path ->
  Write (io what) p data 384 pattern w = (r, w') ->
  evolves (fun g => g !! other = fs w !! other /\ (g !! p = fs w !! p \/ has_file g p data)) w w'
  /\ (r = Ok tt -> has_file (fs w') p data).
Proof.
  intros Hpo Hpl Hr. set (avoid := {[path; metaPath path]} : gset string).
  assert (Hin : p ∈ avoid /\ other ∈ avoid /\ p <> other) by (destruct Hpl; unfold avoid; set_solver).
  destruct Hin as (Hp & Ho & Hne).
  assert (Htmp : forall rnd, temp_name (GoPath.Dir p) pattern rnd ∉ avoid).
  { destruct Hpl as [_ _ _ H1 H2]. by destruct Hpo as [[-> _]|[-> _]]. }
  unfold Write in Hr.
  destruct (WriteFunc_atomic_off (io what) avoid p 384 pattern _ data w r w' (write_produces (io what) data) Hp Htmp Hr)
    as (tmp & Ht & _ & Hev & Hok).
  split.
  - eapply evolves_mono; [|exact Hev]. intros g Hg. split.
    + destruct (Hg other) as [?|[? _]]; [by intros <-|done|congruence].
    + destruct (Hg p) as [?|[_ ?]]; [by intros <-|by left|by right].
  - intros ->. destruct Hok as [t ->]. exists t. apply lookup_insert_eq.
Qed.

Lemma Push_states path blob meta mb w r w' :
  placed path -> (forall t, fs w !! probe path <> Some (NLink t)) -> marshal_json meta = Some mb ->
  Push path blob meta w = (r, w') ->
  evolves (pushing path blob mb (fs w)) w w'
  /\ (r = Ok tt -> has_file (fs w') path blob /\ has_file (fs w') (metaPath path) mb).
Proof.
  intros Hpl Hp Hmb Hr. unfold Push in Hr.
  apply M_bind_inv in Hr as [(u & w1 & Hv & Hr)|(e & Hv & ->)];
    apply (Validate_kept _ _ _ _ Hpl Hp) in Hv.
  2: { split; [|done]. eapply evolves_mono; [|exact Hv]. intros g. by left. }
  pose proof (evolves_fs _ _ _ Hv) as [Hk1 Hk2].
  assert (Hv' : evolves (pushing path blob mb (fs w)) w w1) by (eapply evolves_mono; [|exact Hv]; intros g; by left).
  assert (Hblob : forall r1 w2, Write (io "write blob") path blob 384 pattern w1 = (r1, w2) ->
    evolves (pushing path blob mb (fs w)) w1 w2
    /\ fs w2 !! metaPath path = fs w !! metaPath path /\ (r1 = Ok tt -> has_file (fs w2) path blob)).
  { intros r1 w2 Hw. destruct (write_one _ path _ (metaPath path) _ _ _ _ (or_introl (conj eq_refl eq_refl)) Hpl Hw) as [Hev Hok].
    split; [|split; [|exact Hok]].
    - eapply evolves_mono; [|exact Hev]. intros g [Hm [Hg|Hg]]; [left|right].
      + by split; [rewrite Hg|rewrite Hm].
      + split; [done|]. left. by rewrite Hm.
    - destruct (evolves_fs _ _ _ Hev) as [Hm _]. by rewrite Hm. }
  apply M_bind_inv in Hr as [([] & w2 & Hw & Hr)|(e & Hw & ->)]; destruct (Hblob _ _ Hw) as (Hev & Hm & Hok).
  2: { split; [by eapply evolves_trans|done]. }
  rewrite Hmb in Hr. cbn in Hr. specialize (Hok eq_refl).
  destruct (write_one _ path _ path _ _ _ _ (or_intror (conj eq_refl eq_refl)) Hpl Hr) as [Hev2 Hok2].
  assert (Hfin : evolves (pushing path blob mb (fs w)) w2 w').
  { eapply evolves_mono; [|exact Hev2]. intros g [Hg Hgm]. right. destruct Hok as [t Ht].
    split; [exists t; by rewrite Hg|]. destruct Hgm as [Hgm|Hgm]; [left|by right]. by rewrite Hgm. }
  split; [by do 2 (eapply evolves_trans; [done|])|]. intros ->. split; [|by apply Hok2].
  destruct Hok as [t Ht]. exists t. destruct (evolves_fs _ _ _ Hev2) as [Hg _]. by rewrite Hg.
Qed.

Lemma kept_view path f g : kept path f g -> view g path = view f path.
Proof. intros [H1 H2]. unfold view, file_at. by rewrite H1, H2. Qed.

Lemma view_blob path g blob b m : has_file g path blob -> view g path = Ok (b, m) -> b = blob.
Proof.
  intros [t Ht]. unfold view, file_at. rewrite Ht. unfold classify. cbn [missing present andb].
  destruct (g !! metaPath path) as [[]|]; cbn; [|done..]. destruct (unmarshal_json _); [|done]. by intros [= <- _].
Qed.

Context `{AEAD, !AEADLaws, Rand, !RandLaws, !CodecLaws SMeta}.

(** C13.  A push to a pair of files is never half applied.  Whichever system calls fail and
    wherever the push is cut, a blob that opens under the meta beside it is the one that
    was there before, with its meta, or decrypts to the configuration being pushed; and a
    push that reports success leaves exactly the pair it was given. *)
Theorem push_never_torn dek cfg h v n blob n' path w r w' :
  placed path -> (forall t, fs w !! probe path <> Some (NLink t)) -> json_ok (mkSMeta h v) ->
  SealBlob dek cfg h n = Ok (blob, n') ->
  Push path blob (mkSMeta h v) w = (r, w') ->
  evolves (fun g => forall b m pt, view g path = Ok (b, m) -> OpenBlob dek b (Hash m) = Ok pt ->
             view (fs w) path = Ok (b, m) \/ pt = cfg) w w'
  /\ (r = Ok tt -> view (fs w') path = Ok (blob, mkSMeta h v)).
Proof.
  intros Hpl Hp Hj Hs Hr. destruct (json_roundtrip _ Hj) as (mb & Hmb & _ & Hun).
  destruct (Push_states _ _ _ _ _ _ _ Hpl Hp Hmb Hr) as [Hev Hok]. split.
  - eapply evolves_mono; [|exact Hev]. intros g [Hk|[Hb _]] b m pt Hview Ho.
    + left. by rewrite <- (kept_view _ _ _ Hk).
    + right. apply (view_blob _ _ _ _ _ Hb) in Hview as ->. unfold OpenBlob in Ho.
      destruct (Open dek blob (blobAAD (Hash m))) as [pt'|] eqn:Hopen; [|done]. injection Ho as ->.
      destruct (Open_Seal _ _ _ _ _ _ (blobAAD (Hash m)) Hs) as [H5 H6]. rewrite H5 in Hopen; [by injection Hopen|by eapply H6].
  - intros ->. destruct (Hok eq_refl) as [[t1 Hb] [t2 Hm]]. unfold view, file_at. rewrite Hb, Hm. cbn. by rewrite Hun.
Qed.
End Facts.

(** ** A push cut after its first file *)

#[local] Existing Instance toy_aead.
#[local] Existing Instance toy_rand.

#[local] Instance toy_meta : Codec SMeta := {|
  marshal_json m := Some (Toys.to_text (Hash m, SchemaVersion m));
  unmarshal_json s := '(h, v) ← Toys.of_text (A := string * Z) s; Some (mkSMeta h v);
  json_ok _ := True
|}.

#[local] Instance toy_meta_laws : CodecLaws SMeta.
Proof.
  constructor. intros [h v] _. eexists. split; [reflexivity|]. split; [apply Toys.to_text_nonempty|].
  cbn [unmarshal_json toy_meta Hash SchemaVersion]. by rewrite Toys.of_to_text.
Qed.

Definition w_path : string := "/mnt/nas/jitenv".
Definition w_sealed (pt h : string) (n : nat) : string :=
  match SealBlob (pad 32) pt h n with Ok (b, _) => b | Err _ => "" end.

(** The version "old" is published; calls 12 and on fail. *)
Definition w_files : files :=
  {[w_path := NFile (w_sealed "old" "h1" 0) 384 0;
    metaPath w_path := NFile (Toys.to_text ("h1", 1)) 384 0]}.
Definition w_os : Os := Build_Os (fun t => (12 <=? t)%nat) (fun _ => 3%nat)
  (fun t i => itoa (N.of_nat (t + i))) (fun t => Z.of_nat t) (fun _ => None).

Lemma w_placed : placed w_path.
Proof.
  constructor.
  - discriminate.
  - split; discriminate.
  - split; vm_compute; by intros Hin; repeat (apply elem_of_cons in Hin as [?|Hin]; [done|]); apply elem_of_nil in Hin.
  - intros rnd Hin. apply elem_of_union in Hin as [Hin|Hin]; apply elem_of_singleton in Hin; vm_compute in Hin; discriminate Hin.
  - intros rnd Hin. apply elem_of_union in Hin as [Hin|Hin]; apply elem_of_singleton in Hin; vm_compute in Hin; discriminate Hin.
Qed.

Definition w_torn : world :=
  (@Push w_os toy_meta w_path (w_sealed "new" "h2" 0) (mkSMeta "h2" 1) (start w_files)).2.

(** The interrupted push leaves the new blob beside the old meta, and nothing opens. *)
Example torn_pair :
  view (fs w_torn) w_path = Ok (w_sealed "new" "h2" 0, mkSMeta "h1" 1)
  /\ OpenBlob (pad 32) (w_sealed "new" "h2" 0) "h1" = Err OpenFailed.
Proof. vm_compute. split; reflexivity. Qed.

Lemma push_never_torn_witness :
  evolves (fun g => forall b m pt, view g w_path = Ok (b, m) -> OpenBlob (pad 32) b (Hash m) = Ok pt ->
             view w_files w_path = Ok (b, m) \/ pt = "new") (start w_files) w_torn.
Proof.
  assert (Hs : SealBlob (pad 32) "new" "h2" 0 = Ok (w_sealed "new" "h2" 0, 1%nat)) by (vm_compute; reflexivity).
  assert (Hl : forall t, fs (start w_files) !! probe w_path <> Some (NLink t)) by (intros t; vm_compute; discriminate).
  destruct (@push_never_torn w_os toy_meta toy_aead toy_laws toy_rand toy_rand_laws toy_meta_laws
    (pad 32) "new" "h2" 1 0 (w_sealed "new" "h2" 0) 1 w_path (start w_files) _ w_torn w_placed Hl I Hs
    (surjective_pairing _)) as [Hev _].
  exact Hev.
Defined.

(** Validate writes its probe through a link: whoever can plant one beside the blob
    empties the file it points at. *)
Example probe_follows_link :
  let f := {[ "/mnt/nas/.jitenv-sync-probe" := NLink "/home/u/.ssh/authorized_keys";
              "/home/u/.ssh/authorized_keys" := NFile "ssh-ed25519 AAAA" 384 0 ]} in
  let w := @Validate Toys.calm_os w_path (start f) in
  w.1 = Ok tt /\ match fs w.2 !! "/home/u/.ssh/authorized_keys" with Some (NFile c _ _) => c = "" | _ => False end.
Proof. vm_compute. split; reflexivity. Qed.
End SyncFile.
