(* ===== verification/SyncCli.v ===== *)
(** * The sync commands (src/internal/cli/sync.go, src/internal/syncadapters/registry.go)

    init, push, pull, status and list over the sidecar, with the registry of adapter
    constructors.  What a command prints is a list of values, one per line. *)

From S2P Require Import Prelude GoString GoPath Fs Atomic Base64 ConfigModel Crypto NameId Seal Store.
From S2P Require Import StoreMigrate StoreSweep Edit Shells ConfigPath GoDuration Unlock Toys Sha256 Sync.
Import Fs Atomic Config Crypto NameId Store StoreMigrate StoreSweep Edit Sync.

Module SyncCli.

(** A built adapter: the methods of syncadapter.Adapter the commands call. *)
Record AdapterImpl := mkImpl {
  a_validate : M SyErr unit;
  a_pull : M SyErr (string * SMeta);
  a_push : string -> SMeta -> M SyErr unit
}.

Definition impl_remote (a : AdapterImpl) : Remote world := {|
  remote_pull := a_pull a;
  remote_push blob meta := a_push a blob meta
|}.

Definition Constructor : Type := gmap string any -> res SyErr AdapterImpl.
Notation Registry := (gmap string Constructor).

(** ** The registry; [None] is the panic of a second registration *)

Definition Register (typeName : string) (c : Constructor) (builders : Registry) : option Registry :=
  match builders !! typeName with Some _ => None | None => Some (<[typeName := c]> builders) end.

Definition Build (builders : Registry) (typeName : string) (cfg : gmap string any) : res SyErr AdapterImpl :=
  match builders !! typeName with
  | None => Err (AdapterErr ("unknown sync adapter type " +:+ typeName))
  | Some c => c cfg
  end.

Definition Types (builders : Registry) : list string := sort_strings (map_to_list builders).*1.

(** ** Errors and output of the commands *)

Inductive CliErr :=
| NoHome
| NoSidecar (path : string)
| CFs (e : FErr)
| CParse (path : string)
| CEncode
| CStore (e : SErr)
| CSync (e : SyErr)
| CCrypto (e : CErr)
| TypeRequired
| UnknownType (t : string)
| BadParam (kv : string)
| NoMetaHeader (path : string)
| AdapterExists (name : string)
| AdapterValidation (e : SyErr)
| NoSuchAdapter (name configured : string)
| NoAdapters
| ManyAdapters (configured : string)
| DecryptParamsErr (name : string) (e : CErr)
| NothingToPull
| LeftUntouched (e : SyErr)
| PulledParse
| PulledInvalid (e : ValidateErr).

Inductive Line :=
| Wrote (path name type : string)
| Pushed (hash name : string)
| AheadOfRemote
| UpToDate (hash : string)
| Applied_ (hash : string)
| NoneConfigured
| LocalConfig (hash : string)
| AdapterError (name type : string)
| Incomplete (name type : string)
| Unreachable (name type : string)
| State (name type remote base : string) (d : MergeDecision)
| Configured (name type base : string).

(** github.com/BurntSushi/toml on a sidecar. *)
Class SyncToml := {
  sync_encode : File -> option string;
  sync_decode : string -> option File
}.

(** parseParams: every element needs a name before its first '='; later ones win. *)
Definition parse_param (m : gmap string any) (kv : string) : res CliErr (gmap string any) :=
  match index_byte kv "=" with
  | Some (S i) => Ok (<[str_take (S i) kv := AStr (str_drop (S (S i)) kv)]> m)
  | _ => Err (BadParam kv)
  end.

Definition parseParams (kvs : list string) : res CliErr (gmap string any) := res_fold parse_param ∅ kvs.

Definition adapterNames (f : File) : string := join ", " (AName <$> Adapters f).

Definition pickAdapter (f : File) (name : string) : res CliErr (Adapter * nat) :=
  if negb (str_empty name) then of_option (NoSuchAdapter name (adapterNames f)) (FindAdapter f name)
  else match Adapters f with
       | [] => Err NoAdapters
       | [a] => Ok (a, 0%nat)
       | _ => Err (ManyAdapters (adapterNames f))
       end.

Section Commands.
Context `{Os, Rand, AEAD, Toml, Argon, NameMapCodec, MapRange, SyncToml}.
Context (builders : Registry).
(** The flags of every command, what the user types, and the agent's reload. *)
Context (configFlag syncFlag : string) (answers : nat -> res SErr string) (pingAgentReload : M CliErr unit).

(** ** Files (syncconfig.Load and Save, loadSidecar, readConfigBytes) *)

Definition LoadFile (path : string) : M CliErr File :=
  b ← mapErr CFs (read_file path);
  f ← lift (of_option (CParse path) (sync_decode b));
  mret (if (FVersion f =? 0)%Z
        then mkFile SidecarVersion (FSalt f) (FArgonTime f) (FArgonMemoryKiB f) (FArgonThreads f) (WrappedDEK f) (Adapters f)
        else f).

Definition encode_file (f : File) (p : string) : M CliErr unit :=
  match sync_encode f with Some s => mapErr CFs (write p s) | None => throw CEncode end.

Definition SaveFile (path : string) (f : File) : M CliErr unit :=
  _ ← mapErr CFs (mkdir_all (GoPath.Dir path));
  WriteFunc CFs path 384 ".jitenv-sync-*.toml" (encode_file f).

Definition not_exist (e : CliErr) : bool := match e with CFs (ENoEnt _) => true | _ => false end.

Definition loadSidecar : M CliErr (string * File) :=
  path ← lift (of_option NoHome (ConfigPath.ResolveSync syncFlag));
  r ← attempt (LoadFile path);
  match r with
  | Ok f => mret (path, f)
  | Err e => throw (if not_exist e then NoSidecar path else e)
  end.

Definition readConfigBytes : M CliErr (string * string) :=
  cfgPath ← lift (of_option NoHome (ConfigPath.Resolve configFlag));
  b ← mapErr CFs (read_file cfgPath);
  mret (cfgPath, b).

(** ** Keys *)

(** The unwrap of the data key is what verifies the passphrase. *)
Definition unlock_sync (f : File) (pw : string) : res CliErr (string * string) :=
  wrap_err CSync (mk ← DeriveMasterKey f pw; dek ← UnwrapDEK f mk; Ok (mk, dek)).

Definition is_wrong_passphrase (e : CliErr) : bool := match e with CSync WrongPassphrase => true | _ => false end.

Definition promptAndUnlockSync (f : File) : res CliErr (string * string) :=
  match Unlock.PromptWithRetry (fun i => wrap_err CStore (answers i)) (unlock_sync f) is_wrong_passphrase 0 with
  | (Ok keys, _, _) => Ok keys
  | (Err (Some e), _, _) => Err e
  | (Err None, _, _) => Ok (EmptyString, EmptyString)
  end.

Definition buildAdapter (masterKey : string) (ad : Adapter) : res CliErr AdapterImpl :=
  match DecryptParams masterKey ad with
  | Err e => Err (DecryptParamsErr (AName ad) e)
  | Ok params => wrap_err CSync (Build builders (AType ad) params)
  end.

(** ** sync init *)

Definition fresh_file (m : Meta) : File :=
  mkFile SidecarVersion (Salt m) (ArgonTime m) (ArgonMemoryKiB m) (ArgonThreads m) EmptyString [].

Definition load_or_create (syncPath adapterName masterKey : string) (m : Meta) : M CliErr File :=
  r ← attempt (LoadFile syncPath);
  match r with
  | Ok existing =>
      match FindAdapter existing adapterName with
      | Some _ => throw (AdapterExists adapterName)
      | None => mret existing
      end
  | Err e =>
      if not_exist e then
        dek ← draw CCrypto NewDEK;
        draw CCrypto (WrapDEK (fresh_file m) masterKey dek)
      else throw e
  end.

Definition add_adapter (f : File) (a : Adapter) : File :=
  mkFile (FVersion f) (FSalt f) (FArgonTime f) (FArgonMemoryKiB f) (FArgonThreads f) (WrappedDEK f) (Adapters f ++ [a]).

Definition runSyncInit (adapterType adapterName : string) (params : list string) : M CliErr (list Line) :=
  if str_empty adapterType then throw TypeRequired
  else if negb (existsb (String.eqb adapterType) (Types builders)) then throw (UnknownType adapterType)
  else
    let name := if str_empty adapterName then adapterType else adapterName in
    paramMap ← lift (parseParams params);
    cfgPath ← lift (of_option NoHome (ConfigPath.Resolve configFlag));
    dataCfg ← mapErr CStore (Load cfgPath);
    if str_empty (Salt (CMeta dataCfg)) then throw (NoMetaHeader cfgPath)
    else
      masterKey ← lift (wrap_err CStore (Unlock.PromptAndDeriveKey answers dataCfg 0));
      syncPath ← lift (of_option NoHome (ConfigPath.ResolveSync syncFlag));
      f ← load_or_create syncPath name masterKey (CMeta dataCfg);
      let adapter := mkAdapter name adapterType paramMap EmptyString in
      built ← lift (wrap_err CSync (Build builders adapterType paramMap));
      _ ← mapErr AdapterValidation (a_validate built);
      adapter ← draw CCrypto (EncryptParams masterKey adapter);
      _ ← SaveFile syncPath (add_adapter f adapter);
      mret [Wrote syncPath name adapterType].

(** ** sync push and pull *)

(** The engine inside a run: the draws of its seal come from the run's. *)
Definition engine_push (a : AdapterImpl) (ad : Adapter) (dek cfgBytes : string) (force : bool) : M CliErr (string * Adapter) :=
  fun w =>
    let '(r, ad', n, w') := @PushConfig _ _ world (impl_remote a) ad dek cfgBytes Version force (draws w) w in
    let w' := mkWorld (fs w') (tick w') n (locks w') (trace w') in
    match r with Ok h => (Ok (h, ad'), w') | Err e => (Err (CSync e), w') end.

Definition engine_pull (a : AdapterImpl) (ad : Adapter) (dek cfgBytes : string) (adopt : bool)
    : M CliErr (res SyErr PullResult * Adapter) :=
  fun w => let '(r, ad', w') := @PullConfig _ world (impl_remote a) ad dek cfgBytes adopt w in (Ok (r, ad'), w').

Definition runSyncPush (adapterName : string) (force : bool) : M CliErr (list Line) :=
  '(syncPath, f) ← loadSidecar;
  '(ad, i) ← lift (pickAdapter f adapterName);
  '(_, cfgBytes) ← readConfigBytes;
  '(masterKey, dek) ← lift (promptAndUnlockSync f);
  adapter ← lift (buildAdapter masterKey ad);
  '(hash, ad') ← engine_push adapter ad dek cfgBytes force;
  _ ← SaveFile syncPath (with_adapter f i ad');
  mret [Pushed (short hash) (AName ad)].

Definition pullPattern : string := "jitenv-pull-*.toml".

(** Validate the pulled bytes from a file beside the configuration, then save what
    was parsed. *)
Definition check_pulled (tmp plaintext : string) : M CliErr Config :=
  _ ← on_err (mapErr CFs (chmod tmp 384)) (ignore (close tmp) : M CliErr unit);
  _ ← on_err (mapErr CFs (write tmp plaintext)) (ignore (close tmp) : M CliErr unit);
  _ ← mapErr CFs (close tmp);
  parsed ← mapErr (fun _ => PulledParse) (Load tmp);
  match ValidateStructure parsed with
  | Some e => throw (PulledInvalid e)
  | None => mret parsed
  end.

(** [defer os.Remove(tmpName)] *)
Definition deferred {A} (m : M CliErr A) (cleanup : M CliErr unit) : M CliErr A := fun w =>
  match m w with (r, w1) => (r, (cleanup w1).2) end.

Definition writePulledConfig (cfgPath plaintext : string) : M CliErr unit :=
  tmp ← mapErr CFs (create_temp (GoPath.Dir cfgPath) pullPattern);
  deferred (parsed ← check_pulled tmp plaintext; mapErr CStore (AtomicSave cfgPath parsed)) (ignore (remove tmp)).

Definition runSyncPull (adapterName : string) (adopt : bool) : M CliErr (list Line) :=
  '(syncPath, f) ← loadSidecar;
  '(ad, i) ← lift (pickAdapter f adapterName);
  '(cfgPath, cfgBytes) ← readConfigBytes;
  '(masterKey, dek) ← lift (promptAndUnlockSync f);
  adapter ← lift (buildAdapter masterKey ad);
  '(r, ad') ← engine_pull adapter ad dek cfgBytes adopt;
  match r with
  | Err (Divergence d l rm b) => throw (LeftUntouched (Divergence d l rm b))
  | Err e => throw (CSync e)
  | Ok res =>
      match PDecision res, Applied res with
      | DecideNoRemote, _ => throw NothingToPull
      | DecidePushNeeded, _ => mret [AheadOfRemote]
      | DecideNoop, _ =>
          _ ← SaveFile syncPath (with_adapter f i ad');
          mret [UpToDate (short (PHash res))]
      | DecideFastForward, applied =>
          _ ← writePulledConfig cfgPath (default EmptyString applied);
          _ ← SaveFile syncPath (with_adapter f i ad');
          _ ← (ignore pingAgentReload : M CliErr unit);
          mret [Applied_ (short (PHash res))]
      | d, _ => throw (CSync (Divergence d "" "" ""))
      end
  end.

(** ** sync status and list *)

Definition status_line (masterKey localHash : string) (ad : Adapter) : M CliErr Line :=
  match buildAdapter masterKey ad with
  | Err _ => mret (AdapterError (AName ad) (AType ad))
  | Ok adapter =>
      r ← attempt (a_pull adapter);
      mret (match r with
            | Err NoRemoteState =>
                State (AName ad) (AType ad) "-" (short (BaseHash ad)) (Decide localHash EmptyString (BaseHash ad) false)
            | Err RemoteIncomplete => Incomplete (AName ad) (AType ad)
            | Err _ => Unreachable (AName ad) (AType ad)
            | Ok (_, rmeta) =>
                State (AName ad) (AType ad) (short (Hash rmeta)) (short (BaseHash ad))
                      (Decide localHash (Hash rmeta) (BaseHash ad) true)
            end)
  end.

Fixpoint status_lines (masterKey localHash : string) (ads : list Adapter) : M CliErr (list Line) :=
  match ads with
  | [] => mret []
  | ad :: ads' => l ← status_line masterKey localHash ad; ls ← status_lines masterKey localHash ads'; mret (l :: ls)
  end.

Definition runSyncStatus : M CliErr (list Line) :=
  '(_, f) ← loadSidecar;
  match Adapters f with
  | [] => mret [NoneConfigured]
  | ads =>
      '(_, cfgBytes) ← readConfigBytes;
      let localHash := HashConfig cfgBytes in
      '(masterKey, _) ← lift (promptAndUnlockSync f);
      ls ← status_lines masterKey localHash ads;
      mret (LocalConfig (short localHash) :: ls)
  end.

Definition runSyncList : M CliErr (list Line) :=
  '(_, f) ← loadSidecar;
  mret (match Adapters f with
        | [] => [NoneConfigured]
        | ads => (fun ad => Configured (AName ad) (AType ad) (short (BaseHash ad))) <$> ads
        end).
End Commands.

(** ** Applying what was pulled *)

Lemma deferred_inv {A} (m : M CliErr A) cleanup w r w' :
  deferred m cleanup w = (r, w') -> exists w1, m w = (r, w1) /\ w' = (cleanup w1).2.
Proof. unfold deferred. destruct (m w) as [r1 w1]. intros [= <- <-]. by exists w1. Qed.

Section Facts.
Context `{Os, Rand, AEAD, Toml, Argon, NameMapCodec, MapRange}.

(** What Load makes of decoded bytes. *)
Definition versioned (c : Config) : Config :=
  if (CVersion c =? 0)%Z
  then mkConfig Version (CMeta c) (CAgent c) (Sources c) (Mappings c) (Secrets c) (IDMap c) else c.

Lemma Load_file path w r w' x m t :
  fs w !! path = Some (NFile x m t) -> Load path w = (r, w') ->
  reads w w' /\ (forall c, r = Ok c -> exists c0, toml_decode x = Some c0 /\ c = versioned c0).
Proof.
  intros Hf Hr. unfold Load in Hr. apply M_bind_inv in Hr as [(b & w1 & Hb & Hr)|(e & Hb & ->)];
    apply mapErr_inv in Hb as (r0 & Hb & Hr0); pose proof (read_file_reads _ _ _ _ Hb) as Hrd; [|by split].
  destruct r0 as [b0|]; [|done]. injection Hr0 as <-. apply (read_file_ok _ _ _ _ _ _ _ Hb) in Hf as ->.
  unfold lift, mbind, M_bind in Hr. destruct (toml_decode x) as [c0|]; cbn in Hr; injection Hr as <- <-; (split; [done|]).
  - intros c [= <-]. by exists c0.
  - done.
Qed.

Lemma check_pulled_spec tmp plaintext f w r w' m t :
  off tmp f (fs w) -> fs w !! tmp = Some (NFile "" m t) -> check_pulled tmp plaintext w = (r, w') ->
  evolves (off tmp f) w w'
  /\ (forall c, r = Ok c -> exists c0, toml_decode plaintext = Some c0 /\ c = versioned c0 /\ ValidateStructure c = None).
Proof.
  intros Ho Hl Hr. unfold check_pulled in Hr.
  assert (Hchmod : forall r1 w1, mapErr CFs (chmod tmp 384) w = (r1, w1) -> evolves (off tmp f) w w1)
    by (intros r1 w1 Hc; by apply (chmod_step CFs _ _ _ _ _ _ _ _ _ Ho Hl Hc)).
  apply M_bind_inv in Hr as [([] & w1 & Hc & Hr)|(e & Hc & ->)]; apply (or_close tmp f) in Hc as [Hev1 Hok1]; try done.
  specialize (Hok1 _ eq_refl). destruct (chmod_step CFs _ _ _ _ _ _ _ _ _ Ho Hl Hok1) as [_ [Ho1 Hl1]].
  assert (Hwrite : forall r1 w2, mapErr CFs (write tmp plaintext) w1 = (r1, w2) -> evolves (off tmp f) w1 w2).
  { intros r1 w2 Hw. eapply evolves_off; [exact Ho1|]. by apply (write_produces CFs plaintext _ _ _ _ _ _ _ Hl1 Hw). }
  apply M_bind_inv in Hr as [([] & w2 & Hc & Hr)|(e & Hc & ->)]; apply (or_close tmp f) in Hc as [Hev2 Hok2]; try done.
  2: { split; [by eapply evolves_trans|done]. }
  specialize (Hok2 _ eq_refl). destruct (write_produces CFs plaintext _ _ _ _ _ _ _ Hl1 Hok2) as (_ & c' & t' & Hl2 & Hc').
  specialize (Hc' eq_refl). simpl in Hc'. subst c'. pose proof (evolves_fs _ _ _ Hev2) as Ho2.
  apply M_bind_inv in Hr as [([] & w3 & Hcl & Hr)|(e & Hcl & ->)]; destruct (close_step CFs tmp f _ _ _ Ho2 Hcl) as [Hev3 Hf3].
  2: { split; [by do 2 (eapply evolves_trans; [done|])|done]. }
  rewrite <- Hf3 in Hl2. pose proof (evolves_fs _ _ _ Hev3) as Ho3.
  apply M_bind_inv in Hr as [(c & w4 & Hld & Hr)|(e & Hld & ->)]; apply mapErr_inv in Hld as (r0 & Hload & Hr0);
    destruct (Load_file _ _ _ _ _ _ _ Hl2 Hload) as [Hrd Hdec]; apply (reads_evolves _ _ _ Ho3) in Hrd.
  2: { split; [by do 3 (eapply evolves_trans; [done|])|done]. }
  destruct r0 as [c0|]; [|done]. injection Hr0 as <-. destruct (Hdec _ eq_refl) as (c1 & Hd1 & Hd2).
  assert (Hev : evolves (off tmp f) w w4) by (by do 3 (eapply evolves_trans; [done|])).
  destruct (ValidateStructure c) as [ve|] eqn:Hv; injection Hr as <- <-; (split; [done|]); [done|].
  intros c2 [= <-]. by exists c1.
Qed.
(** A valid configuration, encoded, that the pulled bytes decode to. *)
Definition applied (plaintext : string) (n : option Fs.node) : Prop :=
  exists c0 data t, toml_decode plaintext = Some c0 /\ ValidateStructure (versioned c0) = None
    /\ toml_encode (versioned c0) = Some data /\ n = Some (NFile data 384 t).

(** C16.  A pull applies a whole valid configuration or nothing.  Whichever calls fail and
    wherever the run is cut, the configuration file is what it was, or the encoding of a
    structurally valid configuration that the pulled bytes decode to; success means the
    second, and bytes that do not parse or validate never reach it. *)
Theorem writePulledConfig_safe cfgPath plaintext w r w' :
  no_meta cfgPath ->
  (forall rnd, temp_name (GoPath.Dir cfgPath) savePattern rnd <> cfgPath) ->
  (forall rnd, temp_name (GoPath.Dir cfgPath) pullPattern rnd <> cfgPath) ->
  writePulledConfig cfgPath plaintext w = (r, w') ->
  evolves (fun g => g !! cfgPath = fs w !! cfgPath \/ applied plaintext (g !! cfgPath)) w w'
  /\ (r = Ok tt -> applied plaintext (fs w' !! cfgPath)).
Proof.
  intros Hm Hn1 Hn2 Hr. unfold writePulledConfig in Hr.
  set (I := fun g : files => g !! cfgPath = fs w !! cfgPath \/ applied plaintext (g !! cfgPath)).
  apply M_bind_inv in Hr as [(tmp & w1 & Hc & Hr)|(e & Hc & ->)]; apply mapErr_inv in Hc as (r0 & Hc & Hr0);
    apply create_temp_loop_inv in Hc as [(n & w0 & -> & Hf0 & Hev0 & Hnone & ->)|(e' & -> & _ & Hev)]; try done.
  2: { split; [|done]. eapply evolves_mono; [|exact Hev]. intros g <-. by left. }
  injection Hr0 as ->. specialize (Hn2 (temp_rand (tick w0) n)). set (tmp := temp_name _ _ _) in *.
  set (f1 := <[tmp := _]> (fs w)) in *. assert (Ho : off tmp (fs w) f1) by (intros q Hq; by apply lookup_insert_ne).
  assert (Hev1 : evolves I w (step w0 f1)).
  { eapply evolves_trans; [eapply evolves_mono; [|exact Hev0]; intros g <-; by left|]. apply evolves_step. left. by apply Ho. }
  apply deferred_inv in Hr as (w2 & Hbody & ->).
  assert (Hmid : evolves I (step w0 f1) w2 /\ (r = Ok tt -> applied plaintext (fs w2 !! cfgPath))).
  { apply M_bind_inv in Hbody as [(c & w3 & Hck & Hsv)|(e & Hck & ->)];
      apply (check_pulled_spec tmp plaintext (fs w)) with (m := 384%Z) (t := clock (tick w0)) in Hck as [Hev3 Hok];
      try done; try apply lookup_insert_eq.
    2: { split; [|done]. eapply evolves_mono; [|exact Hev3]. intros g Hg. left. by apply Hg. }
    destruct (Hok _ eq_refl) as (c0 & Hd & -> & Hv). apply mapErr_inv in Hsv as (r3 & Hsv & ->).
    assert (Hp3 : fs w3 !! cfgPath = fs w !! cfgPath) by (by apply (evolves_fs _ _ _ Hev3)).
    apply AtomicSave_file in Hsv as [Hev4 Hok4]; [|done..].
    assert (Hap : forall n, (exists data t, toml_encode (versioned c0) = Some data /\ n = Some (NFile data 384 t)) ->
      applied plaintext n) by (intros n' (data & t & He & ->); by exists c0, data, t).
    split.
    - eapply evolves_trans; [eapply evolves_mono; [|exact Hev3]; intros g Hg; left; by apply Hg|].
      eapply evolves_mono; [|exact Hev4]. intros g [Hg|[_ Hg]]; [left; by rewrite Hg|right; by apply Hap].
    - intros Hr3. apply Hap, Hok4. by destruct r3 as [[]|]. }
  destruct Hmid as [Hev2 Hok2]. cbn [snd ignore]. destruct (remove tmp w2) as [rr wr] eqn:Hrm. cbn [snd].
  assert (Hev5 : evolves (fun g => g !! cfgPath = fs w2 !! cfgPath) w2 wr).
  { eapply evolves_mono; [|exact (remove_off _ _ _ _ Hrm)]. intros g Hg. by apply Hg. }
  split.
  - eapply evolves_trans; [exact Hev1|]. eapply evolves_trans; [exact Hev2|].
    eapply evolves_mono; [|exact Hev5]. intros g Hg. pose proof (evolves_fs _ _ _ Hev2) as HI. unfold I in *. by rewrite Hg.
  - intros Hr. rewrite (evolves_fs _ _ _ Hev5). by apply Hok2.
Qed.
End Facts.

(** ** A pull that is applied, one that is refused *)

#[local] Existing Instance Toys.toy_toml.
#[local] Existing Instance toy_aead.
#[local] Existing Instance toy_rand.

Definition w_config (sources : gmap string SourceConfig) : Config :=
  mkConfig 1 (mkMeta "argon2id" 3 65536 4 "salt" "verify" "" "") (mkAgentConfig "30m" "" None None) sources [] ∅ None.
Definition w_valid : string := Toys.config_text (w_config ∅).
Definition w_invalid : string := Toys.config_text (w_config {["bad" := mkSource "" ∅]}).
Definition w_start : world := start {["/c/config.toml" := NFile "old" 384 0]}.
Definition w_pull (os : Os) (plaintext : string) : res CliErr unit * world :=
  @writePulledConfig os Toys.toy_toml map_range_default "/c/config.toml" plaintext w_start.

#[local] Existing Instance map_range_default.

Lemma writePulledConfig_safe_witness :
  applied w_valid (fs (w_pull Toys.calm_os w_valid).2 !! "/c/config.toml")
  /\ (w_pull Toys.calm_os w_invalid).1 = Err (PulledInvalid (MissingType "bad"))
  /\ fs (w_pull Toys.calm_os w_invalid).2 = fs w_start.
Proof.
  split; [|split; vm_compute; reflexivity].
  destruct (@writePulledConfig_safe Toys.calm_os Toys.toy_toml map_range_default "/c/config.toml" w_valid w_start _ _ ltac:(vm_compute; reflexivity)
    ltac:(intros rnd; vm_compute; discriminate) ltac:(intros rnd; vm_compute; discriminate) (surjective_pairing _)) as [_ Hok].
  apply Hok. vm_compute. reflexivity.
Defined.
End SyncCli.
