(* ===== verification/Runner.v ===== *)
(** * Running a mapped file (src/internal/run, src/internal/agentwarn, src/internal/runnotice)

    [jitenv run <file>]: ask the agent for the variables of the file, let the user
    decide when it does not answer, and replace the process.  The terminal, the
    agent's answers and the execve are what the outside gives; the inline unlock is
    the one of Unlock. *)

From S2P Require Import Prelude GoString GoPath Fs ConfigModel Crypto NameId Seal Store Shells ConfigPath GoDuration Unlock Shim Toys.
Import Fs Config Crypto NameId Store Shells Shim.

(** ** The countdown (agentwarn.go, reader_unix.go) *)
Module Agentwarn.

Definition ETX : ascii := Ascii.ascii_of_nat 3.

Definition classifyKey (b : ascii) : Action :=
  if bool_decide (b = "u"%char) || bool_decide (b = "U"%char) then ActionUnlock
  else if bool_decide (b = ETX) then ActionAbort
  else ActionContinue.

(** What a select of the countdown receives. *)
Inductive event := Interrupt | Key (b : ascii) | Closed | Tick.

(** A terminal: whether standard input is one, whether raw mode can be had, whether
    standard input can be duplicated and made non-blocking, what the i-th select
    receives, and, for the line prompt, an interrupt ([None]) or the line read with
    whether the read ended in an error. *)
Record terminal := mkTerm {
  stdinIsTTY : bool;
  makeRaw : bool;
  dup : bool;
  select : nat -> event;
  typed_line : option (string * bool)
}.

(** The terminal is raw, with [restoreDone]; the key reader: a goroutine is parked on
    the duplicate, with the two sync.Once. *)
Record tstate := mkT { raw : bool; restoreDone : bool; reading : bool; started : bool; stopped : bool }.

(** The branch a select takes, if it leaves the loop.  No key comes from a reader
    that could not be started. *)
Definition settle (reading : bool) (e : event) : option Action :=
  match e with
  | Interrupt => Some ActionAbort
  | Key b => if reading then Some (classifyKey b) else None
  | Closed => Some ActionContinue
  | Tick => None
  end.

Definition restore (s : tstate) : tstate :=
  if restoreDone s then s else mkT false true (reading s) (started s) (stopped s).

Definition start (dup : bool) (s : tstate) : tstate :=
  if started s then s else mkT (raw s) (restoreDone s) dup true (stopped s).

Definition stop (s : tstate) : tstate :=
  if stopped s then s else mkT (raw s) (restoreDone s) false (started s) true.

Definition finish (act : Action) (s : tstate) : Action * tstate := (act, stop (restore s)).

(** The loop: [left] is the counter, [i] numbers the selects. *)
Fixpoint countdown (t : terminal) (left i : nat) (s : tstate) : Action * tstate :=
  match left with
  | O => finish ActionContinue s
  | S left' =>
      match settle (reading s) (select t i) with
      | Some act => finish act s
      | None => countdown t left' (S i) s
      end
  end.

Definition linePromptFallback (t : terminal) : Action :=
  match typed_line t with
  | None => ActionAbort
  | Some (line, err) =>
      if err && str_empty line then ActionContinue
      else classifyKey (match line with String b _ => b | EmptyString => zero end)
  end.

(** JITENV_HOOK_DELAY *)
Definition hook_delay (v : string) : Z :=
  if str_empty v then 10
  else match atoi v with Some n => if (0 <=? n)%Z then n else 10 | None => 10 end.

(** The terminal is found cooked, with no reader.  The deferred stop and restore run
    after finish. *)
Definition WarnAndWait (delay : string) (t : terminal) : Action * tstate :=
  let total := hook_delay delay in
  let s := mkT false false false false false in
  if negb (stdinIsTTY t) then (ActionContinue, s)
  else if (total =? 0)%Z then (ActionContinue, s)
  else if negb (makeRaw t) then (linePromptFallback t, s)
  else
    let s := start (dup t) (mkT true false false false false) in
    let '(act, s) := countdown t (Z.to_nat total) 0 s in
    (act, restore (stop s)).

Definition open_tty (dup : bool) : tstate := mkT true false dup true false.

Lemma countdown_spec t left i :
  countdown t left i (open_tty (dup t)) =
    (match head (omap (settle (dup t) ∘ select t) (seq i left)) with Some act => act | None => ActionContinue end,
     mkT false true false true true).
Proof.
  revert i. induction left as [|left IH]; intros i; [done|]. cbn [countdown seq omap list_omap head]. unfold compose at 1.
  cbn [reading open_tty]. destruct (settle (dup t) (select t i)); [done|apply IH].
Qed.

(** What settles the countdown: the first event that is not a tick of the clock,
    among as many selects as there are seconds. *)
Definition countdown_outcome (delay : string) (t : terminal) : Action :=
  match head (omap (settle (dup t) ∘ select t) (seq 0 (Z.to_nat (hook_delay delay)))) with Some act => act | None => ActionContinue end.

(** The warning always comes to an answer and leaves the terminal as it found it,
    cooked and with no reader that would swallow the next keystroke.  Off a terminal,
    or with a delay of zero, the command just continues; the countdown takes at most
    one select per second of the delay and the first event that is not a tick
    decides; without raw mode the first byte of the line does. *)
Theorem WarnAndWait_spec delay t :
  (WarnAndWait delay t).1 =
    (if negb (stdinIsTTY t) || (hook_delay delay =? 0)%Z then ActionContinue
     else if makeRaw t then countdown_outcome delay t
     else linePromptFallback t)
  /\ raw (WarnAndWait delay t).2 = false /\ reading (WarnAndWait delay t).2 = false.
Proof.
  unfold WarnAndWait, countdown_outcome. destruct (stdinIsTTY t); [|done]. cbn [negb orb].
  destruct (hook_delay delay =? 0)%Z; [done|]. destruct (makeRaw t); [|done]. cbn [negb]. cbv zeta.
  change (start (dup t) _) with (open_tty (dup t)). by rewrite countdown_spec.
Qed.

Lemma classifyKey_spec b :
  (classifyKey b = ActionUnlock <-> b = "u"%char \/ b = "U"%char) /\ (classifyKey b = ActionAbort <-> b = ETX).
Proof.
  unfold classifyKey. destruct (decide (b = "u"%char)) as [->|H1]; [done || (split; split; auto; done)|].
  destruct (decide (b = "U"%char)) as [->|H2]; [split; split; auto; done|].
  rewrite !bool_decide_false by done. cbn [orb]. case_bool_decide; split; split; naive_solver.
Qed.

(** Nobody unlocks or aborts but a person at the terminal. *)
Lemma WarnAndWait_needs_user delay t :
  (WarnAndWait delay t).1 <> ActionContinue ->
  stdinIsTTY t = true
  /\ ((exists i, select t i = Interrupt \/ exists b, select t i = Key b /\ classifyKey b = (WarnAndWait delay t).1)
      \/ typed_line t = None \/ exists b line err, typed_line t = Some (String b line, err) /\ classifyKey b = (WarnAndWait delay t).1).
Proof.
  destruct (WarnAndWait_spec delay t) as [-> _]. destruct (stdinIsTTY t); [|done]. cbn [negb orb].
  destruct (hook_delay delay =? 0)%Z; [done|]. intros Hne. split; [done|]. destruct (makeRaw t).
  - left. unfold countdown_outcome in *. destruct (head _) as [act|] eqn:Hh; [|done].
    apply head_Some_elem_of in Hh. apply list_elem_of_omap in Hh as (i & _ & Hi). unfold compose in Hi. exists i.
    destruct (select t i) as [|b| |]; simpl in Hi; [by left| |congruence|done]. destruct (dup t); [|done]. right. exists b. split; congruence.
  - right. unfold linePromptFallback in *. destruct (typed_line t) as [[line err]|]; [|by left]. right.
    destruct line as [|b line]; [destruct err; done|]. exists b, line, err. split; [done|]. by rewrite andb_false_r.
Qed.
End Agentwarn.

(** ** The notice (runnotice.go) *)
Module Runnotice.
Section Notice.
Context `{Os, Toml}.

Definition Enabled {E} : M E bool :=
  if negb (str_empty (ConfigPath.env "JITENV_NO_NOTICE")) then mret false
  else if negb (str_empty (ConfigPath.env "CI")) then mret false
  else match ConfigPath.Resolve (ConfigPath.env "JITENV_CONFIG") with
       | None => mret false
       | Some cfgPath =>
           cfg ← attempt (Load cfgPath);
           mret (match cfg with Ok cfg => PreRunNoticeEnabled (CAgent cfg) | Err _ => false end)
       end.

Definition ESC : string := str1 (Ascii.ascii_of_nat 27).
Definition ansiGreen : string := ESC +:+ "[32m".
Definition ansiReset : string := ESC +:+ "[0m".

Definition Write (n : nat) (tty : bool) : string :=
  let noun := if (n =? 1)%nat then "variable" else "variables" in
  let msg := "jitenv: injected " +:+ itoa (N.of_nat n) +:+ " " +:+ noun in
  if tty then ansiGreen +:+ msg +:+ ansiReset +:+ str1 LF else msg +:+ str1 LF.
End Notice.
End Runnotice.

Module Runner.
Import Agentwarn Unlock.

Inductive ExecErr := ENOEXEC | EExec (why : string).

Inductive RErr :=
| RNoCwd
| RStat (e : FErr)
| RPaths (e : AErr)
| RAborted
| RNotExecutable (path : string)
| RExec (path why : string).

(** What is printed on the way. *)
Inductive said :=
| UnlockFailed (e : UErr)
| Migrated (backup : string)
| Unreachable (why : string)
| Injected (text : string).

Record outcome := mkOutcome { image : exec; printed : list said }.

Section Run.
Context `{Rand, AEAD, Toml, Argon, NameMapCodec, MapRange} (o : Os) (pr : proc).
Context (uid : Z) (dir_owner dir_mode : string -> Z).
(** Client.FetchEnv on a socket before and after an unlock, the passphrases typed and
    the start of the background process, the terminal, whether standard error is
    one, and how execve fails, if it does. *)
Context (FetchEnv FetchEnv' : string -> string -> res string (gmap string string)).
Context (answers : nat -> res SErr string) (SpawnDaemon : Paths -> string -> Z -> string -> M UErr unit).
Context (t : terminal) (stderr_tty : bool) (execve : exec -> option ExecErr).

#[local] Instance run_os : Os := proc_os o pr.

Definition subtleCompare (a b : string) : bool :=
  if negb (String.length a =? String.length b)%nat then false
  else (xor_all a b 0 =? 0)%N.

Definition injectionAlreadyApplied : bool :=
  let marker := env_of pr injectedMarker in
  if str_empty marker then false
  else let nonce := env_of pr sessionNonce in
       if str_empty nonce then false else subtleCompare marker nonce.

Definition freshNonce : string :=
  match prand pr with
  | None => "pid-" +:+ format_int (pgetpid pr) +:+ "-fallback"
  | Some b => hex b
  end.

Definition replaceProcess (path : string) (args env : list string) (notice : option nat) : M RErr exec :=
  let argv := path :: args in
  let ex := mkExec path argv env notice in
  match execve ex with
  | None => mret ex
  | Some ENOEXEC => throw (RNotExecutable path)
  | Some (EExec why) => throw (RExec path why)
  end.

Definition fetchAfterUnlock (abs : string) : M RErr (gmap string string * bool * list said) :=
  r ← attempt (Spawn uid dir_owner dir_mode answers SpawnDaemon EmptyString);
  match r with
  | Err e => mret (∅, false, [UnlockFailed e])
  | Ok res =>
      shown ← (if RMigrated res then b ← MigrationBackupPath (pcwd pr) (RCfgPath res); mret [Migrated b] else mret []);
      match FetchEnv' (RSocket res) abs with
      | Err why => mret (∅, false, shown ++ [Unreachable why])
      | Ok extra => mret (extra, true, shown)
      end
  end.

Definition fetchOrWarn (socket abs : string) : M RErr (gmap string string * bool * list said) :=
  st ← attempt (Fs.stat socket);
  match (match st with Ok _ => FetchEnv socket abs | Err _ => Err EmptyString end) with
  | Ok extra => mret (extra, true, [])
  | Err _ =>
      match (WarnAndWait (env_of pr "JITENV_HOOK_DELAY") t).1 with
      | ActionAbort => throw RAborted
      | ActionUnlock => fetchAfterUnlock abs
      | ActionContinue => mret (∅, false, [])
      end
  end.

(** The environment of the command. *)
Definition merged_env (extra : gmap string string) (fetched : bool) : list string :=
  let env := environ (block pr) ++ ((fun kv => binding kv.1 kv.2) <$> map_range 50 extra) in
  if fetched then
    let nonce := env_of pr sessionNonce in
    if str_empty nonce then
      let nonce := freshNonce in (env ++ [binding sessionNonce nonce]) ++ [binding injectedMarker nonce]
    else env ++ [binding injectedMarker nonce]
  else env.

Definition Run (file : string) (args : list string) : M RErr outcome :=
  abs ← lift (of_option RNoCwd (GoPath.Abs (pcwd pr) file));
  _ ← mapErr RStat (Fs.stat abs);
  if injectionAlreadyApplied then
    ex ← replaceProcess abs args (environ (block pr)) None;
    mret (mkOutcome ex [])
  else
    paths ← mapErr RPaths (DefaultPaths uid dir_owner dir_mode);
    fetch ← fetchOrWarn (Socket paths) abs;
    let '(extra, fetched, shown) := fetch in
    let injected := size extra in
    enabled ← (if (0 <? injected)%nat then Runnotice.Enabled else mret false : M RErr bool);
    ex ← replaceProcess abs args (merged_env extra fetched) (if (enabled : bool) then Some injected else None);
    mret (mkOutcome ex (shown ++ (if (enabled : bool) then [Injected (Runnotice.Write injected stderr_tty)] else []))).
End Run.

(** ** What is run *)

Section Spec.
Context `{Rand, AEAD, Toml, Argon, NameMapCodec, MapRange} (o : Os) (pr : proc).
Context (uid : Z) (dir_owner dir_mode : string -> Z).
Context (FetchEnv FetchEnv' : string -> string -> res string (gmap string string)).
Context (answers : nat -> res SErr string) (SpawnDaemon : Paths -> string -> Z -> string -> M UErr unit).
Context (t : terminal) (stderr_tty : bool) (execve : exec -> option ExecErr).
#[local] Instance spec_os : Os := proc_os o pr.

(** The user's decision, when it comes to one. *)
Definition decision : Action := (WarnAndWait (env_of pr "JITENV_HOOK_DELAY") t).1.

(** The marker test and the environment are the shim's. *)
Lemma injectionAlreadyApplied_shim : injectionAlreadyApplied pr = Shim.injectionAlreadyApplied pr.
Proof. done. Qed.

Lemma merged_env_eq extra fetched :
  merged_env pr extra fetched = if fetched then Shim.injected_env pr extra
    else environ (block pr) ++ ((fun kv => binding kv.1 kv.2) <$> map_range 50 extra).
Proof.
  destruct fetched; [|done]. unfold merged_env, Shim.injected_env. cbv zeta.
  destruct (str_empty (env_of pr sessionNonce)); [|done]. by rewrite <- (assoc_L (++)).
Qed.

(** A fetch answers for the file, or the user decided. *)
Definition answered (socket abs : string) (extra : gmap string string) : Prop :=
  FetchEnv socket abs = Ok extra \/ decision = ActionUnlock /\ exists socket', FetchEnv' socket' abs = Ok extra.

(** Looking for the backup to name never fails. *)
Lemma newest_total {E} l best w e w' : @newest _ E l best w <> (Err e, w').
Proof.
  revert best w. induction l as [|p l IH]; intros best w; [done|]. cbn [newest].
  intros [(st & w1 & _ & Hr)|(e' & Hr & _)]%M_bind_inv.
  - destruct st as [n|]; [|by eapply IH]. revert Hr. repeat case_match; apply IH.
  - unfold attempt in Hr. by destruct (Fs.stat p w).
Qed.

Lemma migrated_total cwd path w e w' :
  (b ← MigrationBackupPath cwd path; mret [Migrated b] : M RErr (list said)) w <> (Err e, w').
Proof.
  intros [(b & w1 & _ & Hr)|(e' & Hr & _)]%M_bind_inv; [done|]. unfold MigrationBackupPath in Hr.
  apply M_bind_inv in Hr as [(l & w1 & _ & Hr)|(e1 & Hr & _)].
  - apply M_bind_inv in Hr as [(b & w2 & _ & Hr)|(e2 & Hr & _)]; [done|]. revert Hr. apply newest_total.
  - unfold listMigrationBackups in Hr. destruct (glob _ w) as [[?|?] ?]; done.
Qed.

Lemma fetchAfterUnlock_inv abs w r w' :
  fetchAfterUnlock o pr uid dir_owner dir_mode FetchEnv' answers SpawnDaemon abs w = (r, w') ->
  exists extra fetched shown, r = Ok (extra, fetched, shown)
    /\ (if fetched : bool then exists socket', FetchEnv' socket' abs = Ok extra else extra = ∅).
Proof.
  assert (Hs : forall res sh w1 r w', (match FetchEnv' (RSocket res) abs with
      | Err why => mret (∅, false, sh ++ [Unreachable why])
      | Ok extra => mret (extra, true, sh)
      end : M RErr (gmap string string * bool * list said)) w1 = (r, w') ->
    exists extra fetched shown, r = Ok (extra, fetched, shown)
      /\ (if fetched : bool then exists socket', FetchEnv' socket' abs = Ok extra else extra = ∅)).
  { clear. intros res sh w1 r w'. destruct (FetchEnv' (RSocket res) abs) as [extra|why] eqn:He; intros [= <- _].
    - exists extra, true, sh. split; [done|]. by eexists.
    - by exists ∅, false, (sh ++ [Unreachable why]). }
  unfold fetchAfterUnlock. intros [([res|e] & w1 & _ & Hr)|(e & Hr & _)]%M_bind_inv.
  - apply M_bind_inv in Hr as [(sh & w2 & _ & Hr)|(e & Hr & _)]; [by eapply Hs|].
    destruct (RMigrated res); [|done]. exfalso. revert Hr. apply migrated_total.
  - injection Hr as <- _. by exists ∅, false, [UnlockFailed e].
  - unfold attempt in Hr. by destruct (Spawn _ _ _ _ _ _ w).
Qed.
Lemma fetchOrWarn_inv socket abs w r w' :
  fetchOrWarn o pr uid dir_owner dir_mode FetchEnv FetchEnv' answers SpawnDaemon t socket abs w = (r, w') ->
  r = Err RAborted /\ decision = ActionAbort
  \/ exists extra fetched shown, r = Ok (extra, fetched, shown)
       /\ (if fetched : bool then answered socket abs extra else extra = ∅ /\ decision <> ActionAbort).
Proof.
  unfold fetchOrWarn, answered, decision. intros [(st & w1 & _ & Hr)|(e & Hr & _)]%M_bind_inv.
  - destruct (match st with Ok _ => FetchEnv socket abs | Err _ => Err EmptyString end) as [extra|why] eqn:Ha.
    + injection Hr as <- _. right. exists extra, true, []. split; [done|]. left. by destruct st.
    + destruct (WarnAndWait _ t).1 eqn:Hd.
      * injection Hr as <- _. right. by exists ∅, false, [].
      * injection Hr as <- _. by left.
      * right. apply fetchAfterUnlock_inv in Hr as (extra & fetched & shown & -> & Hf). exists extra, fetched, shown.
        split; [done|]. destruct fetched; [by right|done].
  - unfold attempt in Hr. by destruct (Fs.stat socket w).
Qed.

Lemma replaceProcess_inv path args env n w r w' :
  replaceProcess execve path args env n w = (r, w') ->
  let ex := mkExec path (path :: args) env n in
  r = match execve ex with
      | None => Ok ex
      | Some ENOEXEC => Err (RNotExecutable path)
      | Some (EExec why) => Err (RExec path why)
      end.
Proof. unfold replaceProcess. cbv zeta. destruct (execve _) as [[|why]|]; by intros [= <- _]. Qed.

(** The process image a run asks for. *)
Definition asks (abs : string) (args : list string) (ex : exec) : Prop :=
  epath ex = abs /\ eargv ex = abs :: args
  /\ if injectionAlreadyApplied pr then eenv ex = environ (block pr) /\ enotice ex = None
     else exists extra,
       answered (Socket (ResolvePaths uid)) abs extra /\ eenv ex = Shim.injected_env pr extra
         /\ (enotice ex = None \/ extra <> ∅ /\ enotice ex = Some (size extra))
       \/ decision <> ActionAbort /\ eenv ex = environ (block pr) /\ enotice ex = None.

Lemma map_range_empty site : map_range site (∅ : gmap string string) = [].
Proof. apply Permutation_nil_r. rewrite map_range_perm. by rewrite map_to_list_empty. Qed.

Lemma DefaultPaths_ok w p w' :
  mapErr RPaths (DefaultPaths uid dir_owner dir_mode) w = (Ok p, w') -> p = ResolvePaths uid.
Proof.
  unfold mapErr. destruct (DefaultPaths uid dir_owner dir_mode w) as [[q|e] w1] eqn:Hd; [|done]. intros [= -> _].
  unfold DefaultPaths in Hd. apply M_bind_inv in Hd as [(? & w2 & _ & Hd)|(? & _ & [=])].
  apply M_bind_inv in Hd as [(? & w3 & _ & Hd)|(? & _ & [=])]. by injection Hd as ->.
Qed.

Lemma enabled_total w e w' : (Runnotice.Enabled : M RErr bool) w <> (Err e, w').
Proof.
  unfold Runnotice.Enabled. repeat (case_match; [done|]). case_match; [|done].
  intros [(b & w1 & _ & Hr)|(e' & Hr & _)]%M_bind_inv; [done|]. unfold attempt in Hr. by destruct (Load _ w).
Qed.

End Spec.

(** What jitenv run injected, no process further down the chain injects again, run
    or wrapper: both recognise the marker. *)
Lemma run_marks_chain `{MapRange} pr extra pr2 :
  names_ok extra -> extra !! injectedMarker = None -> extra !! sessionNonce = None ->
  lookup_env (block pr) injectedMarker = None -> lookup_env (block pr) sessionNonce <> Some "" -> prand pr <> Some "" ->
  block pr2 = merged_env pr extra true ->
  injectionAlreadyApplied pr2 = true /\ Shim.injectionAlreadyApplied pr2 = true.
Proof.
  intros Hok Hm Hn Hbm Hbn Hr Hb. rewrite merged_env_eq in Hb. rewrite injectionAlreadyApplied_shim.
  by split; apply (injected_marks pr extra).
Qed.

(** ** deploy.sh, with the agent locked *)

#[local] Existing Instance toy_aead.
#[local] Existing Instance toy_rand.
#[local] Existing Instance Toys.toy_toml.
#[local] Existing Instance Toys.toy_argon.
#[local] Existing Instance Toys.toy_codec.

Definition ex_env : list string := ["XDG_RUNTIME_DIR=/run"; "JITENV_CONFIG=/h/config.toml"; "JITENV_HOOK_DELAY=5"; "HOME=/h"].
Definition ex_pr : proc := mkProc None ex_env 12 40 (Some 40%Z) (Some "/w") (Some "0123456789abcdef").

(** A configuration made by init, a script, and no agent socket. *)
Definition ex_world : world :=
  (@InitNew Toys.calm_os toy_rand toy_aead Toys.toy_toml Toys.toy_argon "/h/config.toml" "pw"
    (Fs.start {["/h" := NDir; "/run/jitenv" := NDir; "/w/deploy.sh" := NFile "" 493 0]})).2.

(** The key comes in the third second. *)
Definition ex_term (key : ascii) : terminal :=
  mkTerm true true true (fun i => if (i =? 2)%nat then Key key else Tick) None.

Definition ex_fetch (_ path : string) : res string (gmap string string) :=
  if String.eqb path "/w/deploy.sh" then Ok {["DB" := "hunter2"]} else Ok ∅.

#[local] Existing Instance map_range_default.

Definition ex_run (typed : string) (key : ascii) : res RErr outcome * world :=
  Run Toys.calm_os ex_pr 1000 (fun _ => 1000%Z) (fun _ => 448%Z) (fun _ _ => Err "down") ex_fetch
    (fun i => Ok (if (i =? 1)%nat then typed else "wrong")) (fun _ _ _ _ => mret tt)
    (ex_term key) false (fun _ => None) "deploy.sh" ["--now"] ex_world.

(** The user unlocks at the second attempt: the script gets its variable. *)
Example unlocks_and_injects :
  match (ex_run "pw" "u").1 with
  | Ok out => lookup_env (eenv (image out)) "DB" = Some "hunter2" /\ eargv (image out) = ["/w/deploy.sh"; "--now"]
      /\ printed out = [Injected ("jitenv: injected 1 variable" +:+ str1 LF)]
  | Err _ => False
  end.
Proof. vm_compute. done. Qed.

(** Three wrong passphrases: it runs without. *)
Example wrong_passphrase_runs :
  match (ex_run "pv" "U").1 with
  | Ok out => eenv (image out) = ex_env /\ printed out = [UnlockFailed (UStore SIncorrectPassphrase)]
  | Err _ => False
  end.
Proof. vm_compute. done. Qed.

(** Ctrl+C: it does not run.  Any other key: it runs at once. *)
Example interrupted : (ex_run "pw" ETX).1 = Err RAborted.
Proof. vm_compute. done. Qed.

End Runner.
