(* ===== verification/Hook.v ===== *)
(** * Rendering the shell hook (src/internal/shell/render.go)

    The snippet with the program's paths in it, quoted for the shell that will read
    it.  The embedded snippets and the executable's own path are parameters. *)

From S2P Require Import Prelude GoString GoPath Fs ConfigPath Shells.
Import Fs.

Module Hook.

(** ** Quoting (render.go) *)

Definition SQUOTE : ascii := "'"%char.

(** strings.ReplaceAll of a byte *)
Fixpoint replace_byte (c : ascii) (by_ s : string) : string :=
  match s with
  | EmptyString => EmptyString
  | String d s' => if Ascii.eqb d c then by_ +:+ replace_byte c by_ s' else String d (replace_byte c by_ s')
  end.

Definition shellQuote (s : string) : string := "'" +:+ replace_byte SQUOTE "'\''" s +:+ "'".
Definition pwshQuote (s : string) : string := "'" +:+ replace_byte SQUOTE "''" s +:+ "'".

(** How sh reads one word of quoted text, escapes and nothing else. *)
Fixpoint sh_word (quoted : bool) (s : string) : option string :=
  match s with
  | EmptyString => if quoted then None else Some EmptyString
  | String c s' =>
      if quoted then if Ascii.eqb c SQUOTE then sh_word false s' else String c <$> sh_word true s'
      else if Ascii.eqb c SQUOTE then sh_word true s'
      else if Ascii.eqb c BSLASH then match s' with String d s'' => String d <$> sh_word false s'' | EmptyString => None end
      else None
  end.

(** PowerShell takes four more characters for a single quote. *)
Definition curly : list string :=
  [utf8 [226; 128; 152]; utf8 [226; 128; 153]; utf8 [226; 128; 154]; utf8 [226; 128; 155]]%nat.

Definition starts_curly (s : string) : bool := existsb (has_prefix s) curly.

(** How it reads the rest of a single-quoted literal: a quote is doubled or ends it. *)
Fixpoint pwsh_rest (s : string) : option string :=
  match s with
  | EmptyString => None
  | String c s' =>
      if Ascii.eqb c SQUOTE then
        match s' with
        | EmptyString => Some EmptyString
        | String d s'' => if Ascii.eqb d SQUOTE then String SQUOTE <$> pwsh_rest s'' else None
        end
      else if starts_curly s then None
      else String c <$> pwsh_rest s'
  end.

Definition pwsh_word (s : string) : option string :=
  match s with String c s' => if Ascii.eqb c SQUOTE then pwsh_rest s' else None | EmptyString => None end.

(** strings.NewReplacer(...).Replace: one pass, the first pair that applies;
    [skip] bytes of a replaced text are left. *)
Fixpoint replacer (pairs : list (string * string)) (skip : nat) (s : string) : string :=
  match s with
  | EmptyString => EmptyString
  | String c s' =>
      match skip with
      | S n => replacer pairs n s'
      | O =>
          match List.find (fun ov => has_prefix s ov.1) pairs with
          | Some ov => ov.2 +:+ replacer pairs (pred (String.length ov.1)) s'
          | None => String c (replacer pairs 0 s')
          end
      end
  end.

Inductive HErr :=
| HUnsupported (shell : string)
| HNoHome
| HFs (e : FErr).

Section Render.
Context `{Os} (uid : Z).
Context (Bash Zsh PowerShell : string) (Executable : option string).

Definition hookBin : M HErr string :=
  match Executable with
  | None => mret "jitenv"
  | Some self =>
      let cand := GoPath.Join [GoPath.Dir self; "jitenv-hook"] in
      st ← attempt (stat cand);
      mret (match st with Ok NDir => "jitenv" | Ok _ => cand | Err _ => "jitenv" end)
  end.

Definition template (shell : string) : option (string * (string -> string)) :=
  if String.eqb shell "bash" then Some (Bash, shellQuote)
  else if String.eqb shell "zsh" then Some (Zsh, shellQuote)
  else if String.eqb shell "powershell" || String.eqb shell "pwsh" then Some (PowerShell, pwshQuote)
  else None.

Definition Render (shell : string) : M HErr string :=
  tq ← lift (of_option (HUnsupported shell) (template shell));
  let '(tmpl, quote) := tq in
  let paths := Shells.ResolvePaths uid in
  cfgPath ← lift (of_option HNoHome ConfigPath.DefaultPath);
  bin ← hookBin;
  mret (replacer [("{{RuntimeDir}}", quote (Shells.PDir paths)); ("{{ConfigPath}}", quote cfgPath);
                  ("{{HookBin}}", quote bin)] 0 tmpl).
End Render.

(** ** What the quoting is for *)

Lemma sh_word_quote s rest :
  sh_word true (replace_byte SQUOTE "'\''" s +:+ String SQUOTE rest) = (fun t => s +:+ t) <$> sh_word false rest.
Proof.
  induction s as [|c s IH]; [simpl; by destruct (sh_word false rest)|]. cbn [replace_byte].
  destruct (Ascii.eqb_spec c SQUOTE) as [->|Hc].
  - rewrite <- str_app_assoc. change (sh_word true ("'\''" +:+ ?t)) with (String SQUOTE <$> sh_word true t). rewrite IH.
    by destruct (sh_word false rest).
  - rewrite str_app_cons. cbn [sh_word]. apply Ascii.eqb_neq in Hc. rewrite Hc, IH. by destruct (sh_word false rest).
Qed.

Lemma shellQuote_word s : sh_word false (shellQuote s) = Some s.
Proof.
  pose proof (sh_word_quote s EmptyString) as Hq. cbn [sh_word fmap option_fmap option_map] in Hq. rewrite str_app_nil_r in Hq.
  exact Hq.
Qed.

(** No typographic quote anywhere. *)
Fixpoint no_curly (s : string) : bool :=
  match s with EmptyString => true | String _ s' => negb (starts_curly s) && no_curly s' end.

Lemma has_prefix_replaced s rest p :
  contains_byte p SQUOTE = false ->
  has_prefix (replace_byte SQUOTE "''" s +:+ String SQUOTE rest) p = true -> has_prefix s p = true.
Proof.
  revert s. induction p as [|d p IH]; intros s Hp Hs; [by destruct s|]. unfold contains_byte in Hp. cbn [exists_byte] in Hp.
  apply orb_false_iff in Hp as [Hd Hp]. destruct s as [|c s].
  - cbn [replace_byte] in Hs. rewrite str_app_nil_l in Hs. cbn [has_prefix] in Hs. by rewrite Ascii.eqb_sym, Hd in Hs.
  - cbn [replace_byte] in Hs. destruct (Ascii.eqb_spec c SQUOTE) as [->|Hc].
    + change (has_prefix (String SQUOTE (String SQUOTE (replace_byte SQUOTE "''" s +:+ String SQUOTE rest))) (String d p) = true) in Hs.
      cbn [has_prefix] in Hs. by rewrite Ascii.eqb_sym, Hd in Hs.
    + rewrite str_app_cons in Hs. cbn [has_prefix] in *. destruct (Ascii.eqb d c); [by apply IH|done].
Qed.

Lemma starts_curly_replaced s rest :
  starts_curly s = false -> starts_curly (replace_byte SQUOTE "''" s +:+ String SQUOTE rest) = false.
Proof.
  unfold starts_curly. rewrite <- !not_true_iff_false, !existsb_exists. intros Hn (p & Hin & Hp). apply Hn. exists p.
  split; [done|]. eapply has_prefix_replaced; [|exact Hp]. unfold curly in Hin. simpl in Hin.
  destruct Hin as [<-|[<-|[<-|[<-|[]]]]]; done.
Qed.

Lemma pwshQuote_word s : no_curly s = true -> pwsh_word (pwshQuote s) = Some s.
Proof.
  intros Hs. change (pwsh_rest (replace_byte SQUOTE "''" s +:+ String SQUOTE EmptyString) = Some s).
  induction s as [|c s IH]; [done|]. cbn [no_curly] in Hs. apply andb_true_iff in Hs as [Hc%negb_true_iff Hs].
  pose proof (starts_curly_replaced _ EmptyString Hc) as Hst. cbn [replace_byte] in *.
  destruct (Ascii.eqb_spec c SQUOTE) as [->|Hne].
  - rewrite <- str_app_assoc. change (pwsh_rest ("''" +:+ ?t)) with (String SQUOTE <$> pwsh_rest t). by rewrite IH.
  - rewrite str_app_cons in *. cbn [pwsh_rest]. apply Ascii.eqb_neq in Hne. rewrite Hne, Hst. by rewrite IH.
Qed.

(** A directory such as O’Brien ends the literal in the snippet. *)
Example pwsh_curly_breaks : pwsh_word (pwshQuote ("C:\O" +:+ utf8 [226; 128; 153]%nat +:+ "Brien")) = None.
Proof. reflexivity. Qed.

(** ** Filling a template *)

(** A template as its author wrote it: text, and markers. *)
Inductive piece := Text (s : string) | Marker (m : string).

Definition piece_text (p : piece) : string := match p with Text s => s | Marker m => m end.
Definition unpieces (l : list piece) : string := fold_right (fun p acc => piece_text p +:+ acc) EmptyString l.

Section Fill.
Context (pairs : list (string * string)).

Definition applies (s : string) : option (string * string) := List.find (fun ov => has_prefix s ov.1) pairs.

(** No marker begins inside [s]. *)
Fixpoint free (s rest : string) : bool :=
  match s with
  | EmptyString => true
  | String _ s' => match applies (s +:+ rest) with None => free s' rest | Some _ => false end
  end.

Fixpoint well_cut (l : list piece) : bool :=
  match l with
  | [] => true
  | Text s :: l' => free s (unpieces l') && well_cut l'
  | Marker m :: l' =>
      negb (str_empty m) && match applies (m +:+ unpieces l') with Some ov => String.eqb ov.1 m | None => false end && well_cut l'
  end.

Definition value (m : string) : string := match List.find (fun ov => String.eqb ov.1 m) pairs with Some ov => ov.2 | None => m end.

Definition fill (l : list piece) : string :=
  fold_right (fun p acc => match p with Text s => s | Marker m => value m end +:+ acc) EmptyString l.

Lemma replacer_skip s rest n : n = String.length s -> replacer pairs n (s +:+ rest) = replacer pairs 0 rest.
Proof.
  intros ->. induction s as [|c s IH]; [done|]. rewrite str_app_cons. exact IH.
Qed.

Lemma applies_value m rest ov : applies (m +:+ rest) = Some ov -> ov.1 = m -> ov.2 = value m.
Proof.
  unfold applies, value. induction pairs as [|[o v] ps IH]; [done|]. simpl. intros Hf Hm.
  destruct (String.eqb_spec o m) as [->|Hne].
  - rewrite has_prefix_app in Hf. by injection Hf as <-.
  - destruct (has_prefix (m +:+ rest) o); [injection Hf as <-; by simpl in Hm|]. by apply IH.
Qed.

(** The one pass replaces the markers and nothing else: not what a value holds. *)
Lemma replacer_fill l : well_cut l = true -> replacer pairs 0 (unpieces l) = fill l.
Proof.
  induction l as [|[s|m] l IH]; [done|..]; cbn [well_cut unpieces fold_right piece_text fill]; intros Hw.
  - apply andb_true_iff in Hw as [Hf Hw]. specialize (IH Hw). fold (unpieces l). fold (fill l). revert Hf.
    induction s as [|c s IHs]; [by rewrite !str_app_nil_l|]. rewrite !str_app_cons. cbn [free].
    change (String c s +:+ unpieces l) with (String c (s +:+ unpieces l)). unfold applies.
    cbn [replacer]. destruct (List.find _ pairs); [done|]. intros Hf. by rewrite IHs.
  - apply andb_true_iff in Hw as [[Hm Ha]%andb_true_iff Hw]. specialize (IH Hw). fold (unpieces l) in *. fold (fill l).
    destruct (applies (m +:+ unpieces l)) as [ov|] eqn:Hov; [|done]. apply String.eqb_eq in Ha.
    pose proof (applies_value _ _ _ Hov Ha) as Hval. destruct m as [|c m]; [done|].
    rewrite str_app_cons in *. cbn [replacer]. unfold applies in Hov. rewrite Hov, Hval, Ha. f_equal.
    cbn [String.length pred]. by rewrite replacer_skip.
Qed.
End Fill.

(** ** The snippet *)

Section Snippet.
Context `{Os} (uid : Z) (Bash Zsh PowerShell : string) (Executable : option string).

(** What the shell's parser makes of a quoted value. *)
Definition reads_back (shell v : string) : Prop :=
  if String.eqb shell "bash" || String.eqb shell "zsh" then sh_word false (shellQuote v) = Some v
  else no_curly v = true -> pwsh_word (pwshQuote v) = Some v.

(**  The snippet says what the program means.  For every shell and every cut of its
    template into text and markers, the snippet is the text with each marker
    replaced by one quoted word, whatever the paths contain; and the shell's own
    reading of that word is exactly the runtime directory, the configuration path
    or the hook binary, spaces, quotes and metacharacters included (PowerShell's
    typographic quotes excepted). *)
Theorem Render_spec shell w out w' :
  Render uid Bash Zsh PowerShell Executable shell w = (Ok out, w') ->
  exists tmpl quote cfg bin,
    template Bash Zsh PowerShell shell = Some (tmpl, quote) /\ ConfigPath.DefaultPath = Some cfg
    /\ (bin = "jitenv" \/ exists self, Executable = Some self /\ bin = GoPath.Join [GoPath.Dir self; "jitenv-hook"])
    /\ (let pairs := [("{{RuntimeDir}}", quote (Shells.PDir (Shells.ResolvePaths uid))); ("{{ConfigPath}}", quote cfg);
                      ("{{HookBin}}", quote bin)] in
        forall l, unpieces l = tmpl -> well_cut pairs l = true -> out = fill pairs l)
    /\ (forall v, reads_back shell v).
Proof.
  unfold Render. intros [([tmpl quote] & w1 & Ht & Hr)|(? & _ & [=])]%M_bind_inv.
  apply M_bind_inv in Hr as [(cfg & w2 & Hc & Hr)|(? & _ & [=])].
  apply M_bind_inv in Hr as [(bin & w3 & Hb & Hr)|(? & _ & [=])]. injection Hr as <- _.
  exists tmpl, quote, cfg, bin.
  split; [by destruct (template _ _ _ shell); [injection Ht as -> _|]|].
  split; [by destruct ConfigPath.DefaultPath; [injection Hc as -> _|]|]. split.
  - unfold hookBin in Hb. destruct Executable as [self|]; [|injection Hb as <- _; by left].
    apply M_bind_inv in Hb as [(st & w4 & _ & Hb)|(? & _ & [=])]. injection Hb as <- _.
    destruct st as [[]|]; first [by left|right; by exists self].
  - split; [intros l <- Hl; exact (replacer_fill _ l Hl)|]. intros v. unfold reads_back.
    destruct (String.eqb shell "bash" || String.eqb shell "zsh"); [apply shellQuote_word|apply pwshQuote_word].
Qed.
End Snippet.

Definition ex_env : Os := ConfigPath.os_env [("HOME", "/home/o'neil {{HookBin}}"); ("XDG_RUNTIME_DIR", "/run/u 1")].
Definition ex_bash : list piece :=
  [Text "x=${y}"; Marker "{{ConfigPath}}"; Text ";"; Marker "{{RuntimeDir}}"; Marker "{{HookBin}}"; Text "
"].

Lemma Render_spec_witness :
  (@Render ex_env 1000 (unpieces ex_bash) "" "" (Some "/usr/bin/jitenv") "bash" (start ∅)).1
    = Ok ("x=${y}'/home/o'\''neil {{HookBin}}/.config/jitenv/config.toml';'/run/u 1/jitenv''jitenv'" +:+ str1 LF)
  /\ sh_word false (shellQuote "/home/o'neil") = Some "/home/o'neil".
Proof.
  destruct (@Render ex_env 1000 (unpieces ex_bash) "" "" (Some "/usr/bin/jitenv") "bash" (start ∅)) as [r w'] eqn:Hr.
  assert (Hok : r = Ok (match r with Ok out => out | Err _ => EmptyString end)) by (change r with (r, w').1; rewrite <- Hr; vm_compute; reflexivity).
  rewrite Hok in Hr. pose proof (@Render_spec ex_env 1000 _ _ _ _ _ _ _ _ Hr) as (tmpl & quote & cfg & bin & Ht & _ & _ & _ & Hq).
  split; [|exact (Hq "/home/o'neil")]. change r with (r, w').1. rewrite Hok, <- Hr. vm_compute. reflexivity.
Defined.
End Hook.
