(* ===== verification/HookInstall.v ===== *)
(** * Startup files (src/internal/shell/install.go, parent_linux.go, profile_unix.go)

    Which shell is calling, and the lines that make its startup files load the hook:
    the activation line, and for bash a line in the login file.  The answer of pwsh
    about its profile is a parameter. *)

From S2P Require Import Prelude GoString GoPath Fs ConfigPath Toys Hook.
Import Fs Hook.

Module HookInstall.

Record Status := mkStatus {
  Shell : string;
  SRcPath : string;
  Line : string;
  Installed : bool;
  SLoginPath : string;
  LoginSources : bool;
  Unsupported : string;
  Source : string
}.

Record InstallReport := mkReport {
  RRcPath : string;
  RcAdded : bool;
  LoginPath : string;
  LoginAdded : bool;
  LoginAlreadyOK : bool
}.

Definition SupportedShells : list string := ["bash"; "zsh"; "powershell"].

(** The shells known to be unsupported. *)
Definition other_shells : list string := ["fish"; "dash"; "ksh"; "tcsh"; "ash"; "sh"; "nu"; "xonsh"; "yash"; "elvish"].

Definition HookLine (shell : string) : string :=
  if String.eqb shell "powershell" || String.eqb shell "pwsh" then "Invoke-Expression (& jitenv hook powershell | Out-String)"
  else "eval " +:+ str1 DQUOTE +:+ "$(jitenv hook " +:+ shell +:+ ")" +:+ str1 DQUOTE.

Definition ActivateCommand (shell : string) : string := HookLine shell.

(** A line of the text is [line], blanks at its ends aside. *)
Definition has_line (text line : string) : bool :=
  existsb (fun ln => String.eqb (trim_space ln) (trim_space line)) (split_byte LF text).

Definition rc_block (line : string) : string :=
  str1 LF +:+ "# jitenv: route execution of mapped files through the agent" +:+ str1 LF +:+ line +:+ str1 LF.

Section Install.
Context `{Os} (ppid : Z) (queryPwshProfilePath : string).

Definition parentProcessName : M HErr string :=
  b ← attempt (read_file ("/proc/" +:+ format_int ppid +:+ "/comm"));
  mret (match b with Ok b => trim_space b | Err _ => EmptyString end).

(** What $SHELL says *)
Definition login_shell : string * string * string :=
  let sh := ConfigPath.env "SHELL" in
  if str_empty sh then (EmptyString, EmptyString, EmptyString)
  else
    let base := GoPath.Base sh in
    if String.eqb base "bash" then ("bash", base, sh)
    else if String.eqb base "zsh" then ("zsh", base, sh)
    else (EmptyString, base, sh).

Definition DetectShellDetailed : M HErr (string * string * string) :=
  pp ← parentProcessName;
  let base := GoPath.Base pp in
  if str_empty pp then mret login_shell
  else if String.eqb base "bash" then mret ("bash", base, "ppid comm=" +:+ base)
  else if String.eqb base "zsh" then mret ("zsh", base, "ppid comm=" +:+ base)
  else if bool_decide (base ∈ other_shells) then mret (EmptyString, base, "ppid comm=" +:+ base)
  else mret login_shell.

Definition DetectShell : M HErr string := d ← DetectShellDetailed; mret d.1.1.

Definition pwshProfilePath (home : string) : string :=
  if negb (str_empty queryPwshProfilePath) then queryPwshProfilePath
  else GoPath.Join [home; ".config"; "powershell"; "Microsoft.PowerShell_profile.ps1"].

Definition RcPath (shell : string) : string :=
  match ConfigPath.UserHomeDir with
  | None => EmptyString
  | Some home =>
      if String.eqb shell "bash" then GoPath.Join [home; ".bashrc"]
      else if String.eqb shell "zsh" then GoPath.Join [home; ".zshrc"]
      else if String.eqb shell "powershell" || String.eqb shell "pwsh" then pwshProfilePath home
      else EmptyString
  end.

Definition IsInstalled (rcPath line : string) : M HErr bool :=
  b ← attempt (read_file rcPath);
  match b with
  | Err (ENoEnt _) => mret false
  | Err e => throw (HFs e)
  | Ok b => mret (has_line b line)
  end.

(** os.OpenFile with O_WRONLY, and O_CREATE when [create]: the path written to. *)
Definition open_write (create : bool) (p : string) (mode : Z) : M FErr string := fun w =>
  syscall (fun f => q ← follow link_depth f p;
                    match f !! q with
                    | Some (NFile _ _ _) => Ok (q, f)
                    | Some _ => Err (EIsDir p)
                    | None => if create then Ok (q, <[q := NFile EmptyString mode (clock (tick w))]> f) else Err (ENoEnt p)
                    end) w.

(** A write at offset 0 of a file that was not truncated. *)
Definition overwrite (p data : string) (t : Z) (f : files) : files :=
  match f !! p with
  | Some (NFile c m _) => <[p := NFile (data +:+ str_drop (String.length data) c) m t]> f
  | _ => f
  end.

Definition write0 (p data : string) : M FErr unit := fun w =>
  let t := clock (tick w) in
  if fails (tick w)
  then (Err (EFault (tick w)), step w (overwrite p (str_take (partial (tick w)) data) t (fs w)))
  else (Ok tt, step w (overwrite p data t (fs w))).

(** O_APPEND, WriteString, the deferred Close *)
Definition append_file (create : bool) (p data : string) : M HErr unit :=
  q ← mapErr HFs (open_write create p 420);
  r ← attempt (write q data);
  _ ← (ignore (close q) : M HErr unit);
  lift (wrap_err HFs r).

Definition create_file (p data : string) : M HErr unit :=
  q ← mapErr HFs (open_write true p 420);
  r ← attempt (write0 q data);
  _ ← (ignore (close q) : M HErr unit);
  lift (wrap_err HFs r).

Definition Install (rcPath line : string) : M HErr bool :=
  already ← IsInstalled rcPath line;
  if (already : bool) then mret false
  else
    _ ← mapErr HFs (mkdir_all (GoPath.Dir rcPath));
    _ ← append_file true rcPath (rc_block line);
    mret true.

Definition home_or_empty : string := default EmptyString ConfigPath.UserHomeDir.

Definition loginFileSourcesBashrc (text : string) : bool :=
  let bashrc := GoPath.Join [home_or_empty; ".bashrc"] in
  existsb (contains_str text)
    ["source ~/.bashrc"; ". ~/.bashrc"; "source $HOME/.bashrc"; ". $HOME/.bashrc"; "source " +:+ bashrc; ". " +:+ bashrc;
     "source " +:+ shellQuote bashrc; ". " +:+ shellQuote bashrc].

Definition loginSourcingBlock (target : string) : string :=
  let bashrc := shellQuote (GoPath.Join [home_or_empty; ".bashrc"]) in
  if String.eqb (GoPath.Base target) ".profile" then
    str1 LF +:+ "# jitenv: ensure bash login shells load ~/.bashrc (sh-safe)" +:+ str1 LF
      +:+ "[ -n " +:+ str1 DQUOTE +:+ "$BASH_VERSION" +:+ str1 DQUOTE +:+ " ] && [ -f " +:+ bashrc +:+ " ] && . " +:+ bashrc +:+ str1 LF
  else
    str1 LF +:+ "# jitenv: ensure bash login shells load ~/.bashrc" +:+ str1 LF
      +:+ "[ -f " +:+ bashrc +:+ " ] && . " +:+ bashrc +:+ str1 LF.

Definition bashLoginCandidates : list string :=
  match ConfigPath.UserHomeDir with
  | None => []
  | Some home => [GoPath.Join [home; ".bash_profile"]; GoPath.Join [home; ".bash_login"]; GoPath.Join [home; ".profile"]]
  end.

Fixpoint inspect_logins (l : list string) : M HErr (string * bool) :=
  match l with
  | [] => mret (EmptyString, false)
  | p :: l' =>
      st ← attempt (stat p);
      match st with
      | Err _ => inspect_logins l'
      | Ok _ =>
          b ← attempt (read_file p);
          match b with Err _ => mret (p, false) | Ok b => mret (p, loginFileSourcesBashrc b) end
      end
  end.

Definition inspectBashLogin : M HErr (string * bool) := inspect_logins bashLoginCandidates.

(** The first login file there is: whether it was changed, its path, whether it
    already was fine. *)
Fixpoint ensure_logins (l : list string) : M HErr (option (bool * string * bool)) :=
  match l with
  | [] => mret None
  | p :: l' =>
      st ← attempt (stat p);
      match st with
      | Err _ => ensure_logins l'
      | Ok _ =>
          b ← mapErr HFs (read_file p);
          if loginFileSourcesBashrc b then mret (Some (false, p, true))
          else _ ← append_file false p (loginSourcingBlock p); mret (Some (true, p, false))
      end
  end.

Definition ensureBashLoginSourcesBashrc : M HErr (bool * string * bool) :=
  found ← ensure_logins bashLoginCandidates;
  match found with
  | Some r => mret r
  | None =>
      match bashLoginCandidates with
      | [] => mret (false, EmptyString, false)
      | target :: _ =>
          _ ← mapErr HFs (mkdir_all (GoPath.Dir target));
          _ ← create_file target (trim_prefix (loginSourcingBlock target) (str1 LF));
          mret (true, target, false)
      end
  end.

Definition InstallShell (shellName : string) : M HErr InstallReport :=
  let rc := RcPath shellName in
  if str_empty rc then throw (HUnsupported shellName)
  else
    let line := HookLine shellName in
    added ← Install rc line;
    if String.eqb shellName "bash" then
      r ← ensureBashLoginSourcesBashrc;
      let '(loginAdded, loginPath, loginOK) := r in
      mret (mkReport rc added loginPath loginAdded loginOK)
    else mret (mkReport rc added EmptyString false false).

Definition CurrentStatus : M HErr Status :=
  d ← DetectShellDetailed;
  let '(canonical, raw, source) := d in
  if str_empty canonical then mret (mkStatus EmptyString EmptyString EmptyString false EmptyString false raw source)
  else
    let rc := RcPath canonical in
    let line := HookLine canonical in
    installed ← IsInstalled rc line;
    login ← (if String.eqb canonical "bash" then inspectBashLogin else mret (EmptyString, true) : M HErr (string * bool));
    mret (mkStatus canonical rc line installed login.1 login.2 EmptyString EmptyString).
End Install.

(** ** Lines and texts *)

Lemma split_byte_sep c s t : split_byte c (s +:+ String c t) = split_byte c s ++ split_byte c t.
Proof.
  induction s as [|d s IH].
  - exact (split_byte_app c EmptyString t eq_refl).
  - rewrite str_app_cons. destruct (Ascii.eqb d c) eqn:Hd; [simpl; by rewrite Hd, IH|].
    destruct (split_byte_cons_ne c d s Hd) as (h & r & Hs & ->).
    destruct (split_byte_cons_ne c d (s +:+ String c t) Hd) as (h' & r' & Hs' & ->).
    rewrite IH, Hs in Hs'. injection Hs' as -> <-. done.
Qed.

(** What is appended starts a new line. *)
Definition new_lines (u : string) : Prop := u = EmptyString \/ exists v, u = String LF v.

Lemma new_lines_app u v : new_lines u -> new_lines v -> new_lines (u +:+ v).
Proof. intros [->|[u' ->]] Hv; [done|]. right. by eexists. Qed.

Lemma has_line_app t u line : new_lines u -> has_line t line = true -> has_line (t +:+ u) line = true.
Proof.
  intros [->|[v ->]]; [by rewrite str_app_nil_r|]. unfold has_line. rewrite split_byte_sep, existsb_app. intros ->. done.
Qed.

Lemma has_line_block t line : contains_byte line LF = false -> has_line (t +:+ rc_block line) line = true.
Proof.
  intros Hl. unfold has_line.
  change (rc_block line) with (String LF ("# jitenv: route execution of mapped files through the agent" +:+ String LF (line +:+ String LF EmptyString))).
  rewrite split_byte_sep, existsb_app, split_byte_sep, existsb_app, split_byte_sep, existsb_app, (split_byte_none LF line) by done.
  cbn [existsb]. rewrite String.eqb_refl. by rewrite !orb_true_r.
Qed.

Lemma contains_str_cons c s p : contains_str (String c s) p = has_prefix (String c s) p || contains_str s p.
Proof. unfold contains_str. cbn [index_str]. destruct (has_prefix _ p); [done|]. by destruct (index_str s p). Qed.

Lemma contains_str_prefix s p : has_prefix s p = true -> contains_str s p = true.
Proof. intros Hp. unfold contains_str. destruct s; cbn [index_str]; by rewrite Hp. Qed.

Lemma contains_str_more s u p : contains_str s p = true -> contains_str (s +:+ u) p = true.
Proof.
  induction s as [|c s IH].
  - unfold contains_str at 1. cbn [index_str]. destruct p; [|done]. intros _. apply contains_str_prefix. by destruct u.
  - rewrite str_app_cons, !contains_str_cons. intros [Hp|Hs]%orb_true_iff; [|by rewrite IH, orb_true_r].
    apply has_prefix_spec in Hp as [t Ht]. rewrite <- str_app_cons, Ht, <- str_app_assoc. by rewrite has_prefix_app.
Qed.

(** ** Files that only grow *)

(** The text a path leads to. *)
Definition text_at (f : files) (p c : string) : Prop :=
  exists q m t, follow link_depth f p = Ok q /\ f !! q = Some (NFile c m t).

(** There is something at the path, through its links. *)
Definition exists_at (f : files) (p : string) : Prop :=
  exists q n, follow link_depth f p = Ok q /\ f !! q = Some n.

(** Every file keeps its text, with at most new lines behind it; directories and
    links stay, and no link is new. *)
Definition grows (f g : files) : Prop :=
  (forall p c m t, f !! p = Some (NFile c m t) -> exists u t', new_lines u /\ g !! p = Some (NFile (c +:+ u) m t'))
  /\ (forall p, f !! p = Some NDir -> g !! p = Some NDir)
  /\ (forall p t, f !! p = Some (NLink t) <-> g !! p = Some (NLink t)).

#[export] Instance grows_preorder : PreOrder grows.
Proof.
  split.
  - intros f. split; [|done]. intros p c m t Hp. exists EmptyString, t. split; [by left|]. by rewrite str_app_nil_r.
  - intros f g h (H1 & H2 & H3) (G1 & G2 & G3). split; [|split; [auto|intros p t; by rewrite H3]].
    intros p c m t (u & t1 & Hu & (v & t2 & Hv & Hp)%G1)%H1. exists (u +:+ v), t2. split; [by apply new_lines_app|].
    by rewrite str_app_assoc.
Qed.

Lemma follow_links n f g p :
  (forall p t, f !! p = Some (NLink t) <-> g !! p = Some (NLink t)) -> follow n f p = follow n g p.
Proof.
  intros Hl. revert p. induction n as [|n IH]; intros p; [done|]. cbn [follow].
  destruct (f !! p) as [[]|] eqn:Hf, (g !! p) as [[]|] eqn:Hg; try done;
    try (apply Hl in Hg; congruence); try (apply Hl in Hf; congruence).
  apply Hl in Hf. rewrite Hf in Hg. injection Hg as ->. apply IH.
Qed.

Lemma grows_follow f g p : grows f g -> follow link_depth f p = follow link_depth g p.
Proof. intros (_ & _ & Hl). by apply follow_links. Qed.

Lemma text_grows f g p c : grows f g -> text_at f p c -> exists u, new_lines u /\ text_at g p (c +:+ u).
Proof.
  intros Hg (q & m & t & Hq & Hc). rewrite (grows_follow _ _ _ Hg) in Hq. destruct Hg as (Hg & _).
  apply Hg in Hc as (u & t' & Hu & Hc). exists u. split; [done|]. by exists q, m, t'.
Qed.

Lemma exists_grows f g p : grows f g -> exists_at f p -> exists_at g p.
Proof.
  intros Hg (q & n & Hq & Hn). rewrite (grows_follow _ _ _ Hg) in Hq. exists q. destruct Hg as (H1 & H2 & H3).
  destruct n as [c m t|t|].
  - apply H1 in Hn as (u & t' & _ & Hn). by exists (NFile (c +:+ u) m t').
  - apply H3 in Hn. by exists (NLink t).
  - apply H2 in Hn. by exists NDir.
Qed.

Lemma text_exists f p c : text_at f p c -> exists_at f p.
Proof. intros (q & m & t & Hq & Hc). by exists q, (NFile c m t). Qed.

Lemma grows_append f q data t : new_lines data -> grows f (append q data t f).
Proof.
  intros Hd. unfold append. destruct (f !! q) as [[c m t0| |]|] eqn:Hq; try reflexivity. split; [|split].
  - intros p c' m' t' Hp. destruct (decide (p = q)) as [->|Hne].
    + rewrite Hq in Hp. injection Hp as <- <- <-. exists data, t. by rewrite lookup_insert_eq.
    + exists EmptyString, t'. rewrite lookup_insert_ne, str_app_nil_r by done. split; [by left|done].
  - intros p Hp. rewrite lookup_insert_ne; [done|]. intros ->. congruence.
  - intros p t'. destruct (decide (p = q)) as [->|Hne]; [rewrite lookup_insert_eq, Hq; by split|by rewrite lookup_insert_ne].
Qed.

(** A new file or directory. *)
Lemma grows_new f q n : f !! q = None -> (forall t, n <> NLink t) -> grows f (<[q := n]> f).
Proof.
  intros Hq Hn. split; [|split].
  - intros p c m t Hp. exists EmptyString, t. split; [by left|]. rewrite lookup_insert_ne by congruence. by rewrite str_app_nil_r.
  - intros p Hp. by rewrite lookup_insert_ne by congruence.
  - intros p t. destruct (decide (p = q)) as [->|Hne]; [|by rewrite lookup_insert_ne].
    rewrite lookup_insert_eq, Hq. split; [done|]. intros [= ->]. by destruct (Hn t).
Qed.

Section Calls.
Context `{Os}.

Lemma mkdir_grows p w r w' : mkdir_all p w = (r, w') -> grows (fs w) (fs w').
Proof.
  intros [(e & _ & -> & _)|(a & f & _ & -> & Ha & _)]%syscall_inv; [reflexivity|]. cbv zeta in Ha. cbn [fs step].
  destruct (existsb _ _) in Ha; [done|]. injection Ha as _ <-. clear.
  generalize (ancestors (String.length p) p). intros ds. generalize (fs w). clear.
  induction ds as [|d ds IH]; intros f; [reflexivity|]. cbn [fold_left].
  destruct (f !! d) eqn:Hd; [apply IH|]. etransitivity; [|apply IH]. by apply grows_new.
Qed.

(** It makes no text. *)
Lemma mkdir_text p w r w' q c : mkdir_all p w = (r, w') -> text_at (fs w') q c -> text_at (fs w) q c.
Proof.
  intros Hm (x & m & t & Hx & Hc). pose proof (mkdir_grows _ _ _ _ Hm) as Hg. exists x, m, t.
  split; [by rewrite (grows_follow _ _ _ Hg)|].
  apply syscall_inv in Hm as [(e & _ & -> & _)|(a & f & _ & -> & Ha & _)]; [done|]. cbv zeta in Ha. cbn [fs step] in Hc.
  destruct (existsb _ _) in Ha; [done|]. injection Ha as _ <-. rewrite mkdir_fold_lookup in Hc.
  destruct (fs w !! x) as [n|]; [done|]. by case_bool_decide.
Qed.

Lemma open_write_spec create p mode w r w' :
  open_write create p mode w = (r, w') ->
  grows (fs w) (fs w') /\ forall q, r = Ok q -> follow link_depth (fs w) p = Ok q /\
    exists c m t, fs w' !! q = Some (NFile c m t)
      /\ (fs w !! q = Some (NFile c m t) /\ fs w' = fs w \/ fs w !! q = None /\ create = true /\ c = EmptyString).
Proof.
  intros [(e & -> & -> & _)|(a & f & -> & -> & Ha & _)]%syscall_inv; [split; [reflexivity|done]|]. cbn [fs step].
  destruct (follow link_depth (fs w) p) as [q|]; [|done]. cbn [mbind res_bind] in Ha.
  destruct (fs w !! q) as [[c m t| |]|] eqn:Hq; try done.
  - injection Ha as <- <-. split; [reflexivity|]. intros q' [= <-]. split; [done|]. exists c, m, t. split; [done|]. by left.
  - destruct create; [|done]. injection Ha as <- <-. split; [by apply grows_new|]. intros q' [= <-]. split; [done|].
    eexists _, _, _. split; [by rewrite lookup_insert_eq|]. by right.
Qed.

Lemma close_reads q w r w' : close q w = (r, w') -> fs w' = fs w.
Proof. intros [(e & _ & -> & _)|(a & f & _ & -> & Ha & _)]%syscall_inv; [done|]. by injection Ha as _ <-. Qed.

Lemma new_lines_take n u : new_lines u -> new_lines (str_take n u).
Proof. intros [->|[v ->]]; [left; by destruct n|]. destruct n; [by left|]. right. by eexists. Qed.

Lemma write_grows q data w r w' :
  new_lines data -> write q data w = (r, w') ->
  grows (fs w) (fs w') /\ (r = Ok tt -> fs w' = append q data (clock (tick w)) (fs w)).
Proof.
  intros Hd. unfold write. destruct (fails (tick w)); intros [= <- <-]; cbn [fs step]; (split; [|done]);
    apply grows_append; [by apply new_lines_take|done].
Qed.

Lemma text_at_inj f p c1 c2 : text_at f p c1 -> text_at f p c2 -> c1 = c2.
Proof. intros (q & m & t & Hq & Hc) (q' & m' & t' & Hq' & Hc'). congruence. Qed.

Lemma append_at f q c m t0 data t : f !! q = Some (NFile c m t0) -> append q data t f !! q = Some (NFile (c +:+ data) m t).
Proof. intros Hq. unfold append. by rewrite Hq, lookup_insert_eq. Qed.

(** What appending to a path leaves, and that without O_CREATE nothing new appears. *)
Lemma append_file_spec create p data w r w' :
  new_lines data -> append_file create p data w = (r, w') ->
  grows (fs w) (fs w')
  /\ (create = false -> forall q, is_Some (fs w' !! q) -> is_Some (fs w !! q))
  /\ (r = Ok tt -> exists c, text_at (fs w') p (c +:+ data) /\ forall c0, text_at (fs w) p c0 -> c = c0).
Proof.
  intros Hd. unfold append_file. intros [(q & w1 & Ho & Hr)|(e & Ho & ->)]%M_bind_inv; unfold mapErr in Ho;
    destruct (open_write create p 420 w) as [r0 w0] eqn:How; injection Ho as Hr0 ->; pose proof How as Hdom;
    apply open_write_spec in How as [Hg Hq].
  2: { split; [done|]. split; [|done]. intros -> q Hs. destruct r0; [done|].
       apply syscall_inv in Hdom as [(? & _ & -> & _)|(a & f & [=] & _)]. done. }
  destruct r0 as [q0|]; [|done]. injection Hr0 as ->. destruct (Hq q eq_refl) as (Hf & c & m & t & Hc & Hold). clear Hq.
  apply M_bind_inv in Hr as [(wr & w2 & Hw & Hr)|(e & Hw & _)]; unfold attempt in Hw;
    destruct (write q data w1) as [r1 w2'] eqn:Hwr; [|done]. injection Hw as <- ->.
  apply M_bind_inv in Hr as [(u & w3 & Hi & Hr)|(e & Hi & _)]; [|done]. unfold ignore in Hi.
  destruct (close q w2) as [rc w4] eqn:Hcl. injection Hi as _ <-. apply close_reads in Hcl. injection Hr as <- <-.
  pose proof (write_grows _ _ _ _ _ Hd Hwr) as [Hg2 Hok]. cbn [snd]. rewrite Hcl. split; [by transitivity (fs w1)|]. split.
  - intros Hcr p' Hs. destruct Hold as [[_ Heq]|(_ & Htrue & _)]; [|congruence]. rewrite <- Heq.
    unfold write in Hwr. revert Hs. destruct (fails (tick w1)); injection Hwr as _ <-; cbn [fs step]; unfold append; rewrite Hc;
      (destruct (decide (p' = q)) as [->|Hne]; [by rewrite Hc|by rewrite lookup_insert_ne]).
  - intros Hr1. destruct r1 as [[]|e]; [|done]. rewrite (Hok eq_refl) in *. exists c. split.
    + exists q, m, (clock (tick w1)). split; [by rewrite <- (grows_follow (fs w)) by by transitivity (fs w1)|]. by eapply append_at.
    + intros c0 (q' & m' & t' & Hq' & Hc'). rewrite Hf in Hq'. injection Hq' as <-.
      destruct Hold as [[Hw0 _]|(Hnone & _)]; congruence.
Qed.

Lemma rc_block_new line : new_lines (rc_block line).
Proof. right. by eexists. Qed.

(** Installing a line, whatever fails. *)
Lemma Install_spec rc line w r w' :
  contains_byte line LF = false -> Install rc line w = (r, w') ->
  grows (fs w) (fs w')
  /\ (forall added, r = Ok added ->
        exists c, text_at (fs w') rc c /\ has_line c line = true
          /\ if added : bool then exists c0, c = c0 +:+ rc_block line /\ forall c1, text_at (fs w) rc c1 -> c0 = c1
             else fs w' = fs w).
Proof.
  intros Hl. unfold Install. intros Hr.
  assert (Hin : forall b w1, IsInstalled rc line w = (b, w1) -> fs w1 = fs w /\ (b = Ok true -> exists c, text_at (fs w) rc c /\ has_line c line = true)).
  { clear. intros b w1. unfold IsInstalled. intros [(d & w2 & Hd & Hb)|(e & Hd & _)]%M_bind_inv; unfold attempt in Hd;
      destruct (read_file rc w) as [r0 w0] eqn:Hrf; [|done]. injection Hd as <- ->.
    apply syscall_inv in Hrf as [(e & -> & -> & _)|(a & f & -> & -> & Ha & _)].
    - by destruct e; injection Hb as <- <-.
    - injection Hb as <- <-. destruct (follow link_depth (fs w) rc) as [q|] eqn:Hq; [|done]. cbn [mbind res_bind] in Ha.
      destruct (fs w !! q) as [[c m t| |]|] eqn:Hc; try done. injection Ha as <- <-. split; [done|]. intros [= Hh].
      exists c. split; [|done]. by exists q, m, t. }
  apply M_bind_inv in Hr as [(b & w1 & Hb & Hr)|(e & Hb & ->)]; apply Hin in Hb as [Hfs Hb]; [|by rewrite Hfs].
  destruct b.
  - injection Hr as <- <-. rewrite Hfs. split; [reflexivity|]. intros a [= <-]. destruct (Hb eq_refl) as (c & Hc & Hh). by exists c.
  - clear Hb. apply M_bind_inv in Hr as [(u & w2 & Hm & Hr)|(e & Hm & ->)]; unfold mapErr in Hm;
      destruct (mkdir_all (GoPath.Dir rc) w1) as [r0 w0] eqn:Hmk; injection Hm as _ ->;
      pose proof (evolves_fs _ _ _ (mkdir_all_adds _ _ _ _ Hmk)) as Hadds; apply mkdir_grows in Hmk; rewrite Hfs in *;
      [|by split].
    apply M_bind_inv in Hr as [(u' & w3 & Ha & Hr)|(e & Ha & ->)]; apply append_file_spec in Ha as (Hg & _ & Hok);
      try apply rc_block_new; (split; [|intros a Heq]); try (by transitivity (fs w2)); [injection Hr as _ <-; by transitivity (fs w2)| |done].
    injection Hr as <- <-. injection Heq as <-. destruct u'. destruct (Hok eq_refl) as (c & Hc & Hc0). eexists. split; [exact Hc|].
    split; [by apply has_line_block|]. exists c. split; [done|]. intros c1 (q & m & t & Hq & Hc1). apply Hc0. exists q, m, t.
    split; [by rewrite <- (grows_follow _ _ _ Hmk)|]. by apply Hadds.
Qed.

(** ** The login file of bash *)

Lemma login_block_sources text p : loginFileSourcesBashrc (text +:+ loginSourcingBlock p) = true.
Proof.
  unfold loginFileSourcesBashrc, loginSourcingBlock. cbn [existsb]. set (b := shellQuote _).
  assert (Hc : forall pre, contains_str (text +:+ pre +:+ (". " +:+ b) +:+ str1 LF) (". " +:+ b) = true).
  { intros pre. rewrite str_app_assoc. apply contains_str_app. }
  destruct (String.eqb (GoPath.Base p) ".profile");
    (match goal with |- context [contains_str (text +:+ ?blk) (". " +:+ b)] =>
       assert (Hb : contains_str (text +:+ blk) (". " +:+ b) = true) end;
     [|rewrite Hb; by rewrite !orb_true_r]).
  - specialize (Hc (str1 LF +:+ "# jitenv: ensure bash login shells load ~/.bashrc (sh-safe)" +:+ str1 LF
      +:+ "[ -n " +:+ str1 DQUOTE +:+ "$BASH_VERSION" +:+ str1 DQUOTE +:+ " ] && [ -f " +:+ b +:+ " ] && ")).
    rewrite <- !str_app_assoc in Hc. exact Hc.
  - specialize (Hc (str1 LF +:+ "# jitenv: ensure bash login shells load ~/.bashrc" +:+ str1 LF +:+ "[ -f " +:+ b +:+ " ] && ")).
    rewrite <- !str_app_assoc in Hc. exact Hc.
Qed.

Lemma sources_more t u : loginFileSourcesBashrc t = true -> loginFileSourcesBashrc (t +:+ u) = true.
Proof.
  unfold loginFileSourcesBashrc. rewrite !existsb_exists. intros (x & Hx & Hc). exists x. split; [done|].
  by apply contains_str_more.
Qed.

Lemma login_block_new p : new_lines (loginSourcingBlock p).
Proof. unfold loginSourcingBlock. right. destruct (String.eqb (GoPath.Base p) ".profile"); by eexists. Qed.

(** The new file's text is the block without its first line break. *)
Lemma login_file_sources p : loginFileSourcesBashrc (trim_prefix (loginSourcingBlock p) (str1 LF)) = true.
Proof.
  destruct (login_block_new p) as [Hb|[v Hv]].
  { exfalso. revert Hb. unfold loginSourcingBlock. by destruct (String.eqb (GoPath.Base p) ".profile"). }
  pose proof (login_block_sources EmptyString p) as Hs. rewrite str_app_nil_l, Hv in Hs. rewrite Hv.
  change (String LF v) with (str1 LF +:+ v). rewrite trim_prefix_app. unfold loginFileSourcesBashrc in *.
  rewrite existsb_exists in *. destruct Hs as (x & Hx & Hc). exists x. split; [done|].
  rewrite contains_str_cons in Hc. apply orb_true_iff in Hc as [Hc|Hc]; [|done].
  exfalso. simpl in Hx. destruct Hx as [<-|[<-|[<-|[<-|[<-|[<-|[<-|[<-|[]]]]]]]]]; by simpl in Hc.
Qed.

(** ** Without failing calls *)

Section Calm.
Hypothesis calm : forall t, fails t = false.

Lemma stat_calm p w : exists r, stat p w = (r, step w (fs w))
  /\ (exists_at (fs w) p <-> match r with Ok _ => True | Err _ => False end).
Proof.
  unfold stat, syscall. rewrite calm. unfold exists_at. destruct (follow link_depth (fs w) p) as [q|e] eqn:Hq; cbn [mbind res_bind].
  - destruct (fs w !! q) as [n|] eqn:Hn; cbn [of_option mbind res_bind]; eexists; (split; [done|]); split; try done.
    + intros _. by exists q, n.
    + intros (q' & n & [= <-] & Hn'). congruence.
  - eexists. split; [done|]. split; [|done]. by intros (q & n & [=] & _).
Qed.

Lemma read_calm p c w : text_at (fs w) p c -> read_file p w = (Ok c, step w (fs w)).
Proof. intros (q & m & t & Hq & Hc). unfold read_file, syscall. rewrite calm, Hq. cbn [mbind res_bind]. by rewrite Hc. Qed.

Lemma read_file_at p w r w' : read_file p w = (r, w') -> fs w' = fs w /\ forall c, r = Ok c -> text_at (fs w) p c.
Proof.
  intros [(e & -> & -> & _)|(a & f & -> & -> & Ha & _)]%syscall_inv; [done|]. cbn [fs step].
  destruct (follow link_depth (fs w) p) as [q|] eqn:Hq; [|done]. cbn [mbind res_bind] in Ha.
  destruct (fs w !! q) as [[c m t| |]|] eqn:Hc; try done. injection Ha as <- <-. split; [done|]. intros c' [= <-]. by exists q, m, t.
Qed.

Lemma ensure_logins_spec l w r w' :
  ensure_logins l w = (r, w') ->
  grows (fs w) (fs w')
  /\ match r with
     | Ok None => fs w' = fs w /\ Forall (fun p => ~ exists_at (fs w) p) l
     | Ok (Some (added, p, ok)) =>
         exists pre post, l = pre ++ p :: post /\ Forall (fun q => ~ exists_at (fs w') q) pre
           /\ (exists c, text_at (fs w') p c /\ loginFileSourcesBashrc c = true)
           /\ if added : bool then ok = false else ok = true /\ fs w' = fs w
     | Err _ => True
     end.
Proof.
  revert w r w'. induction l as [|p l IH]; intros w r w'; cbn [ensure_logins].
  { intros [= <- <-]. split; [reflexivity|]. by split. }
  intros [(st & w1 & Hs & Hr)|(e & Hs & _)]%M_bind_inv; unfold attempt in Hs;
    destruct (stat_calm p w) as (r0 & Hst & Hex); rewrite Hst in Hs; [|done]. injection Hs as -> <-.
  destruct st as [n|e].
  - apply M_bind_inv in Hr as [(b & w2 & Hb & Hr)|(e & Hb & ->)]; unfold mapErr in Hb;
      destruct (read_file p _) as [rb w2'] eqn:Hrf; injection Hb as Hrb ->; apply read_file_at in Hrf as [Hfs Hb];
      cbn [fs step] in Hfs, Hb; [|by rewrite Hfs].
    destruct rb as [b'|]; [|done]. injection Hrb as ->. specialize (Hb b eq_refl).
    destruct (loginFileSourcesBashrc b) eqn:Hsrc.
    + injection Hr as <- <-. rewrite Hfs. split; [reflexivity|]. exists [], l. split; [done|]. split; [done|].
      split; [|done]. by exists b.
    + apply M_bind_inv in Hr as [(u & w3 & Ha & Hr)|(e & Ha & ->)]; apply append_file_spec in Ha as (Hg & _ & Hok);
        try apply login_block_new; rewrite Hfs in *; [|done].
      injection Hr as <- <-. split; [done|]. exists [], l. split; [done|]. split; [done|]. split; [|done].
      destruct u. destruct (Hok eq_refl) as (c & Hc & _). eexists. split; [exact Hc|]. apply login_block_sources.
  - assert (Hdom : forall x y, ensure_logins l x = (y, w') -> forall q, is_Some (fs w' !! q) -> is_Some (fs x !! q)).
    { clear - calm. induction l as [|p l IH]; intros x y; cbn [ensure_logins]; [by intros [= <- <-]|].
      intros [(st & w1 & Hs & Hr)|(e & Hs & _)]%M_bind_inv; unfold attempt in Hs;
        destruct (stat_calm p x) as (r0 & Hst & _); rewrite Hst in Hs; [|done]. injection Hs as -> <-.
      destruct st as [n|e]; [|exact (IH _ _ Hr)].
      apply M_bind_inv in Hr as [(b & w2 & Hb & Hr)|(e & Hb & ->)]; unfold mapErr in Hb;
        destruct (read_file p _) as [rb w2'] eqn:Hrf; injection Hb as _ ->; apply read_file_at in Hrf as [Hfs _];
        cbn [fs step] in Hfs; [|by rewrite Hfs].
      destruct (loginFileSourcesBashrc b); [injection Hr as _ <-; by rewrite Hfs|].
      apply M_bind_inv in Hr as [(u & w3 & Ha & Hr)|(e & Ha & ->)]; apply append_file_spec in Ha as (_ & Hd & _);
        try apply login_block_new; rewrite Hfs in *; [injection Hr as _ <-|]; by apply Hd. }
    pose proof (Hdom _ _ Hr) as Hd. apply IH in Hr as [Hg Hr]. cbn [fs step] in *. split; [done|].
    assert (Hp : ~ exists_at (fs w) p) by tauto.
    destruct r as [[[[added p'] ok]|]|]; [|by destruct Hr; split; [|constructor]|done].
    destruct Hr as (pre & post & -> & Hpre & Hc & Ha). exists (p :: pre), post. split; [done|]. split; [|by split].
    constructor; [|done]. intros (q & m & Hq & Hm). apply Hp. rewrite <- (grows_follow _ _ _ Hg) in Hq.
    destruct (Hd q) as [m' Hm']; [by eexists|]. by exists q, m'.
Qed.

Lemma ensure_again pre p post c w :
  Forall (fun q => ~ exists_at (fs w) q) pre -> text_at (fs w) p c -> loginFileSourcesBashrc c = true ->
  exists w', ensure_logins (pre ++ p :: post) w = (Ok (Some (false, p, true)), w') /\ fs w' = fs w.
Proof.
  revert w. induction pre as [|q pre IH]; intros w Hpre Hc Hsrc; cbn [app ensure_logins].
  - unfold mbind at 1, M_bind, attempt. destruct (stat_calm p w) as (r0 & -> & Hex). destruct r0 as [n|].
    + unfold mbind, M_bind, mapErr. rewrite (read_calm p c) by done. cbn [wrap_err]. rewrite Hsrc. by eexists.
    + destruct Hex as [Hex _]. destruct Hex. by eapply text_exists.
  - inversion Hpre; subst. unfold mbind at 1, M_bind, attempt. destruct (stat_calm q w) as (r0 & -> & Hex).
    destruct r0 as [n|]; [tauto|]. exact (IH (step w (fs w)) H3 Hc Hsrc).
Qed.

Lemma create_file_spec p data w r w' :
  (forall c, ~ text_at (fs w) p c) -> create_file p data w = (r, w') ->
  grows (fs w) (fs w') /\ (r = Ok tt -> text_at (fs w') p data).
Proof.
  intros Hne. unfold create_file. intros [(q & w1 & Ho & Hr)|(e & Ho & ->)]%M_bind_inv; unfold mapErr in Ho;
    destruct (open_write true p 420 w) as [r0 w0] eqn:How; injection Ho as Hr0 ->; apply open_write_spec in How as [Hg Hq];
    [|by split].
  destruct r0 as [q0|]; [|done]. injection Hr0 as ->. destruct (Hq q eq_refl) as (Hf & c & m & t & Hc & Hold). clear Hq.
  destruct Hold as [[Hold _]|(Hnone & _ & ->)]; [destruct (Hne c); by exists q, m, t|].
  apply M_bind_inv in Hr as [(wr & w2 & Hw & Hr)|(e & Hw & _)]; unfold attempt in Hw;
    destruct (write0 q data w1) as [r1 w2'] eqn:Hwr; [|done]. injection Hw as <- ->.
  unfold write0 in Hwr. rewrite calm in Hwr. injection Hwr as <- <-.
  apply M_bind_inv in Hr as [(u & w3 & Hi & Hr)|(e & Hi & _)]; [|done]. unfold ignore in Hi.
  destruct (close q _) as [rc w4] eqn:Hcl. injection Hi as _ <-. apply close_reads in Hcl. injection Hr as <- <-.
  cbn [snd fs step] in *. rewrite Hcl. unfold overwrite. rewrite Hc. cbn [String.length str_drop].
  assert (Hgr : grows (fs w) (<[q := NFile (data +:+ str_drop (String.length data) EmptyString) m (clock (tick w1))]> (fs w1))).
  { split; [|split].
    - intros p' c' m' t' Hp. destruct Hg as (G1 & _). rewrite lookup_insert_ne by congruence. by apply (G1 p' c' m' t').
    - intros p' Hp. destruct Hg as (_ & G2 & _). rewrite lookup_insert_ne by congruence. by apply G2.
    - intros p' t'. destruct (decide (p' = q)) as [->|Hn]; [rewrite lookup_insert_eq, Hnone; by split|].
      destruct Hg as (_ & _ & G3). by rewrite lookup_insert_ne. }
  split; [exact Hgr|]. intros _. exists q, m, (clock (tick w1)). split; [by rewrite <- (grows_follow _ _ _ Hgr)|].
  rewrite lookup_insert_eq. by rewrite str_drop_ge, str_app_nil_r by (simpl; lia).
Qed.

(** The state in which bash login shells reach ~/.bashrc: the first login file there
    is sources it. *)
Definition login_ok (f : files) (p : string) : Prop :=
  exists pre post c, bashLoginCandidates = pre ++ p :: post /\ Forall (fun q => ~ exists_at f q) pre
    /\ text_at f p c /\ loginFileSourcesBashrc c = true.

Lemma ensureBash_spec w a p ok w' :
  ensureBashLoginSourcesBashrc w = (Ok (a, p, ok), w') ->
  grows (fs w) (fs w')
  /\ (bashLoginCandidates <> [] -> login_ok (fs w') p)
  /\ (a = false -> fs w' = fs w).
Proof.
  unfold ensureBashLoginSourcesBashrc. intros [(found & w1 & Hf & Hr)|(? & _ & [=])]%M_bind_inv.
  apply ensure_logins_spec in Hf as [Hg Hf]. destruct found as [[[a' p'] ok']|].
  - injection Hr as -> -> -> <-. split; [done|]. destruct Hf as (pre & post & Heq & Hpre & (c & Hc & Hs) & Ha).
    split; [intros _; by exists pre, post, c|]. intros ->. by destruct Ha.
  - destruct Hf as [Hfs Hno]. unfold login_ok. destruct bashLoginCandidates as [|target rest] eqn:Hcand.
    { injection Hr as _ _ _ <-. rewrite Hfs. by split. }
    apply M_bind_inv in Hr as [(u & w2 & Hm & Hr)|(? & _ & [=])]. unfold mapErr in Hm.
    destruct (mkdir_all (GoPath.Dir target) w1) as [rm wm] eqn:Hmk. injection Hm as _ ->.
    apply M_bind_inv in Hr as [(u' & w3 & Hc & Hr)|(? & _ & [=])]. injection Hr as <- <- <- <-. destruct u'.
    pose proof (mkdir_grows _ _ _ _ Hmk) as Hgm. rewrite Hfs in Hgm.
    assert (Hne : forall c, ~ text_at (fs w2) target c).
    { intros c Ht. apply (mkdir_text _ _ _ _ _ _ Hmk) in Ht. rewrite Hfs in Ht. apply text_exists in Ht.
      by apply Forall_cons in Hno as [Hno _]. }
    destruct (create_file_spec _ _ _ _ _ Hne Hc) as [Hgc Htext]. split; [by transitivity (fs w2)|]. split; [|done].
    intros _. eexists [], rest, _. split; [done|]. split; [done|]. split; [by apply Htext|]. apply login_file_sources.
Qed.

Lemma IsInstalled_calm rc c line w :
  text_at (fs w) rc c -> IsInstalled rc line w = (Ok (has_line c line), step w (fs w)).
Proof. intros Hc. unfold IsInstalled, mbind, M_bind, attempt. by rewrite (read_calm rc c). Qed.

(** A second run finds everything in place. *)
Lemma Install_again rc c line w :
  text_at (fs w) rc c -> has_line c line = true -> Install rc line w = (Ok false, step w (fs w)).
Proof. intros Hc Hl. unfold Install, mbind at 1, M_bind. by rewrite (IsInstalled_calm rc c), Hl. Qed.

Lemma ensureBash_again p w : login_ok (fs w) p ->
  exists w', ensureBashLoginSourcesBashrc w = (Ok (false, p, true), w') /\ fs w' = fs w.
Proof.
  intros (pre & post & c & Heq & Hpre & Hc & Hs). unfold ensureBashLoginSourcesBashrc. rewrite Heq.
  destruct (ensure_again pre p post c w Hpre Hc Hs) as (w' & Hw & Hfs). exists w'. split; [|done].
  unfold mbind, M_bind. by rewrite Hw.
Qed.

Context (pwsh : string).

Lemma RcPath_shell s : str_empty (RcPath pwsh s) = false ->
  contains_byte (HookLine s) LF = false /\ bashLoginCandidates <> [].
Proof.
  unfold RcPath, bashLoginCandidates. destruct ConfigPath.UserHomeDir as [home|]; [|done]. intros Hs. split; [|done].
  destruct (String.eqb_spec s "bash") as [->|]; [done|]. destruct (String.eqb_spec s "zsh") as [->|]; [done|].
  unfold HookLine. by destruct (String.eqb s "powershell" || String.eqb s "pwsh").
Qed.

Lemma InstallShell_done s w rep w' :
  InstallShell pwsh s w = (Ok rep, w') ->
  grows (fs w) (fs w') /\ RRcPath rep = RcPath pwsh s /\ str_empty (RcPath pwsh s) = false
  /\ (exists c, text_at (fs w') (RcPath pwsh s) c /\ has_line c (HookLine s) = true)
  /\ (s = "bash" -> login_ok (fs w') (LoginPath rep)) /\ (s <> "bash" -> LoginPath rep = EmptyString)
  /\ (RcAdded rep = false -> LoginAdded rep = false -> fs w' = fs w).
Proof.
  unfold InstallShell. destruct (str_empty (RcPath pwsh s)) eqn:He; [done|]. destruct (RcPath_shell _ He) as [Hlf Hcand].
  intros [(added & w1 & Hi & Hr)|(? & _ & [=])]%M_bind_inv. apply Install_spec in Hi as [Hg Hi]; [|done].
  destruct (Hi added eq_refl) as (c & Hc & Hl & Ha). clear Hi.
  destruct (String.eqb_spec s "bash") as [Hb|Hb].
  - apply M_bind_inv in Hr as [([[a p] ok] & w2 & Hen & Hr)|(? & _ & [=])]. injection Hr as <- <-.
    apply ensureBash_spec in Hen as (Hg2 & Hlog & Hno). cbn [RRcPath LoginPath RcAdded LoginAdded].
    split; [by transitivity (fs w1)|]. split; [done|]. split; [done|].
    apply (text_grows _ _ _ _ Hg2) in Hc as (u & Hu & Hc).
    split; [exists (c +:+ u); split; [done|by apply has_line_app]|]. split; [auto|]. split; [done|].
    intros -> Hfalse. by rewrite (Hno Hfalse).
  - injection Hr as <- <-. cbn [RRcPath LoginPath RcAdded LoginAdded].
    split; [done|]. split; [done|]. split; [done|]. split; [by exists c|]. split; [done|]. split; [done|]. by intros ->.
Qed.

(**  Installing the hook works, keeps what is there, and need not be repeated.
    After [hook install] no startup file has lost a byte - each is its old text with
    at most new lines behind it, through links shared between startup files too -;
    the rc file has the activation line; for bash the first login file there is
    sources ~/.bashrc; and running it again reports everything in place and changes
    no file. *)
Theorem InstallShell_idempotent s w rep w' :
  InstallShell pwsh s w = (Ok rep, w') ->
  grows (fs w) (fs w')
  /\ (exists c, text_at (fs w') (RcPath pwsh s) c /\ has_line c (HookLine s) = true)
  /\ (s = "bash" -> login_ok (fs w') (LoginPath rep))
  /\ exists w'', InstallShell pwsh s w' = (Ok (mkReport (RcPath pwsh s) false (LoginPath rep) false (String.eqb s "bash")), w'')
       /\ fs w'' = fs w'.
Proof.
  intros (Hg & Hrc & He & (c & Hc & Hl) & Hb & Hnb & _)%InstallShell_done. split; [done|]. split; [by exists c|]. split; [done|].
  unfold InstallShell. rewrite He. unfold mbind at 1, M_bind. rewrite (Install_again _ c) by done.
  destruct (String.eqb_spec s "bash") as [->|Hs].
  - destruct (ensureBash_again (LoginPath rep) (step w' (fs w')) (Hb eq_refl)) as (w2 & Hw & Hfs). exists w2.
    unfold mbind, M_bind. rewrite Hw. done.
  - rewrite (Hnb Hs). by eexists.
Qed.
End Calm.
End Calls.

(** ** A Debian home *)

Definition ex_os : Os := ConfigPath.os_env [("HOME", "/home/u"); ("SHELL", "/bin/bash")].
Definition ex_world : world := start
  {["/home/u" := NDir; "/home/u/.bashrc" := NFile "alias ll='ls -l'" 420 0;
    "/home/u/.profile" := NFile (". " +:+ str1 DQUOTE +:+ "$HOME/.bashrc" +:+ str1 DQUOTE +:+ str1 LF) 420 0]}.

Definition ex_install (w : world) : res HErr InstallReport * world := @InstallShell ex_os EmptyString "bash" w.

(** The home's own line is quoted and not recognised: a second one is added. *)
Example quoted_source_missed :
  match (ex_install ex_world).1 with Ok rep => RcAdded rep = true /\ LoginPath rep = "/home/u/.profile" /\ LoginAdded rep = true | Err _ => False end.
Proof. vm_compute. done. Qed.

(** A comment that mentions the command is taken for the command. *)
Example comment_counts :
  match (ex_install (start {["/home/u" := NDir; "/home/u/.profile" := NFile "# do not put . ~/.bashrc here" 420 0]})).1 with
  | Ok rep => LoginAlreadyOK rep = true
  | Err _ => False
  end.
Proof. vm_compute. done. Qed.

Lemma InstallShell_idempotent_witness : exists rep w' w'',
  ex_install ex_world = (Ok rep, w') /\ ex_install w' = (Ok (mkReport "/home/u/.bashrc" false "/home/u/.profile" false true), w'')
  /\ fs w'' = fs w'.
Proof.
  destruct (ex_install ex_world) as [r w'] eqn:Hr.
  assert (Hok : match r with Ok rep => LoginPath rep = "/home/u/.profile" | Err _ => False end).
  { change r with (r, w').1. rewrite <- Hr. vm_compute. reflexivity. }
  destruct r as [rep|e]; [|destruct Hok]. exists rep, w'.
  pose proof (@InstallShell_idempotent ex_os (fun _ => eq_refl) EmptyString "bash" ex_world rep w' Hr) as (_ & _ & _ & w2 & Hw & Hfs).
  exists w2. split; [reflexivity|]. split; [|exact Hfs]. unfold ex_install. rewrite Hw, Hok. reflexivity.
Defined.
End HookInstall.
