(* ===== verification/Discover.v ===== *)
(** * Project markers (src/internal/discover/markers.go)

    The commands suggested for a folder from the files in it.  doublestar is a
    parameter. *)

From S2P Require Import Prelude GoString Fs.
Import Fs.

Module Discover.

Record marker := mkMarker { Files : list string; Globs : list string; Commands : list string }.

Definition registry : list marker :=
  [mkMarker ["package.json"] [] ["npm"; "node"; "npx"];
   mkMarker ["Dockerfile"] [] ["docker"];
   mkMarker ["docker-compose.yml"; "compose.yml"; "compose.yaml"] [] ["docker"; "docker-compose"];
   mkMarker ["Cargo.toml"] [] ["cargo"; "rustc"];
   mkMarker ["go.mod"] [] ["go"];
   mkMarker ["pyproject.toml"; "requirements.txt"; "Pipfile"] [] ["python"; "python3"; "pip"];
   mkMarker ["Gemfile"] [] ["bundle"; "ruby"; "rake"];
   mkMarker ["Makefile"; "makefile"] [] ["make"];
   mkMarker ["flake.nix"; "default.nix"] [] ["nix"];
   mkMarker [] ["*.tf"] ["terraform"; "tofu"];
   mkMarker ["kustomization.yaml"; "Chart.yaml"] [] ["kubectl"; "helm"]].

Record Suggestion := mkSuggestion { Command : string; Reason : string }.

Section Scan.
Context `{Os} (doublestar_Match : string -> string -> bool).

(** The set of lower-cased names. *)
Definition lower_names (names : list string) : list string := to_lower <$> names.

Definition markerHit (m : marker) (names lower : list string) : option string :=
  match List.find (fun f => bool_decide (to_lower f ∈ lower)) (Files m) with
  | Some f => Some f
  | None => List.find (fun g => existsb (doublestar_Match g) names) (Globs m)
  end.

(** add, on the list so far: its commands are the keys of [seen]. *)
Definition add (reason : string) (out : list Suggestion) (cmd : string) : list Suggestion :=
  if bool_decide (cmd ∈ Command <$> out) then out else out ++ [mkSuggestion cmd reason].

Definition scan_marker (names lower : list string) (out : list Suggestion) (m : marker) : list Suggestion :=
  match markerHit m names lower with
  | None => out
  | Some reason => fold_left (add reason) (Commands m) out
  end.

Definition js_swap (lower : list string) : option (string * string) :=
  if bool_decide ("pnpm-lock.yaml" ∈ lower) then Some ("pnpm", "pnpm-lock.yaml")
  else if bool_decide ("yarn.lock" ∈ lower) then Some ("yarn", "yarn.lock")
  else if bool_decide ("bun.lock" ∈ lower) then Some ("bun", "bun.lock")
  else if bool_decide ("bun.lockb" ∈ lower) then Some ("bun", "bun.lockb")
  else None.

Definition is_python (cmd : string) : bool := String.eqb cmd "python" || String.eqb cmd "python3" || String.eqb cmd "pip".

Definition applyLockfileSwaps (in_ : list Suggestion) (lower : list string) : list Suggestion :=
  let in_ := match js_swap lower with
             | Some (js, reason) => (fun s => if String.eqb (Command s) "npm" then mkSuggestion js reason else s) <$> in_
             | None => in_
             end in
  if bool_decide ("poetry.lock" ∈ lower) && existsb (fun s => is_python (Command s)) in_
     && negb (existsb (fun s => String.eqb (Command s) "poetry") in_)
  then in_ ++ [mkSuggestion "poetry" "poetry.lock"]
  else in_.

Definition suggestions (names : list string) : list Suggestion :=
  let lower := lower_names names in
  applyLockfileSwaps (fold_left (scan_marker names lower) registry []) lower.

Definition Scan {E} (folder : string) : M E (list Suggestion) :=
  entries ← attempt (read_dir folder);
  mret (match entries with Err _ => [] | Ok es => suggestions es.*1 end).

Definition ScanCommands {E} (folder : string) : M E (list string) :=
  sugs ← Scan folder; mret (Command <$> sugs).

(** *** What is suggested *)

(** A reason is a marker of the folder: a file, up to case, or a glob. *)
Definition witnessed (names : list string) (s : Suggestion) : Prop :=
  (exists n, n ∈ names /\ to_lower n = to_lower (Reason s)) \/ (exists n, n ∈ names /\ doublestar_Match (Reason s) n = true).

(** The commands the table can give: none of the replacements is among them. *)
Definition from_table (cmd : string) : Prop := cmd ∈ registry ≫= Commands.

Lemma markerHit_witnessed m names cmd r :
  markerHit m names (lower_names names) = Some r -> witnessed names (mkSuggestion cmd r).
Proof.
  unfold markerHit, witnessed. cbn [Reason].
  destruct (List.find _ (Files m)) as [f|] eqn:Hf.
  - intros [= <-]. apply List.find_some in Hf as [_ Hf%bool_decide_eq_true]. left. unfold lower_names in Hf.
    apply list_elem_of_fmap in Hf as (n & Heq & Hn). by exists n.
  - intros [_ Hg]%List.find_some. right. apply existsb_exists in Hg as (n & Hn & Hg). exists n.
    split; [by apply list_elem_of_In|done].
Qed.

Definition sound (names : list string) (out : list Suggestion) : Prop :=
  NoDup (Command <$> out) /\ Forall (fun s => witnessed names s /\ from_table (Command s)) out.

Lemma add_sound names reason out cmd :
  sound names out -> witnessed names (mkSuggestion cmd reason) -> from_table cmd -> sound names (add reason out cmd).
Proof.
  intros [Hn Hf] Hw Ht. unfold add. case_bool_decide as Hin; [done|]. split.
  - rewrite fmap_app. apply NoDup_app. split; [done|]. split; [|apply NoDup_singleton].
    intros x Hx Hx2. cbn in Hx2. apply list_elem_of_singleton in Hx2 as ->. done.
  - apply Forall_app. split; [done|]. by apply Forall_singleton.
Qed.

Lemma scan_sound names ms out :
  (forall m, m ∈ ms -> m ∈ registry) -> sound names out ->
  sound names (fold_left (scan_marker names (lower_names names)) ms out).
Proof.
  revert out. induction ms as [|m ms IH]; intros out Hms Hs; [done|]. cbn [fold_left].
  apply IH; [intros; apply Hms; by right|]. unfold scan_marker.
  destruct (markerHit m names (lower_names names)) as [r|] eqn:Hm; [|done].
  assert (Hc : forall c, c ∈ Commands m -> from_table c).
  { intros c Hc. apply list_elem_of_bind. exists m. split; [done|]. apply Hms. by left. }
  revert out Hs Hc. induction (Commands m) as [|c cs IHc]; intros out Hs Hc; [done|]. cbn [fold_left].
  apply IHc; [|intros; apply Hc; by right]. apply add_sound; [done| |apply Hc; by left]. by eapply markerHit_witnessed.
Qed.

Lemma js_swap_spec lower js r :
  js_swap lower = Some (js, r) -> r ∈ lower /\ to_lower r = r /\ ~ from_table js /\ js <> "npm" /\ js <> "poetry" /\ is_python js = false.
Proof.
  unfold js_swap, from_table. intros Hj.
  assert (Hno : forall x, x ∈ ["pnpm"; "yarn"; "bun"] -> ~ x ∈ registry ≫= Commands).
  { intros x Hx Hin. assert (Hd : bool_decide (Forall (fun x => x ∉ registry ≫= Commands) ["pnpm"; "yarn"; "bun"]) = true)
      by (vm_compute; reflexivity). apply bool_decide_eq_true in Hd. rewrite Forall_forall in Hd. by eapply Hd. }
  repeat (case_bool_decide; [injection Hj as <- <-; split; [done|]; split; [done|]; split; [apply Hno; set_solver|done]|]). done.
Qed.

Lemma poetry_not_table : ~ from_table "poetry".
Proof. unfold from_table. intros Hin. assert (Hd : bool_decide ("poetry" ∈ registry ≫= Commands) = false) by (vm_compute; reflexivity).
  by apply bool_decide_eq_false in Hd. Qed.

Lemma swap_commands js r (l : list Suggestion) :
  Command <$> ((fun s => if String.eqb (Command s) "npm" then mkSuggestion js r else s) <$> l)
    = (fun c => if String.eqb c "npm" then js else c) <$> (Command <$> l).
Proof. rewrite <- !list_fmap_compose. apply list_fmap_ext. intros i s _. unfold compose. by destruct (String.eqb (Command s) "npm"). Qed.

(**  What discovery suggests is justified and not repeated.  For every folder: no
    command is suggested twice, also after the lockfiles replaced one; every
    suggestion's reason is a marker, a lockfile or a glob that an entry of the folder
    matches up to case; a package manager or poetry is suggested only in place of,
    or beside, a command the table gave; and a folder that cannot be read suggests
    nothing. *)
Theorem suggestions_sound names :
  NoDup (Command <$> suggestions names)
  /\ Forall (witnessed names) (suggestions names)
  /\ Forall (fun s => from_table (Command s)
       \/ (exists r, js_swap (lower_names names) = Some (Command s, r) /\ Reason s = r)
       \/ Command s = "poetry" /\ existsb (fun s => is_python (Command s)) (suggestions names) = true) (suggestions names).
Proof.
  unfold suggestions. set (l := fold_left _ registry []).
  destruct (scan_sound names registry []) as [Hn Hf]; [done|by split; [apply NoDup_nil_2|]|]. fold l in Hn, Hf.
  set (l1 := match js_swap (lower_names names) with
             | Some (js, reason) => (fun s => if String.eqb (Command s) "npm" then mkSuggestion js reason else s) <$> l
             | None => l end).
  assert (H1 : NoDup (Command <$> l1) /\ Forall (fun s => witnessed names s /\ (from_table (Command s)
     \/ exists r, js_swap (lower_names names) = Some (Command s, r) /\ Reason s = r)) l1 /\ "poetry" ∉ Command <$> l1).
  { unfold l1. destruct (js_swap (lower_names names)) as [[js r]|] eqn:Hj.
    - pose proof (js_swap_spec _ _ _ Hj) as (Hin & Hlow & Hjs & Hnpm & Hpo & _). rewrite swap_commands. split; [|split].
      + apply NoDup_fmap_2_strong; [|done]. intros x y Hx Hy Heq.
        apply list_elem_of_fmap in Hx as (sx & -> & Hx). apply list_elem_of_fmap in Hy as (sy & -> & Hy).
        rewrite Forall_forall in Hf. apply Hf in Hx as [_ Hx], Hy as [_ Hy].
        destruct (String.eqb_spec (Command sx) "npm"), (String.eqb_spec (Command sy) "npm"); congruence.
      + apply Forall_fmap. eapply Forall_impl; [exact Hf|]. intros s [Hw Ht]. unfold compose.
        destruct (String.eqb (Command s) "npm"); [|by split; [|left]]. split; [|right; by exists r].
        left. unfold lower_names in Hin. apply list_elem_of_fmap in Hin as (n & Heq & Hin). exists n. cbn [Reason]. by rewrite Hlow.
      + intros Hin2. apply list_elem_of_fmap in Hin2 as (c & Heq & Hc). destruct (String.eqb c "npm"); [congruence|].
        subst c. apply list_elem_of_fmap in Hc as (s & Heq & Hs). rewrite Forall_forall in Hf. apply Hf in Hs as [_ Hs].
        rewrite <- Heq in Hs. by apply poetry_not_table.
    - split; [done|]. split; [eapply Forall_impl; [exact Hf|]; intros s [Hw Ht]; split; [done|by left]|].
      intros Hin. apply list_elem_of_fmap in Hin as (s & Heq & Hs). rewrite Forall_forall in Hf. apply Hf in Hs as [_ Hs].
      rewrite <- Heq in Hs. by apply poetry_not_table. }
  destruct H1 as (Hn1 & Hf1 & Hp1). unfold applyLockfileSwaps. fold l1.
  destruct (bool_decide _ && existsb (fun s => is_python (Command s)) l1 && _) eqn:Hc.
  - apply andb_true_iff in Hc as [[Hlock%bool_decide_eq_true Hpy]%andb_true_iff _]. split; [|split].
    + rewrite fmap_app. apply NoDup_app. split; [done|]. split; [|apply NoDup_singleton].
      intros x Hx Hx2. cbn in Hx2. apply list_elem_of_singleton in Hx2 as ->. done.
    + apply Forall_app. split; [eapply Forall_impl; [exact Hf1|]; by intros s [Hw _]|]. apply Forall_singleton.
      left. unfold lower_names in Hlock. apply list_elem_of_fmap in Hlock as (n & Heq & Hin). exists n. by rewrite <- Heq.
    + apply Forall_app. rewrite existsb_app, Hpy. split; [eapply Forall_impl; [exact Hf1|]; intros s [_ [?|?]]; auto|].
      apply Forall_singleton. right. right. by split.
  - split; [done|]. split; eapply Forall_impl; try exact Hf1; [by intros s [Hw _]|]. intros s [_ [?|?]]; auto.
Qed.
End Scan.

(** A JavaScript project under pnpm, on a file system that keeps its own case. *)
Example ex_js : suggestions (fun g n => String.eqb g "*.tf" && has_suffix n ".tf") ["MAKEFILE"; "main.tf"; "package.json"; "pnpm-lock.yaml"]
  = [mkSuggestion "pnpm" "pnpm-lock.yaml"; mkSuggestion "node" "package.json"; mkSuggestion "npx" "package.json";
     mkSuggestion "make" "Makefile"; mkSuggestion "terraform" "*.tf"; mkSuggestion "tofu" "*.tf"].
Proof. vm_compute. reflexivity. Qed.
End Discover.
