(* ===== verification/VersionCheck.v ===== *)
(** * Release notices (src/internal/versioncheck, src/internal/cli/version_check_internal.go,
    version_notice_internal.go)

    The comparison of release tags, the cache of the once-a-day request, and who may
    ask.  The JSON codec and the HTTP request are parameters; times are whole
    seconds. *)

From S2P Require Import Prelude GoString GoPath Fs ConfigModel Crypto NameId Store ConfigPath Atomic.
Import Fs Config Crypto NameId Store.

Module VersionCheck.

(** ** Versions *)

(** What strconv.Atoi returns beside its error: the nearest int64 when out of range,
    else zero. *)
Definition Atoi0 (s : string) : Z :=
  match atoi s with
  | Some n => n
  | None =>
      let body := match s with
                  | String c s' => if Ascii.eqb c "-"%char || Ascii.eqb c "+"%char then s' else s
                  | EmptyString => s
                  end in
      match body, digits_val 0 body with
      | EmptyString, _ | _, None => 0
      | _, Some _ => if has_prefix s "-" then (- 2 ^ 63)%Z else (2 ^ 63 - 1)%Z
      end
  end.

Definition parse (v : string) : Z * Z * Z :=
  let v := trim_prefix v "v" in
  let v := match index_byte v "-" with Some i => str_take i v | None => v end in
  match split_byte "." v with
  | [a] => (Atoi0 a, 0%Z, 0%Z)
  | [a; b] => (Atoi0 a, Atoi0 b, 0%Z)
  | a :: b :: c :: _ => (Atoi0 a, Atoi0 b, Atoi0 c)
  | [] => (0, 0, 0)%Z
  end.

(** The loop over the three components. *)
Definition greater (a b : Z * Z * Z) : bool :=
  let '(a0, a1, a2) := a in
  let '(b0, b1, b2) := b in
  if negb (a0 =? b0)%Z then (b0 <? a0)%Z
  else if negb (a1 =? b1)%Z then (b1 <? a1)%Z
  else if negb (a2 =? b2)%Z then (b2 <? a2)%Z
  else false.

Definition Newer (latest current : string) : bool :=
  if String.eqb current "dev" || str_empty current then false
  else if contains_str (trim_prefix current "v") "-" then false
  else greater (parse latest) (parse current).

(** ** The cache *)

(** Seconds since the epoch of the zero time.Time. *)
Definition zero_time : Z := (-62135596800)%Z.

Record Cache := mkCache { Latest : string; CheckedAt : Z }.
Definition no_cache : Cache := mkCache EmptyString zero_time.

Definition MaxAge : Z := (24 * 3600)%Z.

Definition Fresh (c : Cache) (now : Z) : bool :=
  if (CheckedAt c =? zero_time)%Z then false else (now - CheckedAt c <? MaxAge)%Z.

(** encoding/json on a Cache *)
Class CacheCodec := { json_Marshal : Cache -> string; json_Unmarshal : string -> option Cache }.
Class CacheCodecLaws `{CacheCodec} := json_roundtrip c : json_Unmarshal (json_Marshal c) = Some c.

Definition tmp_pattern : string := ".version_check.*.tmp".

Section Check.
Context `{Os, CacheCodec, Toml} (Version : string).

Definition Path : string :=
  let base := ConfigPath.env "XDG_CACHE_HOME" in
  if negb (str_empty base) then GoPath.Join [base; "jitenv"; "version_check.json"]
  else
    match ConfigPath.UserHomeDir with
    | Some home => GoPath.Join [home; ".cache"; "jitenv"; "version_check.json"]
    | None =>
        let tmp := let d := ConfigPath.env "TMPDIR" in if str_empty d then "/tmp" else d in
        if negb (str_empty tmp) then GoPath.Join [tmp; "jitenv-cache"; "version_check.json"] else EmptyString
    end.

Definition LoadCache (path : string) : M FErr Cache :=
  b ← attempt (read_file path);
  match b with
  | Err (ENoEnt _) => mret no_cache
  | Err e => throw e
  | Ok b => mret (default no_cache (json_Unmarshal b))
  end.

(** The deferred os.Remove of the temporary name runs on every path. *)
Definition Save (path : string) (c : Cache) : M FErr unit :=
  _ ← mkdir_all (GoPath.Dir path);
  tmp ← create_temp (GoPath.Dir path) tmp_pattern;
  r ← attempt (
    _ ← on_err (chmod tmp 384) (ignore (close tmp) : M FErr unit);
    _ ← on_err (write tmp (json_Marshal c)) (ignore (close tmp) : M FErr unit);
    _ ← close tmp;
    rename tmp path);
  _ ← (ignore (remove tmp) : M FErr unit);
  lift r.

Definition versionCheckPermitted : M FErr bool :=
  if negb (str_empty (ConfigPath.env "JITENV_NO_VERSION_CHECK")) then mret false
  else if negb (str_empty (ConfigPath.env "CI")) then mret false
  else if String.eqb Version "dev" then mret false
  else match ConfigPath.Resolve (ConfigPath.env "JITENV_CONFIG") with
       | None => mret true
       | Some cfgPath =>
           cfg ← attempt (Load cfgPath);
           mret (match cfg with Ok cfg => VersionCheckEnabled (CAgent cfg) | Err _ => true end)
       end.

(** The background half; [fetch] is the request, and the result says whether it was
    made.  Errors go to the debug log. *)
Definition runVersionCheck (fetch : res string string) : M FErr bool :=
  permitted ← versionCheckPermitted;
  if negb (permitted : bool) then mret false
  else if str_empty Path then mret false
  else
    c ← attempt (LoadCache Path);
    t ← now;
    if Fresh (match c with Ok c => c | Err _ => no_cache end) t then mret false
    else
      match fetch with
      | Err _ => mret true
      | Ok latest =>
          t ← now;
          _ ← (ignore (Save Path (mkCache latest t)) : M FErr unit);
          mret true
      end.

(** The foreground half: the versions of the line printed. *)
Definition writeVersionNotice : M FErr (option (string * string)) :=
  permitted ← versionCheckPermitted;
  if negb (permitted : bool) then mret None
  else if str_empty Path then mret None
  else
    c ← attempt (LoadCache Path);
    mret (match c with
          | Err _ => None
          | Ok c => if str_empty (Latest c) then None
                    else if negb (Newer (Latest c) Version) then None
                    else Some (Latest c, Version)
          end).
End Check.

(** ** The order of releases *)

Definition lex_lt (a b : Z * Z * Z) : Prop :=
  (a.1.1 < b.1.1 \/ a.1.1 = b.1.1 /\ (a.1.2 < b.1.2 \/ a.1.2 = b.1.2 /\ a.2 < b.2))%Z.

Lemma greater_spec a b : greater a b = true <-> lex_lt b a.
Proof.
  destruct a as [[a0 a1] a2], b as [[b0 b1] b2]. unfold greater, lex_lt. cbn [fst snd].
  destruct (Z.eqb_spec a0 b0); cbn [negb]; [|rewrite Z.ltb_lt; lia].
  destruct (Z.eqb_spec a1 b1); cbn [negb]; [|rewrite Z.ltb_lt; lia].
  destruct (Z.eqb_spec a2 b2); cbn [negb]; [|rewrite Z.ltb_lt; lia]. split; [done|lia].
Qed.

(** A release tag as GitHub or the build writes it. *)
Definition triple (a b c : N) : string := itoa a +:+ String "." (itoa b +:+ String "." (itoa c)).
Definition tag (v : bool) (a b c : N) : string := (if v then "v" else EmptyString) +:+ triple a b c.

Lemma itoa_no n c : is_digit c = false -> contains_byte (itoa n) c = false.
Proof. intros Hc. eapply forall_bytes_not_contains; [apply itoa_digits|done]. Qed.

Lemma Atoi0_itoa n : (n < 2 ^ 63)%N -> Atoi0 (itoa n) = Z.of_N n.
Proof. intros Hn. unfold Atoi0. by rewrite atoi_itoa. Qed.

Lemma triple_head a b c s : exists d r, triple a b c +:+ s = String d r /\ is_digit d = true.
Proof.
  pose proof (itoa_digits a) as Hd. pose proof (itoa_not_nil a). unfold triple. destruct (itoa a) as [|d r]; [done|].
  cbn [forall_bytes] in Hd. apply andb_true_iff in Hd as [Hd _]. eexists _, _. by split.
Qed.

Lemma trim_v (v : bool) a b c s : trim_prefix ((if v then "v" else EmptyString) +:+ (triple a b c +:+ s)) "v" = triple a b c +:+ s.
Proof.
  destruct v; [apply trim_prefix_app|]. rewrite str_app_nil_l. destruct (triple_head a b c s) as (d & r & -> & Hd).
  unfold trim_prefix. cbn [has_prefix]. by destruct (Ascii.eqb_spec "v"%char d) as [<-|].
Qed.

Lemma contains_byte_cons d s c : contains_byte (String d s) c = Ascii.eqb c d || contains_byte s c.
Proof. done. Qed.

Lemma triple_no_dash a b c : contains_byte (triple a b c) "-" = false.
Proof. unfold triple. by rewrite !contains_byte_app, !contains_byte_cons, !contains_byte_app, !contains_byte_cons, !itoa_no. Qed.

Lemma triple_split a b c : split_byte "." (triple a b c) = [itoa a; itoa b; itoa c].
Proof. unfold triple. rewrite !split_byte_app by (by apply itoa_no). by rewrite split_byte_none by (by apply itoa_no). Qed.

(** A tag is read as its three numbers, with or without the v, and whatever
    pre-release suffix follows a dash. *)
Lemma parse_tag v a b c suffix :
  (a < 2 ^ 63)%N -> (b < 2 ^ 63)%N -> (c < 2 ^ 63)%N ->
  (suffix = EmptyString \/ exists x, suffix = String "-" x) ->
  parse (tag v a b c +:+ suffix) = (Z.of_N a, Z.of_N b, Z.of_N c).
Proof.
  intros Ha Hb Hc Hs. unfold parse, tag. rewrite <- str_app_assoc, trim_v.
  assert (Hcut : match index_byte (triple a b c +:+ suffix) "-" with
    | Some i => str_take i (triple a b c +:+ suffix) | None => triple a b c +:+ suffix end = triple a b c).
  { pose proof (triple_no_dash a b c) as Hd. destruct Hs as [->|[x ->]].
    - rewrite str_app_nil_r. by apply index_byte_None in Hd as ->.
    - rewrite index_byte_app by done. apply str_take_app. }
  cbv zeta. rewrite Hcut, triple_split. by rewrite !Atoi0_itoa.
Qed.

Lemma release_current v a b c : (if String.eqb (tag v a b c) "dev" || str_empty (tag v a b c) then false
  else if contains_str (trim_prefix (tag v a b c) "v") "-" then false else true) = true.
Proof.
  assert (Hne : exists d r, tag v a b c = String d r /\ (d = "v"%char \/ is_digit d = true)).
  { unfold tag. destruct v; [eexists _, _; split; [done|by left]|].
    destruct (triple_head a b c EmptyString) as (d & r & Hd & Hdig). rewrite str_app_nil_r in Hd. rewrite str_app_nil_l, Hd.
    eexists _, _. split; [done|by right]. }
  destruct Hne as (d & r & Heq & Hd).
  assert (Hdev : String.eqb (tag v a b c) "dev" = false).
  { apply String.eqb_neq. rewrite Heq. intros [= -> ->]. by destruct Hd. }
  rewrite Hdev. replace (str_empty (tag v a b c)) with false by (by rewrite Heq). cbn [orb].
  assert (Ht : trim_prefix (tag v a b c) "v" = triple a b c).
  { pose proof (trim_v v a b c EmptyString) as Ht. by rewrite str_app_nil_r in Ht. }
  rewrite Ht. destruct (contains_str (triple a b c) "-") eqn:Hc; [|done].
  assert (Hdash : forall s, contains_str s "-" = contains_byte s "-"%char).
  { clear. induction s as [|x s IH]; [done|]. unfold contains_str in *. cbn [index_str has_prefix].
    rewrite contains_byte_cons, <- IH. destruct (Ascii.eqb "-" x); [by destruct s|]. cbn [andb orb]. by destruct (index_str s "-"). }
  rewrite Hdash, triple_no_dash in Hc. done.
Qed.

(**  The notice follows the order of releases.  Between release tags Newer is the
    lexicographic order of their numbers below 2^63, with or without the v and
    whatever pre-release the latest tag names; it is irreflexive and transitive on all
    strings, and never true of a development build or a snapshot. *)
Theorem Newer_order :
  (forall v v' a b c a' b' c' suffix, Forall (fun n => (n < 2 ^ 63)%N) [a; b; c; a'; b'; c'] ->
     (suffix = EmptyString \/ exists x, suffix = String "-" x) ->
     Newer (tag v a b c +:+ suffix) (tag v' a' b' c') = true
       <-> lex_lt (Z.of_N a', Z.of_N b', Z.of_N c') (Z.of_N a, Z.of_N b, Z.of_N c))
  /\ (forall s, Newer s s = false)
  /\ (forall x y z, Newer x y = true -> Newer y z = true -> Newer x z = true)
  /\ (forall x y, contains_str (trim_prefix y "v") "-" = true -> Newer x y = false)
  /\ (forall x, Newer x "dev" = false).
Proof.
  assert (Hgt : forall x y, Newer x y = true -> lex_lt (parse y) (parse x)).
  { intros x y. unfold Newer. destruct (String.eqb y "dev" || str_empty y); [done|].
    destruct (contains_str _ _); [done|]. apply greater_spec. }
  split; [|split; [|split; [|split]]].
  - intros v v' a b c a' b' c' suffix Hall Hs. repeat rewrite Forall_cons in Hall. destruct Hall as (? & ? & ? & ? & ? & ? & _).
    unfold Newer. pose proof (release_current v' a' b' c') as Hrel. revert Hrel.
    destruct (String.eqb _ "dev" || str_empty _); [done|]. destruct (contains_str _ _); [done|]. intros _.
    rewrite greater_spec, parse_tag by done. rewrite <- (str_app_nil_r (tag v' a' b' c')).
    by rewrite parse_tag by (try done; by left).
  - intros s. destruct (Newer s s) eqn:Hn; [|done]. apply Hgt in Hn. unfold lex_lt in Hn. lia.
  - intros x y z Hxy Hyz. pose proof (Hgt _ _ Hxy) as H1. pose proof (Hgt _ _ Hyz) as H2.
    unfold Newer in *. destruct (String.eqb z "dev" || str_empty z); [done|]. destruct (contains_str (trim_prefix z "v") "-"); [done|].
    apply greater_spec. unfold lex_lt in *. lia.
  - intros x y Hy. unfold Newer. rewrite Hy. by destruct (String.eqb y "dev" || str_empty y).
  - done.
Qed.

Lemma Newer_order_witness : Newer "v0.10.0" "0.9.9" = true /\ Newer "0.9.9" "0.10.0" = false.
Proof.
  split; [|vm_compute; reflexivity]. destruct Newer_order as [Hn _].
  apply (Hn true false 0%N 10%N 0%N 0%N 9%N 9%N EmptyString); [|by left|right; cbn; lia].
  repeat constructor.
Defined.

(** A component too large for an int64 counts as the largest one, not as zero. *)
Example huge_component : Newer "0.99999999999999999999.0" "1.0.0" = false /\ Newer "1.99999999999999999999.0" "1.2.0" = true.
Proof. vm_compute. done. Qed.

Section Gates.
Context `{Os, CacheCodec, Toml} (Version : string).

(** Opted out, nothing is asked and nothing is said. *)
Lemma opted_out_silent fetch w w1 :
  versionCheckPermitted Version w = (Ok false, w1) ->
  runVersionCheck Version fetch w = (Ok false, w1) /\ writeVersionNotice Version w = (Ok None, w1).
Proof. intros Hp. unfold runVersionCheck, writeVersionNotice, mbind, M_bind. by rewrite Hp. Qed.

Lemma development_build_silent w : Version = "dev" -> versionCheckPermitted Version w = (Ok false, w).
Proof. intros ->. unfold versionCheckPermitted. by repeat case_match. Qed.
End Gates.
End VersionCheck.
