(* ===== verification/TuiRefs.v ===== *)
(** * Renames in the editor (src/internal/tui/references.go, sources_screen.go, secrets_screen.go)

    What a rename of a source, of a local bag or of a key in one does to the
    configuration: the object moves, every mapping follows, and the dictionary of
    opaque identifiers keeps the identifier under the new name. *)

From S2P Require Import Prelude GoString ConfigModel Edit.
Import Config Edit.

Module TuiRefs.

(** ** The dictionary *)

Definition rename_values (old new_ : string) (m : gmap string string) : gmap string string :=
  (fun n => if String.eqb n old then new_ else n) <$> m.

Definition with_idmap (c : Config) (nm : option NameMap) : Config :=
  mkConfig (CVersion c) (CMeta c) (CAgent c) (Sources c) (Mappings c) (Secrets c) nm.

Definition renameIDMapSource (c : Config) (old new_ : string) : Config :=
  match IDMap c with
  | None => c
  | Some nm => with_idmap c (Some (mkNameMap (rename_values old new_ (NSources nm)) (NBags nm) (NKeys nm)))
  end.

Definition renameIDMapBag (c : Config) (old new_ : string) : Config :=
  match IDMap c with
  | None => c
  | Some nm => with_idmap c (Some (mkNameMap (NSources nm) (rename_values old new_ (NBags nm)) (NKeys nm)))
  end.

Section Renames.
Context `{MapRange}.

Definition renameIDMapKey (c : Config) (bagName oldKey newKey : string) : Config :=
  match IDMap c with
  | None => c
  | Some nm =>
      match List.find (fun kv => String.eqb kv.2 bagName) (map_range 80 (NBags nm)) with
      | None => c
      | Some (bagID, _) =>
          if str_empty bagID then c
          else match NKeys nm !! bagID with
               | None => c
               | Some ks => with_idmap c (Some (mkNameMap (NSources nm) (NBags nm)
                              (<[bagID := rename_values oldKey newKey ks]> (NKeys nm))))
               end
      end
  end.

(** ** The mappings *)

Definition map_vars (f : VarRef -> VarRef) (c : Config) : Config :=
  with_mappings c ((fun m => mkMapping (Path m) (Glob m) (CwdGlob m) (Commands m) (f <$> Vars m)) <$> Mappings c).

Definition is_local (srcs : gmap string SourceConfig) (v : VarRef) : bool :=
  match srcs !! Source v with Some sc => String.eqb (Type_ sc) "local" | None => false end.

Definition source_ref (old new_ : string) (v : VarRef) : VarRef :=
  if String.eqb (Source v) old then mkVar (Name v) new_ (Ref v) (Key v) (Extra v) (Value v) else v.

Definition rewriteSourceRefs (c : Config) (old new_ : string) : Config := map_vars (source_ref old new_) c.

Definition bag_ref (srcs : gmap string SourceConfig) (old new_ : string) (v : VarRef) : VarRef :=
  if negb (String.eqb (Ref v) old) then v
  else if is_local srcs v then mkVar (Name v) (Source v) new_ (Key v) (Extra v) (Value v) else v.

Definition rewriteLocalBagRefs (c : Config) (old new_ : string) : Config := map_vars (bag_ref (Sources c) old new_) c.

Definition key_ref (srcs : gmap string SourceConfig) (bag old new_ : string) (v : VarRef) : VarRef :=
  if negb (String.eqb (Ref v) bag) || negb (String.eqb (Key v) old) then v
  else if is_local srcs v then mkVar (Name v) (Source v) (Ref v) new_ (Extra v) (Value v) else v.

Definition rewriteLocalKeyRefs (c : Config) (bag old new_ : string) : Config := map_vars (key_ref (Sources c) bag old new_) c.

(** ** What the forms do with what was typed *)

Inductive typed := NameRequired | Unchanged | Exists | Done (c : Config).

Definition no_source : SourceConfig := mkSource EmptyString ∅.

(** The callback of newRenameSourceScreen. *)
Definition rename_source (c : Config) (old val : string) : typed :=
  let new_ := trim_space val in
  if str_empty new_ then NameRequired
  else if String.eqb new_ old then Unchanged
  else match Sources c !! new_ with
       | Some _ => Exists
       | None =>
           let c := with_sources c (delete old (<[new_ := default no_source (Sources c !! old)]> (Sources c))) in
           Done (renameIDMapSource (rewriteSourceRefs c old new_) old new_)
       end.

(** The callback of newRenameBagScreen. *)
Definition rename_bag (c : Config) (old val : string) : typed :=
  let new_ := trim_space val in
  if str_empty new_ then NameRequired
  else if String.eqb new_ old then Unchanged
  else match Secrets c !! new_ with
       | Some _ => Exists
       | None =>
           let c := with_secrets c (delete old (<[new_ := default ∅ (Secrets c !! old)]> (Secrets c))) in
           Done (renameIDMapBag (rewriteLocalBagRefs c old new_) old new_)
       end.

(** kvEditScreen.commit *)
Definition commit_key (c : Config) (bagName existingKey typedKey val : string) : typed :=
  let key := trim_space typedKey in
  if str_empty key then NameRequired
  else
    let bag := default ∅ (Secrets c !! bagName) in
    let put bag := with_secrets c (<[bagName := bag]> (Secrets c)) in
    if str_empty existingKey then
      match bag !! key with Some _ => Exists | None => Done (put (<[key := val]> bag)) end
    else if negb (String.eqb key existingKey) then
      match bag !! key with
      | Some _ => Exists
      | None => Done (renameIDMapKey (rewriteLocalKeyRefs (put (<[key := val]> (delete existingKey bag))) bagName existingKey key)
                        bagName existingKey key)
      end
    else Done (put (<[key := val]> bag)).
End Renames.

(** ** What a var means *)

(** A literal, a place in a remote source, a whole bag or one value of it. *)
Inductive meaning :=
| Literal_ (v : string)
| Dangling
| Remote (sc : SourceConfig) (ref key : string)
| WholeBag (sc : SourceConfig) (bag : option (gmap string string))
| OneSecret (sc : SourceConfig) (name : string) (v : option string).

Definition means (c : Config) (v : VarRef) : meaning :=
  if negb (str_empty (Value v)) then Literal_ (Value v)
  else match Sources c !! Source v with
       | None => Dangling
       | Some sc =>
           if String.eqb (Type_ sc) "local" then
             if str_empty (Key v) then WholeBag sc (Secrets c !! Ref v)
             else OneSecret sc (Name v) (bag ← Secrets c !! Ref v; bag !! Key v)
           else Remote sc (Ref v) (Key v)
       end.

(** The vars of a configuration, with their mapping. *)
Definition all_vars (c : Config) : list (nat * VarRef) :=
  concat (imap (fun i m => (fun v => (i, v)) <$> Vars m) (Mappings c)).

(** A rewrite that keeps everything about a var but where it points. *)
Definition keeps (f : VarRef -> VarRef) : Prop :=
  forall v, Name (f v) = Name v /\ Extra (f v) = Extra v /\ Value (f v) = Value v
    /\ (Source v = "" <-> Source (f v) = "") /\ (Ref v = "" <-> Ref (f v) = "") /\ (Key v = "" <-> Key (f v) = "").

Lemma keeps_refl v : Name v = Name v /\ Extra v = Extra v /\ Value v = Value v
    /\ (Source v = "" <-> Source v = "") /\ (Ref v = "" <-> Ref v = "") /\ (Key v = "" <-> Key v = "").
Proof. done. Qed.

Lemma source_ref_keeps old new_ : old <> "" -> new_ <> "" -> keeps (source_ref old new_).
Proof. intros Ho Hn v. unfold source_ref. destruct (String.eqb_spec (Source v) old) as [<-|]; [|apply keeps_refl]. naive_solver. Qed.

Lemma bag_ref_keeps srcs old new_ : old <> "" -> new_ <> "" -> keeps (bag_ref srcs old new_).
Proof.
  intros Ho Hn v. unfold bag_ref. destruct (String.eqb_spec (Ref v) old) as [<-|]; [|apply keeps_refl].
  destruct (is_local srcs v); [|apply keeps_refl]. naive_solver.
Qed.

Lemma key_ref_keeps srcs bag old new_ : old <> "" -> new_ <> "" -> keeps (key_ref srcs bag old new_).
Proof.
  intros Ho Hn v. unfold key_ref. destruct (String.eqb (Ref v) bag); [|apply keeps_refl].
  destruct (String.eqb_spec (Key v) old) as [<-|]; [|apply keeps_refl]. destruct (is_local srcs v); [|apply keeps_refl]. naive_solver.
Qed.

Lemma keeps_shape f v : keeps f -> var_shape_ok v -> var_shape_ok (f v).
Proof.
  intros Hf. destruct (Hf v) as (H1 & H2 & H3 & H4 & H5 & H6). unfold var_shape_ok. rewrite H1, H2, H3.
  intros [(? & Hs & Hr & Hk & ? & ?)|(? & ? & ?)]; [left|right]; naive_solver.
Qed.

(** Rewriting references keeps a mapping well-formed. *)
Lemma map_vars_ok f c : keeps f -> Forall mapping_ok (Mappings c) -> Forall mapping_ok (Mappings (map_vars f c)).
Proof.
  intros Hf. unfold map_vars, with_mappings. cbn [Mappings]. rewrite Forall_fmap. intros Hall. eapply Forall_impl; [exact Hall|].
  intros m (Hs & Hn & Hv). unfold compose. split; [|split]; cbn [Vars].
  - by inversion Hs; [apply shape_path|apply shape_glob|apply shape_cwd].
  - by destruct (Vars m).
  - rewrite Forall_fmap. eapply Forall_impl; [exact Hv|]. intros v. by apply keeps_shape.
Qed.

Definition for_vars (P : VarRef -> Prop) (c : Config) : Prop := Forall (fun m => Forall P (Vars m)) (Mappings c).

Lemma for_vars_impl (P Q : VarRef -> Prop) c : (forall v, P v -> Q v) -> for_vars P c -> for_vars Q c.
Proof.
  intros HPQ Hc. eapply Forall_impl; [exact Hc|]. intros m Hm. eapply Forall_impl; [exact Hm|]. exact HPQ.
Qed.

Lemma for_vars_map P f c : for_vars P (map_vars f c) <-> for_vars (fun v => P (f v)) c.
Proof.
  unfold for_vars, map_vars, with_mappings. cbn [Mappings]. rewrite Forall_fmap. apply Forall_iff. intros m. unfold compose.
  cbn [Vars]. by rewrite Forall_fmap.
Qed.

Lemma for_vars_and (P Q : VarRef -> Prop) c : for_vars P c -> for_vars Q c -> for_vars (fun v => P v /\ Q v) c.
Proof.
  unfold for_vars. rewrite !Forall_forall. intros HP HQ m Hm. specialize (HP m Hm). specialize (HQ m Hm).
  rewrite Forall_forall in *. auto.
Qed.

(** [c'] is [c] with the vars rewritten by [f], and each means what it did. *)
Definition same_meaning (f : VarRef -> VarRef) (c c' : Config) : Prop :=
  Mappings c' = Mappings (map_vars f c) /\ for_vars (fun v => means c' (f v) = means c v /\ Name (f v) = Name v /\ Extra (f v) = Extra v) c.

Lemma Forall_mappings_eq {P : Mapping -> Prop} c c' : Mappings c = Mappings c' -> Forall P (Mappings c) -> Forall P (Mappings c').
Proof. by intros ->. Qed.

Section Theorems.
Context `{MapRange}.

Lemma map_vars_fields f c : Sources (map_vars f c) = Sources c /\ Secrets (map_vars f c) = Secrets c /\ IDMap (map_vars f c) = IDMap c
  /\ CVersion (map_vars f c) = CVersion c.
Proof. done. Qed.

Lemma rename_source_fields c old new_ :
  let c' := renameIDMapSource c old new_ in
  Sources c' = Sources c /\ Secrets c' = Secrets c /\ Mappings c' = Mappings c /\ CVersion c' = CVersion c.
Proof. unfold renameIDMapSource. by destruct (IDMap c). Qed.

(** A renamed source: the configuration stays valid and every var means what it did. *)
Lemma rename_source_means c old val c' sc :
  Validate c = None -> Sources c !! old = Some sc -> old <> "" -> rename_source c old val = Done c' ->
  Validate c' = None /\ same_meaning (source_ref old (trim_space val)) c c'
  /\ Sources c' !! trim_space val = Some sc /\ Sources c' !! old = None.
Proof.
  intros Hv Hold Hne. unfold rename_source. set (new_ := trim_space val).
  destruct (str_empty new_) eqn:He; [done|]. apply str_empty_false in He.
  destruct (String.eqb_spec new_ old) as [|Hno]; [done|]. destruct (Sources c !! new_) eqn:Hnew; [done|].
  intros [= <-]. rewrite Hold. cbn [default].
  set (c1 := with_sources c (delete old (<[new_ := sc]> (Sources c)))).
  destruct (rename_source_fields (rewriteSourceRefs c1 old new_) old new_) as (Fs & Fse & Fm & Fv).
  set (c' := renameIDMapSource _ _ _) in *.
  assert (HS : Sources c' = delete old (<[new_ := sc]> (Sources c))) by (by rewrite Fs).
  apply Validate_None in Hv as [Hok Hres].
  pose proof (source_ref_keeps old new_ Hne He) as Hk.
  assert (Hlook : forall v, var_resolved (Sources c) v -> Value v = "" ->
    Sources c' !! Source (source_ref old new_ v) = Sources c !! Source v).
  { intros v [Hval|[s Hs]] Hval2; [done|]. rewrite HS. unfold source_ref.
    destruct (String.eqb_spec (Source v) old) as [->|Hn]; cbn [Source].
    - rewrite lookup_delete_ne, lookup_insert_eq by done. done.
    - rewrite lookup_delete_ne, lookup_insert_ne by congruence. done. }
  assert (Hmean : for_vars (fun v => means c' (source_ref old new_ v) = means c v) c).
  { eapply for_vars_impl; [|exact Hres]. intros v Hr. unfold means. destruct (Hk v) as (-> & _ & -> & _).
    destruct (str_empty (Value v)) eqn:Hvv; [|done]. apply str_empty_spec in Hvv. cbn [negb]. rewrite (Hlook v Hr Hvv).
    destruct (Sources c !! Source v); [|done]. assert (Hrk : Ref (source_ref old new_ v) = Ref v /\ Key (source_ref old new_ v) = Key v)
      by (unfold source_ref; by destruct (String.eqb (Source v) old)). destruct Hrk as [-> ->].
    by rewrite Fse. }
  split; [|split; [|split]].
  - apply Validate_None. destruct Hok as [Hver Hsrc Hmap]. split; [split|].
    + by rewrite Fv.
    + rewrite HS. intros n s Hs. apply lookup_delete_Some in Hs as [_ Hs]. apply lookup_insert_Some in Hs as [[_ <-]|[_ Hs]]; by eapply Hsrc.
    + rewrite Fm. by apply map_vars_ok.
    + apply (Forall_mappings_eq (map_vars (source_ref old new_) c)); [by rewrite Fm|].
      apply (for_vars_map (var_resolved (Sources c')) (source_ref old new_) c). eapply for_vars_impl; [|exact Hres].
      intros v Hr. unfold var_resolved. destruct (Hk v) as (_ & _ & -> & _). destruct (decide (Value v = "")) as [Hvv|]; [|by left].
      right. rewrite (Hlook v Hr Hvv). by destruct Hr.
  - split; [by rewrite Fm|]. eapply for_vars_impl; [|exact Hmean]. intros v ->. destruct (Hk v) as (-> & -> & _). done.
  - rewrite HS, lookup_delete_ne, lookup_insert_eq by done. done.
  - by rewrite HS, lookup_delete_eq.
Qed.

(** What a rewrite among the secrets leaves valid. *)
Lemma secrets_validate f c c' :
  keeps f -> (forall v, Source (f v) = Source v) -> Sources c' = Sources c -> CVersion c' = CVersion c ->
  Mappings c' = Mappings (map_vars f c) -> Validate c = None -> Validate c' = None.
Proof.
  intros Hk Hs HS HV HM [[Hver Hsrc Hmap] Hres]%Validate_None. apply Validate_None. split; [split|].
  - by rewrite HV.
  - by rewrite HS.
  - rewrite HM. by apply map_vars_ok.
  - apply (Forall_mappings_eq (map_vars f c)); [by rewrite HM|]. apply (for_vars_map (var_resolved (Sources c')) f c).
    eapply for_vars_impl; [|exact Hres]. intros v Hr. unfold var_resolved in *. destruct (Hk v) as (_ & _ & -> & _). by rewrite Hs, HS.
Qed.

Lemma rename_bag_fields c old new_ :
  let c' := renameIDMapBag c old new_ in
  Sources c' = Sources c /\ Secrets c' = Secrets c /\ Mappings c' = Mappings c /\ CVersion c' = CVersion c.
Proof. unfold renameIDMapBag. by destruct (IDMap c). Qed.

(** A local var that asks for the bag [b]. *)
Definition asks_bag (c : Config) (b : string) (v : VarRef) : Prop := Value v = "" /\ is_local (Sources c) v = true /\ Ref v = b.

(** A renamed bag: every var means what it did, unless one asked for a bag of the
    new name before there was one. *)
Lemma rename_bag_means c old val c' bag :
  Validate c = None -> Secrets c !! old = Some bag -> old <> "" -> rename_bag c old val = Done c' ->
  for_vars (fun v => ~ asks_bag c (trim_space val) v) c ->
  Validate c' = None /\ same_meaning (bag_ref (Sources c) old (trim_space val)) c c'
  /\ Secrets c' !! trim_space val = Some bag /\ Secrets c' !! old = None.
Proof.
  intros Hv Hold Hne. unfold rename_bag. set (new_ := trim_space val).
  destruct (str_empty new_) eqn:He; [done|]. apply str_empty_false in He.
  destruct (String.eqb_spec new_ old) as [|Hno]; [done|]. destruct (Secrets c !! new_) eqn:Hnew; [done|].
  intros [= <-] Hdang. rewrite Hold. cbn [default].
  set (c1 := with_secrets c (delete old (<[new_ := bag]> (Secrets c)))).
  destruct (rename_bag_fields (rewriteLocalBagRefs c1 old new_) old new_) as (Fs & Fse & Fm & Fv).
  set (c' := renameIDMapBag _ _ _) in *. cbn in Fs.
  assert (HS : Secrets c' = delete old (<[new_ := bag]> (Secrets c))) by (by rewrite Fse).
  pose proof (bag_ref_keeps (Sources c) old new_ Hne He) as Hk.
  assert (Hsrc : forall v, Source (bag_ref (Sources c) old new_ v) = Source v /\ Key (bag_ref (Sources c) old new_ v) = Key v).
  { intros v. unfold bag_ref. by destruct (negb (String.eqb (Ref v) old)), (is_local (Sources c) v). }
  assert (Hmean : for_vars (fun v => means c' (bag_ref (Sources c) old new_ v) = means c v) c).
  { eapply for_vars_impl; [|exact Hdang]. intros v Hd. unfold means. destruct (Hk v) as (-> & _ & -> & _).
    destruct (str_empty (Value v)) eqn:Hvv; [|done]. apply str_empty_spec in Hvv. cbn [negb]. destruct (Hsrc v) as [-> ->].
    rewrite Fs. destruct (Sources c !! Source v) as [sc|] eqn:Hsc; [|done]. unfold asks_bag, is_local in Hd. rewrite Hsc in Hd.
    unfold bag_ref, is_local. rewrite Hsc. destruct (String.eqb_spec (Type_ sc) "local") as [Hl|Hl].
    - assert (Hlook : Secrets c' !! Ref (if negb (String.eqb (Ref v) old) then v else mkVar (Name v) (Source v) new_ (Key v) (Extra v) (Value v))
        = Secrets c !! Ref v).
      { rewrite HS. destruct (String.eqb_spec (Ref v) old) as [->|Hr]; cbn [negb Ref].
        - rewrite lookup_delete_ne, lookup_insert_eq by done. done.
        - rewrite lookup_delete_ne, lookup_insert_ne by naive_solver. done. }
      destruct (negb (String.eqb (Ref v) old)); by rewrite ?Hlook.
    - by destruct (negb (String.eqb (Ref v) old)). }
  split; [|split; [|split]].
  - apply (secrets_validate (bag_ref (Sources c) old new_) c); try done. intros v. apply Hsrc.
  - split; [by rewrite Fm|]. eapply for_vars_impl; [|exact Hmean]. intros v ->. destruct (Hk v) as (-> & -> & _). done.
  - rewrite HS, lookup_delete_ne, lookup_insert_eq by done. done.
  - by rewrite HS, lookup_delete_eq.
Qed.

Lemma rename_key_fields c b old new_ :
  let c' := renameIDMapKey c b old new_ in
  Sources c' = Sources c /\ Secrets c' = Secrets c /\ Mappings c' = Mappings c /\ CVersion c' = CVersion c.
Proof.
  unfold renameIDMapKey. destruct (IDMap c); [|done]. destruct (List.find _ _) as [[i n0]|]; [|done].
  destruct (str_empty i); [done|]. by destruct (NKeys n !! i).
Qed.

(** A renamed key: every var means what it did, unless it asked for the new name
    before, or takes the whole bag. *)
Lemma commit_key_means c b old typedKey val c' bag :
  Validate c = None -> Secrets c !! b = Some bag -> bag !! old = Some val -> old <> "" -> trim_space typedKey <> old ->
  commit_key c b old typedKey val = Done c' ->
  for_vars (fun v => asks_bag c b v -> Key v <> trim_space typedKey /\ Key v <> "") c ->
  Validate c' = None /\ same_meaning (key_ref (Sources c) b old (trim_space typedKey)) c c'
  /\ Secrets c' = <[b := <[trim_space typedKey := val]> (delete old bag)]> (Secrets c).
Proof.
  intros Hv Hb Hold Hne Hno. unfold commit_key. set (new_ := trim_space typedKey) in *.
  destruct (str_empty new_) eqn:He; [done|]. apply str_empty_false in He. rewrite Hb. cbn [default]. unfold id.
  destruct (str_empty old) eqn:Ho; [by apply str_empty_spec in Ho|]. destruct (String.eqb_spec new_ old) as [|_]; [done|]. cbn [negb].
  destruct (bag !! new_) eqn:Hnew; [done|]. intros [= <-] Hdang.
  set (c1 := with_secrets c _). destruct (rename_key_fields (rewriteLocalKeyRefs c1 b old new_) b old new_) as (Fs & Fse & Fm & Fv).
  set (c' := renameIDMapKey _ _ _ _) in *. cbn in Fs.
  assert (HS : Secrets c' = <[b := <[new_ := val]> (delete old bag)]> (Secrets c)) by (by rewrite Fse).
  pose proof (key_ref_keeps (Sources c) b old new_ Hne He) as Hk.
  assert (Hsrc : forall v, Source (key_ref (Sources c) b old new_ v) = Source v /\ Ref (key_ref (Sources c) b old new_ v) = Ref v).
  { intros v. unfold key_ref. by destruct (negb (String.eqb (Ref v) b) || negb (String.eqb (Key v) old)), (is_local (Sources c) v). }
  assert (Hmean : for_vars (fun v => means c' (key_ref (Sources c) b old new_ v) = means c v) c).
  { eapply for_vars_impl; [|exact Hdang]. intros v Hd. unfold means. destruct (Hk v) as (-> & _ & -> & _).
    destruct (str_empty (Value v)) eqn:Hvv; [|done]. apply str_empty_spec in Hvv. cbn [negb]. destruct (Hsrc v) as [-> ->].
    rewrite Fs. destruct (Sources c !! Source v) as [sc|] eqn:Hsc; [|done]. unfold asks_bag, is_local in Hd. rewrite Hsc in Hd.
    unfold key_ref, is_local. rewrite Hsc. destruct (String.eqb_spec (Type_ sc) "local") as [Hl|Hl];
      [|by destruct (negb (String.eqb (Ref v) b) || negb (String.eqb (Key v) old))].
    rewrite HS. destruct (String.eqb_spec (Ref v) b) as [Hr|Hr]; cbn [negb orb].
    - rewrite Hr, lookup_insert_eq, Hb in *. destruct Hd as [Hd1 Hd2]; [done|].
      destruct (String.eqb_spec (Key v) old) as [Hko|Hko]; cbn [negb Key].
      + apply str_empty_false in He, Hd2. rewrite He, Hd2, Hko. cbn [mbind option_bind]. by rewrite lookup_insert_eq, Hold.
      + apply str_empty_false in Hd2. rewrite Hd2. cbn [mbind option_bind].
        by rewrite lookup_insert_ne, lookup_delete_ne by congruence.
    - by rewrite lookup_insert_ne by congruence. }
  split; [|split; [|exact HS]].
  - apply (secrets_validate (key_ref (Sources c) b old new_) c); try done. intros v. apply Hsrc.
  - split; [by rewrite Fm|]. eapply for_vars_impl; [|exact Hmean]. intros v ->. destruct (Hk v) as (-> & -> & _). done.
Qed.

(** C21.  A rename changes names and nothing else.  Renaming a source, a local bag or a
    key of one in a valid configuration gives a valid configuration in which every
    mapping is the old one with its references rewritten and every var means exactly
    what it meant - the same literal, the same place in the same source, the same
    bag, the same secret -, and the old name is gone.  The exceptions are the vars
    the forms cannot see: those that already asked for a bag or key of the new name,
    and, for a key, those that take the whole bag. *)
Theorem renames_keep_meaning c :
  Validate c = None ->
  (forall old val c' sc, Sources c !! old = Some sc -> old <> "" -> rename_source c old val = Done c' ->
     Validate c' = None /\ same_meaning (source_ref old (trim_space val)) c c'
     /\ Sources c' !! trim_space val = Some sc /\ Sources c' !! old = None)
  /\ (forall old val c' bag, Secrets c !! old = Some bag -> old <> "" -> rename_bag c old val = Done c' ->
     for_vars (fun v => ~ asks_bag c (trim_space val) v) c ->
     Validate c' = None /\ same_meaning (bag_ref (Sources c) old (trim_space val)) c c'
     /\ Secrets c' !! trim_space val = Some bag /\ Secrets c' !! old = None)
  /\ (forall b old typedKey val c' bag, Secrets c !! b = Some bag -> bag !! old = Some val -> old <> "" ->
     trim_space typedKey <> old -> commit_key c b old typedKey val = Done c' ->
     for_vars (fun v => asks_bag c b v -> Key v <> trim_space typedKey /\ Key v <> "") c ->
     Validate c' = None /\ same_meaning (key_ref (Sources c) b old (trim_space typedKey)) c c'
     /\ Secrets c' = <[b := <[trim_space typedKey := val]> (delete old bag)]> (Secrets c)).
Proof.
  intros Hv. split; [|split].
  - intros old val c' sc. by apply rename_source_means.
  - intros old val c' bag. by apply rename_bag_means.
  - intros b old typedKey val c' bag. by apply commit_key_means.
Qed.
End Theorems.

(** ** The identifiers follow *)

Lemma rename_values_lookup old new_ m id n :
  rename_values old new_ m !! id = Some n <-> (m !! id = Some old /\ n = new_) \/ (m !! id = Some n /\ n <> old).
Proof.
  unfold rename_values. rewrite lookup_fmap, fmap_Some. split.
  - intros (x & Hx & ->). destruct (String.eqb_spec x old) as [->|]; [by left|by right].
  - intros [[Hx ->]|[Hx Hn]]; eexists; (split; [exact Hx|]); [by rewrite String.eqb_refl|].
    by destruct (String.eqb_spec n old).
Qed.

(** As long as no identifier has the new name, the dictionary stays one to one and
    the identifier of the old name is that of the new. *)
Lemma rename_values_inj old new_ (m : gmap string string) :
  (forall i, m !! i <> Some new_) -> (forall i j n, m !! i = Some n -> m !! j = Some n -> i = j) ->
  (forall i j n, rename_values old new_ m !! i = Some n -> rename_values old new_ m !! j = Some n -> i = j)
  /\ forall i, m !! i = Some old -> rename_values old new_ m !! i = Some new_.
Proof.
  intros Hnew Hinj. split; [|intros i Hi; apply rename_values_lookup; by left].
  intros i j n Hi Hj. apply rename_values_lookup in Hi, Hj.
  destruct Hi as [[Hi ->]|[Hi Hn]], Hj as [[Hj ?]|[Hj ?]]; subst; try (by eapply Hinj); by destruct (Hnew _ Hi) || by destruct (Hnew _ Hj).
Qed.

(** ** An editing session *)

Definition ex_var : VarRef := mkVar "TOKEN" "local" "api" "KEY" ∅ "".
Definition ex_config : Config :=
  mkConfig Version (mkMeta "" 0 0 0 "" "" "" "") (mkAgentConfig "" "" None None) {["local" := mkSource "local" ∅; "old" := mkSource "noop" ∅]}
    [mkMapping "/w/x" "" "" [] [ex_var; mkVar "A" "old" "r" "k" ∅ ""; mkVar "B" "" "" "" ∅ "lit"]] {["api" := {["KEY" := "s3cret"; "K2" := "v"]}]}
    (Some (mkNameMap {["s_1" := "local"; "s_2" := "old"; "s_3" := "gone"]} {["b_1" := "api"]} {["b_1" := {["k_1" := "KEY"; "k_2" := "K2"]}]})).

(** "gone" was deleted in this session and is still in the dictionary: renaming to it
    gives the name two identifiers. *)
Example stale_name_two_ids :
  match rename_source ex_config "old" " gone " with
  | Done c => match IDMap c with Some nm => NSources nm !! "s_2" = Some "gone" /\ NSources nm !! "s_3" = Some "gone" | None => False end
  | _ => False
  end.
Proof. vm_compute. done. Qed.

Definition ex_renamed : Config := match rename_bag ex_config "api" "stripe " with Done c => c | _ => ex_config end.

#[local] Existing Instance map_range_default.

Lemma renames_keep_meaning_witness :
  rename_bag ex_config "api" "stripe " = Done ex_renamed /\ Validate ex_renamed = None
  /\ (fun m => Ref <$> Vars m) <$> Mappings ex_renamed = [["stripe"; "r"; ""]].
Proof.
  assert (Hr : rename_bag ex_config "api" "stripe " = Done ex_renamed) by (vm_compute; reflexivity).
  assert (Hv : Validate ex_config = None) by (vm_compute; reflexivity).
  assert (Hs : Secrets ex_config !! "api" = Some {["KEY" := "s3cret"; "K2" := "v"]}) by (vm_compute; reflexivity).
  assert (Hd : for_vars (fun v => ~ asks_bag ex_config (trim_space "stripe ") v) ex_config).
  { unfold for_vars. repeat constructor; intros (_ & _ & Hx); vm_compute in Hx; discriminate Hx. }
  assert (Hne : "api" <> "") by (intros Hx; discriminate Hx).
  pose proof (renames_keep_meaning ex_config Hv) as Hall.
  pose proof (proj1 (proj2 Hall) "api" "stripe " ex_renamed _ Hs Hne Hr Hd) as Hb.
  split; [exact Hr|]. split; [exact (proj1 Hb)|]. vm_compute. reflexivity.
Defined.
End TuiRefs.
