(* ===== verification/Tui.v ===== *)
(** * The editor's root model (src/internal/tui/model.go, save.go, menu.go, confirm.go, quit_confirm.go)

    The stack of screens, the unsaved-changes flag, the save and the ways out of
    [jitenv config].  The framework (bubbletea) runs the commands an update returns,
    a sequence one after the other, and delivers their messages.  The other screens,
    which edit the configuration, are parameters. *)

From S2P Require Import Prelude GoString GoPath Fs ConfigModel Crypto NameId Seal Store SealIds SealRoundtrip SealStable StoreMigrate StoreSweep Edit TuiRefs Toys Bag.
Import Fs Config Crypto NameId Seal Store SealIds SealRoundtrip StoreMigrate StoreSweep Edit TuiRefs.

Module Tui.

Inductive screen :=
| MenuScreen (cursor : nat) (btnFocus : option nat)
| MenuQuit (cursor : nat)              (* the confirm screen of quitFlow *)
| QuitConfirm (cursor : nat)
| WarningsScreen (ws : list Warning)
| HelpScreen
| OtherScreen (id : nat).

Inductive Msg :=
| KeyMsg (k : string)
| StatusMsg (s : string)
| ErrorMsg (s : string)
| PopMsg
| PopUntilMsg (pred : screen -> bool)
| PushMsg (s : screen)
| DirtyMsg
| SavedMsg (ws : list Warning).

Inductive Cmd :=
| NoCmd
| Quit
| SaveCmd
| SaveAndQuit
| Emit (m : Msg)
| Sequence (l : list Cmd).

Record rootModel := mkRoot {
  cfg : Config;
  stack : list screen;                 (* the top first *)
  dirty : bool;
  savedSinceLastReload : bool;
  flash : string;
  flashErr : bool;
  lastWarnings : list Warning
}.

Definition with_stack (r : rootModel) (st : list screen) : rootModel :=
  mkRoot (cfg r) st (dirty r) (savedSinceLastReload r) (flash r) (flashErr r) (lastWarnings r).
Definition with_flash (r : rootModel) (s : string) (err : bool) : rootModel :=
  mkRoot (cfg r) (stack r) (dirty r) (savedSinceLastReload r) s err (lastWarnings r).
Definition with_dirty (r : rootModel) : rootModel :=
  mkRoot (cfg r) (stack r) true (savedSinceLastReload r) (flash r) (flashErr r) (lastWarnings r).

Definition push (r : rootModel) (s : screen) : rootModel := with_stack r (s :: stack r).
Definition pop (r : rootModel) : rootModel := with_stack r (tail (stack r)).

Definition plural (n : nat) : string := if (n =? 1)%nat then EmptyString else "s".

Definition saved_flash (n : nat) : string :=
  if (0 <? n)%nat then
    "saved (" +:+ itoa (N.of_nat n) +:+ " warning" +:+ plural n +:+ ") " +:+ utf8 [226; 128; 148]%nat +:+ " press w to view"
  else "saved".

(** ** The screens of this file *)

(** confirmScreen.Update: the cursor, or the command of the choice. *)
Definition confirm_update (n cursor : nat) (choose : nat -> Cmd) (k : string) : nat * Cmd :=
  if String.eqb k "left" || String.eqb k "h" || String.eqb k "shift+tab" then (pred cursor, NoCmd)
  else if String.eqb k "right" || String.eqb k "l" || String.eqb k "tab" then
    (if (cursor <? n - 1)%nat then S cursor else cursor, NoCmd)
  else if String.eqb k "enter" then (cursor, choose cursor)
  else if String.eqb k "esc" then (cursor, Emit PopMsg)
  else (cursor, NoCmd).

(** The callback of newQuitConfirmScreen: Save, Discard, Cancel. *)
Definition quit_choice (cursor : nat) : Cmd :=
  match cursor with O => SaveAndQuit | 1%nat => Quit | _ => Emit PopMsg end.

(** The callback of quitFlow: Save & quit, Discard, Back. *)
Definition menu_quit_choice (cursor : nat) : Cmd :=
  match cursor with
  | O => Sequence [Emit PopMsg; SaveCmd; Quit]
  | 1%nat => Sequence [Emit PopMsg; Quit]
  | _ => Emit PopMsg
  end.

Definition quitFlow (r : rootModel) : Cmd := if negb (dirty r) then Quit else Emit (PushMsg (MenuQuit 0)).

Definition menu_items : nat := 4.
Definition menu_buttons : nat := 2.

Section Root.
Context (other_update : nat -> Msg -> nat * Cmd) (other_text : nat -> bool) (open_item : nat -> screen) (helpful : screen -> bool)
  (init : screen -> Cmd).

Definition menu_activate (r : rootModel) (cursor : nat) (btnFocus : option nat) : Cmd :=
  match btnFocus with
  | None => Emit (PushMsg (open_item cursor))
  | Some 0%nat => SaveCmd
  | Some 1%nat => quitFlow r
  | Some _ => NoCmd
  end.

Definition menu_update (r : rootModel) (cursor : nat) (btnFocus : option nat) (k : string) : screen * Cmd :=
  if String.eqb k "up" || String.eqb k "k" then
    (match btnFocus with Some _ => MenuScreen cursor None | None => MenuScreen (pred cursor) None end, NoCmd)
  else if String.eqb k "down" || String.eqb k "j" then
    (match btnFocus with
     | None => if (cursor <? menu_items - 1)%nat then MenuScreen (S cursor) None else MenuScreen cursor (Some 0%nat)
     | Some b => MenuScreen cursor (Some b)
     end, NoCmd)
  else if String.eqb k "tab" then
    (MenuScreen cursor (match btnFocus with
                        | None => Some 0%nat
                        | Some b => if (b <? menu_buttons - 1)%nat then Some (S b) else None
                        end), NoCmd)
  else if String.eqb k "shift+tab" then
    (MenuScreen cursor (match btnFocus with
                        | None => Some (menu_buttons - 1)%nat
                        | Some (S b) => Some b
                        | Some O => None
                        end), NoCmd)
  else if String.eqb k "left" || String.eqb k "h" then
    (MenuScreen cursor (match btnFocus with Some (S b) => Some b | b => b end), NoCmd)
  else if String.eqb k "right" || String.eqb k "l" then
    (MenuScreen cursor (match btnFocus with
                        | Some b => if (b <? menu_buttons - 1)%nat then Some (S b) else Some b
                        | None => None
                        end), NoCmd)
  else if String.eqb k "enter" then (MenuScreen cursor btnFocus, menu_activate r cursor btnFocus)
  else if String.eqb k "esc" || String.eqb k "q" then (MenuScreen cursor btnFocus, quitFlow r)
  else (MenuScreen cursor btnFocus, NoCmd).

(** The top screen's own update. *)
Definition screen_update (r : rootModel) (s : screen) (m : Msg) : screen * Cmd :=
  match s, m with
  | MenuScreen c b, KeyMsg k => menu_update r c b k
  | MenuQuit c, KeyMsg k => let '(c', cmd) := confirm_update 3 c menu_quit_choice k in (MenuQuit c', cmd)
  | QuitConfirm c, KeyMsg k => let '(c', cmd) := confirm_update 3 c quit_choice k in (QuitConfirm c', cmd)
  | WarningsScreen _, KeyMsg _ => (s, Emit PopMsg)
  | HelpScreen, KeyMsg _ => (s, Emit PopMsg)
  | OtherScreen id, _ => let '(id', cmd) := other_update id m in (OtherScreen id', cmd)
  | _, _ => (s, NoCmd)
  end.

Definition screenCapturesText (s : screen) : bool := match s with OtherScreen id => other_text id | _ => false end.

Definition quitOrConfirm (r : rootModel) : rootModel * Cmd :=
  if negb (dirty r) then (r, Quit)
  else match stack r with
       | QuitConfirm _ :: _ => (r, Quit)
       | _ => (push r (QuitConfirm 0), NoCmd)
       end.

(** The loop of popUntilMsg. *)
Fixpoint pop_until (pred : screen -> bool) (st : list screen) : list screen :=
  match st with
  | [] => []
  | s :: st' => if pred s then s :: st' else pop_until pred st'
  end.

(** The end of Update: the top screen's turn. *)
Definition delegate (r : rootModel) (m : Msg) : rootModel * Cmd :=
  match stack r with
  | [] => (r, Quit)
  | s :: st => let '(s', cmd) := screen_update r s m in (with_stack r (s' :: st), cmd)
  end.

Definition Update (r : rootModel) (m : Msg) : rootModel * Cmd :=
  match m with
  | StatusMsg s => (with_flash r s false, NoCmd)
  | ErrorMsg s => (with_flash r s true, NoCmd)
  | PopMsg =>
      if (length (stack r) =? 1)%nat && dirty r then quitOrConfirm r
      else let r := pop r in
           match stack r with [] => (r, Quit) | _ => (r, NoCmd) end
  | PopUntilMsg pred =>
      let st := pop_until pred (stack r) in
      (with_stack r st, match st with [] => Quit | _ => NoCmd end)
  | PushMsg s => (push r s, init s)
  | DirtyMsg => (with_dirty r, NoCmd)
  | SavedMsg ws =>
      (mkRoot (cfg r) (stack r) false true (saved_flash (length ws)) false ws, NoCmd)
  | KeyMsg k =>
      if String.eqb k "ctrl+c" then quitOrConfirm r
      else if String.eqb k "ctrl+s" then (r, SaveCmd)
      else if String.eqb k "?" && match stack r with s :: _ => helpful s | [] => false end then (r, Emit (PushMsg HelpScreen))
      else if String.eqb k "w" && negb (bool_decide (lastWarnings r = []))
              && match stack r with s :: _ => negb (screenCapturesText s) | [] => false end
              && match stack r with WarningsScreen _ :: _ => false | _ => true end
      then (push r (WarningsScreen (lastWarnings r)), NoCmd)
      else delegate r m
  end.

(** ** The unsaved-changes guard *)

(** With unsaved changes an update asks to leave only from the prompt itself, when
    no screen is left, or when another screen asks for it. *)
Lemma Update_quit_guard r m r' :
  dirty r = true -> Update r m = (r', Quit) ->
  (exists c st, stack r = QuitConfirm c :: st) \/ (exists pred, m = PopUntilMsg pred /\ pop_until pred (stack r) = [])
  \/ stack r = [] \/ (exists s, m = PushMsg s /\ init s = Quit) \/ exists id st, stack r = OtherScreen id :: st /\ (other_update id m).2 = Quit.
Proof.
  intros Hd. unfold Update.
  assert (Hq : quitOrConfirm r = (r', Quit) -> exists c st, stack r = QuitConfirm c :: st).
  { unfold quitOrConfirm. rewrite Hd. cbn [negb]. destruct (stack r) as [|[] st]; try done. intros _. by eexists _, _. }
  destruct m as [k|s|s| |pred|s| |ws]; try done.
  - destruct (String.eqb k "ctrl+c"); [by left; apply Hq|]. destruct (String.eqb k "ctrl+s"); [done|].
    destruct (_ && _); [done|]. destruct (_ && _); [done|]. unfold delegate.
    destruct (stack r) as [|s st]; [by right; right; left|].
    destruct (screen_update r s (KeyMsg k)) as [s' cmd] eqn:Hs. intros [= _ ->].
    destruct s as [cur b|cur|cur|ws| |id]; cbn [screen_update] in Hs.
    + unfold menu_update, menu_activate, quitFlow in Hs. rewrite Hd in Hs. cbn [negb] in Hs.
      repeat (destruct (_ || _) in Hs; [by injection Hs|]). destruct (String.eqb k "tab"), (String.eqb k "shift+tab"), (String.eqb k "enter");
        try (by injection Hs); repeat (destruct (_ || _) in Hs; [try (by injection Hs)|]); try (by injection Hs);
        by destruct b as [[|[|]]|]; injection Hs.
    + unfold confirm_update in Hs. repeat (destruct (_ || _) in Hs; [by injection Hs|]).
      destruct (String.eqb k "enter"); [by destruct cur as [|[|]]; injection Hs|]. by destruct (String.eqb k "esc"); injection Hs.
    + left. by eexists _, _.
    + by injection Hs.
    + by injection Hs.
    + right. right. right. right. exists id, st. split; [done|]. by destruct (other_update id (KeyMsg k)); injection Hs as _ ->.
  - destruct ((length (stack r) =? 1)%nat) eqn:Hl; [rewrite Hd; by left; apply Hq|]. cbn [andb].
    unfold pop, with_stack. cbn [stack]. destruct (stack r) as [|s [|s2 st]]; [by right; right; left|done|done].
  - intros [= _ Hp]. right. left. exists pred. split; [done|]. by destruct (pop_until pred (stack r)).
  - intros [= _ Hi]. right. right. right. left. by exists s.
Qed.
End Root.

(** ** Sessions *)

Record session := mkSession { root : rootModel; disk : world; quit : bool }.

Definition with_cfg (r : rootModel) (c : Config) : rootModel :=
  mkRoot c (stack r) (dirty r) (savedSinceLastReload r) (flash r) (flashErr r) (lastWarnings r).

Section Session.
Context `{Os, Rand, !RandLaws, AEAD, !AEADLaws, Toml, !TomlLaws, NameMapCodec, !NameMapCodecLaws, MapRange}.
Context (other_update : nat -> Msg -> nat * Cmd) (other_text : nat -> bool) (open_item : nat -> screen) (helpful : screen -> bool)
  (init : screen -> Cmd).
Context (path key : string).

(** The persistence of saveCmd and saveAndQuitCmd, on the snapshot they take: the
    warnings and the dictionary that goes back into the live configuration. *)
Definition save_config (c : Config) : M string (list Warning * option NameMap) :=
  match Validate c with
  | Some _ => throw "validate"
  | None =>
      let ws := Warnings c in
      c2 ← mapErr (fun _ => "encrypt") (draw SSeal (EncryptInPlace c key));
      _ ← mapErr (fun _ => "save") (AtomicSave path c2);
      mret (ws, IDMap c2)
  end.

(** Running a command and delivering what it says; [fuel] bounds the exchange. *)
Fixpoint exec (fuel : nat) (c : Cmd) (s : session) : session :=
  match fuel with
  | O => s
  | S n =>
      if quit s then s
      else
        let emit m s := let '(r, cmd) := Update other_update other_text open_item helpful init (root s) m in
                        exec n cmd (mkSession r (disk s) false) in
        match c with
        | NoCmd => s
        | Quit => mkSession (root s) (disk s) true
        | Emit m => emit m s
        | Sequence l => fold_left (fun s c => exec n c s) l s
        | SaveCmd =>
            match save_config (cfg (root s)) (disk s) with
            | (Ok (ws, nm), w) => emit (SavedMsg ws) (mkSession (with_cfg (root s) (with_idmap (cfg (root s)) nm)) w false)
            | (Err e, w) => emit (ErrorMsg e) (mkSession (root s) w false)
            end
        | SaveAndQuit =>
            match save_config (cfg (root s)) (disk s) with
            | (Ok (ws, nm), w) => mkSession (with_cfg (root s) (with_idmap (cfg (root s)) nm)) w true
            | (Err e, w) => emit (ErrorMsg e) (mkSession (root s) w false)
            end
        end
  end.

(** ** What a save leaves *)

(** A configuration the formats can carry, with identifiers of the right form. *)
Definition savable (c : Config) : Prop :=
  exists prev, prev_names key c = Ok prev /\ names_wf prev /\ sealable c /\ codable key c.

Hypothesis Hmeta : no_meta path.
Hypothesis Hname : forall rnd, temp_name (GoPath.Dir path) savePattern rnd <> path.

Lemma save_config_spec c w r w' :
  savable c -> save_config c w = (r, w') ->
  match r with
  | Ok (_, nm) => holds path key c (fs w') /\ exists d, nm = Some d /\ names_wf d
  | Err _ => fs w' !! path = fs w !! path
  end.
Proof.
  intros (prev & Hprev & Hwf & Hsl & Hcod). unfold save_config. destruct (Validate c); [by intros [= <- <-]|]. intros Hr.
  apply M_bind_inv in Hr as [(c2 & w1 & (r1 & He & Hr1)%mapErr_inv & Hr)|(e & (r1 & He & Hr1)%mapErr_inv & ->)].
  2: { unfold draw in He. destruct (EncryptInPlace c key (draws w)) as [[? ?]|?]; injection He as <- <-; done. }
  destruct r1 as [c2'|]; [|done]. injection Hr1 as <-.
  assert (Hrun : forall ra wa, AtomicSave path c2 w1 = (ra, wa) -> saveAndReencrypt path c key w = (ra, wa)).
  { intros ra wa Ha. unfold saveAndReencrypt, mbind, M_bind. by rewrite He. }
  apply M_bind_inv in Hr as [(u & w2 & (r2 & Ha & Hr2)%mapErr_inv & Hr)|(e & (r2 & Ha & Hr2)%mapErr_inv & ->)];
    apply Hrun in Ha; apply (save_opens _ _ _ _ _ _ _ Hmeta Hname Hprev Hwf Hsl Hcod) in Ha.
  - injection Hr as <- <-. destruct r2; [|done]. destruct Ha as (data & t & Hf & Ho). split; [by exists data, 384%Z, t|].
    unfold draw in He. destruct (EncryptInPlace c key (draws w)) as [[c3 n3]|?] eqn:Henc; [|done]. injection He as -> _.
    by eapply enc_names_wf.
  - destruct r2; [done|]. exact Ha.
Qed.

(** The session's promise: when nothing is marked unsaved, the file holds what the
    editor shows. *)
Definition honest (s : session) : Prop :=
  savable (cfg (root s)) /\ (dirty (root s) = false -> holds path key (cfg (root s)) (fs (disk s))).

Hypothesis Hcodable : forall c, codable key c.

Lemma holds_content c c' f : content c = content c' -> holds path key c f -> holds path key c' f.
Proof.
  intros Hc (data & m & t & Hf & (cf & d & nm & H1' & H2' & H3' & H4')). exists data, m, t. split; [done|].
  exists cf, d, nm. split; [done|]. split; [done|]. by rewrite <- Hc.
Qed.

Lemma savable_idmap c d : savable c -> names_wf d -> savable (with_idmap c (Some d)).
Proof.
  intros (prev & _ & _ & Hsl & _) Hd. exists d. split; [done|]. split; [done|]. split; [by apply (sealable_content c)|apply Hcodable].
Qed.

(** No update edits the configuration here, and only a save clears the mark. *)
Lemma Update_keeps r m r' cmd :
  Update other_update other_text open_item helpful init r m = (r', cmd) ->
  cfg r' = cfg r /\ ((forall ws, m <> SavedMsg ws) -> dirty r' = false -> dirty r = false).
Proof.
  unfold Update, quitOrConfirm, delegate, push, pop, with_stack.
  destruct m as [k|s|s| |pred|s| |ws]; try (by intros [= <- _]).
  - repeat case_match; by intros [= <- _].
  - repeat case_match; by intros [= <- _].
  - intros [= <- _]. split; [done|]. intros Hn. by destruct (Hn ws).
Qed.

(** Only a save says that it saved. *)
Fixpoint genuine (c : Cmd) : bool :=
  match c with
  | Emit (SavedMsg _) => false
  | Sequence l => forallb genuine l
  | _ => true
  end.

Hypothesis Hother : forall id m, genuine (other_update id m).2 = true.
Hypothesis Hinit : forall sc, genuine (init sc) = true.

Lemma confirm_genuine n cur choose k : (forall i, genuine (choose i) = true) -> genuine (confirm_update n cur choose k).2 = true.
Proof. intros Hc. unfold confirm_update. repeat (case_match; try done). apply Hc. Qed.

Lemma screen_genuine r sc m : genuine (screen_update other_update open_item r sc m).2 = true.
Proof.
  assert (Ho : forall id, genuine (let '(id', cmd) := other_update id m in (OtherScreen id', cmd)).2 = true).
  { intros id. pose proof (Hother id m) as Hx. by destruct (other_update id m). }
  destruct sc as [c b|c|c|ws| |id]; [destruct m as [k|?|?| |?|?| |?]; try done..|destruct m; apply Ho]; cbn [screen_update].
  - unfold menu_update, menu_activate, quitFlow. repeat (case_match; try done).
  - pose proof (confirm_genuine 3 c menu_quit_choice k ltac:(intros [|[|]]; reflexivity)) as Hg. by destruct (confirm_update _ _ _ _).
  - pose proof (confirm_genuine 3 c quit_choice k ltac:(intros [|[|]]; reflexivity)) as Hg. by destruct (confirm_update _ _ _ _).
Qed.

Lemma Update_genuine r m : genuine (Update other_update other_text open_item helpful init r m).2 = true.
Proof.
  unfold Update, quitOrConfirm, delegate. destruct m as [k|s|s| |pred|s| |ws]; try done; try apply Hinit.
  - assert (Hdel : forall sc st, genuine (let '(s', cmd) := screen_update other_update open_item r sc (KeyMsg k) in (with_stack r (s' :: st), cmd)).2 = true).
    { intros sc st. pose proof (screen_genuine r sc (KeyMsg k)) as Hx. by destruct (screen_update _ _ _ _ _). }
    destruct (stack r) as [|sc st]; repeat (destruct (_ && _); [done|]); repeat (case_match; try done); try apply Hdel.
    all: by match goal with He : screen_update _ _ _ _ _ = _ |- _ => pose proof (f_equal (fun x => genuine x.2) He) as Hx; rewrite (screen_genuine r _ _) in Hx end.
  - repeat (case_match; try done).
  - cbn [snd]. by case_match.
Qed.

(**  "Saved" means saved.  Start from a session whose file holds what the editor
    shows unless it is marked unsaved.  However keys and messages are handled,
    however many nested commands they set off, whichever calls of a save fail: as
    long as no edit comes between, the session still keeps that promise - the mark
    goes away only with a file that opens to the configuration shown, and a failed
    save leaves the mark and the file. *)
Theorem exec_honest fuel c s :
  genuine c = true -> honest s -> honest (exec fuel c s).
Proof.
  revert c s. induction fuel as [|n IH]; intros c s Hg Hs; [done|]. cbn [exec]. destruct (quit s) eqn:Hq; [done|].
  assert (Hemit : forall m s, (forall ws, m <> SavedMsg ws) -> honest s -> honest (let '(r, cmd) :=
      Update other_update other_text open_item helpful init (root s) m in exec n cmd (mkSession r (disk s) false))).
  { clear s Hs Hq. intros m s Hm [Hs Hd]. pose proof (Update_genuine (root s) m) as Hgen.
    destruct (Update _ _ _ _ _ (root s) m) as [r cmd] eqn:Hu. apply Update_keeps in Hu as [Hc Hdirty].
    apply IH; [exact Hgen|]. split; cbn [root disk]; rewrite Hc; [done|]. intros Hf. apply Hd. by apply Hdirty. }
  assert (Hsave : forall r w, save_config (cfg (root s)) (disk s) = (r, w) -> match r with
      | Ok (_, nm) => savable (with_idmap (cfg (root s)) nm) /\ holds path key (with_idmap (cfg (root s)) nm) (fs w)
      | Err _ => honest (mkSession (root s) w false) end).
  { intros r w Hw. destruct Hs as [Hsv Hd]. apply save_config_spec in Hw; [|done]. destruct r as [[ws nm]|e].
    - destruct Hw as (Hh & d & -> & Hd2). split; [by apply savable_idmap|]. by apply (holds_content (cfg (root s))).
    - split; [done|]. cbn [root disk]. intros Hf. destruct (Hd Hf) as (data & m & t & Hfile & Ho). exists data, m, t.
      split; [by rewrite Hw|done]. }
  destruct c as [| | | |m|l]; try done.
  - destruct (save_config (cfg (root s)) (disk s)) as [r w] eqn:Hw. specialize (Hsave _ _ eq_refl). destruct r as [[ws nm]|e].
    + destruct Hsave as [Hsv Hh]. cbn [Update]. apply IH; [done|]. by split.
    + by apply (Hemit (ErrorMsg e) (mkSession (root s) w false)).
  - destruct (save_config (cfg (root s)) (disk s)) as [r w] eqn:Hw. specialize (Hsave _ _ eq_refl). destruct r as [[ws nm]|e].
    + destruct Hsave as [Hsv Hh]. by split.
    + by apply (Hemit (ErrorMsg e) (mkSession (root s) w false)).
  - apply Hemit; [|done]. intros ws ->. done.
  - cbn [genuine] in Hg. clear Hq Hsave. revert s Hs. induction l as [|c l IHl]; intros s Hs; [done|]. cbn [fold_left forallb] in *.
    apply andb_true_iff in Hg as [Hc Hl]. apply IHl; [exact Hl|]. by apply IH.
Qed.

(** Leaving through Save of the prompt keeps the edits: the program ends only with a
    file that opens to them, and else the prompt stays. *)
Lemma save_and_quit_keeps n s :
  savable (cfg (root s)) -> quit s = false ->
  let s' := exec (S (S n)) SaveAndQuit s in
  if quit s' then holds path key (cfg (root s)) (fs (disk s'))
  else root s' = with_flash (root s) (flash (root s')) true /\ fs (disk s') !! path = fs (disk s) !! path.
Proof.
  intros Hs Hq. cbv zeta. cbn [exec]. rewrite Hq.
  destruct (save_config (cfg (root s)) (disk s)) as [[[ws nm]|e] w] eqn:Hw; apply save_config_spec in Hw; try done.
  by destruct Hw.
Qed.
End Session.

(** ** Sessions of a real configuration *)

#[local] Existing Instance toy_aead.
#[local] Existing Instance toy_rand.
#[local] Existing Instance Toys.toy_toml.
#[local] Existing Instance Toys.toy_codec.
#[local] Existing Instance Bag.ex_os.

Definition ex_other (id : nat) (_ : Msg) : nat * Cmd := (id, NoCmd).
#[local] Existing Instance map_range_default.

Definition ex_exec (c : Cmd) (s : session) : session :=
  exec ex_other (fun _ => false) OtherScreen (fun _ => false) (fun _ => NoCmd) "/h/config.toml" Bag.ex_key 10 c s.

Definition ex_root (c : Config) (st : list screen) : rootModel := mkRoot c st true false "" false [].
Definition ex_file (w : world) : option node := fs w !! "/h/config.toml".

(** A new bag, and a mapping to a source that was deleted. *)
Definition ex_invalid : Config :=
  with_mappings Bag.ex_bag [mkMapping "/w/x" "" "" [] [mkVar "A" "gone" "r" "k" ∅ ""]].

(** Save & quit of the menu leaves although the save failed: the edits are gone. *)
Example menu_save_and_quit_loses :
  let s := ex_exec (Emit (KeyMsg "enter")) (mkSession (ex_root ex_invalid [MenuQuit 0; MenuScreen 0 None]) Bag.ex_init false) in
  quit s = true /\ dirty (root s) = true /\ flash (root s) = "validate" /\ bool_decide (ex_file (disk s) = ex_file Bag.ex_init) = true.
Proof. vm_compute. done. Qed.

(** The same choice of the other prompt stays. *)
Example prompt_save_stays :
  let s := ex_exec (Emit (KeyMsg "enter")) (mkSession (ex_root ex_invalid [QuitConfirm 0; MenuScreen 0 None]) Bag.ex_init false) in
  quit s = false /\ dirty (root s) = true.
Proof. vm_compute. done. Qed.

(** The save runs beside the editor.  An edit made after the snapshot and before the
    message of the save loses its mark: the program then leaves without a question,
    and the file lacks the edit. *)
Definition ex_edited : Config := with_secrets Bag.ex_bag {["late" := {["K" := "v"]}]}.
Definition ex_update (r : rootModel) (m : Msg) : rootModel * Cmd :=
  Update ex_other (fun _ => false) OtherScreen (fun _ => false) (fun _ => NoCmd) r m.

Example edit_during_save_unmarked :
  let r0 := ex_root Bag.ex_bag [MenuScreen 0 None] in
  let '(saved, w) := save_config "/h/config.toml" Bag.ex_key (cfg r0) Bag.ex_init in
  let r1 := (ex_update (with_cfg r0 ex_edited) DirtyMsg).1 in
  let r2 := (ex_update r1 (SavedMsg (match saved with Ok x => x.1 | Err _ => [] end))).1 in
  is_ok saved = true /\ dirty r2 = false
  /\ match (ex_update r2 (KeyMsg "ctrl+c")).2 with Quit => true | _ => false end = true
  /\ match Bag.ex_open w with Ok c => bool_decide (Secrets c !! "late" = None) && bool_decide (is_Some (Secrets c !! "prod")) | Err _ => false end = true.
Proof. vm_compute. done. Qed.

(** ** Ctrl+S *)

Definition ex_session : session := mkSession (ex_root Bag.ex_plain [MenuScreen 0 None]) Bag.ex_init false.
Definition ex_saved : session := ex_exec (Emit (KeyMsg "ctrl+s")) ex_session.

Lemma ex_codable c : @codable toy_rand toy_aead Toys.toy_toml Toys.toy_codec map_range_default Bag.ex_key c.
Proof. intros n c2 n' _. split; [intros nm _; exact I|]. split; [exact I|intros s; exact I]. Qed.

Lemma ex_savable : @savable toy_rand toy_aead Toys.toy_toml Toys.toy_codec map_range_default Bag.ex_key Bag.ex_plain.
Proof.
  exists empty_names. split; [vm_compute; reflexivity|]. split; [exact SealStable.empty_names_wf|].
  split; [exact Bag.ex_plain_sealable|apply ex_codable].
Qed.

Lemma exec_honest_witness :
  dirty (root ex_session) = true /\ dirty (root ex_saved) = false
  /\ holds "/h/config.toml" Bag.ex_key (cfg (root ex_saved)) (fs (disk ex_saved)).
Proof.
  assert (Hd : dirty (root ex_saved) = false) by (vm_compute; reflexivity).
  split; [reflexivity|]. split; [exact Hd|].
  assert (Hh : honest "/h/config.toml" Bag.ex_key ex_saved).
  { apply (@exec_honest Bag.ex_os toy_rand toy_rand_laws toy_aead toy_laws Toys.toy_toml Toys.toy_toml_laws Toys.toy_codec
      Toys.toy_codec_laws map_range_default ex_other (fun _ => false) OtherScreen (fun _ => false) (fun _ => NoCmd)
      "/h/config.toml" Bag.ex_key).
    - vm_compute. reflexivity.
    - intros rnd. vm_compute. discriminate.
    - exact ex_codable.
    - intros id m. reflexivity.
    - intros sc. reflexivity.
    - reflexivity.
    - split; [exact ex_savable|]. intros Hx. discriminate Hx. }
  exact (proj2 Hh Hd).
Defined.
End Tui.
