(* ===== verification/RemotePair.v ===== *)
(** * A blob and its meta on a remote (Pull of src/internal/syncadapters/s3/s3.go and ssh/ssh.go)

    What the two reads of a pull amount to, shared by the adapters whose remote is a
    service, and the toy codec of the pair's meta. *)

From S2P Require Import Prelude GoString Fs Protocol Store Toys Sync SyncFile.
Import Protocol Sync.

Module RemotePair.

(** One read: the object is not there, or it could not be read, or its bytes. *)
Inductive got := GMissing | GFailed | GData (data : string).

#[export] Instance got_eq_dec : EqDecision got.
Proof. solve_decision. Defined.

Definition is_missing (g : got) : bool := match g with GMissing => true | _ => false end.
Definition is_data (g : got) : bool := match g with GData _ => true | _ => false end.

Section Pair.
Context `{Codec SMeta}.

(** [absent] is what the engine finds in the error of a blob that is not there, once
    Pull has wrapped it. *)
Definition classify (verb : string) (absent : SyErr) (b m : got) : res SyErr (string * SMeta) :=
  if is_missing b && is_missing m then Err NoRemoteState
  else if is_missing b && is_data m then Err RemoteIncomplete
  else if is_missing m && is_data b then Err RemoteIncomplete
  else match b, m with
       | GData blob, GData mb =>
           match unmarshal_json mb with
           | Some meta => Ok (blob, meta)
           | None => Err (AdapterErr "parse meta")
           end
       | GData _, _ => Err (AdapterErr (verb +:+ " meta"))
       | GFailed, _ => Err (AdapterErr (verb +:+ " blob"))
       | GMissing, _ => Err absent
       end.

Lemma classify_Ok verb absent b m blob meta :
  classify verb absent b m = Ok (blob, meta) -> b = GData blob /\ exists mb, m = GData mb /\ unmarshal_json mb = Some meta.
Proof.
  unfold classify. destruct b as [| |x], m as [| |y]; cbn; try done.
  destruct (unmarshal_json y) as [m|] eqn:Hm; [|done]. intros [= <- <-]. split; [done|]. by exists y.
Qed.

(** A pair is read as nothing only when the blob is not there and no meta was read. *)
Lemma classify_none verb absent b m :
  classify verb absent b m = Err NoRemoteState -> b = GMissing /\ (m = GMissing \/ (m = GFailed /\ absent = NoRemoteState)).
Proof.
  unfold classify. destruct b, m; cbn; try done; [by auto| |by destruct (unmarshal_json _)]. intros [= ->]. by auto.
Qed.

Lemma classify_incomplete verb absent b m :
  absent <> RemoteIncomplete ->
  classify verb absent b m = Err RemoteIncomplete <-> is_missing b && is_data m || is_missing m && is_data b = true.
Proof. intros Ha. unfold classify. destruct b, m; cbn; try (by split; intros ?; simplify_eq/=). by destruct (unmarshal_json _). Qed.
End Pair.


End RemotePair.
