(* ===== verification/S3.v ===== *)
(** * The S3 adapter (src/internal/syncadapters/s3/s3.go)

    A remote made of two objects of a bucket.  The service is an interface whose calls
    may be preceded by anything the rest of the world does to the bucket
    ([interfere]); the adapter keeps the entity tag its last pull saw and makes the next
    blob conditional on it.  Every request is recorded with the bucket it met. *)

From S2P Require Import Prelude GoString ConfigModel Crypto Protocol Store Toys Sha256 Sync SyncProtocol SyncFile RemotePair.
Import Config Crypto Protocol Sync RemotePair.

Module S3.

(** ** The service *)

(** What the SDK's errors are to errors.As. *)
Inductive ApiErr := NoSuchKey | NotFound | Coded (code : string) | Transport.

Definition isNotFound (e : ApiErr) : bool :=
  match e with
  | NoSuchKey | NotFound => true
  | Coded code => String.eqb code "NotFound" || String.eqb code "NoSuchKey"
  | Transport => false
  end.

Definition isPreconditionFailed (e : ApiErr) : bool :=
  match e with
  | Coded code => String.eqb code "PreconditionFailed" || String.eqb code "412"
  | _ => false
  end.

Inductive Encryption := AwsKms | Aes256.

Record PutInput := mkPutInput {
  Bucket : string;
  Key : string;
  Body : string;
  IfMatch : option string;
  IfNoneMatch : option string;
  ServerSideEncryption : option Encryption;
  SSEKMSKeyId : option string
}.

(** A grant of an ACL: the URI of its grantee, when it has one. *)
Record Grant := mkGrant { GranteeURI : option string; Permission : string }.

(** The calls of the [api] seam.  A get answers with the body, whose read may fail, and
    the entity tag, which some stores leave out. *)
Class S3Api (W : Type) := {
  put_object : PutInput -> W -> res ApiErr unit * W;
  get_object : string -> string -> W -> res ApiErr (option string * option string);
  head_object : string -> string -> W -> res ApiErr unit;
  policy_status : string -> W -> res ApiErr (option bool);
  bucket_acl : string -> W -> res ApiErr (list Grant);
  object_at : W -> string -> string -> option (string * string)    (* bytes and entity tag *)
}.

(** What S3's documentation says of objects, entity tags and conditional writes.  A
    failed put that was not refused may have landed all the same. *)
Class S3Laws (W : Type) `{S3Api W} : Prop := {
  get_reads : forall b k w body et, get_object b k w = Ok (Some body, et) ->
    exists e, object_at w b k = Some (body, e) /\ (et = None \/ et = Some e);
  get_missing : forall b k w e, get_object b k w = Err e -> isNotFound e = true -> object_at w b k = None;
  tag_identifies : forall w w' b k d d' e, object_at w b k = Some (d, e) -> object_at w' b k = Some (d', e) -> d = d';
  put_lands : forall i w w', put_object i w = (Ok tt, w') ->
    (forall e, IfMatch i = Some e -> exists d, object_at w (Bucket i) (Key i) = Some (d, e))
    /\ (IfNoneMatch i = Some "*" -> object_at w (Bucket i) (Key i) = None)
    /\ exists e, object_at w' (Bucket i) (Key i) = Some (Body i, e);
  put_refused : forall i w w' e, put_object i w = (Err e, w') -> isPreconditionFailed e = true ->
    forall b k, object_at w' b k = object_at w b k;
  put_elsewhere : forall i w b k, (b, k) <> (Bucket i, Key i) -> object_at (put_object i w).2 b k = object_at w b k
}.

(** ** The adapter *)

(** What the closure of New hands to the SDK. *)
Record ClientOptions := mkOptions {
  region : option string;
  static_creds : option (string * string * string);
  base_endpoint : option string;
  path_style : bool
}.

Record adapter := mkAdapterS {
  bucket : string;
  key : string;
  kmsKey : string;
  copts : ClientOptions;
  cli : bool;                            (* the client is built *)
  cliErr : option (SyErr * Z);           (* the last failure to build it, and when *)
  lastBlobETag : string;
  lastObserved : bool
}.

Definition asString (v : option any) : string := match v with Some (AStr s) => s | _ => EmptyString end.
Definition asBool (v : option any) : bool := match v with Some (ABool b) => b | _ => false end.
Definition unless_empty (s : string) : option string := if str_empty s then None else Some s.

Definition New (cfg : gmap string any) : res SyErr adapter :=
  let bucket := asString (cfg !! "bucket") in
  let key := asString (cfg !! "key") in
  let accessKeyID := asString (cfg !! "access_key_id") in
  let secretAccessKey := asString (cfg !! "secret_access_key") in
  if str_empty bucket then Err (AdapterErr "bucket param is required")
  else if str_empty key then Err (AdapterErr "key param is required")
  else if negb (Bool.eqb (negb (str_empty accessKeyID)) (negb (str_empty secretAccessKey))) then
    Err (AdapterErr "access_key_id and secret_access_key must be set together")
  else Ok (mkAdapterS bucket key (asString (cfg !! "kms_key_id"))
             (mkOptions (unless_empty (asString (cfg !! "region")))
                (if str_empty accessKeyID then None
                 else Some (accessKeyID, secretAccessKey, asString (cfg !! "session_token")))
                (unless_empty (asString (cfg !! "endpoint_override")))
                (asBool (cfg !! "use_path_style")))
             false None EmptyString false).

Definition metaKey (a : adapter) : string := key a +:+ ".meta.json".
Definition clientInitBackoff : Z := 5 * 1000000000.
Definition groupAllUsers : string := "http://acs.amazonaws.com/groups/global/AllUsers".
Definition groupAuthenticatedUsers : string := "http://acs.amazonaws.com/groups/global/AuthenticatedUsers".

Inductive Call :=
| CHead (bucket key : string)
| CPolicy (bucket : string)
| CAcl (bucket : string)
| CGet (bucket key : string)
| CPut (i : PutInput).

(** The adapter, the service, the calls made so far and what each met. *)
Record conn (W : Type) := mkConn { ad : adapter; store : W; tick : nat; sent : list (Call * W) }.
Arguments mkConn {W} _ _ _ _.
Arguments ad {W} _.
Arguments store {W} _.
Arguments tick {W} _.
Arguments sent {W} _.

Definition with_ad {W} (c : conn W) (a : adapter) : conn W := mkConn a (store c) (tick c) (sent c).
Definition with_cli (a : adapter) (b : bool) (e : option (SyErr * Z)) : adapter :=
  mkAdapterS (bucket a) (key a) (kmsKey a) (copts a) b e (lastBlobETag a) (lastObserved a).

Definition C (W A : Type) : Type := conn W -> res SyErr A * conn W.

#[export] Instance C_ret W : MRet (C W) := fun A a c => (Ok a, c).
#[export] Instance C_bind W : MBind (C W) := fun A B f m c =>
  match m c with (Ok a, c') => f a c' | (Err e, c') => (Err e, c') end.

Definition fail {W A} (e : SyErr) : C W A := fun c => (Err e, c).
Definition caught {W A} (m : C W A) : C W (res SyErr A) := fun c => let '(r, c') := m c in (Ok r, c').

Section Adapter.
Context {W : Type} `{S3Api W, Codec SMeta}.
(** The SDK building a client, the clock in nanoseconds, and the other users of the
    bucket, at each call. *)
Context (newClient : ClientOptions -> nat -> option SyErr) (now : nat -> Z) (interfere : nat -> W -> W).

Definition client : C W unit := fun c =>
  let a := ad c in
  if cli a then (Ok tt, c)
  else
    let build :=
      match newClient (copts a) (tick c) with
      | Some e => (Err e, mkConn (with_cli a false (Some (e, now (S (tick c))))) (store c) (S (tick c)) (sent c))
      | None => (Ok tt, mkConn (with_cli a true None) (store c) (S (tick c)) (sent c))
      end in
    match cliErr a with
    | Some (e, t) => if (now (tick c) - t <? clientInitBackoff)%Z then (Err e, c) else build
    | None => build
    end.

(** One request. *)
Definition api {A} (call : Call) (op : W -> A * W) : C W A := fun c =>
  let w := interfere (tick c) (store c) in
  let '(r, w') := op w in
  (Ok r, mkConn (ad c) w' (S (tick c)) ((call, w) :: sent c)).

Definition read_only {A} (f : W -> A) : W -> A * W := fun w => (f w, w).

Definition public_group (g : Grant) : bool :=
  match GranteeURI g with
  | Some uri => String.eqb uri groupAllUsers || String.eqb uri groupAuthenticatedUsers
  | None => false
  end.

Definition Validate : C W unit := fun c =>
  let b := bucket (ad c) in
  let k := key (ad c) in
  (_ ← client;
   h ← api (CHead b k) (read_only (head_object b k));
   _ ← (match h with
        | Err e => if isNotFound e then mret tt else fail (AdapterErr "validate bucket")
        | Ok _ => mret tt
        end : C W unit);
   ps ← api (CPolicy b) (read_only (policy_status b));
   _ ← (match ps with
        | Ok (Some true) => fail (AdapterErr "publicly accessible (policy status)")
        | _ => mret tt
        end : C W unit);
   acl ← api (CAcl b) (read_only (bucket_acl b));
   match acl with
   | Ok grants => if existsb public_group grants then fail (AdapterErr "ACL grants to a public group") else mret tt
   | Err _ => mret tt
   end) c.

Definition buildPutInput (a : adapter) (k data : string) (ifMatch ifNone : option string) : PutInput :=
  if str_empty (kmsKey a) then mkPutInput (bucket a) k data ifMatch ifNone (Some Aes256) None
  else mkPutInput (bucket a) k data ifMatch ifNone (Some AwsKms) (Some (kmsKey a)).

Definition put (i : PutInput) : C W (res ApiErr unit) := api (CPut i) (put_object i).

(** A client that cannot be built is an error of no API code. *)
Definition putObject (k data : string) : C W (res ApiErr unit) := fun c =>
  match client c with
  | (Err _, c1) => (Ok (Err Transport), c1)
  | (Ok _, c1) => put (buildPutInput (ad c) k data None None) c1
  end.

Definition putObjectCAS (k data prevETag : string) (observed : bool) : C W (res ApiErr unit) := fun c =>
  match client c with
  | (Err _, c1) => (Ok (Err Transport), c1)
  | (Ok _, c1) =>
      put (if observed && negb (str_empty prevETag) then buildPutInput (ad c) k data (Some prevETag) None
           else if negb observed then buildPutInput (ad c) k data None (Some "*")
           else buildPutInput (ad c) k data None None) c1
  end.

Definition put_blob (blob mb : string) : C W unit := fun c =>
  let a := ad c in
  (r ← putObjectCAS (key a) blob (lastBlobETag a) (lastObserved a);
   match r with
   | Err e => if isPreconditionFailed e then fail PreconditionFailed else fail (AdapterErr "put blob")
   | Ok _ =>
       r2 ← putObject (metaKey a) mb;
       match r2 with Ok _ => mret tt | Err _ => fail (AdapterErr "put meta") end
   end) c.

Definition Push (blob : string) (meta : SMeta) : C W unit :=
  _ ← Validate;
  match marshal_json meta with
  | None => fail (AdapterErr "marshal meta")
  | Some mb => put_blob blob mb
  end.

(** getObject: what was read, and the entity tag or the empty string. *)
Definition getObject (k : string) : C W (got * string) := fun c =>
  match client c with
  | (Err _, c1) => (Ok (GFailed, EmptyString), c1)
  | (Ok _, c1) =>
      let b := bucket (ad c) in
      (r ← api (CGet b k) (read_only (get_object b k));
       mret (match r with
             | Err e => if isNotFound e then (GMissing, EmptyString) else (GFailed, EmptyString)
             | Ok (None, _) => (GFailed, EmptyString)
             | Ok (Some body, et) => (GData body, default EmptyString et)
             end)) c1
  end.

Definition recordBlobObservation (etag : string) (observed : bool) : C W unit := fun c =>
  let a := ad c in
  (Ok tt, with_ad c (mkAdapterS (bucket a) (key a) (kmsKey a) (copts a) (cli a) (cliErr a) etag observed)).

Definition Pull : C W (string * SMeta) := fun c =>
  (b ← getObject (key (ad c));
   m ← getObject (metaKey (ad c));
   _ ← recordBlobObservation b.2 (negb (is_missing b.1));
   (fun c' => (classify "get" NoRemoteState b.1 m.1, c')) : C W (string * SMeta)) c.

(** The adapter as a remote of the engine. *)
#[export] Instance s3_remote : Remote (conn W) := {| remote_pull := Pull; remote_push := Push |}.
End Adapter.

(** ** Facts about single operations *)

Lemma C_bind_inv {W A B} (m : C W A) (f : A -> C W B) c r c' :
  (x ← m; f x) c = (r, c') ->
  (exists a c1, m c = (Ok a, c1) /\ f a c1 = (r, c')) \/ (exists e, m c = (Err e, c') /\ r = Err e).
Proof.
  unfold mbind, C_bind. destruct (m c) as [[a|e] c1]; intros Hr; [left; by eauto|right].
  injection Hr as <- <-. by eauto.
Qed.

(** Everything of an adapter but its client. *)
Definition ids (a : adapter) : string * string * string * ClientOptions * string * bool :=
  (bucket a, key a, kmsKey a, copts a, lastBlobETag a, lastObserved a).

Definition is_put (e : Call) : bool := match e with CPut _ => true | _ => false end.

(** From [c] to [c'] the requests [new] were made, the latest first, by an adapter whose
    settings did not change. *)
Definition sends {W} (c c' : conn W) (new : list (Call * W)) : Prop :=
  ids (ad c') = ids (ad c) /\ sent c' = new ++ sent c.

Lemma sends_trans {W} (c c1 c2 : conn W) l1 l2 : sends c c1 l1 -> sends c1 c2 l2 -> sends c c2 (l2 ++ l1).
Proof. intros [H1 H2] [H3 H4]. split; [congruence|]. by rewrite H4, H2, app_assoc. Qed.

Lemma sends_refl {W} (c : conn W) : sends c c [].
Proof. done. Qed.

Section Facts.
Context {W : Type} `{S3Api W, Codec SMeta}.
Context (newClient : ClientOptions -> nat -> option SyErr) (now : nat -> Z) (interfere : nat -> W -> W).
#[local] Abbreviation client := (client newClient now).
#[local] Abbreviation getObject := (getObject newClient now interfere).
#[local] Abbreviation Validate := (Validate newClient now interfere).

Lemma client_sends (c : conn W) r c' : client c = (r, c') -> sends c c' [] /\ store c' = store c.
Proof.
  unfold S3.client. destruct (cli (ad c)); [by intros [= _ <-]|].
  destruct (cliErr (ad c)) as [[e t]|]; [destruct (_ <? _)%Z; [by intros [= _ <-]|]|];
    destruct (newClient _ _); by intros [= _ <-].
Qed.

Lemma api_sends {A} call (op : W -> A * W) c r c' :
  api interfere call op c = (r, c') ->
  exists a, r = Ok a /\ sends c c' [(call, interfere (tick c) (store c))]
    /\ op (interfere (tick c) (store c)) = (a, store c').
Proof.
  unfold api. destruct (op (interfere (tick c) (store c))) as [a w'] eqn:Ho. intros [= <- <-]. by exists a.
Qed.

(** What a get of [k] makes of the bucket it meets. *)
Definition reading (b k : string) (w : W) : got * string :=
  match get_object b k w with
  | Err e => if isNotFound e then (GMissing, EmptyString) else (GFailed, EmptyString)
  | Ok (None, _) => (GFailed, EmptyString)
  | Ok (Some body, et) => (GData body, default EmptyString et)
  end.

Lemma getObject_sends k c r c' :
  getObject k c = (r, c') ->
  exists g new, r = Ok g /\ sends c c' new
    /\ ((new = [] /\ g = (GFailed, EmptyString))
        \/ exists w, new = [(CGet (bucket (ad c)) k, w)] /\ g = reading (bucket (ad c)) k w).
Proof.
  unfold S3.getObject. destruct (client c) as [[u|e] c1] eqn:Hc; apply client_sends in Hc as [Hs _].
  - intros [(a & c2 & Ha & Hr)|(e & Ha & _)]%C_bind_inv; apply api_sends in Ha as (a' & Ha & Hs2 & Ho); [|done].
    injection Ha as <-. injection Hr as <- <-. unfold read_only in Ho. injection Ho as Ho _.
    eexists _, _. split; [done|]. split; [exact (sends_trans _ _ _ _ _ Hs Hs2)|]. right. eexists. split; [done|]. by rewrite <- Ho.
  - intros [= <- <-]. exists (GFailed, EmptyString), []. split; [done|]. split; [done|]. by left.
Qed.

(** The outcome of a pull, the requests it makes and what the adapter remembers. *)
Lemma Pull_spec c r c' :
  Pull newClient now interfere c = (r, c') ->
  exists (b m : got * string) (new : list (Call * W)), r = classify "get" NoRemoteState b.1 m.1 /\ sent c' = new ++ sent c
    /\ Forall (fun e => is_put e.1 = false) new
    /\ (b = (GFailed, EmptyString) \/ exists w, (CGet (bucket (ad c)) (key (ad c)), w) ∈ new
        /\ b = reading (bucket (ad c)) (key (ad c)) w)
    /\ ids (ad c') = (bucket (ad c), key (ad c), kmsKey (ad c), copts (ad c), b.2, negb (is_missing b.1)).
Proof.
  intros [(b & c1 & Hb & Hr)|(e & Hb & _)]%C_bind_inv; apply getObject_sends in Hb as (b' & n1 & Hb & [Hi1 Hs1] & Hn1); [|done].
  injection Hb as <-. apply C_bind_inv in Hr as [(m & c2 & Hm & Hr)|(e & Hm & _)];
    apply getObject_sends in Hm as (m' & n2 & Hm & [Hi2 Hs2] & Hn2); [|done].
  injection Hm as <-. unfold recordBlobObservation, mbind, C_bind, with_ad in Hr. cbn [ad sent] in Hr. injection Hr as <- <-.
  exists b, m, (n2 ++ n1). cbn [sent ad]. split; [done|]. split; [by rewrite Hs2, Hs1, app_assoc|]. split; [|split].
  - apply Forall_app. split; [destruct Hn2 as [[-> _]|(w & -> & _)]|destruct Hn1 as [[-> _]|(w & -> & _)]]; by repeat constructor.
  - destruct Hn1 as [[_ ->]|(w & -> & ->)]; [by left|]. right. exists w. split; [|done]. apply elem_of_app. right. by apply list_elem_of_singleton.
  - rewrite Hi1 in Hi2. unfold ids in *. cbn. by injection Hi2 as -> -> -> -> _ _.
Qed.

(** What Validate asks, and what its success says of the bucket it met. *)
Definition judged_private (b : string) (new : list (Call * W)) : Prop :=
  (exists w, (CPolicy b, w) ∈ new /\ policy_status b w <> Ok (Some true))
  /\ (exists w, (CAcl b, w) ∈ new /\ forall gs, bucket_acl b w = Ok gs -> existsb public_group gs = false).

Lemma Validate_sends c r c' :
  Validate c = (r, c') ->
  exists new, sends c c' new /\ Forall (fun e => is_put e.1 = false) new
    /\ (r = Ok tt -> judged_private (bucket (ad c)) new).
Proof.
  unfold S3.Validate. intros [(u & c1 & Hc & Hr)|(e & Hc & ->)]%C_bind_inv; apply client_sends in Hc as [Hs _].
  2: { by exists []. }
  apply C_bind_inv in Hr as [(h & c2 & Hh & Hr)|(e & Hh & _)]; apply api_sends in Hh as (h' & Hh & Hs2 & _); [|done].
  pose proof (sends_trans _ _ _ _ _ Hs Hs2) as Hs12. clear Hs Hs2. cbn [app] in Hs12.
  apply C_bind_inv in Hr as [(u2 & c3 & Hv & Hr)|(e & Hv & ->)].
  2: { assert (c' = c2) as ->.
       { destruct h as [?|e']; [by injection Hv|]. destruct (isNotFound e'); by injection Hv. }
       eexists. split; [exact Hs12|]. split; [by repeat constructor|done]. }
  assert (c3 = c2) as ->.
  { destruct h as [?|e']; [by injection Hv|]. destruct (isNotFound e'); [by injection Hv|done]. }
  apply C_bind_inv in Hr as [(ps & c4 & Hp & Hr)|(e & Hp & _)]; apply api_sends in Hp as (p' & Hp & Hs3 & Hps); [|done].
  injection Hp as <-. injection Hps as Hps _. pose proof (sends_trans _ _ _ _ _ Hs12 Hs3) as Hs13. clear Hs12 Hs3. cbn [app] in Hs13.
  apply C_bind_inv in Hr as [(u3 & c5 & Hv3 & Hr)|(e & Hv3 & ->)].
  2: { assert (c' = c4) as -> by (destruct ps as [[[]|]|]; by injection Hv3).
       eexists. split; [exact Hs13|]. split; [by repeat constructor|done]. }
  assert (c5 = c4 /\ ps <> Ok (Some true)) as [-> Hpub] by (destruct ps as [[[]|]|]; by injection Hv3).
  apply C_bind_inv in Hr as [(acl & c6 & Ha & Hr)|(e & Ha & _)]; apply api_sends in Ha as (a' & Ha & Hs4 & Has); [|done].
  injection Ha as <-. injection Has as Has _. pose proof (sends_trans _ _ _ _ _ Hs13 Hs4) as Hs14. clear Hs13 Hs4. cbn [app] in Hs14.
  assert (c' = c6 /\ (r = Ok tt -> forall gs, acl = Ok gs -> existsb public_group gs = false)) as [-> Hacl].
  { destruct acl as [gs|e]; [destruct (existsb public_group gs) eqn:Hg|]; injection Hr as <- <-; (split; [done|]); try done.
    by intros _ gs' [= <-]. }
  eexists. split; [exact Hs14|]. split; [by repeat constructor|]. intros Hok. split.
  - eexists. split; [|by rewrite Hps]. by do 1 (apply list_elem_of_further); left.
  - eexists. split; [by left|]. rewrite Has. by apply Hacl.
Qed.

(** A put of the adapter: to one of its two objects, encrypted at rest. *)
Definition proper_put (a : adapter) (blob mb : string) (i : PutInput) : Prop :=
  Bucket i = bucket a
  /\ ((Key i = key a /\ Body i = blob) \/ (Key i = metaKey a /\ Body i = mb))
  /\ (ServerSideEncryption i = Some Aes256 \/ ServerSideEncryption i = Some AwsKms /\ SSEKMSKeyId i = Some (kmsKey a)).

Lemma build_proper a k data im inm blob mb :
  (k = key a /\ data = blob) \/ (k = metaKey a /\ data = mb) -> proper_put a blob mb (buildPutInput a k data im inm).
Proof. intros Hk. unfold buildPutInput, proper_put. destruct (str_empty (kmsKey a)); cbn; tauto. Qed.

(** The condition a blob is put under. *)
Definition conditioned (a : adapter) (i : PutInput) : Prop :=
  if lastObserved a then str_empty (lastBlobETag a) = false -> IfMatch i = Some (lastBlobETag a)
  else IfNoneMatch i = Some "*".

Lemma buildPutInput_fields a k data im inm :
  let i := buildPutInput a k data im inm in
  Bucket i = bucket a /\ Key i = k /\ Body i = data /\ IfMatch i = im /\ IfNoneMatch i = inm.
Proof. unfold buildPutInput. by destruct (str_empty (kmsKey a)). Qed.

(** Settings decide what a put looks like. *)
Lemma ids_build a a' k data im inm : ids a' = ids a -> buildPutInput a' k data im inm = buildPutInput a k data im inm.
Proof. unfold ids, buildPutInput. by intros [= -> _ -> _ _ _]. Qed.

Lemma putObject_sends k data c r c' :
  putObject newClient now interfere k data c = (r, c') ->
  exists p new, r = Ok p /\ sends c c' new
    /\ ((new = [] /\ p = Err Transport)
        \/ exists w, new = [(CPut (buildPutInput (ad c) k data None None), w)]
            /\ put_object (buildPutInput (ad c) k data None None) w = (p, store c')).
Proof.
  unfold putObject. destruct (client c) as [[u|e] c1] eqn:Hc; apply client_sends in Hc as [Hs _].
  - unfold put. intros Hp. apply api_sends in Hp as (p & -> & Hs2 & Ho).
    exists p. eexists. split; [done|]. split; [exact (sends_trans _ _ _ _ _ Hs Hs2)|]. right. by eexists.
  - intros [= <- <-]. exists (Err Transport), []. split; [done|]. split; [done|]. by left.
Qed.

Lemma putObjectCAS_sends k data c r c' :
  let a := ad c in
  putObjectCAS newClient now interfere k data (lastBlobETag a) (lastObserved a) c = (r, c') ->
  exists p new, r = Ok p /\ sends c c' new
    /\ ((new = [] /\ p = Err Transport)
        \/ exists im inm w, let i := buildPutInput a k data im inm in
            new = [(CPut i, w)] /\ conditioned a i /\ put_object i w = (p, store c')).
Proof.
  cbv zeta. unfold putObjectCAS. destruct (client c) as [[u|e] c1] eqn:Hc; apply client_sends in Hc as [Hs _].
  - set (a := ad c) in *.
    set (im := if lastObserved a && negb (str_empty (lastBlobETag a)) then Some (lastBlobETag a) else None).
    set (inm := if lastObserved a then None else Some "*").
    assert (Hb : (if lastObserved a && negb (str_empty (lastBlobETag a)) then buildPutInput a k data (Some (lastBlobETag a)) None
                  else if negb (lastObserved a) then buildPutInput a k data None (Some "*")
                  else buildPutInput a k data None None) = buildPutInput a k data im inm)
      by (unfold im, inm; destruct (lastObserved a), (str_empty (lastBlobETag a)); reflexivity).
    rewrite Hb. unfold put. intros Hp. apply api_sends in Hp as (p & -> & Hs2 & Ho).
    exists p. eexists. split; [done|]. split; [exact (sends_trans _ _ _ _ _ Hs Hs2)|]. right. exists im, inm. eexists.
    split; [done|]. split; [|exact Ho].
    destruct (buildPutInput_fields a k data im inm) as (_ & _ & _ & Hm & Hn). unfold conditioned. rewrite Hm, Hn. unfold im, inm.
    destruct (lastObserved a); [|done]. by intros ->.
  - intros [= <- <-]. exists (Err Transport), []. split; [done|]. split; [done|]. by left.
Qed.

Lemma put_blob_spec blob mb c r c' :
  put_blob newClient now interfere blob mb c = (r, c') ->
  exists new, sends c c' new
    /\ Forall (fun e => exists i, e.1 = CPut i /\ proper_put (ad c) blob mb i) new
    /\ (r = Ok tt -> exists i w w', (CPut i, w) ∈ new /\ conditioned (ad c) i /\ put_object i w = (Ok tt, w')
         /\ Bucket i = bucket (ad c) /\ Key i = key (ad c) /\ Body i = blob).
Proof.
  intros [(p & c1 & Hp & Hr)|(e & Hp & _)]%C_bind_inv; apply putObjectCAS_sends in Hp as (p' & n1 & Hp & Hs1 & Hn1); [|done].
  injection Hp as <-.
  assert (Hn1p : Forall (fun e => exists i, e.1 = CPut i /\ proper_put (ad c) blob mb i) n1).
  { destruct Hn1 as [[-> _]|(im & inm & w & -> & _)]; [done|]. constructor; [|done]. eexists. split; [done|]. apply build_proper. by left. }
  destruct p as [[]|e]; [|exists n1; split; [|split; [done|]]; destruct (isPreconditionFailed e); by injection Hr as <- <-].
  destruct Hn1 as [[_ ?]|(im & inm & w & -> & Hcd & Hput)]; [done|].
  destruct (buildPutInput_fields (ad c) (key (ad c)) blob im inm) as (Hb & Hk & Hd & _).
  apply C_bind_inv in Hr as [(p2 & c2 & Hp2 & Hr)|(e & Hp2 & _)]; apply putObject_sends in Hp2 as (p2' & n2 & Hp2 & Hs2 & Hn2); [|done].
  injection Hp2 as <-. assert (c' = c2) as -> by (destruct p2; by injection Hr).
  exists (n2 ++ [(CPut (buildPutInput (ad c) (key (ad c)) blob im inm), w)]).
  split; [exact (sends_trans _ _ _ _ _ Hs1 Hs2)|]. split.
  - apply Forall_app. split; [|exact Hn1p]. destruct Hn2 as [[-> _]|(w2 & -> & _)]; [done|]. constructor; [|done].
    eexists. split; [done|]. rewrite (ids_build (ad c) (ad c1)) by exact (proj1 Hs1). apply build_proper. by right.
  - intros _. do 3 eexists. split; [apply elem_of_app; right; by left|]. split; [exact Hcd|]. split; [exact Hput|]. done.
Qed.

(**  Nothing but the sealed blob and its meta is ever uploaded, always with
    server-side encryption, and never to a bucket that the preceding checks of the same
    push found public: a push that puts anything has asked for the policy status and for
    the ACL, and neither said that the bucket is public. *)
Theorem Push_only_private blob meta c r c' :
  Push newClient now interfere blob meta c = (r, c') ->
  exists new, sent c' = new ++ sent c
    /\ forall i w, (CPut i, w) ∈ new ->
         judged_private (bucket (ad c)) new
         /\ exists mb, marshal_json meta = Some mb /\ proper_put (ad c) blob mb i.
Proof.
  unfold Push. intros [([] & c1 & Hv & Hr)|(e & Hv & _)]%C_bind_inv; apply Validate_sends in Hv as (n1 & [Hi1 Hs1] & Hn1 & Hok1).
  - specialize (Hok1 eq_refl). rewrite Forall_forall in Hn1. destruct (marshal_json meta) as [mb|].
    + apply put_blob_spec in Hr as (n2 & [_ Hs2] & Hn2 & _). exists (n2 ++ n1). split; [by rewrite Hs2, Hs1, app_assoc|].
      intros i w [Hin|Hin]%elem_of_app; [|by apply Hn1 in Hin]. rewrite Forall_forall in Hn2. apply Hn2 in Hin as (i' & [= <-] & Hp).
      split.
      * destruct Hok1 as [(w1 & Hw1 & ?) (w2 & Hw2 & ?)]. split; [exists w1|exists w2]; (split; [|done]); apply elem_of_app; by right.
      * exists mb. split; [done|]. unfold proper_put, metaKey in *. unfold ids in Hi1. by injection Hi1 as <- <- <- _ _ _.
    + injection Hr as _ <-. exists n1. split; [done|]. intros i w Hin. by apply Hn1 in Hin.
  - exists n1. split; [done|]. rewrite Forall_forall in Hn1. intros i w Hin. by apply Hn1 in Hin.
Qed.

(** ** The push of the engine *)

Context `{!S3Laws W, AEAD, Rand}.

(** The store answers every get with an entity tag. *)
Definition tags_given : Prop := forall b k w body et,
  get_object b k w = Ok (Some body, et) -> exists e, et = Some e /\ str_empty e = false.

End Facts.

(** A blob that could not be read counts as observed, without a tag: the next put of
    this adapter, which only force lets happen, carries no condition at all. *)
Lemma failed_read_forgets `{S3Api W, Codec SMeta} newClient now interfere (c c' : conn W) r :
  Pull newClient now interfere c = (r, c') -> r = Err (AdapterErr "get blob") ->
  lastObserved (ad c') = true /\ lastBlobETag (ad c') = "".
Proof.
  intros (b & m & new & -> & _ & _ & Hb & Hi)%Pull_spec Hr. unfold ids in Hi. injection Hi as _ _ _ _ -> ->.
  destruct b as [[| |d] et]; cbn in *.
  - unfold classify in Hr. destruct (m.1); cbn in Hr; done.
  - destruct Hb as [[= ->]|(w & _ & Hw)]; [done|]. split; [done|]. unfold reading in Hw.
    destruct (get_object _ _ w) as [[[?|] ?]|e]; try done; [by injection Hw|]. destruct (isNotFound e); [done|by injection Hw].
  - unfold classify in Hr. destruct (m.1); cbn in Hr; try done. by destruct (unmarshal_json _).
Qed.

(** ** The client *)

(** A failure is remembered for five seconds and answered without asking again; after
    that the next call builds anew. *)
Lemma client_backoff {W} newClient now (c : conn W) e t :
  cli (ad c) = false -> cliErr (ad c) = Some (e, t) ->
  if (now (tick c) - t <? clientInitBackoff)%Z then client newClient now c = (Err e, c)
  else match newClient (copts (ad c)) (tick c) with
       | Some e' => (client newClient now c).1 = Err e' /\ cliErr (ad (client newClient now c).2) = Some (e', now (S (tick c)))
       | None => (client newClient now c).1 = Ok tt /\ cli (ad (client newClient now c).2) = true
       end.
Proof. intros Hc He. unfold client. rewrite Hc, He. destruct (_ <? _)%Z; [done|]. by destruct (newClient _ _). Qed.

(** ** A small bucket *)

#[local] Existing Instance toy_aead.
#[local] Existing Instance toy_rand.
#[local] Existing Instance SyncFile.toy_meta.

(** Objects by bucket and key; an entity tag that spells out the bytes. *)
#[local] Abbreviation objects := (gmap (string * string) string).
Definition tag_of (body : string) : string := "W/" +:+ body.

Definition toy_put (i : PutInput) (w : objects) : res ApiErr unit * objects :=
  let here := w !! (Bucket i, Key i) in
  let ok := match IfMatch i with Some e => bool_decide (Some e = tag_of <$> here) | None => true end
            && match IfNoneMatch i with Some n => negb (String.eqb n "*") || bool_decide (here = None) | None => true end in
  if ok then (Ok tt, <[(Bucket i, Key i) := Body i]> w) else (Err (Coded "PreconditionFailed"), w).

#[local] Instance toy_s3 : S3Api objects := {|
  put_object := toy_put;
  get_object b k w := match w !! (b, k) with Some body => Ok (Some body, Some (tag_of body)) | None => Err NoSuchKey end;
  head_object b k w := match w !! (b, k) with Some _ => Ok tt | None => Err NotFound end;
  policy_status _ _ := Err (Coded "AccessDenied");
  bucket_acl _ _ := Ok [mkGrant None "FULL_CONTROL"];
  object_at w b k := (fun body => (body, tag_of body)) <$> w !! (b, k)
|}.

#[local] Instance toy_s3_laws : S3Laws objects.
Proof.
  constructor; cbn.
  - intros b k w body et. destruct (w !! (b, k)); [|done]. intros [= <- <-]. eexists. split; [done|]. by right.
  - intros b k w e. by destruct (w !! (b, k)).
  - intros w w' b k d d' e. destruct (w !! (b, k)), (w' !! (b, k)); try done. cbn. intros [= <- <-] [= <- Ht].
    symmetry. exact Ht.
  - intros i w w'. unfold toy_put. destruct (_ && _) eqn:Hok; [|done]. intros [= <-]. apply andb_true_iff in Hok as [Hok1 Hok2]. split; [|split].
    + intros e He. match goal with Hx : context [IfMatch i] |- _ => rewrite He in Hx; apply bool_decide_eq_true in Hx; rename Hx into Ht end.
      destruct (w !! _) as [d|]; [|done]. exists d. cbn. by injection Ht as ->.
    + intros Hn. match goal with Hx : context [IfNoneMatch i] |- _ => rewrite Hn in Hx; cbn in Hx; apply bool_decide_eq_true in Hx; by rewrite Hx end.
    + rewrite lookup_insert_eq. by eexists.
  - intros i w w' e. unfold toy_put. destruct (_ && _); [done|]. by intros [= _ <-].
  - intros i w b k Hne. unfold toy_put. destruct (_ && _); [|done]. cbn. by rewrite lookup_insert_ne.
Qed.

Lemma toy_tags : tags_given (W := objects).
Proof. intros b k w body et. cbn. destruct (w !! (b, k)); [|done]. intros [= <- <-]. by eexists. Qed.

Definition w_adapter : adapter := mkAdapterS "team" "jitenv" "" (mkOptions None None None false) false None "" false.
Definition w_dek : string := pad 32.
Definition w_sealed (cfg : string) : string :=
  match SealBlob w_dek cfg (HashConfig cfg) 0 with Ok (b, _) => b | Err _ => "" end.
Definition w_meta (cfg : string) : string := default "" (marshal_json (mkSMeta (HashConfig cfg) 1)).
Definition w_bucket : objects :=
  {[("team", "jitenv") := w_sealed "v0"; ("team", "jitenv.meta.json") := w_meta "v0"]}.

(** A machine in sync with v0, and its push of [cfg] while others do [interfere]. *)
Definition w_entry : Adapter := mkAdapter "s3" "s3" ∅ (HashConfig "v0").
Definition w_push (interfere : nat -> objects -> objects) (cfg : string) (w : objects)
    : res SyErr string * Adapter * nat * conn objects :=
  PushConfig (H1 := s3_remote (fun _ _ => None) Z.of_nat interfere) w_entry w_dek cfg 1 false 0 (mkConn w_adapter w 0 []).

(** A push on its own, to an empty bucket. *)
Definition w_direct : res SyErr unit * conn objects :=
  Push (fun _ _ => None) Z.of_nat (fun _ w => w) "sealed" (mkSMeta "h" 1) (mkConn w_adapter ∅ 0 []).

Lemma Push_only_private_witness :
  w_direct.1 = Ok tt /\ length (sent w_direct.2) = 5%nat /\ judged_private "team" (sent w_direct.2).
Proof.
  split; [vm_cast_no_check (eq_refl (Ok tt : res SyErr unit))|]. split; [vm_cast_no_check (eq_refl 5%nat)|].
  destruct (Push_only_private (fun _ _ => None) Z.of_nat (fun _ w => w) "sealed" (mkSMeta "h" 1)
    (mkConn w_adapter ∅ 0 []) w_direct.1 w_direct.2 (surjective_pairing _)) as (new & Hs & Hput).
  cbn [sent] in Hs. rewrite app_nil_r in Hs. rewrite <- Hs in Hput.
  assert (Hin : exists i w, (CPut i, w) ∈ sent w_direct.2).
  { assert (Hh : match sent w_direct.2 with (CPut _, _) :: _ => true | _ => false end = true) by (vm_cast_no_check (eq_refl true)).
    destruct (sent w_direct.2) as [|[q w] rest]; [discriminate Hh|]. destruct q; try discriminate Hh.
    eexists _, _. apply list_elem_of_here. }
  destruct Hin as (i & w & Hin). destruct (Hput i w Hin) as [Hj _]. exact Hj.
Defined.


(** What that does not give: the fence reads the meta, the condition guards the blob.
    Machine A has put its blob and not yet its meta when B pulls: B sees A's blob beside
    the old meta, passes the fence, and its condition names A's blob.  Both pushes report
    success, A's configuration is gone, and what is left opens under no key. *)
Definition w_race : res SyErr string * Adapter * nat * conn objects :=
  w_push (fun t w => if (t =? 7)%nat then store (w_push (fun _ w => w) "from B" w).2 else w) "from A" w_bucket.

Example both_pushes_land :
  w_race.1.1.1 = Ok (HashConfig "from A")
  /\ (exists w, (w_push (fun _ w => w) "from B" w).1.1.1 = Ok (HashConfig "from B")
        /\ w !! ("team", "jitenv") = Some (w_sealed "from A"))
  /\ store w_race.2 !! ("team", "jitenv") = Some (w_sealed "from B")
  /\ (PullConfig (H1 := s3_remote (fun _ _ => None) Z.of_nat (fun _ w => w)) w_entry w_dek "v0" false
         (mkConn w_adapter (store w_race.2) 0 [])).1.1 = Err OpenFailed.
Proof.
  split; [vm_cast_no_check (eq_refl (Ok (HashConfig "from A") : res SyErr string))|]. split.
  - exists (<[("team", "jitenv") := w_sealed "from A"]> w_bucket).
    split; [vm_cast_no_check (eq_refl (Ok (HashConfig "from B") : res SyErr string))|].
    vm_cast_no_check (eq_refl (Some (w_sealed "from A"))).
  - split; [vm_cast_no_check (eq_refl (Some (w_sealed "from B")))|].
    vm_cast_no_check (eq_refl (Err OpenFailed : res SyErr PullResult)).
Qed.
End S3.
