(* ===== verification/Ssh.v ===== *)
(** * The ssh adapter (src/internal/syncadapters/ssh/ssh.go)

    A remote made of two files on a host reached by the ssh binary.  The binary and the
    host are an interface: what they do is said of the words a POSIX shell splits the
    command into, so the adapter's quoting is part of what is proved. *)

From S2P Require Import Prelude GoString ConfigModel Crypto Protocol Store Toys Hook Sync SyncProtocol SyncFile RemotePair.
Import Hook Config Crypto Protocol Sync RemotePair.

Module Ssh.

(** ** The remote shell *)

(** Tokens of the POSIX shell language (XCU 2.3): words, after quote removal, and
    operators.  Any other character that an unquoted word would expand makes the
    result [None]. *)
Inductive token := Word (w : string) | Op (o : string).

#[export] Instance token_eq_dec : EqDecision token.
Proof. solve_decision. Defined.

Definition flush (cur : option string) : list token := match cur with Some w => [Word w] | None => [] end.
Definition grow (cur : option string) (c : ascii) : option string := Some (default EmptyString cur +:+ str1 c).

Fixpoint sh_tokens (quoted : bool) (cur : option string) (s : string) : option (list token) :=
  match s with
  | EmptyString => if quoted then None else Some (flush cur)
  | String c s' =>
      if quoted then
        if Ascii.eqb c SQUOTE then sh_tokens false cur s' else sh_tokens true (grow cur c) s'
      else if Ascii.eqb c SQUOTE then sh_tokens true (Some (default EmptyString cur)) s'
      else if Ascii.eqb c BSLASH then
        match s' with EmptyString => None | String d s'' => sh_tokens false (grow cur d) s'' end
      else if contains_byte (str1 " " +:+ str1 TAB) c then app (flush cur) <$> sh_tokens false None s'
      else if contains_byte "&|" c then
        match s' with
        | String d s'' => if Ascii.eqb d c then app (flush cur ++ [Op (str1 c +:+ str1 c)]) <$> sh_tokens false None s''
                          else app (flush cur ++ [Op (str1 c)]) <$> sh_tokens false None s'
        | EmptyString => Some (flush cur ++ [Op (str1 c)])
        end
      else if contains_byte ";<>()" c then app (flush cur ++ [Op (str1 c)]) <$> sh_tokens false None s'
      else if contains_byte (str1 LF +:+ str1 DQUOTE +:+ "$`*?[#~") c then None
      else sh_tokens false (grow cur c) s'
  end.

Definition shell (cmd : string) : option (list token) := sh_tokens false None cmd.

(** ** The host *)

(** One run of the ssh binary with standard input and arguments: exit status, standard
    output and standard error, or [None] when it did not start or did not exit. *)
Class SshHost (W : Type) := {
  ssh_run : option string -> list string -> W -> option (Z * string * string) * W;
  file_on : W -> string -> option string          (* the regular files of the host *)
}.

Definition probe_script (dir : string) : list token :=
  [Word "mkdir"; Word "-p"; Word "-m"; Word "700"; Word dir; Op "&&"; Word "test"; Word "-w"; Word dir].
Definition write_script (tmp q : string) : list token :=
  [Word "umask"; Word "077"; Op "&&"; Word "cat"; Op ">"; Word tmp; Op "&&"; Word "chmod"; Word "600"; Word tmp;
   Op "&&"; Word "mv"; Word tmp; Word q].
Definition read_script (q : string) : list token :=
  [Word "if"; Word "test"; Word "-f"; Word q; Op ";"; Word "then"; Word "cat"; Word q; Op ";";
   Word "else"; Word "exit"; Word "66"; Op ";"; Word "fi"].

(** ssh with BatchMode, perhaps a port, then the host and one command after the options. *)
Inductive invocation : list string -> string -> Prop :=
| inv_plain host cmd : has_prefix host "-" = false -> invocation ["-o"; "BatchMode=yes"; "--"; host; cmd] cmd
| inv_port port host cmd z : atoi port = Some z -> has_prefix host "-" = false ->
    invocation ["-o"; "BatchMode=yes"; "-p"; port; "--"; host; cmd] cmd.

(** Not an option to the utilities. *)
Definition operand (p : string) : bool := negb (has_prefix p "-").

(** What those scripts do to operands, as POSIX says of mkdir, test, cat, chmod, mv and exit.  A write
    that is not known to have succeeded may have happened, and if the connection went
    while cat was reading, with less than all of its input. *)
Class SshLaws (W : Type) `{SshHost W} : Prop := {
  probe_keeps : forall args cmd dir w p, invocation args cmd -> shell cmd = Some (probe_script dir) -> operand dir = true ->
    file_on (ssh_run None args w).2 p = file_on w p;
  write_others : forall args cmd tmp q data w p, invocation args cmd -> shell cmd = Some (write_script tmp q) ->
    operand tmp = true -> operand q = true ->
    p <> tmp -> p <> q -> file_on (ssh_run (Some data) args w).2 p = file_on w p;
  write_done : forall args cmd tmp q data w out err w', invocation args cmd -> shell cmd = Some (write_script tmp q) ->
    operand tmp = true -> operand q = true ->
    tmp <> q -> ssh_run (Some data) args w = (Some (0%Z, out, err), w') -> file_on w' q = Some data;
  write_cut : forall args cmd tmp q data w, invocation args cmd -> shell cmd = Some (write_script tmp q) ->
    operand tmp = true -> operand q = true -> tmp <> q ->
    let w' := (ssh_run (Some data) args w).2 in
    file_on w' q = file_on w q \/ exists n, file_on w' q = Some (str_take n data);
  read_keeps : forall args cmd q w p, invocation args cmd -> shell cmd = Some (read_script q) -> operand q = true ->
    file_on (ssh_run None args w).2 p = file_on w p;
  read_done : forall args cmd q w out err w', invocation args cmd -> shell cmd = Some (read_script q) -> operand q = true ->
    ssh_run None args w = (Some (0%Z, out, err), w') -> file_on w q = Some out;
  read_absent : forall args cmd q w out err w', invocation args cmd -> shell cmd = Some (read_script q) -> operand q = true ->
    ssh_run None args w = (Some (66%Z, out, err), w') -> file_on w q = None
}.

(** ** The adapter *)

Record adapter := mkSsh { host : string; path : string; port : string }.

Definition hostAllowed (s : string) : bool :=
  negb (str_empty s)
  && forall_bytes (fun c => is_upper c || is_lower c || is_digit c || contains_byte "._@-" c) s.

Definition unsafe_path_bytes : string :=
  str1 DQUOTE +:+ "'$`;&|<>(){}*?" +:+ str1 BSLASH +:+ str1 LF +:+ str1 CR.

Definition param (cfg : gmap string any) (k : string) : string :=
  match cfg !! k with Some (AStr s) => s | _ => EmptyString end.

Definition New (cfg : gmap string any) : res SyErr adapter :=
  let host := param cfg "host" in
  let path := param cfg "path" in
  let port := param cfg "port" in
  if str_empty host then Err (AdapterErr "host param is required")
  else if str_empty path then Err (AdapterErr "path param is required")
  else if exists_byte (contains_byte unsafe_path_bytes) path then Err (AdapterErr "remote path contains unsafe characters")
  else if has_prefix host "-" then Err (AdapterErr "host must not start with '-'")
  else if negb (hostAllowed host) then Err (AdapterErr "host contains unsafe characters")
  else if negb (str_empty port) && bool_decide (atoi port = None) then Err (AdapterErr "port is not numeric")
  else Ok (mkSsh host path port).

Definition baseArgs (a : adapter) : list string :=
  ["-o"; "BatchMode=yes"] ++ (if str_empty (port a) then [] else ["-p"; port a]) ++ ["--"; host a].

Definition metaRemote (a : adapter) : string := path a +:+ ".meta.json".

(** strings.LastIndex of a slash, past the first byte. *)
Fixpoint last_slash (i : nat) (s : string) : option nat :=
  match s with
  | EmptyString => None
  | String c s' =>
      match last_slash (S i) s' with
      | Some j => Some j
      | None => if Ascii.eqb c "/" then Some i else None
      end
  end.

Definition remoteDir (p : string) : string :=
  match last_slash 0 p with
  | Some (S i) => str_take (S i) p
  | _ => "."
  end.

Definition shQuote (s : string) : string := "'" +:+ replace_byte SQUOTE "'\''" s +:+ "'".

Definition probe_cmd (dir : string) : string :=
  "mkdir -p -m 700 " +:+ shQuote dir +:+ " && test -w " +:+ shQuote dir.
Definition write_cmd (remotePath : string) : string :=
  let q := shQuote remotePath in
  let qt := shQuote (remotePath +:+ ".jitenv-tmp") in
  "umask 077 && cat > " +:+ qt +:+ " && chmod 600 " +:+ qt +:+ " && mv " +:+ qt +:+ " " +:+ q.
Definition read_cmd (remotePath : string) : string :=
  let q := shQuote remotePath in
  "if test -f " +:+ q +:+ "; then cat " +:+ q +:+ "; else exit 66; fi".

(** An error of the runner: the exit status it still carries. *)
Definition RunErr : Type := option Z.
Definition isExit (e : RunErr) (code : Z) : bool := bool_decide (e = Some code).

Section Adapter.
Context {W : Type} `{SshHost W, Codec SMeta}.

(** execRunner.run: with something on standard error, the error is that text. *)
Definition run (stdin : option string) (args : list string) (w : W) : res RunErr string * W :=
  match ssh_run stdin args w with
  | (Some (code, out, err), w') =>
      if (code =? 0)%Z then (Ok out, w')
      else if str_empty (trim_space err) then (Err (Some code), w') else (Err None, w')
  | (None, w') => (Err None, w')
  end.

Definition Validate (a : adapter) (w : W) : res SyErr unit * W :=
  match run None (baseArgs a ++ [probe_cmd (remoteDir (path a))]) w with
  | (Ok _, w') => (Ok tt, w')
  | (Err _, w') => (Err (AdapterErr "validate"), w')
  end.

Definition writeRemote (a : adapter) (remotePath data : string) (w : W) : res RunErr unit * W :=
  match run (Some data) (baseArgs a ++ [write_cmd remotePath]) w with
  | (Ok _, w') => (Ok tt, w')
  | (Err e, w') => (Err e, w')
  end.

Definition Push (a : adapter) (blob : string) (meta : SMeta) (w : W) : res SyErr unit * W :=
  match Validate a w with
  | (Err e, w1) => (Err e, w1)
  | (Ok _, w1) =>
      match marshal_json meta with
      | None => (Err (AdapterErr "marshal meta"), w1)
      | Some mb =>
          match writeRemote a (path a) blob w1 with
          | (Err _, w2) => (Err (AdapterErr "write blob"), w2)
          | (Ok _, w2) =>
              match writeRemote a (metaRemote a) mb w2 with
              | (Err _, w3) => (Err (AdapterErr "write meta"), w3)
              | (Ok _, w3) => (Ok tt, w3)
              end
          end
      end
  end.

Definition readRemote (a : adapter) (remotePath : string) (w : W) : got * W :=
  match run None (baseArgs a ++ [read_cmd remotePath]) w with
  | (Ok out, w') => (GData out, w')
  | (Err e, w') => (if isExit e 66 then GMissing else GFailed, w')
  end.

Definition Pull (a : adapter) (w : W) : res SyErr (string * SMeta) * W :=
  let '(b, w1) := readRemote a (path a) w in
  let '(m, w2) := readRemote a (metaRemote a) w1 in
  (classify "read" (AdapterErr "read blob") b m, w2).

Definition ssh_remote (a : adapter) : Remote W := {| remote_pull := Pull a; remote_push := Push a |}.
End Adapter.

(** ** Quoting *)

Lemma quoted_tokens p w rest :
  sh_tokens true (Some w) (replace_byte SQUOTE "'\''" p +:+ String SQUOTE rest) = sh_tokens false (Some (w +:+ p)) rest.
Proof.
  revert w. induction p as [|c p IH]; intros w; [by rewrite str_app_nil_r|]. cbn [replace_byte].
  assert (Hg : w +:+ String c p = (w +:+ str1 c) +:+ p) by (by rewrite <- str_app_assoc).
  rewrite Hg. destruct (Ascii.eqb_spec c SQUOTE) as [->|Hc].
  - rewrite <- str_app_assoc, <- IH. reflexivity.
  - rewrite str_app_cons. cbn [sh_tokens]. apply Ascii.eqb_neq in Hc. by rewrite Hc, <- IH.
Qed.

(** A quoted text is one word, whatever is in it. *)
Lemma shQuote_tokens p cur rest :
  sh_tokens false cur (shQuote p +:+ rest) = sh_tokens false (Some (default EmptyString cur +:+ p)) rest.
Proof.
  rewrite <- quoted_tokens. unfold shQuote. rewrite <- !str_app_assoc. reflexivity.
Qed.

(** The tokens of a text without quotes, and the word it ends in the middle of. *)
Fixpoint lex (cur : option string) (s : string) : option (list token * option string) :=
  match s with
  | EmptyString => Some ([], cur)
  | String c s' =>
      let emit l := prod_map (app l) id <$> lex None s' in
      if contains_byte (str1 SQUOTE +:+ str1 BSLASH) c then None
      else if contains_byte (str1 " " +:+ str1 TAB) c then emit (flush cur)
      else if contains_byte "&|" c then
        match s' with
        | String d s'' => if Ascii.eqb d c then prod_map (app (flush cur ++ [Op (str1 c +:+ str1 c)])) id <$> lex None s''
                          else emit (flush cur ++ [Op (str1 c)])
        | EmptyString => None
        end
      else if contains_byte ";<>()" c then emit (flush cur ++ [Op (str1 c)])
      else if contains_byte (str1 LF +:+ str1 DQUOTE +:+ "$`*?[#~") c then None
      else lex (grow cur c) s'
  end.

Lemma lex_tokens s cur l cur' rest :
  lex cur s = Some (l, cur') -> sh_tokens false cur (s +:+ rest) = app l <$> sh_tokens false cur' rest.
Proof.
  remember (String.length s) as n eqn:Hn. revert s Hn cur l cur'.
  induction (lt_wf n) as [n _ IH]. intros [|c s] Hn cur l cur'.
  { intros [= <- <-]. cbn [String.append]. rewrite str_app_nil_l. by destruct (sh_tokens false cur rest). }
  assert (Hemit : forall pre s1, (String.length s1 < n)%nat -> prod_map (app pre) id <$> lex None s1 = Some (l, cur') ->
    app pre <$> sh_tokens false None (s1 +:+ rest) = app l <$> sh_tokens false cur' rest).
  { intros pre s1 Hs1 Hl. destruct (lex None s1) as [[l1 c1]|] eqn:H1; [|done]. injection Hl as <- <-.
    rewrite (IH _ Hs1 s1 eq_refl _ _ _ H1). destruct (sh_tokens false c1 rest); [|done]. cbn. by rewrite app_assoc. }
  assert (Hlen : (String.length s < n)%nat) by (subst n; cbn; lia).
  rewrite str_app_cons. cbn [lex sh_tokens].
  destruct (Ascii.eqb_spec c SQUOTE) as [->|Hq]; [done|]. destruct (Ascii.eqb_spec c BSLASH) as [->|Hb]; [done|].
  assert (Hc : contains_byte (str1 SQUOTE +:+ str1 BSLASH) c = false).
  { unfold contains_byte. change (exists_byte ?f _) with (f SQUOTE || (f BSLASH || false)). cbv beta.
    apply Ascii.eqb_neq in Hq, Hb. by rewrite Hq, Hb. }
  rewrite Hc. clear Hc. destruct (contains_byte (str1 " " +:+ str1 TAB) c); [by apply Hemit|].
  destruct (contains_byte "&|" c).
  - destruct s as [|d s2]; [done|]. rewrite str_app_cons. destruct (Ascii.eqb d c).
    + apply Hemit. cbn in Hlen. lia.
    + rewrite <- (str_app_cons d). by apply Hemit.
  - destruct (contains_byte ";<>()" c); [by apply Hemit|].
    destruct (contains_byte (str1 LF +:+ _) c); [done|]. by eapply IH.
Qed.

Ltac lex_literal :=
  match goal with
  | |- context [sh_tokens false ?cur (?lit +:+ ?rest)] => rewrite (lex_tokens lit cur _ _ rest eq_refl)
  end.

Lemma shQuote_last p cur : sh_tokens false cur (shQuote p) = Some [Word (default EmptyString cur +:+ p)].
Proof. rewrite <- (str_app_nil_r (shQuote p)). by rewrite shQuote_tokens. Qed.

Lemma probe_words dir : shell (probe_cmd dir) = Some (probe_script dir).
Proof. unfold shell, probe_cmd. do 2 (lex_literal; rewrite ?shQuote_tokens). by rewrite shQuote_last. Qed.

Lemma write_words q : shell (write_cmd q) = Some (write_script (q +:+ ".jitenv-tmp") q).
Proof.
  unfold shell, write_cmd. cbv zeta. generalize (q +:+ ".jitenv-tmp"). intros t.
  do 4 (lex_literal; rewrite ?shQuote_tokens). by rewrite shQuote_last.
Qed.

Lemma read_words q : shell (read_cmd q) = Some (read_script q).
Proof.
  unfold shell, read_cmd. do 2 (lex_literal; rewrite ?shQuote_tokens).
  rewrite <- (str_app_nil_r "; else exit 66; fi"). lex_literal. reflexivity.
Qed.

(** ** Accepted adapters *)

Record accepted (a : adapter) : Prop := {
  ac_host : has_prefix (host a) "-" = false /\ hostAllowed (host a) = true;
  ac_path : str_empty (path a) = false /\ exists_byte (contains_byte unsafe_path_bytes) (path a) = false;
  ac_port : str_empty (port a) = true \/ exists z, atoi (port a) = Some z
}.

Lemma New_accepted cfg a : New cfg = Ok a -> accepted a.
Proof.
  unfold New. destruct (str_empty (param cfg "host")) eqn:H1; [done|]. destruct (str_empty (param cfg "path")) eqn:H2; [done|].
  destruct (exists_byte _ _) eqn:H3; [done|]. destruct (has_prefix _ _) eqn:H4; [done|]. destruct (hostAllowed _) eqn:H5; [|done].
  cbn [negb]. destruct (negb (str_empty (param cfg "port")) && _) eqn:H6; [done|]. intros [= <-]. constructor; cbn; try done.
  apply andb_false_iff in H6 as [H6|H6]; [left; by apply negb_false_iff|right].
  apply bool_decide_eq_false in H6. destruct (atoi (param cfg "port")) as [z|]; [by exists z|done].
Qed.

Lemma base_invocation a cmd : accepted a -> invocation (baseArgs a ++ [cmd]) cmd.
Proof.
  intros [[Hh _] _ Hp]. unfold baseArgs. destruct Hp as [->|[z Hz]]; [by constructor|].
  str_cases (port a); [by constructor|]. by apply (inv_port _ _ _ z).
Qed.

Lemma operand_cons c s : operand (String c s) = negb (Ascii.eqb "-" c).
Proof. unfold operand. cbn [has_prefix]. by rewrite has_prefix_nil, andb_true_r. Qed.

Lemma operand_app p x : operand p = true -> str_empty p = false -> operand (p +:+ x) = true.
Proof. destruct p as [|c p]; [done|]. by rewrite str_app_cons, !operand_cons. Qed.

Lemma app_nonempty p x : str_empty p = false -> str_empty (p +:+ x) = false.
Proof. by destruct p. Qed.

Lemma remoteDir_operand p : operand p = true -> operand (remoteDir p) = true.
Proof.
  unfold remoteDir. destruct (last_slash 0 p) as [[|i]|]; [done| |done]. destruct p as [|c p]; [done|].
  cbn [str_take]. by rewrite !operand_cons.
Qed.

Section Facts.
Context {W : Type} `{!SshHost W, !SshLaws W, !Codec SMeta, !CodecLaws SMeta}.

Definition same_files (w w' : W) : Prop := forall p, file_on w' p = file_on w p.

Lemma run_effect stdin args w r w' : run stdin args w = (r, w') -> w' = (ssh_run stdin args w).2
  /\ (forall out, r = Ok out -> exists err, ssh_run stdin args w = (Some (0%Z, out, err), w'))
  /\ (forall code, r = Err (Some code) -> exists out err, ssh_run stdin args w = (Some (code, out, err), w')).
Proof.
  unfold run. destruct (ssh_run stdin args w) as [[[[code out] err]|] w1]; [|by intros [= <- <-]].
  destruct (Z.eqb_spec code 0) as [->|Hc].
  - intros [= <- <-]. split; [done|]. split; [|done]. intros o [= <-]. by eexists.
  - destruct (str_empty _); intros [= <- <-]; (split; [done|]; split; [done|]); [|done]. intros c [= <-]. by do 2 eexists.
Qed.

(** What a read says is what is there. *)
Lemma readRemote_spec a p w g w' : accepted a -> operand p = true -> readRemote a p w = (g, w') ->
  same_files w w' /\ match g with GMissing => file_on w p = None | GData d => file_on w p = Some d | GFailed => True end.
Proof.
  intros Ha Hop. unfold readRemote. pose proof (base_invocation a (read_cmd p) Ha) as Hi.
  destruct (run None _ w) as [r w1] eqn:Hr. apply run_effect in Hr as (Hw & Hok & Herr).
  assert (Hs : same_files w w1) by (intros q; rewrite Hw; by eapply read_keeps; [|apply read_words|]).
  destruct r as [out|e]; intros [= <- <-]; (split; [done|]).
  - destruct (Hok _ eq_refl) as (err & He). eapply read_done; [exact Hi|apply read_words|done|exact He].
  - unfold isExit. case_bool_decide as Hc; [|done]. subst e. destruct (Herr _ eq_refl) as (out & err & He).
    eapply read_absent; [exact Hi|apply read_words|done|exact He].
Qed.

(** The pair that is on the host, when both files are. *)
Definition pair_on (a : adapter) (w : W) (blob : string) (meta : SMeta) : Prop :=
  file_on w (path a) = Some blob /\ exists mb, file_on w (metaRemote a) = Some mb /\ unmarshal_json mb = Some meta.

Lemma ssh_Pull_spec a w r w' : accepted a -> operand (path a) = true -> Pull a w = (r, w') ->
  same_files w w' /\ match r with
  | Ok (blob, meta) => pair_on a w blob meta
  | Err NoRemoteState => file_on w (path a) = None /\ file_on w (metaRemote a) = None
  | Err RemoteIncomplete => is_Some (file_on w (path a)) <-> file_on w (metaRemote a) = None
  | Err (AdapterErr _) => True
  | Err _ => False
  end.
Proof.
  intros Ha Hop. unfold Pull. destruct (readRemote a (path a) w) as [b w1] eqn:Hb. destruct (readRemote a (metaRemote a) w1) as [m w2] eqn:Hm.
  apply readRemote_spec in Hb as [Hs1 Hb]; [|done..]. apply readRemote_spec in Hm as [Hs2 Hm]; [|done|apply operand_app; [done|exact (proj1 (ac_path _ Ha))]].
  intros [= <- <-]. split; [intros q; by rewrite Hs2, Hs1|]. rewrite Hs1 in Hm.
  unfold classify. destruct b as [| |blob], m as [| |mb]; cbn [is_missing is_data andb]; try done.
  - rewrite Hb, Hm. split; [done|by eexists].
  - destruct (unmarshal_json mb) as [meta|] eqn:Hu; [|done]. split; [done|]. by exists mb.
Qed.

Lemma writeRemote_spec a p data w r w' : accepted a -> operand p = true -> str_empty p = false -> writeRemote a p data w = (r, w') ->
  (forall q, q <> p -> q <> p +:+ ".jitenv-tmp" -> file_on w' q = file_on w q)
  /\ (file_on w' p = file_on w p \/ exists n, file_on w' p = Some (str_take n data))
  /\ (r = Ok tt -> file_on w' p = Some data).
Proof.
  intros Ha Hop Hpe. assert (Hot : operand (p +:+ ".jitenv-tmp") = true) by (by apply operand_app). unfold writeRemote. pose proof (base_invocation a (write_cmd p) Ha) as Hi.
  assert (Hne : p +:+ ".jitenv-tmp" <> p) by (rewrite <- (str_app_nil_r p) at 2; by rewrite str_app_inj_l).
  destruct (run (Some data) _ w) as [r1 w1] eqn:Hr. apply run_effect in Hr as (Hw & Hok & _).
  intros Hres. assert (w' = w1) as -> by (by destruct r1; injection Hres). split; [|split].
  - intros q H1 H2. rewrite Hw. by eapply write_others; [exact Hi|apply write_words|..].
  - rewrite Hw. by eapply write_cut; [exact Hi|apply write_words|..].
  - intros ->. destruct r1 as [out|]; [|done]. destruct (Hok _ eq_refl) as (err & He).
    eapply write_done; [exact Hi|apply write_words|done..|exact He].
Qed.

End Facts.

(** ** A small host *)

(** The command of an argument list, and the scripts it may be. *)
Definition command (args : list string) : string := default EmptyString (last args).

Definition write_of (l : list token) : option (string * string) :=
  match l with
  | [Word _; Word _; Op _; Word _; Op _; Word t1; Op _; Word _; Word _; Word t2; Op _; Word _; Word t3; Word q] =>
      if bool_decide (l = write_script t1 q) then Some (t1, q) else None
  | _ => None
  end.
Definition read_of (l : list token) : option string :=
  match l with
  | [Word _; Word _; Word _; Word q; Op _; Word _; Word _; Word _; Op _; Word _; Word _; Word _; Op _; Word _] =>
      if bool_decide (l = read_script q) then Some q else None
  | _ => None
  end.

(** Every command works; [banner] is what the login prints on standard error. *)
Definition toy_run (banner : string) (stdin : option string) (args : list string) (w : gmap string string)
    : option (Z * string * string) * gmap string string :=
  match shell (command args) with
  | None => (None, w)
  | Some l =>
      match write_of l, read_of l, stdin with
      | Some (t, q), _, Some data => (Some (0%Z, EmptyString, banner), <[q := data]> (delete t w))
      | _, Some q, None =>
          match w !! q with
          | Some d => (Some (0%Z, d, banner), w)
          | None => (Some (66%Z, EmptyString, banner), w)
          end
      | _, _, _ => (Some (0%Z, EmptyString, banner), w)
      end
  end.

#[local] Instance toy_host (banner : string) : SshHost (gmap string string) := {|
  ssh_run := toy_run banner;
  file_on w p := w !! p
|}.

Lemma invocation_command args cmd : invocation args cmd -> command args = cmd.
Proof. by intros []. Qed.

Lemma write_of_script t q : write_of (write_script t q) = Some (t, q).
Proof. unfold write_script, write_of. by rewrite bool_decide_true. Qed.

Lemma read_of_script q : read_of (read_script q) = Some q.
Proof. unfold read_script, read_of. by rewrite bool_decide_true. Qed.

Lemma toy_write banner args cmd t q data w : invocation args cmd -> shell cmd = Some (write_script t q) ->
  toy_run banner (Some data) args w = (Some (0%Z, EmptyString, banner), <[q := data]> (delete t w)).
Proof. intros Hi Hc. unfold toy_run. by rewrite (invocation_command _ _ Hi), Hc, write_of_script. Qed.

Lemma toy_read banner args cmd q w : invocation args cmd -> shell cmd = Some (read_script q) ->
  toy_run banner None args w = (match w !! q with Some d => Some (0%Z, d, banner) | None => Some (66%Z, EmptyString, banner) end, w).
Proof. intros Hi Hc. unfold toy_run. rewrite (invocation_command _ _ Hi), Hc, read_of_script. cbn. by destruct (w !! q). Qed.

#[local] Instance toy_host_laws banner : @SshLaws _ (toy_host banner).
Proof.
  constructor; cbn.
  - intros args cmd dir w p Hi Hc _. unfold toy_run. by rewrite (invocation_command _ _ Hi), Hc.
  - intros args cmd tmp q data w p Hi Hc _ _ H1 H2. rewrite (toy_write _ _ _ _ _ _ _ Hi Hc). cbn.
    by rewrite lookup_insert_ne, lookup_delete_ne.
  - intros args cmd tmp q data w out err w' Hi Hc _ _ Hne. rewrite (toy_write _ _ _ _ _ _ _ Hi Hc). intros [= _ _ <-]. by apply lookup_insert_eq.
  - intros args cmd tmp q data w Hi Hc _ _ Hne. rewrite (toy_write _ _ _ _ _ _ _ Hi Hc). cbn. right. exists (String.length data).
    rewrite lookup_insert_eq. f_equal. pose proof (str_take_app data EmptyString) as Ht. by rewrite str_app_nil_r in Ht.
  - intros args cmd q w p Hi Hc _. by rewrite (toy_read _ _ _ _ _ Hi Hc).
  - intros args cmd q w out err w' Hi Hc _. rewrite (toy_read _ _ _ _ _ Hi Hc). destruct (w !! q); [|done]. by intros [= <- _ _].
  - intros args cmd q w out err w' Hi Hc _. rewrite (toy_read _ _ _ _ _ Hi Hc). by destruct (w !! q).
Qed.

#[local] Existing Instance SyncFile.toy_meta.
#[local] Existing Instance SyncFile.toy_meta_laws.
#[local] Existing Instance toy_aead.
#[local] Existing Instance toy_rand.

Definition w_ssh : adapter := mkSsh "u@host" "/srv/my configs/jitenv" "22".
Definition w_host : gmap string string := {["/srv/my configs/other" := "x"]}.

Lemma w_accepted : accepted w_ssh.
Proof. constructor; [by split|by split|right; by exists 22%Z]. Qed.


(** The text on standard error replaces the error it came with: a host that greets its
    users there loses the exit status that says the file is missing, so an empty remote
    looks like a broken one and the first push is refused. *)
Example banner_hides_missing :
  (@Pull _ (toy_host "Welcome") _ w_ssh ∅).1 = Err (AdapterErr "read blob")
  /\ (@Pull _ (toy_host "") _ w_ssh ∅).1 = Err NoRemoteState
  /\ (PushConfig (H1 := @ssh_remote _ (toy_host "Welcome") _ w_ssh) (mkAdapter "s" "ssh" ∅ "") (pad 32) "cfg" 1 false 0 ∅).1.1.1
     = Err (PushCheck (AdapterErr "read blob")).
Proof. split; [vm_compute; reflexivity|]. split; [vm_compute; reflexivity|]. vm_compute. reflexivity. Qed.

(** A port is anything Atoi takes, a sign included; and the parent of a file in the root
    directory is the login directory. *)
Example signed_port : is_ok (New {["host" := AStr "h"; "path" := AStr "/p"; "port" := AStr "-22"]}) = true.
Proof. reflexivity. Qed.

(** Nor need the path be absolute: one that begins with a dash is accepted. *)
Example dash_path : is_ok (New {["host" := AStr "h"; "path" := AStr "-jitenv"]}) = true.
Proof. reflexivity. Qed.

Example root_parent : remoteDir "/jitenv" = "." /\ remoteDir "/srv/jitenv" = "/srv".
Proof. split; reflexivity. Qed.
End Ssh.
