(* ===== verification/Vault.v ===== *)
(** * The Vault source (src/internal/sources/vault/vault.go)

    Reading a KV path of a HashiCorp Vault: the parameters, the cached authenticated
    client, the path that is asked for and what comes back.  The API client is an
    interface; a JSON value is what its decoder yields. *)

From S2P Require Import Prelude GoString GoPath GoTime ConfigModel Store Resolver.
Import Config GoTime Resolver.

Module Vault.

(** ** Values *)

(** interface{} as the API client decodes it: a number keeps its text. *)
Inductive jval :=
| JNull
| JBool (b : bool)
| JNum (text : string)
| JStr (s : string)
| JArr (l : list jval)
| JObj (m : list (string * jval)).

#[local] Abbreviation jobj := (gmap string jval).

(** fmt.Sprint: a map is printed in the order of its keys. *)
Fixpoint sprint (v : jval) : string :=
  match v with
  | JNull => "<nil>"
  | JBool b => if b then "true" else "false"
  | JNum t => t
  | JStr s => s
  | JArr l => "[" +:+ join " " (map sprint l) +:+ "]"
  | JObj m => "map[" +:+ join " " (map (fun kv => kv.1 +:+ ":" +:+ kv.2)
                (merge_sort (fun a b => String.le a.1 b.1) (map (fun kv => (kv.1, sprint kv.2)) m))) +:+ "]"
  end.

Definition stringify (v : jval) : string :=
  match v with
  | JNull => EmptyString
  | JStr s => s
  | JBool b => if b then "true" else "false"
  | _ => sprint v
  end.

(** ** Parameters *)

Inductive VErr :=
| AddressRequired
| TokenRequired
| RoleIDRequired
| SecretIDRequired
| UnknownAuth (m : string)
| UnknownKV (v : string)
| NewClientFailed
| LoginFailed
| NoToken
| NoPath
| Traversal (ref : string)
| ReadFailed (path : string)
| NoSecret (path : string)
| NoDataWrapper (path : string)
| DataNotMap (path : string)
| NoKey (path key : string).

Record params := mkVault {
  address : string;
  namespace : string;
  authMethod : string;
  token : string;
  roleID : string;
  secretID : string;
  mount : string;
  kvVersion : string;
  tlsSkipVerify : bool
}.

Definition authToken : string := "token".
Definition authAppRole : string := "approle".
Definition kvV1 : string := "v1".
Definition kvV2 : string := "v2".

Definition asString (v : option any) : string := match v with Some (AStr s) => s | _ => EmptyString end.

Definition asBool (v : option any) : bool :=
  match v with
  | Some (ABool b) => b
  | Some (AStr s) => let t := to_lower (trim_space s) in
                     String.eqb t "true" || String.eqb t "1" || String.eqb t "yes"
  | _ => false
  end.

Definition or_default (d s : string) : string := if str_empty s then d else s.

Definition validateStatic (v : params) : option VErr :=
  if str_empty (address v) then Some AddressRequired
  else
    match
      (if String.eqb (authMethod v) authToken then if str_empty (token v) then Some TokenRequired else None
       else if String.eqb (authMethod v) authAppRole then
         if str_empty (roleID v) then Some RoleIDRequired
         else if str_empty (secretID v) then Some SecretIDRequired else None
       else Some (UnknownAuth (authMethod v)))
    with
    | Some e => Some e
    | None => if String.eqb (kvVersion v) kvV1 || String.eqb (kvVersion v) kvV2 then None else Some (UnknownKV (kvVersion v))
    end.

Definition New (cfg : gmap string any) : res VErr params :=
  let s := mkVault (asString (cfg !! "address")) (asString (cfg !! "namespace"))
             (or_default authToken (asString (cfg !! "auth_method")))
             (asString (cfg !! "token")) (asString (cfg !! "role_id")) (asString (cfg !! "secret_id"))
             (or_default "secret" (asString (cfg !! "mount"))) (or_default kvV2 (asString (cfg !! "kv_version")))
             (asBool (cfg !! "tls_skip_verify")) in
  match validateStatic s with Some e => Err e | None => Ok s end.

(** ** Paths *)

Definition hasPathTraversal (name : string) : bool := existsb (String.eqb "..") (split_byte GoPath.SLASH name).

Definition readPath (v : params) (name : string) : string :=
  let name := trim_prefix name "/" in
  let name := if has_prefix name (mount v +:+ "/") then trim_prefix name (mount v +:+ "/") else name in
  let name := if String.eqb (kvVersion v) kvV2 && has_prefix name "data/" then trim_prefix name "data/" else name in
  if String.eqb (kvVersion v) kvV2 then mount v +:+ "/data/" +:+ name else mount v +:+ "/" +:+ name.

Definition unwrap (v : params) (path : string) (body : jobj) : res VErr jobj :=
  if negb (String.eqb (kvVersion v) kvV2) then Ok body
  else match body !! "data" with
       | None => Err (NoDataWrapper path)
       | Some (JObj m) => Ok (list_to_map m)
       | Some _ => Err (DataNotMap path)
       end.

(** ** The client *)

(** vault/api and its AppRole login, at each call.  A login answers with the client that
    carries its token, the token and the lease in seconds, if it answers with any. *)
Class VaultApi (Cl : Type) := {
  api_NewClient : string -> bool -> string -> nat -> option Cl;
  api_SetToken : Cl -> string -> Cl;
  api_Login : Cl -> string -> string -> nat -> option (Cl * option (string * Z));
  api_Read : Cl -> string -> nat -> res unit (option (option jobj))
}.

Definition tokenCacheTTL : Z := Hour.
Definition authCacheSafetyMargin : Z := 60 * Second.

(** cleanTransport's timeouts, in nanoseconds. *)
Record transport := mkTransport { IdleConnTimeout : Z; TLSHandshakeTimeout : Z; ExpectContinueTimeout : Z }.
Definition cleanTransport : transport := mkTransport 30 10 1.

Section Source.
Context {Cl : Type} `{VaultApi Cl, MapRange}.
(** time.Now at each call, in nanoseconds. *)
Context (now : nat -> Z).

(** The source: the cached client with its expiry, and the calls made so far. *)
Record vault := mkSource { conf : params; cached : option (Cl * Z); tick : nat }.

Definition authenticate (v : params) (c : Cl) (t : nat) : res VErr (Cl * Z) * nat :=
  if String.eqb (authMethod v) authToken then (Ok (api_SetToken c (token v), (now t + tokenCacheTTL)%Z), S t)
  else if String.eqb (authMethod v) authAppRole then
    match api_Login c (roleID v) (secretID v) t with
    | None => (Err LoginFailed, S t)
    | Some (c', None) => (Err NoToken, S t)
    | Some (c', Some (tok, seconds)) =>
        if str_empty tok then (Err NoToken, S t)
        else
          let lease := wrap64 (seconds * Second) in
          if (lease <=? authCacheSafetyMargin)%Z then (Ok (c', (now (S t) + authCacheSafetyMargin)%Z), S (S t))
          else (Ok (c', (now (S t) + (lease - authCacheSafetyMargin))%Z), S (S t))
    end
  else (Err (UnknownAuth (authMethod v)), t).

Definition buildAndAuthenticate (v : params) (t : nat) : res VErr (Cl * Z) * nat :=
  match api_NewClient (address v) (tlsSkipVerify v) (namespace v) t with
  | None => (Err NewClientFailed, S t)
  | Some c => authenticate v c (S t)
  end.

Definition newClient (s : vault) : res VErr Cl * vault :=
  let build :=
    match buildAndAuthenticate (conf s) (S (tick s)) with
    | (Ok (c, e), t) => (Ok c, mkSource (conf s) (Some (c, e)) t)
    | (Err e, t) => (Err e, mkSource (conf s) (cached s) t)
    end in
  match cached s with
  | Some (c, e) => if (now (tick s) <? e)%Z then (Ok c, mkSource (conf s) (cached s) (S (tick s))) else build
  | None => build
  end.

Definition Validate (s : vault) : res VErr unit * vault :=
  match newClient s with (Ok _, s') => (Ok tt, s') | (Err e, s') => (Err e, s') end.

(** What Fetch makes of an answer. *)
Definition select (v : params) (path : string) (key : string) (answer : res unit (option (option jobj)))
    : res VErr (gmap string string) :=
  match answer with
  | Err _ => Err (ReadFailed path)
  | Ok None | Ok (Some None) => Err (NoSecret path)
  | Ok (Some (Some body)) =>
      match unwrap v path body with
      | Err e => Err e
      | Ok data =>
          if str_empty key then Ok (stringify <$> data)
          else match data !! key with
               | None => Err (NoKey path key)
               | Some raw => Ok {[key := stringify raw]}
               end
      end
  end.

Definition Fetch (s : vault) (ref : SecretRef) : res VErr (gmap string string) * vault :=
  if str_empty (ID ref) then (Err NoPath, s)
  else if hasPathTraversal (ID ref) then (Err (Traversal (ID ref)), s)
  else
    match newClient s with
    | (Err e, s1) => (Err e, s1)
    | (Ok c, s1) =>
        let path := readPath (conf s) (ID ref) in
        (select (conf s) path (RefKey ref) (api_Read c path (tick s1)), mkSource (conf s) (cached s1) (S (tick s1)))
    end.
End Source.

(** ** The path stays under the mount *)

Lemma no_dotdot name : hasPathTraversal name = false <-> Forall (fun e => e <> "..") (split_byte GoPath.SLASH name).
Proof.
  unfold hasPathTraversal. rewrite <- not_true_iff_false, existsb_exists, Forall_forall. split.
  - intros Hn e He ->. apply Hn. exists "..". split; [by apply list_elem_of_In|done].
  - intros Hn (e & He & Hd). apply String.eqb_eq in Hd as <-. apply (Hn ".."); [by apply list_elem_of_In|done].
Qed.

(** What is left of a reference after a leading part that ends in a slash. *)
Lemma trim_no_dotdot name p : hasPathTraversal name = false -> hasPathTraversal (trim_prefix name (p +:+ "/")) = false.
Proof.
  intros Hn. unfold trim_prefix. destruct (has_prefix name (p +:+ "/")) eqn:Hp; [|done].
  apply has_prefix_spec in Hp as [t ->]. rewrite str_drop_app. apply no_dotdot. apply no_dotdot in Hn.
  rewrite <- str_app_assoc in Hn. change ("/" +:+ t) with (String GoPath.SLASH t) in Hn. rewrite split_byte_mid in Hn.
  by apply Forall_app in Hn as [_ ?].
Qed.

(** Without ".." elements only get added. *)
Lemma clean_grows rooted es out :
  Forall (fun e => e <> "..") es -> exists l, fold_left (GoPath.clean_step rooted) es out = l ++ out.
Proof.
  intros Hes. revert out. induction Hes as [|e es He _ IH]; intros out; [by exists []|]. cbn [fold_left].
  unfold GoPath.clean_step at 2. destruct (str_empty e || _); [apply IH|]. rewrite bool_decide_false by done.
  destruct (IH (e :: out)) as [l ->]. exists (l ++ [e]). by rewrite <- app_assoc.
Qed.

(** The elements of the URL path [/v1/<path>] once a router has cleaned it. *)
Definition routed (path : string) : list string := GoPath.clean_comps ("/" +:+ path).

Lemma routed_base base name :
  Forall GoPath.plain_elem base -> base <> [] -> hasPathTraversal name = false ->
  exists rest, routed (join "/" base +:+ "/" +:+ name) = base ++ rest.
Proof.
  intros Hb Hne Hn. unfold routed, GoPath.clean_comps. rewrite GoPath.IsAbs_slash.
  change ("/" +:+ join "/" base +:+ "/" +:+ name) with (String GoPath.SLASH (join "/" base +:+ String GoPath.SLASH name)).
  assert (Hsp : split_byte GoPath.SLASH (String GoPath.SLASH (join "/" base +:+ String GoPath.SLASH name))
                = EmptyString :: base ++ split_byte GoPath.SLASH name).
  { change (split_byte GoPath.SLASH (String GoPath.SLASH ?x)) with (EmptyString :: split_byte GoPath.SLASH x).
    rewrite split_byte_mid, GoPath.split_join_slash; [done|done|]. apply GoPath.Forall_elem_noslash.
    eapply Forall_impl; [exact Hb|]. by intros e []. }
  rewrite Hsp. cbn [fold_left]. change (GoPath.clean_step true [] EmptyString) with (@nil string).
  rewrite fold_left_app, (GoPath.clean_fold_plain true base) by done. apply no_dotdot in Hn.
  destruct (clean_grows true _ (rev base ++ []) Hn) as [l Hl]. rewrite Hl. exists (rev l).
  by rewrite app_nil_r, rev_app_distr, rev_involutive.
Qed.

(** Where the source may read: below the mount, and for version 2 below its data. *)
Definition data_root (v : params) (ml : list string) : list string :=
  if String.eqb (kvVersion v) kvV2 then ml ++ ["data"] else ml.

Lemma readPath_routed v ml name :
  mount v = join "/" ml -> Forall GoPath.plain_elem ml -> ml <> [] -> hasPathTraversal name = false ->
  exists rest, routed (readPath v name) = data_root v ml ++ rest.
Proof.
  intros Hm Hml Hne Hn. unfold readPath, data_root.
  assert (H1 : hasPathTraversal (trim_prefix name "/") = false) by exact (trim_no_dotdot name EmptyString Hn).
  set (n1 := trim_prefix name "/") in *.
  assert (H2 : hasPathTraversal (if has_prefix n1 (mount v +:+ "/") then trim_prefix n1 (mount v +:+ "/") else n1) = false)
    by (destruct (has_prefix n1 _); [by apply trim_no_dotdot|done]).
  set (n2 := if has_prefix n1 _ then _ else _) in *.
  assert (H3 : hasPathTraversal (if String.eqb (kvVersion v) kvV2 && has_prefix n2 "data/" then trim_prefix n2 "data/" else n2) = false)
    by (destruct (_ && _); [exact (trim_no_dotdot n2 "data" H2)|done]).
  set (n3 := if _ && _ then _ else _) in *. cbv zeta. rewrite Hm. destruct (String.eqb (kvVersion v) kvV2).
  - assert (Hj : join "/" ml +:+ "/data/" +:+ n3 = join "/" (ml ++ ["data"]) +:+ "/" +:+ n3).
    { rewrite GoPath.join_app_last by done. by rewrite <- !str_app_assoc. }
    rewrite Hj. apply routed_base; [|by destruct ml|done]. apply Forall_app. split; [done|]. by repeat constructor.
  - by apply routed_base.
Qed.


(** ** The cached client *)

(** How long a lease of [seconds] is used. *)
Definition cache_time (seconds : Z) : Z :=
  let lease := wrap64 (seconds * Second) in
  if (lease <=? authCacheSafetyMargin)%Z then authCacheSafetyMargin else lease - authCacheSafetyMargin.

Section Cache.
Context {Cl : Type} `{VaultApi Cl, MapRange}.
Context (now : nat -> Z).

(** The client came out of this login, or carries the static token. *)
Inductive obtained (v : params) (c : Cl) : Z -> Prop :=
| by_token c0 t : authMethod v = authToken -> c = api_SetToken c0 (token v) -> obtained v c (now t + tokenCacheTTL)
| by_login c0 t tok seconds : authMethod v = authAppRole -> api_Login c0 (roleID v) (secretID v) t = Some (c, Some (tok, seconds)) ->
    obtained v c (now (S t) + cache_time seconds).

Definition cache_ok (s : vault) : Prop := forall c e, cached s = Some (c, e) -> obtained (conf s) c e.

(** The operations of a source. *)
Inductive vault_step : vault -> vault -> Prop :=
| step_validate s : vault_step s (Validate now s).2
| step_fetch s ref : vault_step s (Fetch now s ref).2.

Lemma authenticate_obtained v c0 t c e t' : authenticate now v c0 t = (Ok (c, e), t') -> obtained v c e.
Proof.
  unfold authenticate. destruct (String.eqb_spec (authMethod v) authToken) as [Hm|_].
  - intros [= <- <- _]. by eapply by_token.
  - destruct (String.eqb_spec (authMethod v) authAppRole) as [Hm|_]; [|done].
    destruct (api_Login _ _ _ t) as [[c' [[tok secs]|]]|] eqn:Hl; [|done..].
    destruct (str_empty tok); [done|]. pose proof (by_login v c' c0 t tok secs Hm Hl) as Ho. unfold cache_time in Ho. cbv zeta in *.
    destruct (_ <=? _)%Z; by intros [= <- <- _].
Qed.

(** A client is served from a cache that has not run out, or has just been obtained. *)
Lemma newClient_spec s r s' :
  cache_ok s -> newClient now s = (r, s') ->
  conf s' = conf s /\ cache_ok s'
  /\ forall c, r = Ok c ->
       (exists e, cached s = Some (c, e) /\ (now (tick s) < e)%Z /\ cached s' = cached s)
       \/ (exists e, cached s' = Some (c, e) /\ forall c0 e0, cached s = Some (c0, e0) -> (e0 <= now (tick s))%Z).
Proof.
  intros Hs. unfold newClient.
  assert (Hbuild : forall r s', match buildAndAuthenticate now (conf s) (S (tick s)) with
      | (Ok (c, e), t) => (Ok c, mkSource (conf s) (Some (c, e)) t)
      | (Err e, t) => (Err e, mkSource (conf s) (cached s) t)
      end = (r, s') -> conf s' = conf s /\ cache_ok s' /\ forall c, r = Ok c -> exists e, cached s' = Some (c, e)).
  { clear r s'. intros r s'. unfold buildAndAuthenticate. destruct (api_NewClient _ _ _ _) as [c0|]; [|intros [= <- <-]; split; [done|]; by split].
    destruct (authenticate now (conf s) c0 _) as [[[c e]|e] t] eqn:Ha; intros [= <- <-]; (split; [done|]); [|by split].
    apply authenticate_obtained in Ha. split; [by intros c' e' [= <- <-]|]. intros c' [= <-]. by exists e. }
  destruct (cached s) as [[c e]|] eqn:Hc.
  - destruct (Z.ltb_spec (now (tick s)) e) as [Hlt|Hge].
    + intros [= <- <-]. split; [done|]. split; [intros c' e' Hc'; apply Hs; by rewrite Hc|]. intros c' [= <-]. left. by exists e.
    + intros Hr. destruct (Hbuild _ _ Hr) as (Hcf & Hok & Hex). split; [done|]. split; [done|]. intros c' Hr'. right.
      destruct (Hex _ Hr') as [e' He']. exists e'. split; [done|]. intros c0 e0 [= <- <-]. lia.
  - intros Hr. destruct (Hbuild _ _ Hr) as (Hcf & Hok & Hex). split; [done|]. split; [done|]. intros c' Hr'. right.
    destruct (Hex _ Hr') as [e' He']. by exists e'.
Qed.

Lemma vault_step_ok s s' : vault_step s s' -> cache_ok s -> cache_ok s' /\ conf s' = conf s.
Proof.
  intros [s1|s1 ref] Hs.
  - unfold Validate. destruct (newClient now s1) as [[c|e] s2] eqn:Hn; apply newClient_spec in Hn as (? & ? & _); done.
  - unfold Fetch. destruct (str_empty _); [done|]. destruct (hasPathTraversal _); [done|].
    destruct (newClient now s1) as [[c|e] s2] eqn:Hn; apply newClient_spec in Hn as (Hc & Hok & _); try done.
    cbn. split; [|done]. intros c' e' Hc'. rewrite <- Hc. by apply Hok.
Qed.

Lemma vault_run_ok s s' : rtc vault_step s s' -> cache_ok s -> cache_ok s' /\ conf s' = conf s.
Proof.
  induction 1 as [|s s1 s2 Hstep _ IH]; [done|]. intros Hs. destruct (vault_step_ok _ _ Hstep Hs) as [H1 Hc].
  destruct (IH H1) as [H2 Hc2]. split; [done|congruence].
Qed.

Lemma cache_time_lease seconds :
  (60 <= seconds)%Z -> (seconds * Second < 2 ^ 63)%Z -> (cache_time seconds <= seconds * Second)%Z.
Proof.
  intros H1 H2. unfold cache_time, authCacheSafetyMargin. cbv zeta.
  assert (Hw : wrap64 (seconds * Second) = (seconds * Second)%Z) by (unfold wrap64, Second in *; rewrite Z.mod_small; lia).
  rewrite Hw. destruct (Z.leb_spec (seconds * Second) (60 * Second)); unfold Second in *; lia.
Qed.

(**  A cached Vault client is never used past its credentials.  After any sequence of
    fetches and validations, a client that comes from the cache was obtained by this
    source with its own parameters, and if it came out of a login with a lease of a
    minute or more, less than the lease has passed since; when the cache has run out
    the client is obtained anew. *)
Theorem cached_client_fresh s0 s c s' :
  cached s0 = None -> rtc vault_step s0 s -> newClient now s = (Ok c, s') ->
  (exists e, obtained (conf s0) c e /\ cached s = Some (c, e) /\ (now (tick s) < e)%Z
     /\ forall c0 t tok seconds, api_Login c0 (roleID (conf s0)) (secretID (conf s0)) t = Some (c, Some (tok, seconds)) ->
          e = (now (S t) + cache_time seconds)%Z -> (60 <= seconds)%Z -> (seconds * Second < 2 ^ 63)%Z ->
          (now (tick s) < now (S t) + seconds * Second)%Z)
  \/ (exists e, obtained (conf s0) c e /\ cached s' = Some (c, e)
     /\ forall c0 e0, cached s = Some (c0, e0) -> (e0 <= now (tick s))%Z).
Proof.
  intros Hnone Hrun Hn. destruct (vault_run_ok _ _ Hrun) as [Hok Hc]; [intros c0 e0; by rewrite Hnone|].
  destruct (newClient_spec _ _ _ Hok Hn) as (Hc' & Hok' & Hr). destruct (Hr _ eq_refl) as [(e & He & Hlt & _)|(e & He & Hold)].
  - left. exists e. split; [rewrite <- Hc; by apply Hok|]. split; [done|]. split; [done|].
    intros c0 t tok seconds _ -> H1 H2. pose proof (cache_time_lease _ H1 H2). lia.
  - right. exists e. split; [rewrite <- Hc, <- Hc'; by apply Hok'|]. done.
Qed.
End Cache.

(** ** A small Vault *)

#[local] Instance toy_vault : VaultApi string := {|
  api_NewClient a _ _ _ := Some a;
  api_SetToken _ t := t;
  api_Login _ r _ _ := Some ("session of " +:+ r, Some ("tok", 10%Z));
  api_Read _ path _ := if String.eqb path "secret/data/app/prod"
    then Ok (Some (Some {["data" := JObj [("PASSWORD", JStr "hunter2"); ("PORT", JNum "5432"); ("TAGS", JArr [JStr "a"; JNull])]]}))
    else Ok None
|}.

Definition w_params : params := mkVault "https://v" "" "approle" "" "role" "sid" "secret" "v2" false.
(** A clock that moves a minute less a second at every look. *)
Definition w_now (t : nat) : Z := (Z.of_nat t * (59 * Second))%Z.
#[local] Existing Instance map_range_default.

Definition w_ref : SecretRef := mkRef "/secret/data/app/prod" "" ∅.
Definition w_source : vault (Cl := string) := mkSource w_params None 0.
Definition w_all : gmap string string := {["PASSWORD" := "hunter2"; "PORT" := "5432"; "TAGS" := "[a <nil>]"]}.


Lemma cached_client_fresh_witness :
  exists e, obtained w_now w_params "session of role" e.
Proof.
  assert (Hn : newClient w_now w_source = (Ok "session of role", (newClient w_now w_source).2)) by (vm_compute; reflexivity).
  destruct (cached_client_fresh w_now w_source w_source "session of role" _ eq_refl (rtc_refl _ _) Hn)
    as [(e & He & _)|(e & He & _)]; exists e; exact He.
Defined.

(** A lease shorter than the margin is cached for the margin: ten seconds of validity are
    used for a minute. *)
Example short_lease_outlived :
  let s1 := (newClient w_now w_source).2 in
  cached s1 = Some ("session of role", (w_now 3 + 60 * Second)%Z)
  /\ newClient w_now s1 = (Ok "session of role", mkSource w_params (cached s1) (S (tick s1)))
  /\ (w_now 3 + 10 * Second < w_now (tick s1))%Z.
Proof. vm_compute. split; [done|]. split; done. Qed.

(** A failing read leaves the client in the cache: after a revoked token the source
    answers with the same client until the cache runs out. *)
Lemma failed_read_keeps_client {Cl} `{VaultApi Cl, MapRange} now (s : vault) ref e s' :
  Fetch now s ref = (Err (ReadFailed e), s') -> exists c, (newClient now s).1 = Ok c /\ cached s' = cached (newClient now s).2.
Proof.
  unfold Fetch. destruct (str_empty _); [done|]. destruct (hasPathTraversal _); [done|].
  destruct (newClient now s) as [[c|e'] s1] eqn:Hn.
  - intros [= _ <-]. by exists c.
  - intros [= -> <-]. exfalso. unfold newClient, buildAndAuthenticate, authenticate in Hn. by repeat (case_match; simplify_eq).
Qed.

(** The transport of tls_skip_verify gives the TLS handshake ten nanoseconds, and an idle
    connection thirty: its numbers were meant as seconds. *)
Example handshake_budget : (TLSHandshakeTimeout cleanTransport < 1000)%Z /\ (IdleConnTimeout cleanTransport < 1000)%Z.
Proof. split; reflexivity. Qed.

(** Two references that differ may be one path: the mount and the word data are taken off. *)
Example readPath_aliases :
  readPath w_params "secret/data/app" = readPath w_params "app" /\ readPath w_params "data/app" = readPath w_params "/secret/app".
Proof. split; reflexivity. Qed.
End Vault.
