(* ===== verification/Aws.v ===== *)
(** * The AWS Secrets Manager source (src/internal/sources/aws/aws.go)

    Credentials and endpoints as the SDK is handed them, the bags of the curated
    secrets, and what a fetch makes of a secret string.  The SDK's calls and the decoder
    of JSON objects are an interface. *)

From S2P Require Import Prelude GoString ConfigModel Store Resolver Vault.
Import Config Resolver.

Module Aws.

Inductive AErr :=
| ProfileRemoved
| SecretWithoutKey
| LoadConfig
| IDRequired
| GetSecretValue (id : string)
| NoSecretString (id : string)
| NotJSON (id key : string)
| NoKey (id key : string)
| NotString (id key : string)
| CallerIdentity
| Joined (errs : list (string * AErr)).

Record awsSource := mkAws {
  region : string;
  accessKeyID : string;
  secretAccessKey : string;
  sessionToken : string;
  roleArn : string;
  roleExternalID : string;
  roleSessionName : string;
  endpointOverride : string;
  arns : list string
}.

Definition asString (v : option any) : string := match v with Some (AStr s) => s | _ => EmptyString end.

(** A list of strings of the editor and a decoded array are one value here; the empty
    strings of the latter are left out. *)
Definition asStringList (v : option any) : list string :=
  match v with
  | Some (AList l) => omap (fun e => match e with AStr s => if str_empty s then None else Some s | _ => None end) l
  | _ => []
  end.

Definition New (cfg : gmap string any) : res AErr awsSource :=
  if negb (str_empty (asString (cfg !! "profile"))) then Err ProfileRemoved
  else
    let s := mkAws (asString (cfg !! "region")) (asString (cfg !! "access_key_id")) (asString (cfg !! "secret_access_key"))
               (asString (cfg !! "session_token")) (asString (cfg !! "role_arn")) (asString (cfg !! "role_external_id"))
               (asString (cfg !! "role_session_name")) (asString (cfg !! "endpoint_override"))
               (asStringList (cfg !! "arns")) in
    if negb (str_empty (accessKeyID s)) && str_empty (secretAccessKey s) then Err SecretWithoutKey else Ok s.

(** What the SDK is configured with. *)
Record AwsConfig := mkAwsConfig {
  with_region : option string;
  static_creds : option (string * string * string);
  assume_role : option (string * option string * string);   (* ARN, external ID, session name *)
  base_endpoint : option string
}.

Definition unless_empty (s : string) : option string := if str_empty s then None else Some s.

Definition loadAwsCfg (a : awsSource) : AwsConfig :=
  mkAwsConfig (unless_empty (region a))
    (if str_empty (accessKeyID a) then None else Some (accessKeyID a, secretAccessKey a, sessionToken a))
    (if str_empty (roleArn a) then None
     else Some (roleArn a, unless_empty (roleExternalID a),
                if str_empty (roleSessionName a) then "jitenv" else roleSessionName a))
    (unless_empty (endpointOverride a)).

(** The SDK at each call, and json.Unmarshal into a map. *)
Class AwsApi := {
  load_default : AwsConfig -> nat -> bool;
  get_secret_value : AwsConfig -> string -> nat -> option (option string);
  get_caller_identity : AwsConfig -> nat -> bool;
  json_object : string -> option (gmap string Vault.jval)
}.

(** ** Display names *)

Definition alnum (c : ascii) : bool := is_lower c || is_upper c || is_digit c.

Definition str_at (n : nat) (s : string) : option ascii :=
  match str_drop n s with String c _ => Some c | EmptyString => None end.

Definition arnDisplayName (arn : string) : string :=
  match index_str arn ":secret:" with
  | None => arn
  | Some i =>
      let name := str_drop (i + 8) arn in
      let n := String.length name in
      if (7 <? n)%nat && bool_decide (str_at (n - 7) name = Some "-"%char) && forall_bytes alnum (str_drop (n - 6) name)
      then str_take (n - 7) name else name
  end.

Record Bag := mkBag { RefID : string; DisplayName : string; Keys : list string }.

Section Source.
Context `{AwsApi, MapRange}.

(** The bags in the order of the ARNs, with the errors of those that failed. *)
Fixpoint bags_loop (cfg : AwsConfig) (t : nat) (l : list string) : list Bag * list (string * AErr) :=
  match l with
  | [] => ([], [])
  | arn :: l' =>
      let name := arnDisplayName arn in
      let '(bs, es) := bags_loop cfg (S t) l' in
      match get_secret_value cfg arn t with
      | None => (mkBag arn name [] :: bs, (name, GetSecretValue arn) :: es)
      | Some v =>
          let keys := match v with
                      | Some body => match json_object body with Some obj => (map_range 70 obj).*1 | None => [] end
                      | None => []
                      end in
          (mkBag arn name keys :: bs, es)
      end
  end.

(** Bags and the joined error come back together. *)
Definition Bags (a : awsSource) (t : nat) : list Bag * option AErr :=
  if bool_decide (arns a = []) then ([], None)
  else
    let cfg := loadAwsCfg a in
    if negb (load_default cfg t) then ([], Some LoadConfig)
    else let '(bs, es) := bags_loop cfg (S t) (arns a) in
         (bs, if bool_decide (length es = 0%nat) then None else Some (Joined es)).

Definition Validate (a : awsSource) (t : nat) : res AErr unit :=
  let cfg := loadAwsCfg a in
  if negb (load_default cfg t) then Err LoadConfig
  else if get_caller_identity cfg (S t) then Ok tt else Err CallerIdentity.

Definition string_of (v : Vault.jval) : option string := match v with Vault.JStr s => Some s | _ => None end.

Definition Fetch (a : awsSource) (ref : SecretRef) (t : nat) : res AErr (gmap string string) :=
  if str_empty (ID ref) then Err IDRequired
  else
    let cfg := loadAwsCfg a in
    if negb (load_default cfg t) then Err LoadConfig
    else
      match get_secret_value cfg (ID ref) (S t) with
      | None => Err (GetSecretValue (ID ref))
      | Some None => Err (NoSecretString (ID ref))
      | Some (Some body) =>
          if negb (str_empty (RefKey ref)) then
            match json_object body with
            | None => Err (NotJSON (ID ref) (RefKey ref))
            | Some obj =>
                match obj !! RefKey ref with
                | None => Err (NoKey (ID ref) (RefKey ref))
                | Some v => match string_of v with
                            | None => Err (NotString (ID ref) (RefKey ref))
                            | Some s => Ok {[RefKey ref := s]}
                            end
                end
            end
          else
            match json_object body with
            | Some obj =>
                let out := omap string_of obj in
                if bool_decide (out = ∅) then Ok {["value" := body]} else Ok out
            | None => Ok {["value" := body]}
            end
      end.
End Source.

(** ** Facts *)

(** Every curated secret has its bag, in order, whatever fails; and an error names
    exactly those that failed. *)
Lemma bags_loop_spec `{AwsApi, MapRange} cfg t l :
  map RefID (bags_loop cfg t l).1 = l
  /\ (bags_loop cfg t l).2 = omap (fun ta => match get_secret_value cfg ta.2 ta.1 with
                                            | None => Some (arnDisplayName ta.2, GetSecretValue ta.2)
                                            | Some _ => None
                                            end) (zip (seq t (length l)) l).
Proof.
  revert t. induction l as [|arn l IH]; intros t; [done|]. cbn [bags_loop]. destruct (IH (S t)) as [H1 H2].
  destruct (bags_loop cfg (S t) l) as [bs es]. cbn [fst snd] in *. cbn [length seq zip zip_with omap list_omap fst snd].
  destruct (get_secret_value cfg arn t) as [v|]; cbn; rewrite H1, H2; done.
Qed.

Lemma str_drop_plus n m s : str_drop (n + m) s = str_drop m (str_drop n s).
Proof.
  revert s. induction n as [|n IH]; intros s; [done|]. cbn [Nat.add]. destruct s as [|c s]; [|apply IH]. by destruct m.
Qed.

(** The name the user gave, without what Secrets Manager appended to it. *)
Lemma arnDisplayName_name pre name suf :
  let arn := pre +:+ ":secret:" +:+ name +:+ "-" +:+ suf in
  index_str arn ":secret:" = Some (String.length pre) ->
  String.length suf = 6%nat -> forall_bytes alnum suf = true -> name <> "" ->
  arnDisplayName arn = name.
Proof.
  cbv zeta. intros Hi Hl Ha Hn. unfold arnDisplayName. rewrite Hi, str_drop_plus, str_drop_app.
  change 8%nat with (String.length ":secret:"). rewrite str_drop_app.
  assert (Hlen : String.length (name +:+ "-" +:+ suf) = (String.length name + 7)%nat) by (rewrite !str_length_app, Hl; reflexivity).
  assert (Hne : (0 < String.length name)%nat) by (destruct name; [done|cbn; lia]).
  rewrite Hlen. replace (7 <? String.length name + 7)%nat with true by (symmetry; apply Nat.ltb_lt; lia).
  replace (String.length name + 7 - 7)%nat with (String.length name) by lia.
  replace (String.length name + 7 - 6)%nat with (String.length name + 1)%nat by lia.
  unfold str_at. rewrite str_drop_plus, !str_drop_app, str_take_app. change (str_drop 1 ("-" +:+ suf)) with (str_drop 0 suf).
  change (str_drop 0 suf) with suf. rewrite Ha. reflexivity.
Qed.

(** What a fetch answers, on every branch. *)
Lemma Fetch_spec `{AwsApi} a ref t r :
  Fetch a ref t = Ok r ->
  exists body, load_default (loadAwsCfg a) t = true /\ get_secret_value (loadAwsCfg a) (ID ref) (S t) = Some (Some body) /\ ID ref <> ""
  /\ if str_empty (RefKey ref) then
       (r = {["value" := body]} /\ (forall obj k s, json_object body = Some obj -> obj !! k <> Some (Vault.JStr s)))
       \/ (r <> ∅ /\ exists obj, json_object body = Some obj /\ forall k s, r !! k = Some s <-> obj !! k = Some (Vault.JStr s))
     else exists obj s, json_object body = Some obj /\ obj !! RefKey ref = Some (Vault.JStr s) /\ r = {[RefKey ref := s]}.
Proof.
  assert (Hs : forall v x, string_of v = Some x <-> v = Vault.JStr x) by (intros v x; destruct v; cbn; split; intros Hx; simplify_eq; done).
  unfold Fetch. str_cases (ID ref); [done|]. destruct (load_default _ t); [|done]. cbn [negb].
  destruct (get_secret_value _ _ _) as [[body|]|]; [|done..]. intros Hr. exists body. do 3 (split; [done|]).
  destruct (str_empty (RefKey ref)); cbn [negb] in Hr.
  - destruct (json_object body) as [obj|]; [|injection Hr as <-; by left].
    assert (Hom : forall k s, omap string_of obj !! k = Some s <-> obj !! k = Some (Vault.JStr s)).
    { intros k s. rewrite lookup_omap_Some. setoid_rewrite Hs. naive_solver. }
    case_bool_decide as He; injection Hr as <-.
    + left. split; [done|]. intros obj' k s [= <-] Hk. apply Hom in Hk. by rewrite He, lookup_empty in Hk.
    + right. split; [done|]. by exists obj.
  - destruct (json_object body) as [obj|]; [|done]. destruct (obj !! RefKey ref) as [v|] eqn:Hk; [|done].
    destruct (string_of v) as [s|] eqn:Hv; [|done]. injection Hr as <-. apply Hs in Hv as ->. by exists obj, s.
Qed.

(** The curated list does not bound what may be fetched: a fetch asks for any reference. *)
Lemma Fetch_ignores_arns `{AwsApi} a l ref t :
  Fetch (mkAws (region a) (accessKeyID a) (secretAccessKey a) (sessionToken a) (roleArn a) (roleExternalID a)
           (roleSessionName a) (endpointOverride a) l) ref t = Fetch a ref t.
Proof. done. Qed.

(** ** The built-in remote sources (src/internal/sources/builtin/builtin.go) *)

Section Builtin.
Context `{AwsApi} {Cl : Type} `{Vault.VaultApi Cl} `{MapRange}.
(** When the source is asked, and the clock of Vault's cache. *)
Context (at_call : nat) (now : nat -> Z) (aws_error : AErr -> string) (vault_error : Vault.VErr -> string).

(** A source keeps its parameters; a Vault source starts without a client. *)
#[export] Instance builtin_remotes : Remotes := {|
  remote_types := ["aws"; "vault"];
  remote_build type cfg :=
    if String.eqb type "aws" then (fun _ => cfg) <$> wrap_err aws_error (New cfg)
    else (fun _ => cfg) <$> wrap_err vault_error (Vault.New cfg);
  remote_fetch type cfg ref :=
    if String.eqb type "aws" then s ← wrap_err aws_error (New cfg); wrap_err aws_error (Fetch s ref at_call)
    else v ← wrap_err vault_error (Vault.New cfg);
         wrap_err vault_error (Vault.Fetch now (Vault.mkSource v None at_call) ref).1
|}.

Lemma builtin_types : Types <$> registered = Some ["aws"; "local"; "noop"; "vault"].
Proof. vm_compute. reflexivity. Qed.
End Builtin.
End Aws.
