(* ===== verification/AgentStart.v ===== *)
(** * Starting the agent (src/internal/agent/daemonize.go, daemonize_unix.go, resolve_exe.go;
    src/internal/cli/agent_internal.go, agent_env_scrub.go, agent_key_unix.go)

    The parent hands the key to a detached child through a pipe and waits for the
    socket; the child reads the key, loads the configuration and listens.  The child's
    process, the pipe and the clock are what the outside gives. *)

From S2P Require Import Prelude GoString GoPath GoDuration Fs ConfigModel Crypto NameId Seal Store StoreMigrate Edit Mapping Protocol Resolver Shells Agent Toys SealStable Bag.
Import GoPath GoDuration Fs Config Crypto NameId Seal Store StoreMigrate Edit Mapping Protocol Resolver Shells Agent.

Module AgentStart.

(** ** The key (daemonize.go) *)

(** readFull: what each Read returns, the bytes and whether an error came with them.
    [None]: the answers ran out. *)
Fixpoint readFull (want : nat) (got : string) (reads : list (string * bool)) : option (res string string) :=
  if (want <=? String.length got)%nat then Some (Ok got)
  else match reads with
       | [] => None
       | (chunk, err) :: reads' =>
           let got' := got +:+ str_take (want - String.length got) chunk in
           if err then if (String.length got' =? want)%nat then Some (Ok got') else Some (Err "read")
           else readFull want got' reads'
       end.

Definition ReadKeyFromFd (open : bool) (reads : list (string * bool)) : option (res string string) :=
  if open then readFull KeyLen EmptyString reads else Some (Err "fd not available").

Definition readKeyFromFlag (value : string) (open : Z -> bool) (reads : list (string * bool)) : option (res string string) :=
  match atoi value with
  | None => Some (Err "parse key-fd")
  | Some fd => ReadKeyFromFd (open fd) reads
  end.

Lemma str_take_exact n a b : String.length a = n -> str_take n (a +:+ b) = a.
Proof. intros <-. apply str_take_app. Qed.

(** However the pipe cuts the key, it arrives. *)
Lemma readFull_delivers want got reads :
  Forall (fun r => r.2 = false) reads ->
  (String.length got <= want)%nat -> (want <= String.length (got +:+ join "" reads.*1))%nat ->
  readFull want got reads = Some (Ok (str_take want (got +:+ join "" reads.*1))).
Proof.
  intros HF. revert got. induction HF as [|[chunk err] reads Hr HF IH]; intros got Hle Hwant; cbn [readFull].
  - rewrite str_app_nil_r in *. assert (Hl : String.length got = want) by lia.
    rewrite Hl, Nat.leb_refl. do 2 f_equal. rewrite <- (str_app_nil_r got) at 2. by rewrite str_take_exact.
  - cbn in Hr. subst err. assert (Hj : join "" ((chunk, false) :: reads).*1 = chunk +:+ join "" reads.*1).
    { cbn [fmap list_fmap fst]. destruct reads; [by rewrite str_app_nil_r|]. by rewrite join_cons. }
    rewrite Hj in *. destruct (Nat.leb_spec want (String.length got)) as [Hg|Hg].
    + by rewrite str_take_exact by lia.
    + set (k := (want - String.length got)%nat). pose proof (str_take_drop k chunk) as Hc.
      destruct (le_lt_dec (String.length chunk) k) as [Hk|Hk].
      * rewrite str_drop_ge, str_app_nil_r in Hc by done. rewrite Hc. rewrite IH; rewrite <- ?str_app_assoc; try done.
        rewrite str_length_app. lia.
      * assert (Hlen : String.length (got +:+ str_take k chunk) = want) by (rewrite str_length_app, str_length_take; lia).
        rewrite IH; [|lia|rewrite str_length_app; lia]. rewrite str_take_exact by done. rewrite <- Hc at 2.
        do 2 f_equal. symmetry. rewrite <- str_app_assoc, (str_app_assoc got). by apply str_take_exact.
Qed.

(** ** The parent (daemonize_unix.go, resolve_exe.go) *)

Inductive DErr :=
| DRunning (pid : Z)
| DKeyLen
| DOs (what : string)
| DFs (e : FErr)
| DNoSibling (path : string)
| DExited (status tail : string)
| DTimeout (timeout : Z) (tail : string)
| DWaiting.                           (* the recorded events end before the wait does *)

(** What the select of the wait sees. *)
Inductive event := ETick | EExit (status : string) | EDeadline.

Definition defaultSpawnTimeout : Z := (10 * 1000000000)%Z.

Section Parent.
Context `{Os}.
Context (signal0 : Z -> bool) (executable : option string).

Definition spawnTimeout : Z :=
  let v := Getenv "JITENV_AGENT_SPAWN_TIMEOUT" in
  match (if str_empty v then None else ParseDuration v) with
  | Some d => if (0 <? d)%Z then d else defaultSpawnTimeout
  | None => defaultSpawnTimeout
  end.

Definition resolveAgentExecutable : M DErr string :=
  exe ← lift (of_option (DOs "executable") executable);
  if String.eqb (Base exe) "jitenv-hook" || String.eqb (Base exe) "jitenv-hook.exe" then
    let cand := Join [Dir exe; "jitenv"] in
    _ ← mapErr (fun _ => DNoSibling cand) (stat cand);
    mret cand
  else mret exe.

(** The last [maxBytes] of a file, or nothing. *)
Definition tailLog {E} (path : string) (maxBytes : nat) : M E string :=
  r ← attempt (read_file path);
  mret (match r with
        | Ok buf => trim_space (str_drop (String.length buf - maxBytes) buf)
        | Err _ => EmptyString
        end).

Definition logTailSuffix {E} (path : string) : M E string :=
  tail ← tailLog path 2048;
  mret (if str_empty tail then EmptyString else str1 LF +:+ "--- agent log tail ---" +:+ str1 LF +:+ tail).

(** O_WRONLY|O_CREATE|O_APPEND *)
Definition open_append (p : string) (mode : Z) : M FErr unit := fun w =>
  syscall (fun f => q ← follow link_depth f p;
                    match f !! q with
                    | Some (NFile _ _ _) => Ok (tt, f)
                    | Some _ => Err (EIsDir p)
                    | None => Ok (tt, <[q := NFile EmptyString mode (clock (tick w))]> f)
                    end) w.

(** The pipe, the start of the process with its arguments, the write of the key, and
    what the child does to the files before each look at the socket. *)
Context (pipe : option string) (start : string -> list string -> option string) (write_key : string -> option string)
  (child : nat -> files -> files).

Definition beside (look : nat) : M DErr unit := fun w => (Ok tt, mkWorld (child look (fs w)) (tick w) (draws w) (locks w) (trace w)).

(** The loop over stat and select. *)
Fixpoint await (socket logFile : string) (timeout : Z) (look : nat) (events : list event) : M DErr unit :=
  _ ← beside look;
  st ← attempt (stat socket);
  match st with
  | Ok _ => mret tt
  | Err _ =>
      match events with
      | [] => throw DWaiting
      | EExit status :: _ => tail ← logTailSuffix logFile; throw (DExited status tail)
      | EDeadline :: _ => tail ← logTailSuffix logFile; throw (DTimeout timeout tail)
      | ETick :: events' => await socket logFile timeout (S look) events'
      end
  end.

Definition agent_args (configFile : string) (idle : Z) : list string :=
  ["__agent"; "--key-fd=3"; "--config=" +:+ configFile; "--idle=" +:+ duration_string idle].

Definition SpawnDaemon (events : list event) (paths : Paths) (configFile : string) (idle : Z) (key : string) : M DErr unit :=
  existing ← attempt (ReadPidFile (PidFile paths));
  let pid := match existing with Ok n => n | Err _ => 0%Z end in
  if (0 <? pid)%Z && PidAlive signal0 pid then throw (DRunning pid)
  else if negb (String.length key =? KeyLen)%nat then throw DKeyLen
  else
    _ ← lift (match pipe with Some e => Err (DOs e) | None => Ok tt end);
    exe ← resolveAgentExecutable;
    _ ← mapErr DFs (open_append (LogFile paths) 384);
    _ ← lift (match start exe (agent_args configFile idle) with Some e => Err (DOs e) | None => Ok tt end);
    _ ← lift (match write_key key with Some e => Err (DOs e) | None => Ok tt end);
    await (Socket paths) (LogFile paths) spawnTimeout 0 events.
End Parent.

(** ** The child (agent_internal.go, agent_env_scrub.go) *)

Definition awsScrubVars : list string :=
  ["AWS_PROFILE"; "AWS_SHARED_CREDENTIALS_FILE"; "AWS_CONFIG_FILE"; "AWS_ROLE_ARN"; "AWS_WEB_IDENTITY_TOKEN_FILE";
   "AWS_ROLE_SESSION_NAME"; "AWS_ACCESS_KEY_ID"; "AWS_SECRET_ACCESS_KEY"; "AWS_SESSION_TOKEN"].

(** The environment left, and the names that were in it. *)
Definition scrubInheritedSecretEnv (env : gmap string string) : gmap string string * list string :=
  (fold_left (fun env k => delete k env) awsScrubVars env, filter (fun k => is_Some (env !! k)) awsScrubVars).

(** NewAgent and SetReload; a fresh process has a fresh heap. *)
Definition NewAgent (now : Z) (r : resolver) (h : heap) : agent := mkAgent now 0 0 (Some r) false false h.
Definition SetReload (a : agent) : agent :=
  mkAgent (startedAt a) (hits a) (lastSeen a) (aresolver a) true (cancelled a) (aheap a).
(** The first step of Serve. *)
Definition begin_serving (now : Z) (a : agent) : agent :=
  mkAgent (startedAt a) (hits a) now (aresolver a) (reloads a) (cancelled a) (aheap a).

Inductive StartErr := SKey (e : string) | SLoadErr (e : LoadErr) | SPaths (e : AErr) | SListen (e : AErr).

Definition empty_heap : heap := mkHeap ∅ ∅.

Section Child.
Context `{Os, Toml, AEAD, NameMapCodec, MapRange, Remotes}.
Context (home cwd : option string) (builders : gmap string builder) (store_text : SErr -> string).
Context (uid pid : Z) (signal0 : Z -> bool) (dir_owner dir_mode : string -> Z) (now : Z).

(** The run of __agent up to Serve: the agent, the scrubbed names and the warnings it logs. *)
Definition agent_main (key_result : res string string) (cfgArg : string) (env : gmap string string)
    : M StartErr (agent * list string * list Warning) :=
  let '(_, hit) := scrubInheritedSecretEnv env in
  key ← lift (wrap_err SKey key_result);
  load ← attempt (Load cfgArg);
  '(r, h) ← lift (wrap_err SLoadErr (loadAndBuild home cwd key builders (wrap_err store_text load) empty_heap));
  again ← attempt (Load cfgArg);
  let warnings := match again with
                  | Ok c => match DecryptInPlace c key with Ok d => Warnings d | Err _ => [] end
                  | Err _ => []
                  end in
  paths ← mapErr SPaths (DefaultPaths uid dir_owner dir_mode);
  _ ← mapErr SListen (Listen signal0 paths pid);
  mret (begin_serving now (SetReload (NewAgent now r h)), hit, warnings).
End Child.

(** ** The wait ends *)

Definition ends (e : event) : bool := match e with ETick => false | _ => true end.

Section Wait.
Context `{Os} (child : nat -> files -> files).

Lemma logTailSuffix_ok {E} path w : exists s w', logTailSuffix (E := E) path w = (Ok s, w').
Proof.
  unfold logTailSuffix, tailLog, mbind, M_bind, attempt. destruct (read_file path w) as [r w1]. by eexists _, _.
Qed.

(** What the wait answers, and when: the socket at the first look that finds it, or the
    first event that ends it. *)
Lemma await_spec socket logFile timeout look events w r w' :
  await child socket logFile timeout look events w = (r, w') ->
  match r with
  | Ok _ => True
  | Err (DExited status _) => EExit status ∈ events
  | Err (DTimeout t _) => EDeadline ∈ events /\ t = timeout
  | Err DWaiting => Forall (fun e => ends e = false) events
  | Err _ => False
  end.
Proof.
  revert look w. induction events as [|e events IH]; intros look w; cbn [await];
    unfold mbind, M_bind, beside, attempt; destruct (stat socket _) as [[n|er] w1]; try by intros [= <- _].
  destruct e as [|status|].
  - intros Hr. apply IH in Hr. destruct r as [?|[]]; try done.
    + by constructor.
    + destruct Hr. split; [by constructor|done].
    + by constructor.
  - destruct (logTailSuffix_ok (E := DErr) logFile w1) as (t & w2 & ->). intros [= <- _]. by constructor.
  - destruct (logTailSuffix_ok (E := DErr) logFile w1) as (t & w2 & ->). intros [= <- _]. split; [by constructor|done].
Qed.

(** The socket that is there at the first look is enough; a child that has died is
    reported at the look after. *)
Lemma await_first socket logFile timeout events w n w1 :
  stat socket (beside child 0 w).2 = (Ok n, w1) -> (await child socket logFile timeout 0 events w).1 = Ok tt.
Proof. intros Hs. destruct events; cbn [await]; unfold mbind, M_bind, beside, attempt in *; cbn [snd] in Hs; by rewrite Hs. Qed.
End Wait.

Section Serving.
Context `{Os, Toml, AEAD, NameMapCodec, MapRange, Remotes}.
Context (home cwd : option string) (builders : gmap string builder) (store_text : SErr -> string).
Context (uid pid : Z) (signal0 : Z -> bool) (dir_owner dir_mode : string -> Z) (now : Z).

(** The resolver built in an empty heap serves its configuration. *)
Lemma first_serves cfg r h :
  BuildResolver home cwd builders empty_heap cfg = Ok (r, h) ->
  serves home cwd (begin_serving now (SetReload (NewAgent now r h))) r cfg.
Proof.
  intros Hb. destruct (BuildResolver_fields _ _ _ _ _ _ _ Hb) as [Hcfg Hidx].
  destruct (BuildResolver_spec _ _ _ _ _ _ _ Hb) as (p & _ & Hst & [Hl _ _ Honly _]).
  split; cbn; [done|done|done| |].
  - exists p. split; [rewrite Hst; apply lookup_insert_eq|]. intros name c Hn. by destruct (Hl _ _ Hn).
  - intros c q Hq. destruct (Honly _ _ Hq) as [Ho|Ho]; [|done]. cbn in Ho. by rewrite lookup_empty in Ho.
Qed.

(** C3.  The agent that was started serves the configuration it was started for.  The
    parent derived [key] and wrote it to the pipe; the file at [path] opens under that
    key to [c].  However the pipe cuts the key into reads, a child that gets as far as
    listening serves [c]: its resolver is built from a decryption of the file that
    validates and has the sources, mappings and bags of [c], and it can reload. *)
Theorem started_agent_serves path key c reads env w a hit warnings w' :
  String.length key = KeyLen -> Forall (fun r => r.2 = false) reads -> join "" reads.*1 = key ->
  holds path key c (fs w) ->
  (exists k, ReadKeyFromFd true reads = Some k
     /\ agent_main home cwd builders store_text uid pid signal0 dir_owner dir_mode now k path env w = (Ok (a, hit, warnings), w')) ->
  exists r d, serves home cwd a r d /\ content d = content c /\ Validate d = None /\ reloads a = true
    /\ hit = filter (fun k => is_Some (env !! k)) awsScrubVars.
Proof.
  intros Hlen HF Hj (data & m & t & Hf & Ho) (k & Hk & Hr).
  assert (Hkey : ReadKeyFromFd true reads = Some (Ok key)).
  { unfold ReadKeyFromFd. pose proof (readFull_delivers KeyLen EmptyString reads HF) as Hd.
    rewrite str_app_nil_l, Hj in Hd. rewrite Hd by (cbn [String.length]; lia). do 2 f_equal. rewrite <- (str_app_nil_r key) at 1. by apply str_take_exact. }
  rewrite Hkey in Hk. injection Hk as <-. unfold agent_main in Hr. cbn [scrubInheritedSecretEnv wrap_err] in Hr.
  apply M_bind_inv in Hr as [(k1 & w1 & Hk & Hr)|(e & _ & ?)]; [|done]. injection Hk as <- <-.
  apply M_bind_inv in Hr as [(load & w2 & Hl & Hr)|(e & _ & ?)]; [|done].
  unfold attempt in Hl. destruct (Load path w) as [rl wl] eqn:Hload. injection Hl as <- <-.
  apply M_bind_inv in Hr as [([r h] & w3 & Hb & Hr)|(e & _ & ?)]; [|done]. apply lift_inv in Hb as [Hb ->].
  destruct (loadAndBuild _ _ _ _ _ _) as [[r1 h1]|e] eqn:Hlb; [|done]. injection Hb as -> ->.
  apply loadAndBuild_inv in Hlb as (d & Hd & Hbuild).
  destruct rl as [cf|e]; [|done]. destruct (opens_load _ _ _ _ _ _ _ _ _ _ Ho Hf Hload eq_refl) as (d' & nm & Hdec & Hcd & _).
  unfold load_config in Hd. cbn [wrap_err mbind res_bind] in Hd. rewrite Hdec in Hd. cbn [wrap_err mbind res_bind] in Hd.
  destruct (Validate d') eqn:Hv; [done|]. injection Hd as <-.
  apply M_bind_inv in Hr as [(again & w4 & _ & Hr)|(e & _ & ?)]; [|done].
  apply M_bind_inv in Hr as [(paths & w5 & _ & Hr)|(e & _ & ?)]; [|done].
  apply M_bind_inv in Hr as [(u & w6 & _ & Hr)|(e & _ & ?)]; [|done]. injection Hr as <- <- <- <-.
  exists r1, d'. split; [by apply first_serves|]. done.
Qed.

(** No variable of the list survives in the agent's environment. *)
Lemma scrubbed env k : k ∈ awsScrubVars -> (scrubInheritedSecretEnv env).1 !! k = None.
Proof.
  unfold scrubInheritedSecretEnv. cbn [fst]. generalize awsScrubVars. intros l. revert env.
  assert (Hnone : forall l (env : gmap string string), env !! k = None -> fold_left (fun env k => delete k env) l env !! k = None).
  { induction l0 as [|x l0 IH]; intros env He; [done|]. cbn. apply IH. by apply lookup_delete_None; right. }
  induction l as [|x l IH]; intros env Hin; [by apply not_elem_of_nil in Hin|]. cbn.
  apply elem_of_cons in Hin as [->|Hin]; [|by apply IH]. apply Hnone, lookup_delete_eq.
Qed.
End Serving.

(** ** An agent for the file [jitenv config init] makes *)

#[local] Existing Instance toy_aead.
#[local] Existing Instance Toys.toy_toml.
#[local] Existing Instance Toys.toy_codec.
#[local] Existing Instance map_range_default.
#[local] Existing Instance Bag.ex_os.

#[local] Instance no_remotes : Remotes := {|
  remote_types := [];
  remote_build _ _ := Err "none";
  remote_fetch _ _ _ := Err "none"
|}.

Definition ex_builders : gmap string builder := default ∅ registered.

(** The key in two pieces. *)
Definition ex_reads : list (string * bool) := [(str_take 5 Bag.ex_key, false); (str_drop 5 Bag.ex_key, false)].
Definition ex_env : gmap string string := {["AWS_PROFILE" := "attacker"; "PATH" := "/bin"]}.

Definition ex_start : res StartErr (agent * list string * list Warning) * world :=
  agent_main (Some "/h") (Some "/") ex_builders (fun _ => "error") 1000 42 (fun _ => false) (fun _ => 1000%Z) (fun _ => 448%Z) 7
    (Ok Bag.ex_key) "/h/config.toml" ex_env Bag.ex_init.

Lemma ex_holds : holds "/h/config.toml" Bag.ex_key Bag.ex_plain (fs Bag.ex_init).
Proof.
  exists (Bag.ex_file Bag.ex_init), 384%Z, 1760000000%Z. split; [vm_compute; reflexivity|].
  exists (Bag.ex_cfg Bag.ex_init), Bag.ex_plain, empty_names. split; [vm_compute; reflexivity|]. split; [vm_compute; reflexivity|].
  split; [reflexivity|]. split; [vm_compute; reflexivity|exact SealStable.empty_names_wf].
Qed.

Lemma started_agent_serves_witness :
  exists a warnings r d, ex_start.1 = Ok (a, ["AWS_PROFILE"], warnings)
    /\ serves (Some "/h") (Some "/") a r d /\ content d = content Bag.ex_plain.
Proof.
  destruct ex_start as [res w'] eqn:Hrun. destruct res as [[[a hit] warnings]|e] eqn:Hres.
  2: { exfalso. apply (f_equal (fun x => is_ok x.1)) in Hrun. vm_compute in Hrun. discriminate Hrun. }
  destruct (started_agent_serves (Some "/h") (Some "/") ex_builders (fun _ => "error") 1000 42 (fun _ => false) (fun _ => 1000%Z)
    (fun _ => 448%Z) 7 "/h/config.toml" Bag.ex_key Bag.ex_plain ex_reads ex_env Bag.ex_init a hit warnings w')
    as (r & d & Hs & Hc & _ & _ & Hhit).
  - vm_compute. reflexivity.
  - repeat constructor.
  - vm_compute. reflexivity.
  - exact ex_holds.
  - exists (Ok Bag.ex_key). split; [vm_compute; reflexivity|exact Hrun].
  - exists a, warnings, r, d. split; [|split; [exact Hs|exact Hc]].
    cbn [fst]. rewrite Hhit. replace (filter _ awsScrubVars) with ["AWS_PROFILE"] by (vm_compute; reflexivity). reflexivity.
Defined.

(** The parent's side: a child that dies is reported with the tail of its log, one whose
    socket appears is a success, and a live pidfile is a refusal. *)
Definition ex_paths : Paths := paths_in "/run/jitenv".
Definition ex_spawn (child : nat -> files -> files) (events : list event) (f : files) : res DErr unit :=
  (SpawnDaemon (fun pid => (pid =? 12)%Z) (Some "/usr/bin/jitenv") None (fun _ _ => None) (fun _ => None) child
     events ex_paths "/h/config.toml" 5 Bag.ex_key (start f)).1.

Example spawn_cases :
  ex_spawn (fun i f => if (i =? 2)%nat then <[Socket ex_paths := NFile "" 384 0]> f else f) [ETick; ETick; EDeadline] ∅ = Ok tt
  /\ ex_spawn (fun i f => if (i =? 1)%nat then <[LogFile ex_paths := NFile "boom" 384 0]> f else f) [ETick; EExit "exit status 2"] ∅
     = Err (DExited "exit status 2" (str1 LF +:+ "--- agent log tail ---" +:+ str1 LF +:+ "boom"))
  /\ ex_spawn (fun _ f => f) [ETick; EDeadline] ∅ = Err (DTimeout defaultSpawnTimeout "")
  /\ ex_spawn (fun _ f => f) [] {[PidFile ex_paths := NFile "12" 384 0]} = Err (DRunning 12).
Proof. vm_compute. repeat split. Qed.
End AgentStart.
