(* ===== verification/Windows.v ===== *)
(** * The Windows and macOS builds (the files under src/internal named ..._windows.go and
    ..._darwin.go)

    What these builds do otherwise than the Linux build that the rest of the development is
    of: wrappers are PowerShell scripts, a program is started and waited for instead of
    taking the process over, the agent listens on a named pipe and the key comes on the
    standard input, and files live elsewhere.  The Win32 calls are parameters, and so is
    filepath.Join, which writes backslashes there. *)

From S2P Require Import Prelude GoString GoPath GoDuration Fs Crypto Shells Agent Gitauth Hook AgentStart.
Import Fs Crypto Shells.

Module Windows.

Definition CRLF : string := str1 CR +:+ str1 LF.

(** ** Wrappers (chpwd/reconcile_windows.go) *)

Inductive WErr := WWrite (path : string) (e : FErr).

Definition wrapperExt : string := ".ps1".
Definition wrapperFileName (cmd : string) : string := cmd +:+ wrapperExt.

Definition psSingleQuote (s : string) : string := "'" +:+ Hook.replace_byte Hook.SQUOTE "''" s +:+ "'".

Definition wrapper_marker : string := "# Generated by jitenv chpwd".
Definition wrapperContent (cmd jitenvExe : string) : string :=
  "# Generated by jitenv chpwd. Do not edit; removed when this shell exits." +:+ CRLF
  +:+ "& " +:+ psSingleQuote jitenvExe +:+ " __shim " +:+ psSingleQuote cmd +:+ " @args" +:+ CRLF
  +:+ "exit $LASTEXITCODE" +:+ CRLF.

Section Wrappers.
Context `{Os}.

Definition createWrapper (wrapPath cmd jitenvExe : string) : M WErr unit :=
  let desired := wrapperContent cmd jitenvExe in
  existing ← attempt (read_file wrapPath);
  if match existing with Ok s => String.eqb s desired | Err _ => false end then mret tt
  else mapErr (WWrite wrapPath) (write_file wrapPath desired 384).

Definition isOurs (wrapPath jitenvExe : string) : M FErr bool :=
  s ← read_file wrapPath;
  mret (has_prefix s wrapper_marker && contains_str s (psSingleQuote jitenvExe)).
End Wrappers.

(** ** Finding a program (shim/shim_windows.go) *)

Definition defaultPathExt : string := ".COM;.EXE;.BAT;.CMD".

Definition hasKnownExt (name : string) (exts : list string) : bool :=
  existsb (fun ext => negb (str_empty ext) && has_suffix (to_lower name) ext) exts.

Section Find.
Context `{Os} (Join : list string -> string).

Definition path_exts : list string :=
  split_byte ";" (to_lower (let v := Getenv "PATHEXT" in if str_empty v then defaultPathExt else v)).

(** A file that is not a directory. *)
Definition usable (p : string) : M FErr bool :=
  r ← attempt (stat p);
  mret (match r with Ok NDir | Err _ => false | Ok _ => true end).

Fixpoint try_exts (dir name : string) (exts : list string) : M FErr (option string) :=
  match exts with
  | [] => mret None
  | ext :: exts' =>
      if str_empty ext then try_exts dir name exts'
      else
        let candidate := Join [dir; name +:+ ext] in
        ok ← usable candidate;
        if ok : bool then mret (Some candidate) else try_exts dir name exts'
  end.

Definition findExecutableInDir (dir name : string) : M FErr (option string) :=
  let exts := path_exts in
  if hasKnownExt name exts then
    let candidate := Join [dir; name] in
    ok ← usable candidate; mret (if ok : bool then Some candidate else None)
  else try_exts dir name exts.
End Find.

(** filepath.Ext, where both slashes separate. *)
Definition is_separator (c : ascii) : bool := Ascii.eqb c "/" || Ascii.eqb c BSLASH.
Fixpoint last_element (whole s : string) : string :=
  match s with
  | EmptyString => whole
  | String c s' => if is_separator c then last_element s' s' else last_element whole s'
  end.
Definition Ext (p : string) : string := default EmptyString (GoPath.from_last_dot (last_element p p)).

(** ** Starting a program and waiting for it (shim/shim_windows.go, run/run_windows.go) *)

(** What the wait reports: the exit code, or that the wait itself failed. *)
Inductive waited := WExit (code : Z) | WLost (e : string).

(** The function returns an error, or the process exits with a code. *)
Inductive ended := Returned (e : string) | Exited (code : Z).

Section Exec.
(** os/exec: the program, its arguments and its environment; or why it did not start. *)
Context (launch : string -> list string -> list string -> res string waited).
Context (LookPath : string -> option string).

Definition scrubEnvSlice (env : list string) : list string := (fun _ => EmptyString) <$> env.

(** How it ends, and what the caller's slice holds while the child runs. *)
Definition started (named path : string) (args env : list string) : ended * list string :=
  match launch path args env with
  | Err e => (Returned (named +:+ ": " +:+ e), env)
  | Ok w => (match w with WExit n => Exited n | WLost e => Returned (named +:+ ": " +:+ e) end, scrubEnvSlice env)
  end.

Definition execReal (realPath : string) (argv env : list string) : ended * list string :=
  started ("exec " +:+ realPath) realPath (tail argv) env.

Definition scriptInterpreter (realPath : string) : option (string * list string) :=
  if negb (String.eqb (to_lower (Ext realPath)) ".ps1") then None
  else match LookPath "pwsh" with
       | Some p => Some (p, ["-NoProfile"; "-File"; realPath])
       | None => match LookPath "powershell" with
                 | Some p => Some (p, ["-NoProfile"; "-File"; realPath])
                 | None => None
                 end
       end.

Definition replaceProcess (realPath : string) (args env : list string) : ended * list string :=
  match scriptInterpreter realPath with
  | Some (interp, prefix) => started ("run " +:+ realPath) interp (prefix ++ args) env
  | None => started ("run " +:+ realPath) realPath args env
  end.
End Exec.

(** ** Locks and processes (lockfile/lockfile_windows.go, agent/pidfile_windows.go) *)

Inductive opened := Opened | SharingViolation | OtherFailure (e : string).
Inductive LockErr := LExist | LCreate (e : string).
Definition Acquire (o : opened) : res LockErr unit :=
  match o with Opened => Ok tt | SharingViolation => Err LExist | OtherFailure e => Err (LCreate e) end.

(** What opening the process says: that it is there, that there is none, or another error. *)
Inductive process := Running | NoSuchProcess | Inaccessible.
Definition PidAlive (look : Z -> process) (pid : Z) : bool :=
  if (pid <=? 0)%Z then false else match look pid with NoSuchProcess => false | _ => true end.

(** ** Starting the agent (agent/daemonize_windows.go, daemonize_key_windows.go, cli/agent_key_windows.go) *)

Section Spawn.
Context `{Os} (look : Z -> process) (executable : option string).
(** The pipe and its handle, the start, the write of the key, and whether the look of that
    number at the named pipe finds a listener. *)
Context (pipe inherit : option string) (launch : string -> list string -> option string) (write_key : string -> option string)
  (dial : nat -> bool).

Definition agent_args (configFile : string) (idle : Z) : list string :=
  ["__agent"; "--key-handle=stdin"; "--config=" +:+ configFile; "--idle=" +:+ Agent.duration_string idle].

Fixpoint await (logFile : string) (timeout : Z) (look : nat) (events : list AgentStart.event) : M AgentStart.DErr unit :=
  if dial look then mret tt
  else match events with
       | [] => throw AgentStart.DWaiting
       | AgentStart.EExit status :: _ => tail ← AgentStart.logTailSuffix logFile; throw (AgentStart.DExited status tail)
       | AgentStart.EDeadline :: _ => tail ← AgentStart.logTailSuffix logFile; throw (AgentStart.DTimeout timeout tail)
       | AgentStart.ETick :: events' => await logFile timeout (S look) events'
       end.

Definition failing (e : option string) : M AgentStart.DErr unit :=
  lift (match e with Some e => Err (AgentStart.DOs e) | None => Ok tt end).

Definition SpawnDaemon (events : list AgentStart.event) (paths : Paths) (configFile : string) (idle : Z) (key : string)
    : M AgentStart.DErr unit :=
  existing ← attempt (ReadPidFile (PidFile paths));
  let pid := match existing with Ok n => n | Err _ => 0%Z end in
  if (0 <? pid)%Z && PidAlive look pid then throw (AgentStart.DRunning pid)
  else if negb (String.length key =? KeyLen)%nat then throw AgentStart.DKeyLen
  else
    _ ← failing pipe;
    _ ← failing inherit;
    exe ← AgentStart.resolveAgentExecutable executable;
    _ ← mapErr AgentStart.DFs (AgentStart.open_append (LogFile paths) 384);
    _ ← failing (launch exe (agent_args configFile idle));
    _ ← failing (write_key key);
    await (LogFile paths) AgentStart.spawnTimeout 0 events.
End Spawn.

(** strconv.ParseUint(s, 16, 64) *)
Definition hex_digit (c : ascii) : option N :=
  let n := N.of_nat (byte_val c) in
  if is_digit c then Some (n - 48)%N
  else if in_range "a" "f" c then Some (n - 87)%N
  else if in_range "A" "F" c then Some (n - 55)%N
  else None.
Fixpoint hex_value (acc : N) (s : string) : option N :=
  match s with
  | EmptyString => Some acc
  | String c s' => match hex_digit c with
                   | Some d => let acc := (acc * 16 + d)%N in if (acc <? 2 ^ 64)%N then hex_value acc s' else None
                   | None => None
                   end
  end.
Definition parse_hex (s : string) : option N := if str_empty s then None else hex_value 0 s.

(** [stdin] and [handle] are what the reads return, as in AgentStart; [None]: they ran out. *)
Definition ReadKeyFromReader (reads : list (string * bool)) : option (res string string) :=
  AgentStart.readFull KeyLen EmptyString reads.
Definition ReadKeyFromHandle (handle : N -> option (list (string * bool))) (h : N) : option (res string string) :=
  match handle h with
  | None => Some (Err "handle not available")
  | Some reads => AgentStart.readFull KeyLen EmptyString reads
  end.

Definition readKeyFromFlag (value : string) (stdin : list (string * bool)) (handle : N -> option (list (string * bool)))
    : option (res string string) :=
  if str_empty value then Some (Err "key-handle required (not passed by parent)")
  else if String.eqb value "stdin" then wrap_err (fun e => "read key from stdin: " +:+ e) <$> ReadKeyFromReader stdin
  else match parse_hex value with
       | None => Some (Err "parse key-handle")
       | Some 0%N => Some (Err "key-handle required (not passed by parent)")
       | Some h => ReadKeyFromHandle handle h
       end.

(** ** The pipe and its peers (agent/socket_windows.go, paths_windows.go, peer_windows.go, peer_darwin.go) *)

Definition pipeName (sid : option string) : string :=
  match sid with Some sid => "\\.\pipe\jitenv-" +:+ sid | None => "\\.\pipe\jitenv-unknown" end.

(** listenSocket: the access list it asks for, or no listener. *)
Definition listenSocket (sid : option string) : option string := (fun sid => "D:(A;;GA;;;" +:+ sid +:+ ")") <$> sid.

(** What the calls on the connection give. *)
Record pipe_peer := mkPipePeer {
  has_handle : bool;
  impersonated : option string;           (* an error *)
  thread_token : option string;           (* an error *)
  token_user : res string string
}.

Inductive SidErr := SNoHandle | SCall (what e : string) | SOther (client own : string).

Definition pipeClientSID (p : pipe_peer) : res SidErr string :=
  match impersonated p with
  | Some e => Err (SCall "impersonate pipe client" e)
  | None => match thread_token p with
            | Some e => Err (SCall "open impersonation thread token" e)
            | None => wrap_err (SCall "get client token user") (token_user p)
            end
  end.

Definition checkPeerUid (own : res string string) (p : pipe_peer) : option SidErr :=
  if negb (has_handle p) then Some SNoHandle
  else match pipeClientSID p with
       | Err e => Some e
       | Ok sid => match own with
                   | Err e => Some (SCall "get agent token user" e)
                   | Ok me => if String.eqb sid me then None else Some (SOther sid me)
                   end
       end.

(** kern.proc.pid: the name in its fixed array, up to the first zero byte. *)
Fixpoint parentProcessName (comm : string) : string :=
  match comm with
  | EmptyString => EmptyString
  | String c comm' => if Ascii.eqb c "000" then EmptyString else String c (parentProcessName comm')
  end.

(** ** Places (config/path_windows.go, gitauth/path_windows.go, versioncheck/path_windows.go,
    agent/paths_windows.go, shell/profile_windows.go) *)

Section Places.
Context `{Os} (Join : list string -> string) (home configDir : option string) (tempDir : string) (queryPwshProfilePath : string).

Definition localAppDataDir : option string :=
  let dir := Getenv "LOCALAPPDATA" in
  if str_empty dir then (fun h => Join [h; "AppData"; "Local"]) <$> home else Some dir.

Definition platformDefaultPath : M FErr (option string) :=
  match localAppDataDir with
  | None => mret None
  | Some local =>
      let localPath := Join [local; "jitenv"; "config.toml"] in
      r ← attempt (stat localPath);
      let roaming := Getenv "APPDATA" in
      if match r with Err e => is_not_exist e | Ok _ => false end && negb (str_empty roaming) then
        let legacy := Join [roaming; "jitenv"; "config.toml"] in
        l ← attempt (stat legacy);
        mret (Some (match l with Ok _ => legacy | Err _ => localPath end))
      else mret (Some localPath)
  end.

(** Below LOCALAPPDATA, else below the user's configuration directory. *)
Definition per_user (elems : list string) : option string :=
  let base := Getenv "LOCALAPPDATA" in
  if negb (str_empty base) then Some (Join (base :: elems))
  else match configDir with
       | Some dir => if str_empty dir then None else Some (Join (dir :: elems))
       | None => None
       end.
Definition shimPath : option string := per_user ["jitenv"; "bin"; "git-askpass.bat"].
Definition version_path : string := default EmptyString (per_user ["jitenv"; "version_check.json"]).
Definition runtimeBaseDir : string := default (Join [tempDir; "jitenv"]) (per_user ["jitenv"]).

Definition pwshProfilePath (home : string) : string :=
  if str_empty queryPwshProfilePath then Join [home; "Documents"; "PowerShell"; "Microsoft.PowerShell_profile.ps1"]
  else queryPwshProfilePath.

(** The helper: a temporary file, the old one removed, and the new one renamed to it. *)
Definition writeShim (path body : string) : M Gitauth.GErr unit :=
  tmp ← mapErr Gitauth.GFs (create_temp (Gitauth.parentDir path) ".git-askpass.*.tmp");
  Gitauth.with_removal
    (_ ← on_err (mapErr Gitauth.GFs (write tmp body)) (ignore (close tmp) : M Gitauth.GErr unit);
     _ ← mapErr Gitauth.GFs (close tmp);
     _ ← (ignore (remove path) : M Gitauth.GErr unit);
     mapErr Gitauth.GFs (rename tmp path)) tmp.
End Places.

(** ** What a wrapper says to PowerShell *)

(** How PowerShell reads a single-quoted literal from behind its first quote, and what is left. *)
Fixpoint literal_rest (s : string) : option (string * string) :=
  match s with
  | EmptyString => None
  | String c s' =>
      if Ascii.eqb c Hook.SQUOTE then
        match s' with
        | String d s'' => if Ascii.eqb d Hook.SQUOTE then prod_map (String Hook.SQUOTE) id <$> literal_rest s'' else Some (EmptyString, s')
        | EmptyString => Some (EmptyString, EmptyString)
        end
      else if Hook.starts_curly s then None
      else prod_map (String c) id <$> literal_rest s'
  end.

Definition after (p s : string) : option string := if has_prefix s p then Some (str_drop (String.length p) s) else None.
Definition literal (s : string) : option (string * string) := after "'" s ≫= literal_rest.

(** The program and the command of a script that is one comment, one call of a quoted
    program with the word __shim, a quoted command and the script's own arguments, and the
    exit with the call's code. *)
Definition wrapper_call (content : string) : option (string * string) :=
  body ← after ("# Generated by jitenv chpwd. Do not edit; removed when this shell exits." +:+ CRLF +:+ "& ") content;
  '(exe, rest) ← literal body;
  rest ← after " __shim " rest;
  '(cmd, rest) ← literal rest;
  if String.eqb rest (" @args" +:+ CRLF +:+ "exit $LASTEXITCODE" +:+ CRLF) then Some (exe, cmd) else None.

Lemma after_app p s : after p (p +:+ s) = Some s.
Proof. unfold after. rewrite has_prefix_app. f_equal. induction p as [|c p IH]; [done|]. cbn. apply IH. Qed.

Lemma literal_quote s rest :
  Hook.no_curly s = true -> has_prefix rest "'" = false -> literal (psSingleQuote s +:+ rest) = Some (s, rest).
Proof.
  intros Hs Hr. unfold literal, psSingleQuote. rewrite <- str_app_assoc, after_app. cbn [mbind option_bind].
  rewrite <- str_app_assoc. change ("'" +:+ rest) with (String Hook.SQUOTE rest).
  induction s as [|c s IH].
  - cbn [Hook.replace_byte]. rewrite str_app_nil_l. cbn [literal_rest]. rewrite Ascii.eqb_refl.
    destruct rest as [|d rest]; [done|]. cbn [has_prefix] in Hr.
    destruct (Ascii.eqb_spec d Hook.SQUOTE) as [->|]; [by destruct rest|done].
  - cbn [Hook.no_curly] in Hs. apply andb_true_iff in Hs as [Hc%negb_true_iff Hs]. specialize (IH Hs).
    pose proof (Hook.starts_curly_replaced _ rest Hc) as Hst. cbn [Hook.replace_byte] in *.
    destruct (Ascii.eqb_spec c Hook.SQUOTE) as [->|Hne].
    + rewrite <- str_app_assoc.
      change (literal_rest ("''" +:+ ?t)) with (prod_map (String Hook.SQUOTE) (@id string) <$> literal_rest t). by rewrite IH.
    + rewrite str_app_cons in *. cbn [literal_rest]. apply Ascii.eqb_neq in Hne. by rewrite Hne, Hst, IH.
Qed.

(** A wrapper calls the program it was written for with its command, whatever blanks,
    quotes or dollars they contain, as long as they are free of typographic quotes. *)
Theorem wrapper_calls_jitenv cmd exe :
  Hook.no_curly cmd = true -> Hook.no_curly exe = true -> wrapper_call (wrapperContent cmd exe) = Some (exe, cmd).
Proof.
  intros Hc He. unfold wrapper_call, wrapperContent.
  rewrite (str_app_assoc CRLF "& "), (str_app_assoc _ (CRLF +:+ "& ")), after_app. cbn [mbind option_bind].
  rewrite literal_quote by done. cbn [mbind option_bind]. rewrite after_app. cbn [mbind option_bind].
  rewrite literal_quote by done. cbn [mbind option_bind]. by rewrite String.eqb_refl.
Qed.

(** PowerShell ends the literal at a typographic quote, so a program below such a directory
    is not called. *)
Example curly_wrapper_breaks :
  wrapper_call (wrapperContent "npm" ("C:\O" +:+ utf8 [226; 128; 153]%nat +:+ "Brien\jitenv.exe")) = None.
Proof. vm_compute. reflexivity. Qed.

(** ** What the other pieces promise *)

Section Facts.
Context `{Os}.

Lemma wrapper_ours cmd exe :
  has_prefix (wrapperContent cmd exe) wrapper_marker && contains_str (wrapperContent cmd exe) (psSingleQuote exe) = true.
Proof.
  unfold wrapperContent. rewrite (str_app_assoc CRLF "& "), (str_app_assoc _ (CRLF +:+ "& ")), contains_str_app. by rewrite andb_true_r.
Qed.

(** A wrapper that was written is the program's own at the next look, and is then left alone. *)
Lemma createWrapper_settles wrapPath cmd exe w w' :
  (forall t, fs w !! wrapPath <> Some (NLink t)) -> createWrapper wrapPath cmd exe w = (Ok tt, w') ->
  exists m t, fs w' !! wrapPath = Some (NFile (wrapperContent cmd exe) m t)
    /\ forall b w'', isOurs wrapPath exe w' = (Ok b, w'') -> b = true.
Proof.
  intros Hp Hr. unfold createWrapper in Hr.
  apply M_bind_inv in Hr as [(ex & w1 & Ha & Hr)|(e & _ & ?)]; [|done].
  unfold attempt in Ha. destruct (read_file wrapPath w) as [rr wr] eqn:Hrd. injection Ha as <- <-.
  pose proof (reads_fs _ _ (read_file_reads _ _ _ _ Hrd)) as Hfs.
  assert (Hc : exists m t, fs w' !! wrapPath = Some (NFile (wrapperContent cmd exe) m t)).
  { destruct (match rr with Ok s => String.eqb s _ | Err _ => false end) eqn:He.
    - destruct rr as [s|]; [|done]. apply String.eqb_eq in He as ->. injection Hr as <-. rewrite Hfs.
      apply syscall_inv in Hrd as [(e & ? & _)|(a & f & [= <-] & _ & Hact & _)]; [done|].
      unfold link_depth in Hact. simpl in Hact. destruct (fs w !! wrapPath) as [[c m t|t|]|] eqn:Hl; try done.
      + cbn in Hact. rewrite Hl in Hact. injection Hact as -> <-. by exists m, t.
      + by destruct (Hp t).
      + cbn in Hact. by rewrite Hl in Hact.
      + cbn in Hact. by rewrite Hl in Hact.
    - apply mapErr_inv in Hr as (r0 & Hw & Hr0). destruct r0 as [[]|]; [|done].
      eapply write_file_content; [|exact Hw]. by rewrite Hfs. }
  destruct Hc as (m & t & Hc). exists m, t. split; [done|]. intros b w'' Hi. unfold isOurs in Hi.
  apply M_bind_inv in Hi as [(s & w2 & Hrd' & Hi)|(e & _ & ?)]; [|done]. injection Hi as <- _.
  apply (read_file_ok _ _ _ _ _ _ _ Hrd') in Hc as ->. apply wrapper_ours.
Qed.
End Facts.

(** A write that fails half-way leaves a script that is taken for a good one from then on. *)
Definition torn_os : Os := {| fails t := (t =? 2)%nat; partial _ := 110%nat; temp_rand _ _ := ""; clock _ := 0%Z; getenv _ := None |}.
Example torn_wrapper_kept :
  let w := (@createWrapper torn_os "npm.ps1" "npm" "C:\jitenv.exe" (start ∅)).2 in
  (@isOurs torn_os "npm.ps1" "C:\jitenv.exe" w).1 = Ok true
  /\ (match fs w !! "npm.ps1" with Some (NFile c _ _) => wrapper_call c | _ => None end) = None.
Proof. vm_compute. auto. Qed.

(** ** Programs *)

Section Launch.
Context (launch : string -> list string -> list string -> res string waited) (LookPath : string -> option string).

(** The child is the program itself with the caller's arguments and environment, its exit
    code is the process's own, and while it runs no entry of the environment is left in the
    caller's hands; an error comes back only when it did not start or was lost. *)
Lemma execReal_spec realPath argv env e left :
  execReal launch realPath argv env = (e, left) ->
  match launch realPath (tail argv) env with
  | Ok (WExit n) => e = Exited n /\ Forall (eq EmptyString) left
  | Ok (WLost _) => (exists msg, e = Returned msg) /\ Forall (eq EmptyString) left
  | Err _ => (exists msg, e = Returned msg) /\ left = env
  end.
Proof.
  unfold execReal, started. destruct (launch _ _ _) as [[n|x]|x]; intros [= <- <-].
  - split; [done|]. apply Forall_fmap, Forall_true. done.
  - split; [by eexists|]. apply Forall_fmap, Forall_true. done.
  - split; [by eexists|done].
Qed.

(** A PowerShell script is run by an interpreter that was found, and only it. *)
Lemma replaceProcess_spec realPath args env :
  exists path pre, replaceProcess launch LookPath realPath args env = started launch ("run " +:+ realPath) path (pre ++ args) env
    /\ (path = realPath /\ pre = []
        \/ to_lower (Ext realPath) = ".ps1" /\ (LookPath "pwsh" = Some path \/ LookPath "pwsh" = None /\ LookPath "powershell" = Some path)
           /\ pre = ["-NoProfile"; "-File"; realPath]).
Proof.
  unfold replaceProcess, scriptInterpreter. destruct (String.eqb_spec (to_lower (Ext realPath)) ".ps1") as [He|He]; cbn [negb].
  - destruct (LookPath "pwsh") as [p|] eqn:H1; [|destruct (LookPath "powershell") as [p|] eqn:H2].
    + eexists _, _. split; [done|]. right. by eauto 6.
    + eexists _, _. split; [done|]. right. by eauto 7.
    + exists realPath, []. split; [done|]. by left.
  - exists realPath, []. split; [done|]. by left.
Qed.
End Launch.

(** ** The search of a directory *)

Section Found.
Context `{Os} (Join : list string -> string).

(** What os.Stat would say of a path in these files is a file or another thing than a directory. *)
Definition is_program (f : files) (p : string) : Prop := exists w w' n, fs w = f /\ stat p w = (Ok n, w') /\ n <> NDir.

Lemma usable_spec p w r w' : usable p w = (r, w') -> fs w' = fs w /\ (r = Ok true -> is_program (fs w) p).
Proof.
  intros Hr. unfold usable, attempt, mbind, M_bind in Hr. destruct (stat p w) as [s w1] eqn:Hs. injection Hr as <- <-.
  split; [by apply reads_fs, (stat_reads p w s)|]. intros He. exists w, w1. destruct s as [n|]; [|done]. exists n. split_and!; [done..|].
  by intros ->.
Qed.

Lemma try_exts_spec dir name exts w r w' :
  try_exts Join dir name exts w = (r, w') -> fs w' = fs w
  /\ forall p, r = Ok (Some p) -> exists ext, ext ∈ exts /\ ext <> EmptyString /\ p = Join [dir; name +:+ ext] /\ is_program (fs w) p.
Proof.
  revert w. induction exts as [|ext exts IH]; intros w Hr; cbn [try_exts] in Hr; [injection Hr as <- <-; by split|].
  destruct (str_empty ext) eqn:He.
  - destruct (IH _ Hr) as [Hf Hp]. split; [done|]. intros p Hrp. destruct (Hp p Hrp) as (x & ? & ?). exists x. split; [by right|done].
  - apply M_bind_inv in Hr as [(b & w1 & Hu & Hr)|(e & Hu & ->)].
    + destruct (usable_spec _ _ _ _ Hu) as [Hf1 Hu1]. destruct b.
      * injection Hr as <- <-. split; [done|]. intros p [= <-]. exists ext. split_and!; [by left|by intros ->|done|by apply Hu1].
      * destruct (IH _ Hr) as [Hf Hp]. rewrite Hf1 in Hf, Hp. split; [done|]. intros p Hrp. destruct (Hp p Hrp) as (x & ? & ?).
        exists x. split; [by right|done].
    + destruct (usable_spec _ _ _ _ Hu) as [Hf1 _]. by split.
Qed.

(** What is found lies in the directory, is no directory itself, and bears the name itself
    when it ends in an extension of PATHEXT, else the name with one of them. *)
Lemma findExecutableInDir_spec dir name w p w' :
  findExecutableInDir Join dir name w = (Ok (Some p), w') ->
  fs w' = fs w /\ is_program (fs w) p
  /\ exists ext, p = Join [dir; name +:+ ext] /\ if hasKnownExt name path_exts then ext = EmptyString else ext ∈ path_exts /\ ext <> EmptyString.
Proof.
  intros Hr. unfold findExecutableInDir in Hr. destruct (hasKnownExt name path_exts).
  - apply M_bind_inv in Hr as [(b & w1 & Hu & Hr)|(e & _ & ?)]; [|done].
    destruct (usable_spec _ _ _ _ Hu) as [Hf1 Hu1]. destruct b; [|done]. injection Hr as <- <-.
    split_and!; [done|by apply Hu1|]. exists EmptyString. by rewrite str_app_nil_r.
  - destruct (try_exts_spec _ _ _ _ _ _ Hr) as [Hf Hp]. destruct (Hp p eq_refl) as (ext & ? & ? & ? & ?). split_and!; [done..|]. by exists ext.
Qed.
End Found.

(** ** The wait for the agent *)

(** It ends with a listener found before the first event that ends it, or with the error of
    that event. *)
Lemma await_outcome `{Os} dial logFile timeout look events w r w' :
  await dial logFile timeout look events w = (r, w') -> existsb AgentStart.ends events = true ->
  (r = Ok tt /\ exists k, (k <= length events)%nat /\ dial (look + k)%nat = true)
  \/ (exists status tail, r = Err (AgentStart.DExited status tail)) \/ exists tail, r = Err (AgentStart.DTimeout timeout tail).
Proof.
  revert look w. induction events as [|e events IH]; intros look w Hr He; [done|]. cbn [await] in Hr.
  destruct (dial look) eqn:Hd.
  - left. injection Hr as <- _. split; [done|]. exists 0%nat. rewrite Nat.add_0_r. split; [lia|done].
  - assert (Htail : forall m : string -> M AgentStart.DErr unit, (forall x, exists e, m x = throw e) ->
        forall r w', (tail ← AgentStart.logTailSuffix logFile; m tail) w = (r, w') -> exists x w1, m x w1 = (r, w')).
    { intros m _ r0 w0 Hm. apply M_bind_inv in Hm as [(x & w1 & _ & Hm)|(e0 & Hm & _)]; [by exists x, w1|].
      unfold AgentStart.logTailSuffix, AgentStart.tailLog, attempt, mbind, M_bind in Hm. by destruct (read_file logFile w). }
    destruct e as [|status|].
    + destruct (IH _ _ Hr He) as [(-> & k & Hk & Hdk)|Hx]; [|by right]. left. split; [done|]. exists (S k). cbn [length].
      split; [lia|]. by replace (look + S k)%nat with (S look + k)%nat by lia.
    + right. left. apply Htail in Hr as (x & w1 & [= <- _]); [by eexists _, _|by intros; eexists].
    + right. right. apply Htail in Hr as (x & w1 & [= <- _]); [by eexists|by intros; eexists].
Qed.

(** ** Places *)

(** The pipe of one user is not another's, and only that user's token opens it. *)
Lemma pipeName_inj a b : pipeName (Some a) = pipeName (Some b) -> a = b.
Proof. unfold pipeName. intros He. by apply str_app_inj_l in He. Qed.

Lemma checkPeerUid_same own p : checkPeerUid own p = None <-> has_handle p = true /\ exists sid, pipeClientSID p = Ok sid /\ own = Ok sid.
Proof.
  unfold checkPeerUid. destruct (has_handle p); [|naive_solver]. destruct (pipeClientSID p) as [sid|]; [|naive_solver].
  destruct own as [me|]; [|naive_solver]. cbn [negb]. destruct (String.eqb_spec sid me); naive_solver.
Qed.

(** The old file is gone before the new one is in place: a crash in between leaves none. *)
Definition shim_os : Os := {| fails _ := false; partial _ := 0%nat; temp_rand _ _ := "1"; clock _ := 0%Z; getenv _ := None |}.
Example writeShim_not_atomic :
  let w := (@writeShim shim_os "/b/git-askpass.bat" "new" (start {["/b" := NDir; "/b/git-askpass.bat" := NFile "old" 384 0]})).2 in
  (match fs w !! "/b/git-askpass.bat" with Some (NFile c _ _) => Some c | _ => None end) = Some "new"
  /\ existsb (fun f => match f !! "/b/git-askpass.bat" with None => true | _ => false end) (trace w) = true.
Proof. vm_compute. auto. Qed.
End Windows.
