(* ===== verification/Commands.v ===== *)
(** * Commands around the configuration and the agent (src/internal/cli/ismapped.go, config.go,
    sources.go, unlock.go, warnings.go, status.go, lock.go, chpwd_internal.go)

    What each command does with the parts modelled elsewhere, what it prints as values,
    and its exit code where the shell hooks look at it.  Flags are arguments. *)

From S2P Require Import Prelude GoString GoPath GoDuration Fs Toys Bag ConfigModel Crypto NameId Seal Store StoreMigrate Edit.
From S2P Require Import Mapping Protocol Resolver Shells Agent ConfigPath Unlock Hook HookInstall AgentStart.
Import GoPath Fs Config Crypto NameId Seal Store StoreMigrate Edit Mapping Resolver Shells ConfigPath Unlock.

Module Commands.

(** What a command prints. *)
Inductive Out :=
| Wrote (path : string)
| TomlOf (text : string)
| Okay
| StrictIgnored
| CouldNotDecrypt
| Warn (w : Warning)
| SourceLine (name type : string)
| MigrationNote (backup : string)
| Started (socket : string)
| Listening (socket : string)
| UnsupportedShell (shell source : string)
| HookNotInstalled (rc : string)
| LoginSkips (login : string).

Inductive KErr :=
| KNoHome
| KStore (e : SErr)
| KSeal (e : EErr)
| KInvalid (e : ValidateErr)
| KEncode
| KStrict (n : nat)
| KNotFound (name : string)
| KBuild (e : BuildErr)
| KValidate (e : string)
| KPaths (e : AErr)
| KLoad (e : Agent.LoadErr)
| KListen (e : AErr)
| KSpawn (e : AgentStart.DErr)
| KOther (what : string)
| KEditing (path : string)
| KLock (e : SErr)
| KNoTUI.

(** [defer f()] around a body. *)
Definition finally {E A} (body : M E A) (f : world -> world) : M E A := fun w =>
  match body w with (r, w') => (r, f w') end.

Section Commands.
Context `{Os, Rand, AEAD, Toml, Argon, NameMapCodec, MapRange, Remotes}.
Context (ds_match : string -> string -> option bool) (home cwd : option string).
(** The --config flag, what the user types, and whether there is a terminal. *)
Context (configPath : string) (answers : nat -> res SErr string) (hasTerminal : bool).

Definition resolve : M KErr string := lift (of_option KNoHome (Resolve configPath)).
Definition load (path : string) : M KErr Config := mapErr KStore (Load path).
Definition derive (c : Config) : M KErr string := lift (wrap_err KStore (PromptAndDeriveKey answers c 0)).
Definition decrypt (c : Config) (key : string) : M KErr Config := lift (wrap_err KSeal (DecryptInPlace c key)).

(** ** is-mapped: the exit code *)

Definition is_mapped (arg : string) : M KErr nat :=
  match Abs cwd arg with
  | None => mret 2%nat
  | Some abs =>
      match Resolve (env "JITENV_CONFIG") with
      | None => mret 2%nat
      | Some cfgPath =>
          r ← attempt (Load cfgPath);
          mret (match r with
                | Err _ => 2%nat
                | Ok cfg => if Mapped ds_match (NewIndex home cwd (Mappings cfg)) abs then 0%nat else 1%nat
                end)
      end
  end.

(** __chpwd: what the hooks read from the result of a reconcile. *)
Definition exitWrapperSetChanged : nat := 10.
Definition chpwd_exit {E} (r : res E bool) : nat :=
  match r with Ok true => exitWrapperSetChanged | Ok false => 0%nat | Err _ => 1%nat end.

(** ** config *)

Definition config_init (passphrase : res string string) : M KErr (list Out) :=
  path ← resolve;
  pw ← lift (wrap_err KOther passphrase);
  _ ← mapErr KStore (InitNew path pw);
  mret [Wrote path].

Definition config_show : M KErr (list Out) :=
  path ← resolve;
  c ← load path;
  key ← derive c;
  d ← decrypt c key;
  match toml_encode d with Some s => mret [TomlOf s] | None => throw KEncode end.

Definition emitConfigWarnings (c : Config) : list Out * nat := (Warn <$> Warnings c, length (Warnings c)).

(** What is printed and what is returned come together. *)
Definition reportConfigWarnings (c : Config) (strict : bool) : list Out * option KErr :=
  let '(out, n) := emitConfigWarnings c in (out, if strict && (0 <? n)%nat then Some (KStrict n) else None).

Definition config_validate (strict : bool) : M KErr (list Out * option KErr) :=
  path ← resolve;
  c ← load path;
  match ValidateStructure c with
  | Some e => throw (KInvalid e)
  | None =>
      if negb hasTerminal then mret (Okay :: (if strict then [StrictIgnored] else []), None)
      else match PromptAndDeriveKey answers c 0 with
           | Err e => mret (Okay :: (if is_incorrect e then [CouldNotDecrypt] else []), None)
           | Ok key =>
               match DecryptInPlace c key with
               | Err _ => mret ([Okay; CouldNotDecrypt], None)
               | Ok d => let '(out, e) := reportConfigWarnings d strict in mret (Okay :: out, e)
               end
           end
  end.

(** resolveJitenvTUIPath: the override, the sibling, the PATH. *)
Definition resolveJitenvTUIPath (executable lookPath : option string) : M KErr string :=
  let override := Getenv "JITENV_TUI_BIN" in
  if negb (str_empty override) then mret override
  else
    let from_path := match lookPath with Some p => mret p | None => throw KNoTUI end : M KErr string in
    match executable with
    | Some exe =>
        if str_empty exe then from_path
        else
          let candidate := Join [Dir exe; "jitenv-tui"] in
          st ← attempt (stat candidate);
          match st with Ok _ => mret candidate | Err _ => from_path end
    | None => from_path
    end.

(** runConfigTUI: the editor runs, as [run], with the lock of its file held (when the editor
    fails the process exits at once, which closes the lock as well). *)
Definition runConfigTUI (executable lookPath : option string) (run : string -> M KErr unit) : M KErr unit :=
  cfgPath ← resolve;
  _ ← mapErr (fun _ => KOther "create config dir") (mkdir_all (Dir cfgPath));
  let lock := cfgPath +:+ ".tui.lock" in
  r ← attempt (Acquire lock);
  match r with
  | Err (SLockHeld _) => throw (KEditing cfgPath)
  | Err e => throw (KLock e)
  | Ok _ => finally (bin ← resolveJitenvTUIPath executable lookPath; run bin) (Release lock)
  end.

(** ** sources *)

Definition sources_list : M KErr (list Out) :=
  path ← resolve;
  c ← load path;
  key ← derive c;
  d ← decrypt c key;
  mret (map (fun n => SourceLine n (match Sources d !! n with Some sc => Type_ sc | None => EmptyString end))
            (sort_strings (map_range 72 (Sources d)).*1)).

(** [check] is the Validate of the built source. *)
Definition sources_test (builders : gmap string builder) (check : source -> option string) (name : string) : M KErr (list Out) :=
  path ← resolve;
  c ← load path;
  key ← derive c;
  d ← decrypt c key;
  match Sources d !! name with
  | None => throw (KNotFound name)
  | Some sc =>
      '(s, _) ← lift (wrap_err KBuild (Build builders AgentStart.empty_heap (Type_ sc) (Params sc)));
      match check s with Some e => throw (KValidate e) | None => mret [Okay] end
  end.

(** ** unlock *)

Definition warnIfHookMissing (st : res Hook.HErr HookInstall.Status) : list Out :=
  match st with
  | Err _ => []
  | Ok st =>
      if str_empty (HookInstall.Shell st) then
        if negb (str_empty (HookInstall.Unsupported st)) then [UnsupportedShell (HookInstall.Unsupported st) (HookInstall.Source st)] else []
      else if negb (HookInstall.Installed st) then [HookNotInstalled (HookInstall.SRcPath st)]
      else if String.eqb (HookInstall.Shell st) "bash" && negb (str_empty (HookInstall.SLoginPath st)) && negb (HookInstall.LoginSources st)
           then [LoginSkips (HookInstall.SLoginPath st)] else []
  end.

Section UnlockCommand.
Context (builders : gmap string builder) (store_text : SErr -> string).
Context (uid pid : Z) (signal0 : Z -> bool) (dir_owner dir_mode : string -> Z) (now : Z).
Context (hook_status : res Hook.HErr HookInstall.Status)
  (spawn : Paths -> string -> Z -> string -> M AgentStart.DErr unit).

Definition unlock_warnings (cfgPath key : string) : M KErr (list Out) :=
  r ← attempt (Load cfgPath);
  mret (match r with
        | Ok c => match DecryptInPlace c key with Ok d => (emitConfigWarnings d).1 | Err _ => [] end
        | Err _ => []
        end).

(** The agent of --foreground, ready to serve. *)
Definition foreground (paths : Paths) (cfgPath key : string) : M KErr Agent.agent :=
  l ← attempt (Load cfgPath);
  '(r, h) ← lift (wrap_err KLoad (Agent.loadAndBuild home cwd key builders (wrap_err store_text l) AgentStart.empty_heap));
  _ ← mapErr KListen (Listen signal0 paths pid);
  mret (AgentStart.begin_serving now (AgentStart.SetReload (AgentStart.NewAgent now r h))).

Definition unlock_command (is_foreground : bool) : M KErr (list Out * option Agent.agent) :=
  cfgPath ← resolve;
  c ← load cfgPath;
  key ← derive c;
  migrated ← mapErr KStore (MigrateToOpaqueIDs cfgPath key);
  note ← (if migrated : bool then b ← MigrationBackupPath cwd cfgPath; mret [MigrationNote b] else mret [] : M KErr (list Out));
  c ← load cfgPath;
  paths ← mapErr KPaths (DefaultPaths uid dir_owner dir_mode);
  let idle := GoDuration.ParseIdle (IdleTimeout (CAgent c)) in
  warns ← unlock_warnings cfgPath key;
  if is_foreground then
    a ← foreground paths cfgPath key;
    mret (note ++ warns ++ [Listening (Socket paths)], Some a)
  else
    _ ← mapErr KSpawn (spawn paths cfgPath idle key);
    mret (note ++ warns ++ [Started (Socket paths)] ++ warnIfHookMissing hook_status, None).
End UnlockCommand.

(** ** What the commands promise *)

(** What the index looks at to decide whether a path is covered. *)
Definition cover (m : Mapping) : string * string := (Path m, Glob m).

Lemma Mapped_spec ms p :
  Mapped ds_match (NewIndex home cwd ms) p = true
  <-> exists m, m ∈ ms /\ (path_hits home cwd m p \/ glob_hits ds_match home m (ToSlash p)).
Proof.
  unfold Mapped. rewrite (exact_spec ds_match), globs_spec.
  assert (Hp : forall m, m ∈ filter (fun m => path_hits home cwd m p) ms <-> path_hits home cwd m p /\ m ∈ ms)
    by (intros m; exact (list_elem_of_filter _ ms m)).
  destruct (filter _ ms) as [|m0 hs].
  - rewrite existsb_exists. split.
    + intros (g & Hg & Hm). apply list_elem_of_In, list_elem_of_fmap in Hg as (m & -> & Hf).
      apply list_elem_of_filter in Hf as [[? ?] ?]. exists m. split; [done|]. by right.
    + intros (m & Hin & [Hh|(H1' & H2' & H3')]).
      * exfalso. apply (not_elem_of_nil m), Hp. done.
      * exists (mkGlob (normalisePattern home (Glob m)) (Vars m)). split; [|done].
        apply list_elem_of_In, list_elem_of_fmap. exists m. split; [done|]. by apply list_elem_of_filter.
  - split; [intros _|done]. destruct (proj1 (Hp m0) (list_elem_of_here _ _)) as [? ?]. exists m0. auto.
Qed.

Lemma Mapped_cover ms ms' p :
  cover <$> ms = cover <$> ms' ->
  Mapped ds_match (NewIndex home cwd ms) p = Mapped ds_match (NewIndex home cwd ms') p.
Proof.
  intros Hc. apply Bool.eq_iff_eq_true. rewrite !Mapped_spec.
  assert (Hsym : forall a b : list Mapping, cover <$> a = cover <$> b ->
    (exists m, m ∈ a /\ (path_hits home cwd m p \/ glob_hits ds_match home m (ToSlash p))) ->
    exists m, m ∈ b /\ (path_hits home cwd m p \/ glob_hits ds_match home m (ToSlash p))).
  { intros a b Hab (m & Hin & Hm).
    assert (Hi : cover m ∈ cover <$> b) by (rewrite <- Hab; by apply list_elem_of_fmap_2).
    apply list_elem_of_fmap in Hi as (m' & Heq & Hin'). exists m'. split; [done|].
    destruct m as [pm gm ? ? ?], m' as [pm' gm' ? ? ?]. unfold cover in Heq. cbn in Heq. injection Heq as -> ->. exact Hm. }
  split; apply Hsym; [done|by symmetry].
Qed.

Lemma dec_mapping_cover key i m m' : dec_mapping key i m = Ok m' -> cover m = cover m'.
Proof.
  unfold dec_mapping. destruct (res_imap _ 0 (Vars m)) as [vs|]; cbn [mbind res_bind]; intros He; [|discriminate He].
  injection He as <-. reflexivity.
Qed.

Lemma res_imap_cover key i ms ms' : res_imap (dec_mapping key) i ms = Ok ms' -> cover <$> ms = cover <$> ms'.
Proof.
  revert i ms'. induction ms as [|m ms IH]; intros i ms'; cbn [res_imap]; [by intros [= <-]|].
  destruct (dec_mapping key i m) as [m0|] eqn:Hm; cbn [mbind res_bind]; intros Hr; [|discriminate Hr].
  destruct (res_imap (dec_mapping key) (S i) ms) as [ms0|] eqn:He; cbn [mbind res_bind] in Hr; [|discriminate Hr].
  injection Hr as <-. cbn [fmap list_fmap]. rewrite (dec_mapping_cover _ _ _ _ Hm). f_equal. exact (IH _ _ He).
Qed.

(** Decrypting changes neither the paths nor the globs. *)
Lemma DecryptInPlace_cover c key d : DecryptInPlace c key = Ok d -> cover <$> Mappings c = cover <$> Mappings d.
Proof.
  unfold DecryptInPlace. destruct (wrap_err EName _) as [nm|]; [|done]. simpl.
  destruct (res_map_into id (dec_source key) _ _) as [so|]; [|done]. simpl.
  destruct (res_map_into id (dec_bag key) _ _) as [se|]; [|done]. simpl.
  destruct (res_imap (dec_mapping key) 0 (Mappings c)) as [ms|] eqn:Hm; [|done]. simpl. intros [= <-]. simpl.
  rewrite (res_imap_cover _ _ _ _ Hm), <- list_fmap_compose. by apply list_fmap_ext.
Qed.

(** C30. The exit code of is-mapped is the answer the agent would give.  When the agent has
    loaded, decrypted and indexed the file that is-mapped reads without the key, is-mapped
    exits 0 on exactly the paths the agent calls mapped and 1 on the others, and it never
    changes a file. *)
Theorem is_mapped_agrees key builders h arg abs cfgPath w c w' r h' :
  Abs cwd arg = Some abs ->
  Resolve (env "JITENV_CONFIG") = Some cfgPath ->
  Load cfgPath w = (Ok c, w') ->
  Agent.loadAndBuild home cwd key builders (Ok c) h = Ok (r, h') ->
  is_mapped arg w = (Ok (if IsMapped ds_match cwd r arg then 0%nat else 1%nat), w').
Proof.
  intros Ha Hr Hl Hb. unfold is_mapped. rewrite Ha, Hr. unfold mbind, M_bind, attempt. rewrite Hl. cbn.
  unfold IsMapped, absOr. rewrite Ha. cbn [default].
  unfold Agent.loadAndBuild, Agent.load_config in Hb. cbn [wrap_err mbind res_bind] in Hb.
  destruct (DecryptInPlace c key) as [d|] eqn:Hd; [|done]. cbn [wrap_err mbind res_bind] in Hb.
  destruct (Validate d); [done|]. cbn [mbind res_bind] in Hb.
  unfold BuildResolver in Hb. destruct (res_fold _ _ _) as [[srcs h1]|]; [|done]. cbn [wrap_err mbind res_bind] in Hb.
  injection Hb as <- <-. cbn [index]. by rewrite (Mapped_cover _ _ abs (DecryptInPlace_cover _ _ _ Hd)).
Qed.

(** --strict turns warnings into a failure, and nothing else does. *)
Lemma strict_fails_iff c strict :
  (reportConfigWarnings c strict).2 = None <-> strict = false \/ Warnings c = [].
Proof.
  unfold reportConfigWarnings, emitConfigWarnings. cbn.
  destruct strict; cbn; [|tauto]. destruct (Warnings c); cbn; [tauto|].
  split; [done|intros [?|?]; done].
Qed.

(** While one editor holds the lock a second one is refused before it starts. *)
Lemma second_editor_refused executable lookPath run cfgPath w w1 w2 :
  Resolve configPath = Some cfgPath ->
  mkdir_all (Dir cfgPath) w = (Ok tt, w1) ->
  Acquire (cfgPath +:+ ".tui.lock") w1 = (Err (SLockHeld (cfgPath +:+ ".tui.lock")), w2) ->
  runConfigTUI executable lookPath run w = (Err (KEditing cfgPath), w2).
Proof.
  intros Hr Hm Ha. unfold runConfigTUI, resolve, mbind, M_bind, lift, mapErr, attempt.
  rewrite Hr. cbn. rewrite Hm. cbn. by rewrite Ha.
Qed.
End Commands.

(** ** Running them *)

#[local] Existing Instance AgentStart.no_remotes.
#[local] Existing Instances toy_aead Toys.toy_toml Toys.toy_argon Toys.toy_codec map_range_default.

Definition ex_os : Os := os_env [("JITENV_CONFIG", "/h/config.toml"); ("HOME", "/h")].
Definition ex_var : VarRef := mkVar "A" "" "" "" ∅ "1".
Definition ex_cfg : Config :=
  let c := Bag.ex_cfg Bag.ex_init in
  mkConfig (CVersion c) (CMeta c) (CAgent c) (Sources c) [mkMapping "~/bin/tool" "" "" [] [ex_var]; mkMapping "" "/w/**" "" [] [ex_var]]
    (Secrets c) (IDMap c).
Definition ex_world : world := start {["/h/config.toml" := NFile (default EmptyString (toml_encode ex_cfg)) 384 0]}.
(** The only glob match the examples ask for. *)
Definition ex_match (pattern s : string) : option bool := Some (String.eqb pattern "/w/**" && has_prefix s "/w/").
Definition ex_is_mapped (arg : string) : res KErr nat :=
  (@is_mapped ex_os Toys.toy_toml ex_match (Some "/h") (Some "/w") arg ex_world).1.
Definition ex_loaded : res Agent.LoadErr (resolver * heap) :=
  Agent.loadAndBuild (Some "/h") (Some "/w") Bag.ex_key AgentStart.ex_builders (Ok ex_cfg) AgentStart.empty_heap.

Lemma is_mapped_agrees_witness :
  (exists r h, ex_loaded = Ok (r, h) /\ IsMapped ex_match (Some "/w") r "build/x" = true)
  /\ ex_is_mapped "build/x" = Ok 0%nat /\ ex_is_mapped "/h/bin/tool" = Ok 0%nat /\ ex_is_mapped "/h/bin" = Ok 1%nat.
Proof.
  destruct ex_loaded as [[r h]|e] eqn:Hl.
  2: { exfalso. apply (f_equal is_ok) in Hl. vm_compute in Hl. discriminate Hl. }
  assert (Hm : IsMapped ex_match (Some "/w") r "build/x" = true).
  { transitivity (match ex_loaded with Ok rh => IsMapped ex_match (Some "/w") rh.1 "build/x" | Err _ => false end);
      [by rewrite Hl|vm_compute; reflexivity]. }
  split; [exists r, h; split; [reflexivity|exact Hm]|]. split.
  - unfold ex_is_mapped.
    rewrite (@is_mapped_agrees ex_os _ _ _ _ _ ex_match (Some "/h") (Some "/w") Bag.ex_key AgentStart.ex_builders AgentStart.empty_heap
      "build/x" "/w/build/x" "/h/config.toml" ex_world ex_cfg (@Load ex_os Toys.toy_toml "/h/config.toml" ex_world).2 r h).
    + cbn [fst]. by rewrite Hm.
    + vm_compute. reflexivity.
    + vm_compute. reflexivity.
    + vm_compute. reflexivity.
    + exact Hl.
  - split; vm_compute; reflexivity.
Defined.
End Commands.
