(* ===== verification/TuiWidgets.v ===== *)
(** * Lists, popups, inputs and forms of the editor (src/internal/tui/popup_menu.go,
    input_screen.go, form.go, var_wizard.go:wizardListNav)

    The parts the editor's screens are built from, with the keys they answer.  What a
    keystroke does to the text of a field is the framework's and is a parameter. *)

From S2P Require Import Prelude GoString.

Module TuiWidgets.

(** What a part tells the screen that owns it. *)
Inductive answer :=
| Stay
| Close
| Chosen (choice : string)
| Committed (val : string)
| BrowseFrom (val : string)
| Refused (msg : string)
| Entered.

Definition is_up (k : string) : bool := String.eqb k "up" || String.eqb k "k".
Definition is_down (k : string) : bool := String.eqb k "down" || String.eqb k "j".

(** The keys all list screens share, over [total] rows. *)
Definition list_nav (total cursor : nat) (k : string) : nat * answer :=
  if is_up k then (pred cursor, Stay)
  else if is_down k then (if (cursor <? total - 1)%nat then S cursor else cursor, Stay)
  else if String.eqb k "enter" then (cursor, Entered)
  else if String.eqb k "esc" then (cursor, Close)
  else (cursor, Stay).

(** refresh: the cursor after rows went away. *)
Definition clamp (cursor maxRow : nat) : nat := Nat.min cursor maxRow.

Definition popup_update (choices : list string) (cursor : nat) (k : string) : nat * answer :=
  if is_up k then (pred cursor, Stay)
  else if is_down k then (if (cursor <? length choices - 1)%nat then S cursor else cursor, Stay)
  else if String.eqb k "enter" then
    let choice := nth cursor choices EmptyString in
    (cursor, if String.eqb choice "Back" then Close else Chosen choice)
  else if String.eqb k "esc" then (cursor, Close)
  else (cursor, Stay).

(** confirmScreen: a prompt with [n] answers. *)
Definition prompt_key (n cursor : nat) (k : string) : nat * answer :=
  if String.eqb k "left" || String.eqb k "h" || String.eqb k "shift+tab" then (pred cursor, Stay)
  else if String.eqb k "right" || String.eqb k "l" || String.eqb k "tab" then
    (if (cursor <? n - 1)%nat then S cursor else cursor, Stay)
  else if String.eqb k "enter" then (cursor, Entered)
  else if String.eqb k "esc" then (cursor, Close)
  else (cursor, Stay).

(** ** The single input *)

Record inputScreen := mkInput {
  value : string;
  hidden : bool;                    (* EchoPassword *)
  allowBlnk : bool;
  has_browse : bool;
  ierr : string;
  ifocus : option nat;              (* the focused button *)
  buttons : list string
}.

Definition or_default (s d : string) : string := if str_empty s then d else s.

Definition newInputScreen (initial : string) (masked allowBlank browse : bool) (saveLabel cancelLabel : string) : inputScreen :=
  let btns := [or_default saveLabel "Apply"; or_default cancelLabel "Back"] in
  let btns := if masked then "Reveal" :: btns else btns in
  let btns := if browse then "Browse" :: btns else btns in
  mkInput initial masked allowBlank browse EmptyString None btns.

Definition with_focus (s : inputScreen) (f : option nat) : inputScreen :=
  mkInput (value s) (hidden s) (allowBlnk s) (has_browse s) (ierr s) f (buttons s).
Definition with_value (s : inputScreen) (v err : string) : inputScreen :=
  mkInput v (hidden s) (allowBlnk s) (has_browse s) err (ifocus s) (buttons s).
Definition with_echo (s : inputScreen) (h : bool) (label : string) (i : nat) : inputScreen :=
  mkInput (value s) h (allowBlnk s) (has_browse s) (ierr s) (ifocus s) (<[i := label]> (buttons s)).

(** inputScreen.commit *)
Definition input_commit (s : inputScreen) : inputScreen * answer :=
  if str_empty (trim_space (value s)) && negb (allowBlnk s)
  then (with_value s (value s) "value required", Refused "value required")
  else (s, Committed (value s)).

Definition path_picked (s : inputScreen) (path : string) : inputScreen :=
  if str_empty path then s else with_value s path EmptyString.

(** A key in the single input; [typed] is the framework's text field. *)
Definition input_update (typed : string -> string -> string) (s : inputScreen) (k : string) : inputScreen * answer :=
  let text := match ifocus s with
              | None => (with_value s (typed k (value s)) (ierr s), Stay)
              | Some _ => (s, Stay)
              end in
  let n := length (buttons s) in
  if String.eqb k "esc" then (s, Close)
  else if String.eqb k "ctrl+o" then (if has_browse s then (s, BrowseFrom (value s)) else text)
  else if String.eqb k "tab" then
    (with_focus s (match ifocus s with
                   | None => Some 0%nat
                   | Some b => if (b <? n - 1)%nat then Some (S b) else None
                   end), Stay)
  else if String.eqb k "shift+tab" then
    (with_focus s (match ifocus s with
                   | None => Some (n - 1)%nat
                   | Some b => if (0 <? b)%nat then Some (pred b) else None
                   end), Stay)
  else if String.eqb k "left" then
    (match ifocus s with Some (S b) => (with_focus s (Some b), Stay) | _ => text end)
  else if String.eqb k "right" then
    (match ifocus s with
     | Some b => if (b <? n - 1)%nat then (with_focus s (Some (S b)), Stay) else text
     | None => text
     end)
  else if String.eqb k "down" then (with_focus s (match ifocus s with None => Some 0%nat | f => f end), Stay)
  else if String.eqb k "up" then (with_focus s None, Stay)
  else if String.eqb k "enter" then
    match ifocus s with
    | None => input_commit s
    | Some b =>
        let label := nth b (buttons s) EmptyString in
        if String.eqb label "Reveal" then
          (if hidden s then (with_echo s false "Hide" b, Stay) else (with_echo s true "Reveal" b, Stay))
        else if String.eqb label "Hide" then (with_echo s true "Reveal" b, Stay)
        else if String.eqb label "Back" || String.eqb label "Cancel" then (s, Close)
        else if String.eqb label "Browse" then (s, if has_browse s then BrowseFrom (value s) else Stay)
        else input_commit s
    end
  else text.

(** ** A form of fields *)

Record ParamField := mkField { FKey : string; FLabel : string; FRequired : bool; FSensitive : bool }.
Record formField := mkFormField { field : ParamField; finput : string; revealed : bool }.
Record form := mkForm { fields : list formField; fcursor : nat }.

(** [fits] is what the text field makes of a value it is given. *)
Definition newForm (fits : string -> string) (schema : list ParamField) (initial : gmap string string) : form :=
  mkForm ((fun f => mkFormField f (match initial !! FKey f with Some v => fits v | None => EmptyString end) false) <$> schema) 0.

Definition Values (f : form) : gmap string string :=
  fold_left (fun m x => <[FKey (field x) := finput x]> m) (fields f) ∅.

Definition MissingRequired (f : form) : list string :=
  omap (fun x => if FRequired (field x) && str_empty (trim_space (finput x))
                 then Some (or_default (FLabel (field x)) (FKey (field x))) else None) (fields f).

Definition atFirstField (f : form) : bool := bool_decide (fields f = []) || (fcursor f =? 0)%nat.
Definition atLastField (f : form) : bool := bool_decide (fields f = []) || (length (fields f) - 1 <=? fcursor f)%nat.
(** The argument of focus may be one below the first field. *)
Definition focus (f : form) (i : Z) : form :=
  match fields f with
  | [] => f
  | _ => mkForm (fields f) (Z.to_nat (Z.max 0 (Z.min i (Z.of_nat (length (fields f)) - 1))))
  end.
Definition focusFirst (f : form) : form := focus f 0.
Definition focusLast (f : form) : form := focus f (Z.of_nat (length (fields f)) - 1).
Definition focusNext (f : form) : form := focus f (Z.of_nat (fcursor f) + 1).
Definition focusPrev (f : form) : form := focus f (Z.of_nat (fcursor f) - 1).

Definition form_update (typed : string -> string -> string) (f : form) (k : string) : form :=
  if String.eqb k "down" then focusNext f
  else if String.eqb k "up" then focusPrev f
  else if String.eqb k "ctrl+r" then
    mkForm (alter (fun x => if FSensitive (field x) then mkFormField (field x) (finput x) (negb (revealed x)) else x)
              (fcursor f) (fields f)) (fcursor f)
  else mkForm (alter (fun x => mkFormField (field x) (typed k (finput x)) (revealed x)) (fcursor f) (fields f)) (fcursor f).

(** ** The steps of the wizard *)

(** wizardListNav: [None] when the key is the step's own business. *)
Definition wizardListNav (cursor listLen : nat) (btnFocus : option nat) (btnLen : nat) (k : string) : option (nat * option nat) :=
  if is_up k then Some (match btnFocus with Some _ => (cursor, None) | None => (pred cursor, None) end)
  else if is_down k then
    Some (match btnFocus with
          | None => if (cursor <? listLen - 1)%nat then (S cursor, None) else (cursor, Some 0%nat)
          | f => (cursor, f)
          end)
  else if String.eqb k "tab" then
    Some (cursor, match btnFocus with
                  | None => Some 0%nat
                  | Some b => if (b <? btnLen - 1)%nat then Some (S b) else None
                  end)
  else if String.eqb k "shift+tab" then
    Some (cursor, match btnFocus with
                  | None => Some (btnLen - 1)%nat
                  | Some b => if (0 <? b)%nat then Some (pred b) else None
                  end)
  else if String.eqb k "left" || String.eqb k "h" then
    Some (cursor, match btnFocus with Some (S b) => Some b | f => f end)
  else if String.eqb k "right" || String.eqb k "l" then
    Some (cursor, match btnFocus with
                  | Some b => if (b <? btnLen - 1)%nat then Some (S b) else Some b
                  | None => None
                  end)
  else None.

(** ** What they promise *)

Ltac keys := repeat match goal with |- context [if ?b then _ else _] => destruct b eqn:?; simpl end.

Lemma list_nav_bound total cursor k : (cursor < total)%nat -> ((list_nav total cursor k).1 < total)%nat.
Proof. unfold list_nav. intros. keys; try apply Nat.ltb_lt in Heqb1; lia. Qed.

Lemma popup_bound choices cursor k :
  (cursor < length choices)%nat -> ((popup_update choices cursor k).1 < length choices)%nat.
Proof.
  unfold popup_update. intros. keys; try lia.
  match goal with Hx : (_ <? _)%nat = true |- _ => apply Nat.ltb_lt in Hx end. lia.
Qed.

(** Escape and the Back entry close a popup; no other entry does. *)
Lemma popup_chosen choices cursor k c :
  (popup_update choices cursor k).2 = Chosen c -> k = "enter" /\ c = nth cursor choices "" /\ c <> "Back".
Proof.
  unfold popup_update. destruct (is_up k); [done|]. destruct (is_down k); [done|].
  destruct (String.eqb_spec k "enter"); [|by destruct (String.eqb k "esc")].
  cbn [snd]. destruct (String.eqb_spec (nth cursor choices "") "Back"); [done|]. intros [= <-]. done.
Qed.

(** The focus is on the text or on one of the buttons. *)
Definition focus_ok (s : inputScreen) : Prop := match ifocus s with Some b => (b < length (buttons s))%nat | None => True end.

Definition committed_ok (s : inputScreen) (a : answer) : Prop :=
  forall v, a = Committed v -> v = value s /\ (allowBlnk s = true \/ trim_space v <> "").

Lemma input_commit_spec s : ifocus (input_commit s).1 = ifocus s /\ buttons (input_commit s).1 = buttons s /\ committed_ok s (input_commit s).2.
Proof.
  unfold input_commit, committed_ok. destruct (str_empty (trim_space (value s))) eqn:He; cbn [andb].
  - destruct (allowBlnk s) eqn:Hb; cbn; (split; [done|]); (split; [done|]); intros v; [|done].
    intros [= <-]. auto.
  - cbn. split; [done|]. split; [done|]. intros v [= <-]. split; [done|]. right. intros Hx. by rewrite Hx in He.
Qed.

(** Whatever the keys, the focus stays on the text or on a button, and what an input commits
    is its text, blank only where blank is allowed. *)
Lemma input_update_ok typed s k :
  focus_ok s -> buttons s <> [] -> focus_ok (input_update typed s k).1 /\ committed_ok s (input_update typed s k).2.
Proof.
  intros Hf Hb. assert (Hn : (0 < length (buttons s))%nat) by (destruct (buttons s); [done|simpl; lia]).
  assert (Hc : focus_ok (input_commit s).1 /\ committed_ok s (input_commit s).2).
  { destruct (input_commit_spec s) as (Hi & Hbt & Hco). unfold focus_ok in *. rewrite Hi, Hbt. auto. }
  assert (Hstay : committed_ok s Stay) by (by intros v).
  unfold input_update. destruct (ifocus s) as [b|] eqn:Hi; unfold focus_ok in Hf; rewrite Hi in Hf.
  all: repeat match goal with
    | |- _ /\ committed_ok _ (input_commit _).2 => exact Hc
    | |- context [if ?x then _ else _] => destruct x eqn:?
    | |- context [match ?b with O => _ | S _ => _ end] => destruct b
    end; unfold focus_ok; cbn; rewrite ?Hi; (split; [|try exact Hstay; by intros v]).
  all: rewrite ?length_insert; repeat match goal with Hx : (_ <? _)%nat = true |- _ => apply Nat.ltb_lt in Hx end; try lia; done.
Qed.

(** The buttons of a fresh input, and its focus on the text. *)
Lemma newInputScreen_ok initial masked allowBlank browse a b :
  let s := newInputScreen initial masked allowBlank browse a b in focus_ok s /\ buttons s <> [].
Proof. split; [done|]. cbn. by destruct masked, browse. Qed.

Lemma wizard_bound cursor listLen btnFocus btnLen k r :
  (cursor < listLen)%nat -> (0 < btnLen)%nat -> (forall b, btnFocus = Some b -> (b < btnLen)%nat) ->
  wizardListNav cursor listLen btnFocus btnLen k = Some r ->
  (r.1 < listLen)%nat /\ forall b, r.2 = Some b -> (b < btnLen)%nat.
Proof.
  intros Hc Hl Hb. unfold wizardListNav.
  destruct btnFocus as [b0|]; [specialize (Hb b0 eq_refl)|clear Hb].
  all: repeat match goal with
    | |- context [if ?x then _ else _] => destruct x eqn:?
    | |- context [match ?b with O => _ | S _ => _ end] => destruct b
    end; intros [= <-]; cbn; (split; [|intros b [= <-]]);
    repeat match goal with Hx : (_ <? _)%nat = true |- _ => apply Nat.ltb_lt in Hx end; lia.
Qed.

Definition form_ok (f : form) : Prop := fields f = [] \/ (fcursor f < length (fields f))%nat.

Lemma focus_in f i : fields f <> [] -> form_ok (focus f i) /\ fields (focus f i) = fields f.
Proof.
  intros Hf. unfold focus, form_ok. destruct (fields f) as [|x l] eqn:He; [done|]. cbn [fields fcursor]. split; [|done].
  right. cbn [length]. lia.
Qed.

Lemma focus_ok_form f i : form_ok f -> form_ok (focus f i) /\ fields (focus f i) = fields f.
Proof.
  intros Hf. destruct (decide (fields f = [])) as [He|Hne]; [|by apply focus_in].
  unfold focus. rewrite He. auto.
Qed.

(** A form never loses or gains a field, and only the focused one changes. *)
Lemma form_update_spec typed f k :
  form_ok f ->
  let f' := form_update typed f k in
  form_ok f' /\ field <$> fields f' = field <$> fields f
  /\ forall i, i <> fcursor f -> fields f' !! i = fields f !! i.
Proof.
  intros Hf. cbn zeta. unfold form_update.
  assert (Halter : forall g, (forall x, field (g x) = field x) ->
    let f' := mkForm (alter g (fcursor f) (fields f)) (fcursor f) in
    form_ok f' /\ field <$> fields f' = field <$> fields f /\ forall i, i <> fcursor f -> fields f' !! i = fields f !! i).
  { intros g Hg. cbn. split; [|split].
    - destruct Hf as [Hf|Hf]; [left; cbn; by rewrite Hf|right; cbn; by rewrite length_alter].
    - apply list_eq. intros i. rewrite !list_lookup_fmap.
      destruct (decide (i = fcursor f)) as [->|Hne]; [|by rewrite list_lookup_alter_ne].
      rewrite list_lookup_alter_eq. destruct (fields f !! fcursor f); [cbn; by rewrite Hg|done].
    - intros i Hi. by rewrite list_lookup_alter_ne. }
  destruct (String.eqb k "down"); [unfold focusNext; destruct (focus_ok_form f (Z.of_nat (fcursor f) + 1) Hf) as [? ->]; done|].
  destruct (String.eqb k "up"); [unfold focusPrev; destruct (focus_ok_form f (Z.of_nat (fcursor f) - 1) Hf) as [? ->]; done|].
  destruct (String.eqb k "ctrl+r"); apply Halter; intros x; [by destruct (FSensitive _)|done].
Qed.

Lemma newForm_fields fits schema initial : field <$> fields (newForm fits schema initial) = schema.
Proof. unfold newForm. cbn. rewrite <- list_fmap_compose. rewrite <- (list_fmap_id schema) at 2. by apply list_fmap_ext. Qed.

(** The value of a key is the text of the last field of that key. *)
Lemma Values_lookup f k :
  Values f !! k = finput <$> last (filter (fun x => FKey (field x) = k) (fields f)).
Proof.
  unfold Values. induction (fields f) as [|x l IH] using rev_ind; [done|].
  rewrite fold_left_app. cbn. rewrite filter_app. destruct (decide (FKey (field x) = k)) as [<-|Hne].
  - rewrite lookup_insert_eq. rewrite (filter_cons_True _ x) by done. rewrite filter_nil, last_snoc. done.
  - rewrite lookup_insert_ne by done. rewrite (filter_cons_False _ x) by done. rewrite filter_nil, app_nil_r. exact IH.
Qed.
End TuiWidgets.
