(* ===== verification/TuiSources.v ===== *)
(** * Sources in the editor (src/internal/tui/sources_screen.go, arn_list_screen.go)

    What adding, editing and deleting a source does to the configuration in memory, and
    the list of ARNs kept with an AWS source.  Renames are in TuiRefs.  What the screens
    draw is in TuiViews. *)

From S2P Require Import Prelude GoString ConfigModel Edit Resolver TuiRefs TuiWidgets Aws.
Import Config Edit TuiRefs TuiWidgets.

Module TuiSources.

Definition isManagedSourceType (t : string) : bool := String.eqb t "local" || String.eqb t "noop".

Definition remoteSourceTypes (types : list string) : list string :=
  List.filter (fun t => negb (isManagedSourceType t)) types.

(** ** The list of ARNs *)

Definition readARNs (c : Config) (sourceName : string) : list string :=
  match Sources c !! sourceName with
  | None => []
  | Some sc =>
      match Params sc !! "arns" with
      | Some (AList l) => omap (fun e => match e with AStr s => if str_empty s then None else Some s | _ => None end) l
      | _ => []
      end
  end.

(** A missing source comes into being without a type. *)
Definition writeARNs (c : Config) (sourceName : string) (arns : list string) : Config :=
  let sc := default no_source (Sources c !! sourceName) in
  let params := if bool_decide (arns = []) then delete "arns" (Params sc)
                else <["arns" := AList (AStr <$> arns)]> (Params sc) in
  with_sources c (<[sourceName := mkSource (Type_ sc) params]> (Sources c)).

Inductive arn_result := ARNRequired | NotAnARN | ARNDone (c : Config).

(** What the two inputs check. *)
Definition check_arn (val : string) (k : string -> arn_result) : arn_result :=
  let v := trim_space val in
  if str_empty v then ARNRequired
  else if negb (contains_str v ":secret:") then NotAnARN
  else k v.

Definition arn_add (c : Config) (sourceName val : string) : arn_result :=
  check_arn val (fun v => ARNDone (writeARNs c sourceName (readARNs c sourceName ++ [v]))).

Definition arn_edit (c : Config) (sourceName : string) (idx : nat) (val : string) : arn_result :=
  check_arn val (fun v =>
    let next := readARNs c sourceName in
    ARNDone (if (idx <? length next)%nat then writeARNs c sourceName (<[idx := v]> next) else c)).

Definition arn_delete (c : Config) (sourceName : string) (idx : nat) : Config :=
  let next := readARNs c sourceName in
  if (idx <? length next)%nat then writeARNs c sourceName (take idx next ++ drop (S idx) next) else c.

(** ** The parameters of a source *)

Definition paramsToStrings (p : gmap string any) : gmap string string :=
  omap (fun v => match v with AStr s => Some s | _ => None end) p.

Definition paramButtonsForType (typeName : string) : list string :=
  if String.eqb typeName "aws" then ["Apply"; "Test"; "ARNs"; "Back"] else ["Apply"; "Test"; "Back"].

Record sourceParamsScreen := mkParams {
  sname : string;
  stypeName : string;
  creating : bool;
  sform : form;
  sfocus : option nat;
  serr : string
}.

Section Sources.
Context `{MapRange}.

Definition countRemoteSources (c : Config) : nat :=
  length (List.filter (fun ns => negb (isManagedSourceType (Type_ ns.2))) (map_range 90 (Sources c))).

(** refresh of the list: the sources shown, and the cursor. *)
Definition source_rows (c : Config) : list string :=
  sort_strings (List.filter (fun ns => negb (isManagedSourceType (Type_ ns.2))) (map_range 91 (Sources c))).*1.

Definition selectedName (names : list string) (cursor : nat) : string :=
  match cursor with O => EmptyString | S i => nth i names EmptyString end.

Definition delete_source (c : Config) (name : string) : Config := with_sources c (delete name (Sources c)).

(** ** Adding one *)

(** Tab on the type picker, with -1 for the list. *)
Definition picker_tab (btnFocus buttons : Z) : Z :=
  let f := ((btnFocus + 2) `mod` (buttons + 1))%Z in if (f =? buttons)%Z then -1 else f.

Definition exists_source (c : Config) (name : string) : bool :=
  match Sources c !! name with Some _ => true | None => false end.

Definition proposeSourceName (c : Config) (typeName : string) : string :=
  let base := typeName in
  if negb (exists_source c base) then base
  else
    let cands := (fun i => base +:+ "-" +:+ itoa (N.of_nat i)) <$> seq 2 98 in
    match List.find (fun cand => negb (exists_source c cand)) cands with Some cand => cand | None => base end.

Inductive named := NNameRequired | NExists (name : string) | NParams (s : sourceParamsScreen).

Section Forms.
Context (Schema : string -> list ParamField) (fits : string -> string).

Definition newSourceParamsScreenForNew (typeName name : string) : sourceParamsScreen :=
  mkParams name typeName true (newForm fits (Schema typeName) ∅) None EmptyString.

(** [None]: the source vanished. *)
Definition newSourceParamsScreenForEdit (c : Config) (name : string) : option sourceParamsScreen :=
  sc ← Sources c !! name;
  Some (mkParams name (Type_ sc) false (newForm fits (Schema (Type_ sc)) (paramsToStrings (Params sc))) None EmptyString).

(** The callback of newSourceNameScreen. *)
Definition name_source (c : Config) (typeName val : string) : named :=
  let name := trim_space val in
  if str_empty name then NNameRequired
  else if exists_source c name then NExists name
  else NParams (newSourceParamsScreenForNew typeName name).
End Forms.

(** The loop over the form's values, which save and openARNs share. *)
Definition put_params (values : gmap string string) (params : gmap string any) : gmap string any :=
  fold_left (fun p kv => if str_empty kv.2 then delete kv.1 p else <[kv.1 := AStr kv.2]> p) (map_range 92 values) params.

Definition commit_form (c : Config) (s : sourceParamsScreen) : Config :=
  let sc := default no_source (Sources c !! sname s) in
  with_sources c (<[sname s := mkSource (stypeName s) (put_params (Values (sform s)) (Params sc))]> (Sources c)).

(** save: the missing fields, or the configuration and the verb of the status line. *)
Definition save (c : Config) (s : sourceParamsScreen) : list string + Config * string :=
  match MissingRequired (sform s) with
  | [] => inr (commit_form c s, if creating s then "added" else "edited")
  | missing => inl missing
  end.

Definition openARNs : Config -> sourceParamsScreen -> Config := commit_form.

(** testConnection: the source built from what the form holds, checked and not kept. *)
Definition testConnection {S} (build : string -> gmap string any -> res string S) (check : S -> option string)
    (s : sourceParamsScreen) : list string + res string unit :=
  match MissingRequired (sform s) with
  | [] =>
      inr (match build (stypeName s) (put_params (Values (sform s)) ∅) with
           | Err e => Err ("build: " +:+ e)
           | Ok src => match check src with Some e => Err ("validate: " +:+ e) | None => Ok tt end
           end)
  | missing => inl missing
  end.
End Sources.

(** The keys of the parameters screen. *)
Definition with_form (s : sourceParamsScreen) (f : form) (b : option nat) : sourceParamsScreen :=
  mkParams (sname s) (stypeName s) (creating s) f b (serr s).

Definition params_update (typed : string -> string -> string) (s : sourceParamsScreen) (k : string) : sourceParamsScreen * answer :=
  let btns := paramButtonsForType (stypeName s) in
  let n := length btns in
  let f := sform s in
  let text := match sfocus s with None => (with_form s (form_update typed f k) None, Stay) | Some _ => (s, Stay) end in
  if String.eqb k "esc" then (s, Close)
  else if String.eqb k "tab" then
    (match sfocus s with
     | None => if atLastField f then with_form s f (Some 0%nat) else with_form s (focusNext f) None
     | Some b => if (b <? n - 1)%nat then with_form s f (Some (S b)) else with_form s (focusFirst f) None
     end, Stay)
  else if String.eqb k "shift+tab" then
    (match sfocus s with
     | None => if atFirstField f then with_form s f (Some (n - 1)%nat) else with_form s (focusPrev f) None
     | Some b => if (0 <? b)%nat then with_form s f (Some (pred b)) else with_form s (focusLast f) None
     end, Stay)
  else if String.eqb k "enter" then
    match sfocus s with
    | None => (s, Stay)
    | Some b => let label := nth b btns EmptyString in (s, if String.eqb label "Back" then Close else Chosen label)
    end
  else if String.eqb k "left" then
    match sfocus s with Some (S b) => (with_form s f (Some b), Stay) | _ => text end
  else if String.eqb k "right" then
    match sfocus s with
    | Some b => if (b <? n - 1)%nat then (with_form s f (Some (S b)), Stay) else (s, Stay)
    | None => text
    end
  else text.

(** ** What they promise *)

(** What is written is what is read. *)
Lemma read_write_arns c name arns : Forall (fun a => a <> "") arns -> readARNs (writeARNs c name arns) name = arns.
Proof.
  intros Ha. unfold readARNs, writeARNs. cbn [Sources with_sources]. rewrite lookup_insert_eq. cbn [Params].
  case_bool_decide as He; [by rewrite lookup_delete_eq|]. rewrite lookup_insert_eq.
  induction Ha as [|a l Hne Hl IH]; [done|]. cbn. destruct (str_empty a) eqn:Hx; [by apply str_empty_spec in Hx|].
  f_equal. destruct l; [done|by apply IH].
Qed.

Lemma readARNs_nonempty c name : Forall (fun a => a <> "") (readARNs c name).
Proof.
  unfold readARNs. destruct (Sources c !! name) as [sc|]; [|constructor].
  destruct (Params sc !! "arns") as [[| | |l|]|]; try constructor. apply Forall_forall. intros a Hin.
  apply list_elem_of_omap in Hin as (e & _ & He). destruct e; try done. destruct (str_empty s) eqn:Hx; [done|].
  injection He as <-. intros ->. done.
Qed.

(** Only the ARNs of that source change. *)
Lemma writeARNs_only c name arns n : n <> name -> Sources (writeARNs c name arns) !! n = Sources c !! n.
Proof. intros Hn. cbn. by rewrite lookup_insert_ne. Qed.

(** Adding and deleting, on the list that the next reader sees. *)
Lemma arn_add_spec c name val c' :
  arn_add c name val = ARNDone c' ->
  readARNs c' name = readARNs c name ++ [trim_space val] /\ contains_str (trim_space val) ":secret:" = true.
Proof.
  unfold arn_add, check_arn. destruct (str_empty (trim_space val)) eqn:He; [done|].
  destruct (contains_str (trim_space val) ":secret:"); [|done]. cbn [negb]. intros [= <-]. split; [|done].
  apply read_write_arns, Forall_app. split; [apply readARNs_nonempty|]. constructor; [|done]. intros Hx. by rewrite Hx in He.
Qed.

Lemma arn_delete_spec c name idx : readARNs (arn_delete c name idx) name = delete idx (readARNs c name).
Proof.
  unfold arn_delete. destruct (idx <? length (readARNs c name))%nat eqn:Hl.
  - rewrite read_write_arns.
    + symmetry. apply delete_take_drop.
    + pose proof (readARNs_nonempty c name) as Hf. apply Forall_app. split; [by apply Forall_take|by apply Forall_drop].
  - apply Nat.ltb_ge in Hl. rewrite delete_take_drop, take_ge, drop_ge by lia. by rewrite app_nil_r.
Qed.

Section Laws.
Context `{MapRange}.

Lemma put_params_lookup values params k :
  put_params values params !! k =
  match values !! k with
  | None => params !! k
  | Some v => if str_empty v then None else Some (AStr v)
  end.
Proof.
  unfold put_params. rewrite <- (list_to_map_map_range 92 values) at 2.
  pose proof (NoDup_map_range_fst 92 values) as Hnd. revert params.
  induction (map_range 92 values) as [|[k0 v0] l IH]; intros params; [done|]. cbn [list_to_map fold_left fst snd].
  apply NoDup_cons in Hnd as [Hk Hnd]. cbn in Hk. rewrite IH by done. cbn [foldr]. unfold uncurry.
  destruct (decide (k0 = k)) as [->|Hne].
  - rewrite (not_elem_of_list_to_map_1 _ _ Hk). cbn. rewrite lookup_insert_eq.
    destruct (str_empty v0); [by rewrite lookup_delete_eq|by rewrite lookup_insert_eq].
  - cbn. rewrite (lookup_insert_ne _ k0 k) by done. destruct (list_to_map l !! k); [done|].
    destruct (str_empty v0); [by rewrite lookup_delete_ne|by rewrite lookup_insert_ne].
Qed.

Section Edit.
Context (Schema : string -> list ParamField) (fits : string -> string).

(** What a text field shows of a parameter. *)
Definition shown (a : option any) : string := match a with Some (AStr v) => fits v | _ => EmptyString end.

Lemma Values_newForm schema initial k :
  Values (newForm fits schema initial) !! k =
  if bool_decide (k ∈ FKey <$> schema) then Some (match initial !! k with Some v => fits v | None => EmptyString end) else None.
Proof.
  unfold Values, newForm. cbn [fields]. induction schema as [|f l IH] using rev_ind; [done|].
  rewrite !fmap_app, fold_left_app. cbn. destruct (decide (FKey f = k)) as [<-|Hne].
  - rewrite lookup_insert_eq, bool_decide_eq_true_2; [done|]. apply elem_of_app. right. by apply list_elem_of_singleton.
  - rewrite lookup_insert_ne by done. rewrite IH. 
    assert (Hi : (k ∈ FKey <$> l) <-> (k ∈ (FKey <$> l) ++ [FKey f])).
    { rewrite elem_of_app, list_elem_of_singleton. naive_solver. }
    by rewrite (bool_decide_ext _ _ Hi).
Qed.

(** Opening a source and applying it at once: a parameter the schema does not name stays,
    and one it names becomes the text its field showed.  A parameter that is no string
    shows as nothing and is erased. *)
Lemma edit_unchanged c name sc s :
  Sources c !! name = Some sc -> newSourceParamsScreenForEdit Schema fits c name = Some s ->
  exists sc', Sources (commit_form c s) !! name = Some sc' /\ Type_ sc' = Type_ sc
    /\ forall k, Params sc' !! k =
         if bool_decide (k ∈ FKey <$> Schema (Type_ sc)) then
           let v := shown (Params sc !! k) in if str_empty v then None else Some (AStr v)
         else Params sc !! k.
Proof.
  intros Hsc. unfold newSourceParamsScreenForEdit. rewrite Hsc. cbn. intros [= <-]. unfold commit_form. cbn [sname stypeName sform Sources with_sources].
  rewrite Hsc. cbn [default]. rewrite lookup_insert_eq. eexists. split; [done|]. split; [done|]. intros k. cbn [Params].
  rewrite put_params_lookup, Values_newForm. case_bool_decide; [|done]. cbn zeta. unfold shown, paramsToStrings.
  rewrite lookup_omap. destruct (Params sc !! k) as [[]|]; done.
Qed.
End Edit.

(** Deleting a source that a mapping still names is caught by the validation of the save;
    one that no mapping names leaves a valid configuration valid. *)
Lemma delete_source_caught c name :
  Validate c = None ->
  (Validate (delete_source c name) = None <-> for_vars (fun v => Value v = "" -> Source v <> name) c).
Proof.
  intros Hv. apply Validate_None in Hv as [Hok Hres]. rewrite Validate_None. split.
  - intros [_ Hres']. unfold for_vars. cbn [Mappings delete_source with_sources] in Hres'.
    eapply Forall_impl; [exact Hres'|]. intros m Hm. eapply Forall_impl; [exact Hm|]. intros v Hr Hval Hn.
    destruct Hr as [Hr|[sc Hsc]]; [done|]. cbn in Hsc. rewrite Hn, lookup_delete_eq in Hsc. done.
  - intros Hf. destruct Hok as [Hver Hsrc Hmap]. split; [split|].
    + done.
    + intros n s Hn. cbn in Hn. apply lookup_delete_Some in Hn as [_ Hn]. by apply (Hsrc n).
    + done.
    + cbn [Mappings delete_source with_sources].
      unfold for_vars in Hf. rewrite Forall_forall in Hf, Hres |- *. intros m Hm. specialize (Hf m Hm). specialize (Hres m Hm).
      rewrite Forall_forall in Hf, Hres |- *. intros v Hin. destruct (decide (Value v = EmptyString)) as [Hval|Hval]; [right|by left].
      destruct (Hres v Hin) as [?|[sc Hsc]]; [done|]. exists sc. cbn. rewrite lookup_delete_ne; [done|]. intros Heq. by apply (Hf v Hin Hval).
Qed.
End Laws.

(** A proposed name is free, unless the type's name and all of -2 to -99 are taken. *)
Lemma proposeSourceName_free c t :
  exists_source c (proposeSourceName c t) = true ->
  exists_source c t = true /\ forall i, (2 <= i < 100)%nat -> exists_source c (t +:+ "-" +:+ itoa (N.of_nat i)) = true.
Proof.
  unfold proposeSourceName. destruct (exists_source c t) eqn:Ht; cbn [negb]; [|by rewrite Ht].
  destruct (List.find _ _) as [cand|] eqn:Hf.
  - apply find_some in Hf as [_ Hn]. intros Hc. by rewrite Hc in Hn.
  - intros _. split; [done|]. intros i Hi.
    pose proof (find_none _ _ Hf (t +:+ "-" +:+ itoa (N.of_nat i))) as Hx. cbn beta in Hx.
    rewrite negb_false_iff in Hx. apply Hx. apply list_elem_of_In, list_elem_of_fmap. exists i. split; [done|].
    apply elem_of_seq. lia.
Qed.

(** ** What they do not promise *)

(** Tab on the type picker visits the two buttons from right to left, although the
    arrows move the other way. *)
Example picker_tab_order : picker_tab (-1) 2 = 1%Z /\ picker_tab 1 2 = 0%Z /\ picker_tab 0 2 = (-1)%Z.
Proof. done. Qed.

Definition ex_field (k : string) : ParamField := mkField k k false false.
Definition ex_schema (t : string) : list ParamField := [ex_field "address"; ex_field "tls_skip_verify"].
Definition ex_config : Config :=
  mkConfig Version (mkMeta "" 0 0 0 "" "" "" "") (mkAgentConfig "" "" None None) {["v" := mkSource "vault" {["address" := AStr "https://v"; "tls_skip_verify" := ABool true]}]} [] ∅ None.

(** A boolean written in the file is gone once the source has been opened and applied. *)
Example edit_erases_bool :
  match newSourceParamsScreenForEdit ex_schema (fun s => s) ex_config "v" with
  | Some s => (fun sc => (Params sc !! "address", Params sc !! "tls_skip_verify")) <$> Sources (@commit_form map_range_default ex_config s) !! "v"
  | None => None
  end = Some (Some (AStr "https://v"), None).
Proof. vm_compute. reflexivity. Qed.
End TuiSources.
