(* ===== verification/TuiTree.v ===== *)
(** * Selecting the variables of a mapping (src/internal/tui/var_tree_screen.go)

    The tree of bags and keys with their boxes, how it is filled from a mapping and from
    the sources, and how every toggle rewrites the mapping.  Its window and its drawing are in
    TuiViews. *)

From S2P Require Import Prelude GoString ConfigModel Edit Resolver TuiRefs TuiWidgets Aws TuiSources.
Import Config Edit TuiRefs TuiWidgets.

Module TuiTree.

Record treeKey := mkTKey { kname : string; ksel : bool }.

Record treeBag := mkTBag {
  sourceName : string;
  sourceType : string;
  refID : string;
  displayName : string;
  bagSel : bool;
  keys : list treeKey;
  loading : bool;
  loadErr : string
}.

Record treeRow := mkRow { bagIdx : nat; keyIdx : option nat }.

Record sourceBagsResult := mkResult { rsource : string; rbags : list Aws.Bag; rerr : string }.

(** The key of the maps that loading builds. *)
Definition lookup_key (source ref : string) : string := source +:+ "|" +:+ ref.
Definition var_key (v : VarRef) : string := lookup_key (Source v) (Ref v).

(** [bagAll] and [keySel] of loadFromMapping, as what they answer. *)
Definition bagAll (vars : list VarRef) (k : string) : bool :=
  existsb (fun v => String.eqb (var_key v) k && str_empty (Key v) && str_empty (Name v)) vars.
Definition keySel (vars : list VarRef) (k key : string) : bool :=
  existsb (fun v => String.eqb (var_key v) k && negb (str_empty (Key v)) && String.eqb (Key v) key) vars.
(** That of applyAsyncResults wants a name as well. *)
Definition keySel_named (vars : list VarRef) (k key : string) : bool :=
  existsb (fun v => String.eqb (var_key v) k && negb (str_empty (Key v)) && negb (str_empty (Name v)) && String.eqb (Key v) key) vars.

Section Tree.
Context `{MapRange}.

Definition bagNames (c : Config) : list string := sort_strings (map_range 95 (Secrets c)).*1.
Definition sortedBagKeys (c : Config) (bag : string) : list string :=
  sort_strings (map_range 96 (default ∅ (Secrets c !! bag))).*1.
Definition sortedSourceNames (c : Config) : list string := sort_strings (map_range 97 (Sources c)).*1.

(** The first local source that a range over the map meets. *)
Definition defaultLocalSourceName (c : Config) : string :=
  match List.find (fun ns => String.eqb (Type_ ns.2) "local") (map_range 98 (Sources c)) with
  | Some (n, _) => n
  | None => EmptyString
  end.

Definition remoteRefIDs (c : Config) (name : string) (sc : SourceConfig) : list string :=
  if String.eqb (Type_ sc) "aws" then TuiSources.readARNs c name else [].

Definition local_bag (c : Config) (vars : list VarRef) (local bn : string) : treeBag :=
  mkTBag local "local" bn bn (bagAll vars (lookup_key local bn))
    ((fun k => mkTKey k (keySel vars (lookup_key local bn) k)) <$> sortedBagKeys c bn) false EmptyString.

Definition remote_bag (vars : list VarRef) (srcName typ id : string) : treeBag :=
  mkTBag srcName typ id (Aws.arnDisplayName id) (bagAll vars (lookup_key srcName id)) [] true EmptyString.

Definition remote_bags (c : Config) (vars : list VarRef) (srcName : string) : list treeBag :=
  match Sources c !! srcName with
  | None => []
  | Some sc => if String.eqb (Type_ sc) "local" then [] else remote_bag vars srcName (Type_ sc) <$> remoteRefIDs c srcName sc
  end.

Definition loadFromMapping (c : Config) (vars : list VarRef) : list treeBag :=
  let local := defaultLocalSourceName c in
  (if str_empty local then [] else local_bag c vars local <$> bagNames c)
  ++ mjoin (remote_bags c vars <$> sortedSourceNames c).

(** loadAsyncBags: what the command asks for, one source after the other; a source that has
    no bags to list is left out. *)
Definition async_jobs (c : Config) : list (string * SourceConfig) :=
  omap (fun n => match Sources c !! n with
                 | Some sc => if String.eqb (Type_ sc) "local" then None else Some (n, sc)
                 | None => None
                 end) (sortedSourceNames c).

Definition loadAsyncBags {S} (build : string -> gmap string any -> res string S) (bagger : S -> option (list Aws.Bag * string))
    (c : Config) : list sourceBagsResult :=
  omap (fun j => match build (Type_ j.2) (Params j.2) with
                 | Err e => Some (mkResult j.1 [] e)
                 | Ok s => (fun be => mkResult j.1 be.1 be.2) <$> bagger s
                 end) (async_jobs c).

Definition flatRows (t : list treeBag) : list treeRow :=
  mjoin (imap (fun bi b => mkRow bi None :: ((fun ki => mkRow bi (Some ki)) <$> seq 0 (length (keys b)))) t).

Definition with_keys (b : treeBag) (sel : bool) (ks : list treeKey) : treeBag :=
  mkTBag (sourceName b) (sourceType b) (refID b) (displayName b) sel ks (loading b) (loadErr b).

(** One bag under one result. *)
Definition apply_result (vars : list VarRef) (r : sourceBagsResult) (b : treeBag) : treeBag :=
  if negb (String.eqb (sourceName b) (rsource r)) then b
  else
    match List.find (fun x => String.eqb (Aws.RefID x) (refID b)) (rev (rbags r)) with
    | None => mkTBag (sourceName b) (sourceType b) (refID b) (displayName b) (bagSel b) (keys b) false (rerr r)
    | Some fetched =>
        mkTBag (sourceName b) (sourceType b) (refID b)
          (if str_empty (Aws.DisplayName fetched) then displayName b else Aws.DisplayName fetched) (bagSel b)
          ((fun k => mkTKey k (keySel_named vars (lookup_key (sourceName b) (refID b)) k)) <$> sort_strings (Aws.Keys fetched))
          false (rerr r)
    end.

Definition applyAsyncResults (vars : list VarRef) (results : list sourceBagsResult) (t : list treeBag) : list treeBag :=
  fold_left (fun t r => apply_result vars r <$> t) results t.

(** [None]: the toggle does nothing. *)
Definition toggle_bag (b : treeBag) : treeBag :=
  let sel := negb (bagSel b) in
  with_keys b sel (if sel then (fun k => mkTKey (kname k) false) <$> keys b else keys b).
Definition toggle_key (ki : nat) (b : treeBag) : treeBag :=
  with_keys b (bagSel b) (alter (fun k => mkTKey (kname k) (negb (ksel k))) ki (keys b)).

Definition toggle (t : list treeBag) (r : treeRow) : option (list treeBag) :=
  match t !! bagIdx r with
  | None => None
  | Some b =>
      match keyIdx r with
      | None => Some (<[bagIdx r := toggle_bag b]> t)
      | Some ki =>
          if bagSel b || loading b || (length (keys b) <=? ki)%nat then None
          else Some (<[bagIdx r := toggle_key ki b]> t)
      end
  end.

Definition whole (b : treeBag) : VarRef := mkVar EmptyString (sourceName b) (refID b) EmptyString ∅ EmptyString.
Definition one_key (b : treeBag) (k : string) : VarRef := mkVar k (sourceName b) (refID b) k ∅ EmptyString.

Definition fresh_of (b : treeBag) : list VarRef :=
  if bagSel b then [whole b] else omap (fun k => if ksel k then Some (one_key b (kname k)) else None) (keys b).

Definition covered (t : list treeBag) (v : VarRef) : bool := existsb (fun b => String.eqb (sourceName b) (Source v)) t.

(** commit: the vars of the mapping. *)
Definition commit (t : list treeBag) (vars : list VarRef) : list VarRef :=
  List.filter (fun v => negb (covered t v)) vars ++ mjoin (fresh_of <$> t).

(** ** The screen *)

Record varTreeScreen := mkTree { mappingIdx : nat; bags : list treeBag; tcursor : nat }.

Definition set_vars (c : Config) (i : nat) (vars : list VarRef) : Config :=
  with_mappings c (alter (fun m => mkMapping (Path m) (Glob m) (CwdGlob m) (Commands m) vars) i (Mappings c)).

Definition mapping_vars (c : Config) (i : nat) : option (list VarRef) := Vars <$> Mappings c !! i.

Definition newVarTreeScreen (c : Config) (i : nat) : varTreeScreen :=
  mkTree i (match mapping_vars c i with Some vars => loadFromMapping c vars | None => [] end) 0.

Definition loaded (c : Config) (s : varTreeScreen) (results : list sourceBagsResult) : varTreeScreen :=
  mkTree (mappingIdx s) (applyAsyncResults (default [] (mapping_vars c (mappingIdx s))) results (bags s)) (tcursor s).

(** A key; the configuration and whether it changed. *)
Definition tree_update (c : Config) (s : varTreeScreen) (k : string) : Config * varTreeScreen * answer * bool :=
  let rows := flatRows (bags s) in
  if String.eqb k " " || String.eqb k "enter" then
    match rows !! tcursor s with
    | None => (c, s, Stay, false)
    | Some r =>
        match toggle (bags s) r with
        | None => (c, s, Stay, false)
        | Some t =>
            (match mapping_vars c (mappingIdx s) with
             | None => c
             | Some vars => set_vars c (mappingIdx s) (commit t vars)
             end, mkTree (mappingIdx s) t (tcursor s), Stay, true)
        end
    end
  else
    let '(cur, a) := list_nav (length rows) (tcursor s) k in
    (c, mkTree (mappingIdx s) (bags s) cur, a, false).
End Tree.

(** ** The boxes and the mapping *)

Definition bag_id (b : treeBag) : string * string := (sourceName b, refID b).

(** A tree as the screen keeps it. *)
Record tree_wf (t : list treeBag) : Prop := {
  wf_ids : NoDup (bag_id <$> t);
  wf_keys : forall b, b ∈ t -> NoDup (kname <$> keys b) /\ forall k, k ∈ keys b -> kname k <> "";
  wf_whole : forall b k, b ∈ t -> bagSel b = true -> k ∈ keys b -> ksel k = false
}.

(** The vars of the mapping that the tree covers are the ticked ones. *)
Definition in_step (t : list treeBag) (vars : list VarRef) : Prop :=
  forall v, covered t v = true -> (v ∈ vars <-> exists b, b ∈ t /\ v ∈ fresh_of b).

Lemma elem_of_fresh b v :
  v ∈ fresh_of b <-> if bagSel b then v = whole b else exists k, k ∈ keys b /\ ksel k = true /\ v = one_key b (kname k).
Proof.
  unfold fresh_of. destruct (bagSel b); [by rewrite list_elem_of_singleton|]. rewrite list_elem_of_omap. split.
  - intros (k & Hk & Hv). destruct (ksel k) eqn:Hs; [|done]. injection Hv as <-. eauto.
  - intros (k & Hk & Hs & ->). exists k. by rewrite Hs.
Qed.

Lemma fresh_id b v : v ∈ fresh_of b -> (Source v, Ref v) = bag_id b.
Proof. rewrite elem_of_fresh. destruct (bagSel b); [by intros ->|]. intros (k & _ & _ & ->). done. Qed.

Lemma covered_spec t v : covered t v = true <-> exists b, b ∈ t /\ sourceName b = Source v.
Proof.
  unfold covered. rewrite existsb_exists. setoid_rewrite <- list_elem_of_In. by setoid_rewrite String.eqb_eq.
Qed.

Lemma elem_of_commit t vars v :
  v ∈ commit t vars <-> (covered t v = false /\ v ∈ vars) \/ exists b, b ∈ t /\ v ∈ fresh_of b.
Proof.
  unfold commit. rewrite elem_of_app, list_elem_of_In, filter_In, <- list_elem_of_In, list_elem_of_join, negb_true_iff.
  split; (intros [?|Hx]; [tauto|right]).
  - destruct Hx as (l & Hv & Hl). apply list_elem_of_fmap in Hl as (b & -> & Hb). eauto.
  - destruct Hx as (b & Hb & Hv). exists (fresh_of b). split; [done|]. by apply list_elem_of_fmap_2.
Qed.

Lemma fresh_covered t b v : b ∈ t -> v ∈ fresh_of b -> covered t v = true.
Proof. intros Hb Hv. apply covered_spec. exists b. split; [done|]. apply fresh_id in Hv. by injection Hv. Qed.

Lemma commit_in_step t vars : in_step t (commit t vars).
Proof.
  intros v Hc. rewrite elem_of_commit. split; [|auto]. intros [[Hn _]|?]; [congruence|done].
Qed.

(** What is not the tree's keeps its place. *)
Lemma commit_rest t vars :
  List.filter (fun v => negb (covered t v)) (commit t vars) = List.filter (fun v => negb (covered t v)) vars.
Proof.
  unfold commit. rewrite List.filter_app.
  assert (Hf : forall l, (forall v, v ∈ l -> covered t v = true) -> List.filter (fun v => negb (covered t v)) l = []).
  { induction l as [|v l IH]; intros Hl; [done|]. cbn. rewrite (Hl v) by apply list_elem_of_here. cbn.
    apply IH. intros w Hw. apply Hl. by apply list_elem_of_further. }
  rewrite (Hf (mjoin _)), app_nil_r.
  - induction vars as [|v l IH]; [done|]. cbn. destruct (covered t v) eqn:Hc; cbn; [done|]. rewrite Hc. cbn. by rewrite IH.
  - intros v (l & Hv & Hl)%list_elem_of_join. apply list_elem_of_fmap in Hl as (b & -> & Hb). by eapply fresh_covered.
Qed.

(** ** One toggle *)

(** A box changes one bag, and nothing that identifies it or its keys. *)
Definition same_rows (b b' : treeBag) : Prop :=
  bag_id b' = bag_id b /\ kname <$> keys b' = kname <$> keys b.

Lemma toggle_bag_rows b : same_rows b (toggle_bag b).
Proof.
  split; [done|]. unfold toggle_bag. cbn. destruct (negb (bagSel b)); [|done].
  rewrite <- list_fmap_compose. by apply list_fmap_ext.
Qed.

Lemma toggle_key_rows ki b : same_rows b (toggle_key ki b).
Proof.
  split; [done|]. unfold toggle_key. cbn. apply list_eq. intros j. rewrite !list_lookup_fmap.
  destruct (decide (j = ki)) as [->|Hne]; [rewrite list_lookup_alter_eq|by rewrite list_lookup_alter_ne].
  by destruct (keys b !! ki).
Qed.

(** What the toggled bag contributes. *)
Lemma toggle_bag_fresh b v :
  (forall k, k ∈ keys b -> bagSel b = true -> ksel k = false) ->
  v ∈ fresh_of (toggle_bag b) <-> if bagSel b then False else v = whole b.
Proof.
  intros Hw. rewrite elem_of_fresh. unfold toggle_bag. cbn [bagSel with_keys keys]. destruct (bagSel b); cbn [negb]; [|done].
  split; [|done]. intros (k & Hk & Hs & _). by rewrite (Hw k Hk eq_refl) in Hs.
Qed.

Lemma toggle_key_fresh ki k b v :
  keys b !! ki = Some k -> NoDup (kname <$> keys b) -> bagSel b = false ->
  v ∈ fresh_of (toggle_key ki b) <->
  if decide (v = one_key b (kname k)) then v ∉ fresh_of b else v ∈ fresh_of b.
Proof.
  intros Hk Hnd Hs.
  assert (Hf : forall w, w ∈ fresh_of b <-> exists x, x ∈ keys b /\ ksel x = true /\ w = one_key b (kname x)).
  { intros w. by rewrite elem_of_fresh, Hs. }
  assert (Hf' : v ∈ fresh_of (toggle_key ki b) <-> exists x, x ∈ alter (fun k => mkTKey (kname k) (negb (ksel k))) ki (keys b)
    /\ ksel x = true /\ v = one_key b (kname x)).
  { rewrite elem_of_fresh. unfold toggle_key. cbn [bagSel with_keys keys]. by rewrite Hs. }
  rewrite Hf'. clear Hf'.
  assert (Hu : forall j x, keys b !! j = Some x -> kname x = kname k -> j = ki).
  { intros j x Hj Hn. eapply (NoDup_lookup (kname <$> keys b)); [done|..]; rewrite list_lookup_fmap, ?Hj, ?Hk; cbn; by rewrite ?Hn. }
  assert (Hone : forall x y, one_key b x = one_key b y -> x = y) by (intros x y Hxy; by injection Hxy).
  destruct (decide (v = one_key b (kname k))) as [->|Hne]; rewrite Hf.
  - split.
    + intros (x & Hx & Hsx & Hv) (y & Hy & Hsy & Hv'). apply Hone in Hv. apply Hone in Hv'.
      apply list_elem_of_lookup in Hx as [j Hj]. apply list_elem_of_lookup in Hy as [j' Hj'].
      rewrite (Hu j' y Hj' (eq_sym Hv')) in Hj'. rewrite Hk in Hj'. injection Hj' as <-.
      assert (j = ki) as ->.
      { destruct (decide (j = ki)) as [|Hjne]; [done|]. rewrite list_lookup_alter_ne in Hj by done. by apply (Hu j x). }
      rewrite list_lookup_alter_eq, Hk in Hj. cbn in Hj. injection Hj as <-. cbn in Hsx. by rewrite Hsy in Hsx.
    + intros Hn. exists (mkTKey (kname k) (negb (ksel k))). split; [|split; [|done]].
      * apply list_elem_of_lookup. exists ki. by rewrite list_lookup_alter_eq, Hk.
      * cbn. destruct (ksel k) eqn:Hsk; [|done]. exfalso. apply Hn. exists k. split; [by eapply list_elem_of_lookup_2|done].
  - split; intros (x & Hx & Hsx & ->); exists x; (split; [|done]).
    + apply list_elem_of_lookup in Hx as [j Hj]. apply list_elem_of_lookup. exists j.
      destruct (decide (j = ki)) as [->|Hjne]; [|by rewrite list_lookup_alter_ne in Hj].
      rewrite list_lookup_alter_eq, Hk in Hj. cbn in Hj. injection Hj as <-. done.
    + apply list_elem_of_lookup in Hx as [j Hj]. apply list_elem_of_lookup. exists j.
      rewrite list_lookup_alter_ne; [done|]. intros ->. rewrite Hk in Hj. injection Hj as <-. done.
Qed.

(** The bag at a toggled row, and what replaces it. *)
Lemma toggle_spec t r t' :
  toggle t r = Some t' ->
  exists b b', t !! bagIdx r = Some b /\ t' = <[bagIdx r := b']> t /\ same_rows b b'
    /\ match keyIdx r with
       | None => b' = toggle_bag b
       | Some ki => bagSel b = false /\ b' = toggle_key ki b /\ exists k, keys b !! ki = Some k
       end.
Proof.
  unfold toggle. destruct (t !! bagIdx r) as [b|] eqn:Hb; [|done]. destruct (keyIdx r) as [ki|].
  - destruct (bagSel b) eqn:Hs; [done|]. destruct (loading b); [done|]. cbn [orb].
    destruct (length (keys b) <=? ki)%nat eqn:Hl; [done|]. apply Nat.leb_gt in Hl. intros [= <-].
    exists b, (toggle_key ki b). split; [done|]. split; [done|]. split; [apply toggle_key_rows|].
    split; [done|]. split; [done|]. by apply lookup_lt_is_Some.
  - intros [= <-]. exists b, (toggle_bag b). split; [done|]. split; [done|]. by split; [apply toggle_bag_rows|].
Qed.

Lemma insert_same_rows (t : list treeBag) i b b' (f : treeBag -> string * string) :
  t !! i = Some b -> f b' = f b -> f <$> <[i := b']> t = f <$> t.
Proof.
  intros Hb Hf. apply list_eq. intros j. rewrite !list_lookup_fmap.
  destruct (decide (i = j)) as [->|Hne]; [|by rewrite list_lookup_insert_ne].
  rewrite list_lookup_insert_eq by (by eapply lookup_lt_Some). rewrite Hb. cbn. by rewrite Hf.
Qed.

Lemma elem_of_insert_bag (t : list treeBag) i b b' x :
  t !! i = Some b -> NoDup (bag_id <$> t) -> bag_id b' = bag_id b ->
  x ∈ <[i := b']> t <-> x = b' \/ (x ∈ t /\ bag_id x <> bag_id b).
Proof.
  intros Hb Hnd Hid. split.
  - intros Hx. apply list_elem_of_lookup in Hx as [j Hj]. destruct (decide (i = j)) as [->|Hne].
    + rewrite list_lookup_insert_eq in Hj by (by eapply lookup_lt_Some). left. by injection Hj.
    + rewrite list_lookup_insert_ne in Hj by done. right. split; [by eapply list_elem_of_lookup_2|]. intros He.
      apply Hne. eapply (NoDup_lookup (bag_id <$> t)); [done|..]; rewrite list_lookup_fmap, ?Hb, ?Hj; cbn; by rewrite ?He.
  - intros [->|[Hx Hne]].
    + apply list_elem_of_lookup. exists i. apply list_lookup_insert_eq. by eapply lookup_lt_Some.
    + apply list_elem_of_lookup in Hx as [j Hj]. apply list_elem_of_lookup. exists j. rewrite list_lookup_insert_ne; [done|].
      intros ->. rewrite Hb in Hj. by injection Hj as ->.
Qed.

Lemma covered_insert (t : list treeBag) i b b' v :
  t !! i = Some b -> bag_id b' = bag_id b -> covered (<[i := b']> t) v = covered t v.
Proof.
  intros Hb Hid. assert (Hn : fst ∘ bag_id <$> <[i := b']> t = fst ∘ bag_id <$> t).
  { rewrite !list_fmap_compose. f_equal. by apply insert_same_rows with (b := b). }
  unfold covered. revert Hn. generalize (<[i := b']> t). clear. intros t'. revert t.
  induction t' as [|x t' IH]; intros [|y t]; try done. cbn. intros Hn. injection Hn as Hx Hn. rewrite Hx. f_equal. by apply IH.
Qed.

Lemma toggle_wf t r t' : tree_wf t -> toggle t r = Some t' -> tree_wf t'.
Proof.
  intros Hwf (b & b' & Hb & -> & [Hid Hn] & Hk)%toggle_spec. pose proof (list_elem_of_lookup_2 _ _ _ Hb) as Hin.
  destruct (wf_keys t Hwf b Hin) as [Hnd Hne].
  assert (Hel : forall x, x ∈ <[bagIdx r := b']> t -> x = b' \/ x ∈ t).
  { intros x Hx. apply (elem_of_insert_bag t _ b) in Hx as [|[? _]]; auto. apply (wf_ids t Hwf). }
  assert (Hnames : forall k, k ∈ keys b' -> exists k0, k0 ∈ keys b /\ kname k0 = kname k).
  { intros k Hk'. assert (Hi : kname k ∈ kname <$> keys b) by (rewrite <- Hn; by apply list_elem_of_fmap_2).
    apply list_elem_of_fmap in Hi as (k0 & ? & ?). eauto. }
  split.
  - rewrite (insert_same_rows t _ b b' bag_id) by done. apply (wf_ids t Hwf).
  - intros x [->|Hx]%Hel; [|by apply (wf_keys t Hwf)]. rewrite Hn. split; [done|].
    intros k (k0 & Hk0 & <-)%Hnames. by apply Hne.
  - intros x k [->|Hx]%Hel; [|by apply (wf_whole t Hwf)]. destruct (keyIdx r) as [ki|].
    + destruct Hk as (Hs & -> & _). cbn. by rewrite Hs.
    + subst b'. unfold toggle_bag. cbn. destruct (bagSel b); [done|]. cbn. intros _ (k0 & -> & _)%list_elem_of_fmap. done.
Qed.

(** The mapping after a toggle of the row [r], when the boxes showed the mapping before:
    ticking or unticking a key puts in or takes out the var of that key, unticking a bag
    takes out the whole-bag var, ticking it replaces whatever vars there were of the bag. *)
Definition toggled (t : list treeBag) (r : treeRow) (vars vars' : list VarRef) : Prop :=
  exists b, t !! bagIdx r = Some b /\ forall v, v ∈ vars' <->
    match keyIdx r with
    | Some ki => exists k, keys b !! ki = Some k /\ if decide (v = one_key b (kname k)) then v ∉ vars else v ∈ vars
    | None => if bagSel b then v ∈ vars /\ v <> whole b
              else v = whole b \/ (v ∈ vars /\ (Source v, Ref v) <> bag_id b)
    end.

Lemma toggle_commit t r t' vars :
  tree_wf t -> in_step t vars -> toggle t r = Some t' -> toggled t r vars (commit t' vars).
Proof.
  intros Hwf Hst (b & b' & Hb & -> & [Hid Hn] & Hk)%toggle_spec. pose proof (list_elem_of_lookup_2 _ _ _ Hb) as Hin.
  exists b. split; [done|]. intros v. rewrite elem_of_commit, (covered_insert t _ b b' v) by done.
  assert (Hb' : (exists x, x ∈ <[bagIdx r := b']> t /\ v ∈ fresh_of x)
    <-> v ∈ fresh_of b' \/ (covered t v = true /\ v ∈ vars /\ (Source v, Ref v) <> bag_id b)).
  { setoid_rewrite (elem_of_insert_bag t _ b); [|done|apply (wf_ids t Hwf)|done]. split.
    - intros (x & [->|[Hx Hne]] & Hv); [by left|right]. pose proof (fresh_covered t x v Hx Hv) as Hc.
      split; [done|]. split; [apply Hst; eauto|]. by rewrite (fresh_id x v Hv).
    - intros [Hv|(Hc & Hv & Hne)]; [eauto|]. apply (Hst v Hc) in Hv as (x & Hx & Hv). exists x. split; [right|done].
      split; [done|]. by rewrite <- (fresh_id x v Hv). }
  rewrite Hb'. clear Hb'.
  assert (Hcb : forall w, (Source w, Ref w) = bag_id b -> covered t w = true).
  { intros w Hw. apply covered_spec. exists b. split; [done|]. by injection Hw. }
  assert (Hfb : forall w, (Source w, Ref w) = bag_id b -> (w ∈ vars <-> w ∈ fresh_of b)).
  { intros w Hw. rewrite (Hst w (Hcb w Hw)). split; [|eauto]. intros (x & Hx & Hv).
    assert (x = b) as ->; [|done]. apply list_elem_of_lookup in Hx as [j Hj]. apply (inj Some). rewrite <- Hj, <- Hb. f_equal.
    eapply (NoDup_lookup (bag_id <$> t)); [apply (wf_ids t Hwf)|..]; rewrite list_lookup_fmap, ?Hb, ?Hj; cbn; [done|].
    by rewrite <- (fresh_id x w Hv), Hw. }
  assert (Hsplit : forall P : Prop, (~ P <-> (Source v, Ref v) <> bag_id b) ->
    (covered t v = false /\ v ∈ vars) \/ (covered t v = true /\ v ∈ vars /\ ~ P) <-> v ∈ vars /\ ~ P).
  { intros P HP. destruct (covered t v) eqn:Hc; [naive_solver|]. split; [|naive_solver]. intros [[_ Hv]|[? _]]; [|done].
    split; [done|]. apply HP. intros He. by rewrite (Hcb v He) in Hc. }
  assert (Hrest : (covered t v = false /\ v ∈ vars) \/ v ∈ fresh_of b' \/ (covered t v = true /\ v ∈ vars /\ (Source v, Ref v) <> bag_id b)
    <-> v ∈ fresh_of b' \/ (v ∈ vars /\ (Source v, Ref v) <> bag_id b)).
  { pose proof (Hsplit ((Source v, Ref v) = bag_id b) (iff_refl _)). tauto. }
  rewrite Hrest. clear Hsplit Hrest. destruct (keyIdx r) as [ki|].
  - destruct Hk as (Hs & -> & k & Hki). rewrite (toggle_key_fresh ki k) by (done || by apply (wf_keys t Hwf)). split.
    + intros Hv. exists k. split; [done|]. destruct (decide (v = one_key b (kname k))) as [->|Hne].
      * rewrite (Hfb (one_key b (kname k)) eq_refl). destruct Hv as [?|[_ ?]]; done.
      * destruct Hv as [Hv|[? _]]; [|done]. apply Hst; [by eapply fresh_covered|eauto].
    + intros (k' & Hk' & Hv). rewrite Hki in Hk'. injection Hk' as <-. destruct (decide (v = one_key b (kname k))) as [->|Hne].
      * left. by rewrite <- (Hfb (one_key b (kname k)) eq_refl).
      * destruct (decide ((Source v, Ref v) = bag_id b)) as [He|He]; [left; by apply Hfb|by right].
  - subst b'. rewrite toggle_bag_fresh by (intros k Hk Hs; by apply (wf_whole t Hwf b)).
    destruct (bagSel b) eqn:Hs; [|tauto]. split.
    + intros [[]|[Hv Hne]]. split; [done|]. intros ->. by apply Hne.
    + intros [Hv Hne]. right. split; [done|]. intros He. apply (Hfb v He), elem_of_fresh in Hv. by rewrite Hs in Hv.
Qed.

(** ** Opening the tree *)

Lemma lookup_key_inj s r s' r' :
  contains_byte s "|" = false -> contains_byte s' "|" = false -> lookup_key s r = lookup_key s' r' -> s = s' /\ r = r'.
Proof.
  unfold lookup_key. revert s'. induction s as [|a s IH]; intros [|a' s'] Hs Hs' He.
  - change (String "|" r = String "|" r') in He. by injection He.
  - exfalso. change (String "|" r = String a' (s' +:+ "|" +:+ r')) in He. injection He as Ha _. subst a'. discriminate Hs'.
  - exfalso. change (String a (s +:+ "|" +:+ r) = String "|" r') in He. injection He as Ha _. subst a. discriminate Hs.
  - change (String a (s +:+ "|" +:+ r) = String a' (s' +:+ "|" +:+ r')) in He. injection He as Ha He. subst a'.
    apply orb_false_iff in Hs as [_ Hs]. apply orb_false_iff in Hs' as [_ Hs'].
    destruct (IH s' Hs Hs' He) as [-> ->]. done.
Qed.

Section Open.
Context `{MapRange}.

(** A configuration whose rows can be told apart. *)
Record distinct_rows (c : Config) : Prop := {
  dr_keys : forall bn bag, Secrets c !! bn = Some bag -> bag !! EmptyString = None;
  dr_arns : forall n, NoDup (TuiSources.readARNs c n);
  dr_names : forall n sc, Sources c !! n = Some sc -> contains_byte n "|" = false
}.

(** The vars that boxes can show: no source with a bar in its name, and every var of a
    source of the tree is a whole bag of it, or, where the whole bag is not asked for, a key
    under its own name and without more. *)
Definition representable (t : list treeBag) (vars : list VarRef) : Prop :=
  forall v, v ∈ vars -> contains_byte (Source v) "|" = false
    /\ (covered t v = true -> exists b, b ∈ t /\ (v = whole b \/ (whole b ∉ vars /\ exists k, k ∈ keys b /\ v = one_key b (kname k)))).

Lemma sort_strings_perm l : sort_strings l ≡ₚ l.
Proof. apply merge_sort_Permutation. Qed.

Lemma elem_of_sorted_range {V} site (m : gmap string V) k : k ∈ sort_strings (map_range site m).*1 <-> is_Some (m !! k).
Proof.
  rewrite sort_strings_perm. rewrite list_elem_of_fmap. split.
  - intros ([k' v] & -> & Hin). apply elem_of_map_range in Hin. by eexists.
  - intros [v Hv]. exists (k, v). split; [done|]. by apply elem_of_map_range.
Qed.

Lemma NoDup_sorted_range {V} site (m : gmap string V) : NoDup (sort_strings (map_range site m).*1).
Proof. rewrite sort_strings_perm. apply NoDup_map_range_fst. Qed.

Lemma defaultLocal_local c : defaultLocalSourceName c <> "" ->
  exists sc, Sources c !! defaultLocalSourceName c = Some sc /\ Type_ sc = "local".
Proof.
  unfold defaultLocalSourceName. destruct (List.find _ _) as [[n sc]|] eqn:Hf; [|done]. intros _.
  apply find_some in Hf as [Hin Ht]. apply list_elem_of_In, elem_of_map_range in Hin. exists sc. split; [done|].
  by apply String.eqb_eq.
Qed.

(** A row of the opened tree. *)
Lemma load_bag c vars b :
  b ∈ loadFromMapping c vars ->
  exists sc, Sources c !! sourceName b = Some sc
    /\ bagSel b = bagAll vars (lookup_key (sourceName b) (refID b))
    /\ (forall k, k ∈ keys b -> ksel k = keySel vars (lookup_key (sourceName b) (refID b)) (kname k))
    /\ (if String.eqb (Type_ sc) "local"
        then refID b ∈ bagNames c /\ sourceName b = defaultLocalSourceName c /\ kname <$> keys b = sortedBagKeys c (refID b)
        else keys b = []).
Proof.
  unfold loadFromMapping. rewrite elem_of_app. intros [Hb|Hb].
  - destruct (str_empty (defaultLocalSourceName c)) eqn:He; [by apply not_elem_of_nil in Hb|].
    apply list_elem_of_fmap in Hb as (bn & -> & Hbn). destruct (defaultLocal_local c) as (sc & Hsc & Ht); [intros Hx; by rewrite Hx in He|].
    exists sc. unfold local_bag. cbn. split; [done|]. split; [done|]. split; [|rewrite Ht; cbn; split; [done|]; split; [done|]].
    + intros k (x & -> & _)%list_elem_of_fmap. done.
    + rewrite <- list_fmap_compose. rewrite <- (list_fmap_id (sortedBagKeys c bn)) at 2. by apply list_fmap_ext.
  - apply list_elem_of_join in Hb as (l & Hb & Hl). apply list_elem_of_fmap in Hl as (n & -> & Hn). unfold remote_bags in Hb.
    destruct (Sources c !! n) as [sc|] eqn:Hsc; [|by apply not_elem_of_nil in Hb].
    destruct (String.eqb (Type_ sc) "local") eqn:Ht; [by apply not_elem_of_nil in Hb|].
    apply list_elem_of_fmap in Hb as (id & -> & Hid). exists sc. cbn. split; [done|]. split; [done|]. rewrite Ht.
    split; [|done]. intros k Hk. by apply not_elem_of_nil in Hk.
Qed.

Lemma load_ids c vars : distinct_rows c -> NoDup (bag_id <$> loadFromMapping c vars).
Proof.
  intros Hc. unfold loadFromMapping. rewrite fmap_app. apply NoDup_app. split; [|split].
  - destruct (str_empty _); [constructor|]. rewrite <- list_fmap_compose. apply (NoDup_fmap_2_strong _); [|apply NoDup_sorted_range].
    intros x y _ _ Hxy. by injection Hxy.
  - intros x Hx Hy. destruct (str_empty (defaultLocalSourceName c)) eqn:He; [by apply not_elem_of_nil in Hx|].
    apply list_elem_of_fmap in Hx as (b & -> & Hb). apply list_elem_of_fmap in Hb as (bn & -> & _).
    apply list_elem_of_fmap in Hy as (b & Hid & Hb). apply list_elem_of_join in Hb as (l & Hb & Hl).
    apply list_elem_of_fmap in Hl as (n & -> & _). unfold remote_bags in Hb.
    destruct (Sources c !! n) as [sc|] eqn:Hsc; [|by apply not_elem_of_nil in Hb].
    destruct (String.eqb (Type_ sc) "local") eqn:Ht; [by apply not_elem_of_nil in Hb|].
    apply list_elem_of_fmap in Hb as (id & -> & _). injection Hid as Hn _.
    destruct (defaultLocal_local c) as (sc' & Hsc' & Ht'); [intros Hx; by rewrite Hx in He|].
    rewrite Hn, Hsc in Hsc'. injection Hsc' as ->. by rewrite Ht' in Ht.
  - assert (Hnd : NoDup (sortedSourceNames c)) by apply NoDup_sorted_range. induction Hnd as [|n l Hn Hnd IH]; [constructor|].
    cbn. rewrite fmap_app. apply NoDup_app. split; [|split; [|exact IH]].
    + unfold remote_bags. destruct (Sources c !! n) as [sc|]; [|constructor]. destruct (String.eqb _ _); [constructor|].
      rewrite <- list_fmap_compose. apply (NoDup_fmap_2_strong _); [intros x y _ _ Hxy; by injection Hxy|].
      unfold remoteRefIDs. destruct (String.eqb _ _); [apply (dr_arns c Hc)|constructor].
    + intros x Hx Hy.
      assert (Hs : forall m, x ∈ bag_id <$> remote_bags c vars m -> x.1 = m).
      { intros m (b & -> & Hb)%list_elem_of_fmap. unfold remote_bags in Hb. destruct (Sources c !! m); [|by apply not_elem_of_nil in Hb].
        destruct (String.eqb _ _); [by apply not_elem_of_nil in Hb|]. by apply list_elem_of_fmap in Hb as (id & -> & _). }
      apply list_elem_of_fmap in Hy as (b & Hbx & Hb). apply list_elem_of_join in Hb as (l' & Hb & Hl').
      apply list_elem_of_fmap in Hl' as (m & -> & Hm).
      apply Hn. rewrite <- (Hs n Hx), (Hs m); [done|]. rewrite Hbx. by apply list_elem_of_fmap_2.
Qed.

Lemma bagAll_spec vars k : bagAll vars k = true <-> exists v, v ∈ vars /\ var_key v = k /\ Key v = "" /\ Name v = "".
Proof.
  unfold bagAll. rewrite existsb_exists. setoid_rewrite <- list_elem_of_In. setoid_rewrite andb_true_iff.
  setoid_rewrite andb_true_iff. setoid_rewrite String.eqb_eq. setoid_rewrite str_empty_spec. naive_solver.
Qed.

Lemma keySel_spec vars k key : keySel vars k key = true <-> exists v, v ∈ vars /\ var_key v = k /\ Key v <> "" /\ Key v = key.
Proof.
  unfold keySel. rewrite existsb_exists. setoid_rewrite <- list_elem_of_In. setoid_rewrite andb_true_iff.
  setoid_rewrite andb_true_iff. setoid_rewrite String.eqb_eq. setoid_rewrite negb_true_iff. setoid_rewrite str_empty_false. naive_solver.
Qed.

Section Loaded.
Context (c : Config) (vars : list VarRef) (Hc : distinct_rows c) (Hr : representable (loadFromMapping c vars) vars).

Lemma row_key_ne b k : b ∈ loadFromMapping c vars -> k ∈ keys b -> kname k <> "".
Proof.
  intros Hb Hk He. apply load_bag in Hb as (sc & _ & _ & _ & Hkeys). destruct (String.eqb (Type_ sc) "local").
  - destruct Hkeys as (_ & _ & Hn). assert (Hin : kname k ∈ sortedBagKeys c (refID b)) by (rewrite <- Hn; by apply list_elem_of_fmap_2).
    apply elem_of_sorted_range in Hin as [v Hv]. rewrite He in Hv. destruct (Secrets c !! refID b) as [bag|] eqn:Hbag.
    + cbn in Hv. by rewrite (dr_keys c Hc _ _ Hbag) in Hv.
    + cbn in Hv. by rewrite lookup_empty in Hv.
  - rewrite Hkeys in Hk. by apply not_elem_of_nil in Hk.
Qed.

(** A var found under the key of a row is the row's. *)
Lemma row_var b v :
  b ∈ loadFromMapping c vars -> v ∈ vars -> var_key v = lookup_key (sourceName b) (refID b) ->
  v = whole b \/ (whole b ∉ vars /\ exists k, v = one_key b k /\ k <> "").
Proof.
  intros Hb Hv Hk. destruct (Hr v Hv) as [Hbar Hcov]. pose proof Hb as Hb0. apply load_bag in Hb0 as (sc & Hsc & _).
  destruct (lookup_key_inj _ _ _ _ Hbar (dr_names c Hc _ _ Hsc) Hk) as [Hs Hf].
  destruct Hcov as (b' & Hb' & Hv'); [apply covered_spec; eauto|].
  assert (Hid : bag_id b' = bag_id b) by (unfold bag_id; destruct Hv' as [->|(_ & k & _ & ->)]; cbn in Hs, Hf; by rewrite Hs, Hf).
  unfold bag_id in Hid. injection Hid as Hid1 Hid2. destruct Hv' as [->|(Hw & k & Hkk & ->)].
  - left. unfold whole. by rewrite Hid1, Hid2.
  - right. split; [unfold whole in *; by rewrite Hid1, Hid2 in Hw|]. exists (kname k). unfold one_key. rewrite Hid1, Hid2.
    split; [done|]. by apply (row_key_ne b').
Qed.

Lemma row_bagSel b : b ∈ loadFromMapping c vars -> bagSel b = true <-> whole b ∈ vars.
Proof.
  intros Hb. pose proof Hb as Hb0. apply load_bag in Hb0 as (sc & _ & -> & _). rewrite bagAll_spec. split.
  - intros (v & Hv & Hk & Hkey & _). destruct (row_var b v Hb Hv Hk) as [->|(_ & k & -> & Hne)]; done.
  - intros Hw. exists (whole b). done.
Qed.

Lemma row_ksel b k : b ∈ loadFromMapping c vars -> k ∈ keys b -> ksel k = true <-> one_key b (kname k) ∈ vars.
Proof.
  intros Hb Hk. pose proof Hb as Hb0. apply load_bag in Hb0 as (sc & _ & _ & Hks & _). rewrite (Hks k Hk), keySel_spec. split.
  - intros (v & Hv & Hvk & Hne & Hkey). destruct (row_var b v Hb Hv Hvk) as [->|(_ & k' & -> & _)]; [done|]. cbn in Hkey. by subst k'.
  - intros Hv. exists (one_key b (kname k)). split; [done|]. split; [done|]. split; [by apply (row_key_ne b)|done].
Qed.

Lemma row_excl b k : b ∈ loadFromMapping c vars -> k ∈ keys b -> bagSel b = true -> ksel k = false.
Proof.
  intros Hb Hk Hs. apply not_true_is_false. intros Hsel. apply (row_bagSel b Hb) in Hs. apply (row_ksel b k Hb Hk) in Hsel.
  destruct (row_var b _ Hb Hsel eq_refl) as [Hx|[Hx _]]; [|done]. injection Hx as Hx _. by apply (row_key_ne b k Hb Hk).
Qed.

Lemma load_wf : tree_wf (loadFromMapping c vars).
Proof.
  split; [by apply load_ids| |intros b k Hb Hs Hk; by apply (row_excl b)].
  intros b Hb. split; [|by intros k; apply row_key_ne]. apply load_bag in Hb as (sc & _ & _ & _ & Hkeys).
  destruct (String.eqb _ _); [destruct Hkeys as (_ & _ & ->); apply NoDup_sorted_range|rewrite Hkeys; constructor].
Qed.

Lemma load_in_step : in_step (loadFromMapping c vars) vars.
Proof.
  intros v Hcov. split.
  - intros Hv. destruct (Hr v Hv) as [_ Hx]. destruct (Hx Hcov) as (b & Hb & Hd). exists b. split; [done|]. rewrite elem_of_fresh.
    destruct Hd as [->|(Hw & k & Hk & ->)].
    + by rewrite (proj2 (row_bagSel b Hb) Hv).
    + destruct (bagSel b) eqn:Hs; [by apply (row_bagSel b Hb) in Hs|]. exists k. split; [done|]. split; [|done]. by apply (row_ksel b k Hb Hk).
  - intros (b & Hb & Hf). apply elem_of_fresh in Hf. destruct (bagSel b) eqn:Hs; [subst v; by apply (row_bagSel b Hb)|].
    destruct Hf as (k & Hk & Hsel & ->). by apply (row_ksel b k Hb Hk).
Qed.
End Loaded.

(** The tree and the mapping's vars after some toggles. *)
Inductive edited (c : Config) (vars0 : list VarRef) : list treeBag -> list VarRef -> Prop :=
| edited_open : edited c vars0 (loadFromMapping c vars0) vars0
| edited_toggle t vars r t' : edited c vars0 t vars -> toggle t r = Some t' -> edited c vars0 t' (commit t' vars).

Lemma toggle_covered t r t' : toggle t r = Some t' -> forall v, covered t' v = covered t v.
Proof. intros (b & b' & Hb & -> & [Hid _] & _)%toggle_spec v. by apply covered_insert with (b := b). Qed.

(** C23.  What the boxes show is what the mapping asks for.  Open the tree on a mapping whose
    vars boxes can show, and toggle any rows: at every moment the mapping has exactly the
    ticked vars among those of the tree's sources and, untouched and in order, every var of
    the other sources; and the next toggle of a key puts in or takes out the var of that key
    alone, that of a bag its whole-bag var in place of whatever vars of that bag there were. *)
Theorem boxes_are_the_mapping c vars0 t vars :
  distinct_rows c -> representable (loadFromMapping c vars0) vars0 -> edited c vars0 t vars ->
  in_step t vars
  /\ List.filter (fun v => negb (covered t v)) vars = List.filter (fun v => negb (covered t v)) vars0
  /\ forall r t', toggle t r = Some t' -> toggled t r vars (commit t' vars).
Proof.
  intros Hc Hr He. assert (Hinv : tree_wf t /\ in_step t vars
    /\ List.filter (fun v => negb (covered t v)) vars = List.filter (fun v => negb (covered t v)) vars0).
  { induction He as [|t vars r t' He (Hwf & Hst & Hf) Ht].
    - split; [by apply load_wf|]. split; [by apply load_in_step|done].
    - split; [by eapply toggle_wf|]. split; [apply commit_in_step|]. rewrite commit_rest.
      assert (Hcov : forall l, List.filter (fun v => negb (covered t' v)) l = List.filter (fun v => negb (covered t v)) l).
      { intros l. apply List.filter_ext. intros v. by rewrite (toggle_covered _ _ _ Ht). }
      by rewrite !Hcov. }
  destruct Hinv as (Hwf & Hst & Hf). split; [done|]. split; [done|]. intros r t' Ht. by eapply toggle_commit.
Qed.
End Open.

(** ** Trees of a small configuration *)

#[local] Existing Instance map_range_default.

Definition ex_arn : string := "arn:aws:secretsmanager:eu-west-1:1:secret:db".
Definition ex_config (srcs : gmap string SourceConfig) : Config :=
  mkConfig Version (mkMeta "" 0 0 0 "" "" "" "") (mkAgentConfig "" "" None None) srcs [] {["app" := {["A" := "1"; "B" := "2"]}]} None.
Definition ex_plain : Config := ex_config {["local" := mkSource "local" ∅; "v" := mkSource "vault" ∅]}.
Definition ex_aws : Config := ex_config {["local" := mkSource "local" ∅; "aws" := mkSource "aws" {["arns" := AList [AStr ex_arn]]}]}.

Definition from_vault : VarRef := mkVar "TOKEN" "v" "kv/app" "t" ∅ "".
Definition local_key (name key : string) : VarRef := mkVar name "local" "app" key ∅ "".
Definition ex_vars : list VarRef := [local_key "A" "A"; from_vault].
Definition ex_tree : list treeBag := loadFromMapping ex_plain ex_vars.
Definition ex_toggled (c : Config) (vars : list VarRef) (r : treeRow) : list treeBag :=
  default [] (toggle (loadFromMapping c vars) r).

Lemma ex_distinct : distinct_rows ex_plain.
Proof.
  assert (Hs : forall n sc, Sources ex_plain !! n = Some sc -> contains_byte n "|" = false /\ Params sc = ∅).
  { intros n sc Hn. unfold ex_plain, ex_config in Hn. cbn [Sources] in Hn.
    apply lookup_insert_Some in Hn as [[<- <-]|[_ Hn]]; [done|].
    apply lookup_singleton_Some in Hn as [<- <-]. done. }
  split.
  - intros bn bag Hb. unfold ex_plain, ex_config in Hb. cbn [Secrets] in Hb.
    apply lookup_singleton_Some in Hb as [_ <-]. vm_compute. reflexivity.
  - intros n. unfold TuiSources.readARNs. destruct (Sources ex_plain !! n) as [sc|] eqn:Hn; [|constructor].
    apply Hs in Hn as [_ Hp]. rewrite Hp, lookup_empty. constructor.
  - intros n sc Hn. exact (proj1 (Hs n sc Hn)).
Qed.

Lemma ex_tree_eq : ex_tree = [mkTBag "local" "local" "app" "app" false [mkTKey "A" true; mkTKey "B" false] false ""].
Proof. vm_compute. reflexivity. Qed.

Lemma ex_representable : representable ex_tree ex_vars.
Proof.
  rewrite ex_tree_eq. intros v Hv. apply elem_of_cons in Hv as [->|Hv].
  - split; [vm_compute; reflexivity|]. intros _. eexists. split; [apply list_elem_of_here|]. right. split.
    + intros Hw. apply elem_of_cons in Hw as [Hw|Hw]; [discriminate Hw|]. apply list_elem_of_singleton in Hw. discriminate Hw.
    + exists (mkTKey "A" true). split; [apply list_elem_of_here|reflexivity].
  - apply list_elem_of_singleton in Hv as ->. split; [vm_compute; reflexivity|]. intros Hc. vm_compute in Hc. discriminate Hc.
Qed.

(** Ticking B: its var comes in, A's and the one from Vault stay. *)
Lemma boxes_are_the_mapping_witness :
  let vars := commit (ex_toggled ex_plain ex_vars (mkRow 0 (Some 1%nat))) ex_vars in
  vars = [from_vault; local_key "A" "A"; local_key "B" "B"] /\ in_step (ex_toggled ex_plain ex_vars (mkRow 0 (Some 1%nat))) vars.
Proof.
  cbn zeta. split; [vm_compute; reflexivity|].
  apply (boxes_are_the_mapping ex_plain ex_vars).
  - exact ex_distinct.
  - exact ex_representable.
  - apply (edited_toggle _ _ ex_tree _ (mkRow 0 (Some 1%nat))); [apply edited_open|]. vm_compute. reflexivity.
Defined.

(** ** Vars that boxes cannot show *)

(** A key under another name loses that name as soon as any box of the source's bags is
    toggled, and a literal part or extra parameters would go the same way. *)
Example toggle_renames :
  commit (ex_toggled ex_plain [local_key "DATABASE_URL" "A"] (mkRow 0 (Some 1%nat))) [local_key "DATABASE_URL" "A"]
  = [local_key "A" "A"; local_key "B" "B"].
Proof. vm_compute. reflexivity. Qed.

(** The keys of a remote bag come later.  A local box toggled before that takes every
    single-key var of the remote source out of the mapping, and the answer that arrives
    afterwards, which asks the mapping what was selected, does not bring it back. *)
Definition remote_var : VarRef := mkVar "PASSWORD" "aws" ex_arn "PASSWORD" ∅ "".
Definition ex_answer : list sourceBagsResult := [mkResult "aws" [Aws.mkBag ex_arn "db" ["PASSWORD"]] ""].

Example toggle_before_load_loses :
  let vars := [remote_var; local_key "A" "A"] in
  let t := ex_toggled ex_aws vars (mkRow 0 (Some 1%nat)) in
  commit t vars = [local_key "A" "A"; local_key "B" "B"]
  /\ mjoin (fresh_of <$> applyAsyncResults (commit t vars) ex_answer t) = [local_key "A" "A"; local_key "B" "B"]
  /\ mjoin (fresh_of <$> applyAsyncResults vars ex_answer (loadFromMapping ex_aws vars)) = [local_key "A" "A"; remote_var].
Proof. vm_compute. auto. Qed.
End TuiTree.
