(* ===== verification/TuiStack.v ===== *)
(** * The stack of screens and its messages (src/internal/tui/model.go, confirm.go, popup_menu.go)

    What the families of screens share: the configuration they edit, the unsaved mark, the
    stack with the top first, and the messages of a sequence, which the root delivers in
    order.  A family brings its screens and what each does when it hears of a change. *)

From S2P Require Import Prelude GoString ConfigModel TuiRefs TuiWidgets.
Import Config TuiRefs TuiWidgets.

Module TuiStack.

Record state {screen text : Type} := mkState { cfg : Config; dirty : bool; stack : list screen; status : text }.
Arguments state : clear implicits.
Arguments mkState {screen text} _ _ _ _.

(** The messages of a sequence; [change] are those that only the top screen understands. *)
Inductive effect {screen text change : Type} :=
| EPop
| EPush (s : screen)
| EDirty
| EChanged (c : change)
| EStatus (s : text)
| EError (s : text).
Arguments effect : clear implicits.

(** The keys that the root takes for itself. *)
Definition root_key (k : string) : bool := String.eqb k "ctrl+c" || String.eqb k "ctrl+s".

Section Stack.
Context {screen text change : Type} (hear : Config -> change -> screen -> screen).
Notation st_t := (state screen text).

Definition with_top (st : st_t) (s : screen) : st_t :=
  mkState (cfg st) (dirty st) (match stack st with [] => [] | _ :: rest => s :: rest end) (status st).
Definition with_cfg (st : st_t) (c : Config) : st_t := mkState c (dirty st) (stack st) (status st).

Definition exec1 (st : st_t) (e : effect screen text change) : st_t :=
  match e with
  | EPop => mkState (cfg st) (dirty st) (tail (stack st)) (status st)
  | EPush s => mkState (cfg st) (dirty st) (s :: stack st) (status st)
  | EDirty => mkState (cfg st) true (stack st) (status st)
  | EChanged c => match stack st with [] => st | s :: _ => with_top st (hear (cfg st) c s) end
  | EStatus s | EError s => mkState (cfg st) (dirty st) (stack st) s
  end.

Definition exec (es : list (effect screen text change)) (st : st_t) : st_t := fold_left exec1 es st.

(** A popup, a prompt with [n] answers and an input on top of the stack: what a key does. *)
Definition popup (st : st_t) (choices : list string) (cursor : nat) (k : string) (keep : nat -> screen) (choose : string -> st_t) : st_t :=
  match popup_update choices cursor k with
  | (_, Close) => exec [EPop] st
  | (_, Chosen choice) => choose choice
  | (cur, _) => with_top st (keep cur)
  end.

Definition prompt (st : st_t) (n cursor : nat) (k : string) (keep : nat -> screen) (choose : nat -> st_t) : st_t :=
  match prompt_key n cursor k with
  | (_, Close) => exec [EPop] st
  | (cur, Entered) => choose cur
  | (cur, _) => with_top st (keep cur)
  end.

Definition input (typed : string -> string -> string) (plain : string -> text) (picker : option screen)
    (st : st_t) (i : inputScreen) (k : string) (keep : inputScreen -> screen) (commit : string -> st_t) : st_t :=
  match input_update typed i k with
  | (_, Close) => exec [EPop] st
  | (_, Committed v) => commit v
  | (i', BrowseFrom _) =>
      match picker with Some p => exec [EPush p] (with_top st (keep i')) | None => with_top st (keep i') end
  | (i', Refused msg) => exec [EError (plain msg)] (with_top st (keep i'))
  | (i', _) => with_top st (keep i')
  end.

(** A save that succeeded: the dictionary it wrote, and no unsaved mark (savedMsg). *)
Definition saved (st : st_t) (nm : option NameMap) (msg : text) : st_t :=
  mkState (with_idmap (cfg st) nm) false (stack st) msg.

Lemma exec_pops n (st : st_t) es :
  exec (replicate n EPop ++ es) st = exec es (mkState (cfg st) (dirty st) (drop n (stack st)) (status st)).
Proof.
  revert st. induction n as [|n IH]; intros st; [by destruct st|].
  change (exec (replicate (S n) EPop ++ es) st) with (exec (replicate n EPop ++ es) (exec1 st EPop)).
  rewrite IH. destruct st as [? ? [|? ?] ?]; [|done]. cbn [exec1 cfg dirty stack status tail]. by rewrite !drop_nil.
Qed.
End Stack.
End TuiStack.
