(* ===== verification/TuiMappings.v ===== *)
(** * Editing mappings (src/internal/tui/mappings_screen.go, commands_list_screen.go,
    discover_commands_screen.go, cwd_resolve.go)

    The list of mappings, the form of one mapping, its list of commands and the popups in
    front of them, as one machine: a stack of screens over the configuration, driven by
    keys.  The screen of variables is TuiTree's.  What the screens draw is in
    TuiViews, the folder picker in FilePicker; what a scan of a folder suggests is Discover's
    and an argument. *)

From S2P Require Import Prelude GoString GoPath ConfigModel Edit TuiRefs TuiWidgets TuiStack Aws TuiSources TuiTree.
Import Config Edit TuiRefs TuiWidgets TuiStack TuiTree.

Module TuiMappings.

(** ** What a mapping looks like *)

(** The number of variables a mapping injects, and whether it is known. *)
Definition expandedVarCount (c : Config) (m : Mapping) : nat * bool :=
  fold_left (fun acc v =>
    if negb (str_empty (Name v)) then (S acc.1, acc.2)
    else match Sources c !! Source v with
         | Some sc => if String.eqb (Type_ sc) "local" then (acc.1 + size (default ∅ (Secrets c !! Ref v)), acc.2)%nat else (acc.1, false)
         | None => (acc.1, false)
         end) (Vars m) (0%nat, true).

(** The count of the form. *)
Definition localVarCount (c : Config) (m : Mapping) : nat :=
  fold_left (fun n v =>
    match Sources c !! Source v with
    | Some sc => if String.eqb (Type_ sc) "local" && str_empty (Key v) then n + size (default ∅ (Secrets c !! Ref v)) else S n
    | None => S n
    end)%nat (Vars m) 0%nat.

Definition mappingLabel (m : Mapping) : string :=
  if negb (str_empty (Glob m)) then Glob m
  else if negb (str_empty (Path m)) then Path m
  else if negb (str_empty (CwdGlob m)) then
    match Commands m with
    | [] => "cwd:" +:+ CwdGlob m
    | cmds => "cwd:" +:+ CwdGlob m +:+ "  " +:+ String.concat "," cmds
    end
  else "(empty)".

Definition no_target (m : Mapping) : bool := str_empty (Path m) && str_empty (Glob m) && str_empty (CwdGlob m).
Definition no_vars (m : Mapping) : bool := bool_decide (Vars m = []).

Definition isEmpty (m : Mapping) : bool := no_target m && no_vars m.

Definition isPartial (m : Mapping) : bool :=
  if no_target m && no_vars m then false
  else if no_target m then true
  else if no_vars m then true
  else negb (str_empty (CwdGlob m)) && bool_decide (Commands m = []).

Definition empty_mapping : Mapping := mkMapping EmptyString EmptyString EmptyString [] [].

(** ** The screens *)

Record mform := mkMForm { fidx : nat; creating : bool; fcursor : nat; pendingKind : string }.

Inductive screen :=
| ListScreen (cursor : nat)
| FormScreen (f : mform)
| MappingMenu (idx cursor : nat)
| MappingDelete (idx cursor : nat)
| KindMenu (cursor : nat)
| TargetInput (kind : string) (i : inputScreen)
| PartialConfirm (cursor : nat)
| CommandsScreen (cidx cursor : nat)
| CommandAdd (cidx : nat) (i : inputScreen)
| CommandMenu (cidx entry cursor : nat)
| CommandEdit (cidx entry : nat) (i : inputScreen)
| CommandDelete (cidx entry cursor : nat)
| DiscoverScreen (cidx : nat) (sugs : list string) (checked : list bool) (cursor : nat)
| PickerScreen
| TreeScreen (t : varTreeScreen).

(** The status line. *)
Inductive text := Plain (s : string) | AlreadyInList (name : string).

#[local] Abbreviation state := (TuiStack.state screen text).

(** What a screen under an edit of it hears of. *)
Inductive change := MappingChanged | CommandsChanged.

Definition set_mapping (c : Config) (i : nat) (g : Mapping -> Mapping) : Config := with_mappings c (alter g i (Mappings c)).
Definition remove_mapping (c : Config) (i : nat) : Config :=
  if (i <? length (Mappings c))%nat then with_mappings c (take i (Mappings c) ++ drop (S i) (Mappings c)) else c.

Definition numSentinels : nat := 2.

Definition hear (c : Config) (ch : change) (s : screen) : screen :=
  match ch, s with
  | MappingChanged, ListScreen cur => ListScreen (clamp cur (length (Mappings c)))
  | CommandsChanged, CommandsScreen i cur =>
      CommandsScreen i (match Mappings c !! i with
                        | None => 0
                        | Some m => clamp cur (length (Commands m) + numSentinels - 1)
                        end)%nat
  | _, _ => s
  end.

(** ** The form *)

Definition mp (c : Config) (f : mform) : option Mapping := Mappings c !! fidx f.

Definition effectiveKind (c : Config) (f : mform) : string :=
  let pending := if str_empty (pendingKind f) then "path" else pendingKind f in
  match mp c f with
  | Some m => if str_empty (Kind m) then pending else Kind m
  | None => pending
  end.

Definition maxCursor (c : Config) (f : mform) : nat := if String.eqb (effectiveKind c f) "cwd" then 3 else 2.

(** The popups of a form write to the form they were opened from, the nearest one. *)
Fixpoint upd_form (g : mform -> mform) (l : list screen) : list screen :=
  match l with
  | [] => []
  | FormScreen f :: l' => FormScreen (g f) :: l'
  | s :: l' => s :: upd_form g l'
  end.

Fixpoint owner_form (l : list screen) : option mform :=
  match l with
  | [] => None
  | FormScreen f :: _ => Some f
  | _ :: l' => owner_form l'
  end.

(** The target of a mapping, whatever its kind. *)
Definition prev_target (m : Mapping) : string :=
  if negb (str_empty (Glob m)) then Glob m else if negb (str_empty (CwdGlob m)) then CwdGlob m else Path m.

Definition set_target (kind v : string) (m : Mapping) : Mapping :=
  if String.eqb kind "glob" then mkMapping EmptyString v EmptyString (Commands m) (Vars m)
  else if String.eqb kind "cwd" then mkMapping EmptyString EmptyString v (Commands m) (Vars m)
  else mkMapping v EmptyString EmptyString (Commands m) (Vars m).

Definition set_commands (cmds : list string) (m : Mapping) : Mapping :=
  mkMapping (Path m) (Glob m) (CwdGlob m) cmds (Vars m).

Definition set_kind (kind : string) (m : Mapping) : Mapping :=
  let m' := set_target kind (prev_target m) m in
  if String.eqb kind "cwd" then m' else set_commands [] m'.

Definition is_kind (s : string) : bool := String.eqb s "path" || String.eqb s "glob" || String.eqb s "cwd".

(** The callback of openKindMenu. *)
Definition kind_chosen (st : state) (choice : string) : state :=
  match owner_form (stack st) with
  | None => st
  | Some f =>
      match mp (cfg st) f with
      | None => exec hear [EPop] st
      | Some _ =>
          if is_kind choice then
            let c := set_mapping (cfg st) (fidx f) (set_kind choice) in
            let f' := mkMForm (fidx f) (creating f) (fcursor f) choice in
            let f'' := mkMForm (fidx f) (creating f) (Nat.min (fcursor f) (maxCursor c f')) choice in
            exec hear [EPop; EDirty] (mkState c (dirty st) (upd_form (fun _ => f'') (stack st)) (status st))
          else exec hear [EPop] st
      end
  end.

(** The commit of openTargetInput. *)
Definition target_entered (st : state) (kind val : string) : state :=
  match owner_form (stack st) with
  | None => st
  | Some f =>
      match mp (cfg st) f with
      | None => exec hear [EPop] st
      | Some _ => exec hear [EPop; EDirty] (with_cfg st (set_mapping (cfg st) (fidx f) (set_target kind (trim_space val))))
      end
  end.

Definition target_of (kind : string) (m : Mapping) : string :=
  if String.eqb kind "glob" then Glob m else if String.eqb kind "cwd" then CwdGlob m else Path m.

Definition discardMapping (st : state) (f : mform) : state :=
  exec hear [EPop; EChanged MappingChanged] (with_cfg st (remove_mapping (cfg st) (fidx f))).

Definition form_esc (st : state) (f : mform) : state :=
  match mp (cfg st) f with
  | Some m =>
      if creating f && isEmpty m then discardMapping st f
      else if creating f && isPartial m then exec hear [EPush (PartialConfirm 0)] st
      else exec hear [EPop] st
  | None => exec hear [EPop] st
  end.

(** The callback of the prompt: Resume, Discard. *)
Definition partial_chosen (st : state) (discard : bool) : state :=
  let st' := exec hear [EPop] st in
  if discard then
    match owner_form (stack st) with Some f => discardMapping st' f | None => st' end
  else st'.

Section Machine.
Context `{MapRange}.
(** What a scan of a folder suggests, what the user's home is, what a key does to a text field. *)
Context (scan : string -> list string) (home : option string) (typed : string -> string -> string).

Definition activate (st : state) (f : mform) : state :=
  match mp (cfg st) f with
  | None => st
  | Some m =>
      let kind := effectiveKind (cfg st) f in
      let target := TargetInput kind (newInputScreen (target_of kind m) false false true "Apply" "Back") in
      let tree := TreeScreen (newVarTreeScreen (cfg st) (fidx f)) in
      match fcursor f with
      | O => exec hear [EPush (KindMenu 0)] st
      | 1%nat => exec hear [EPush target] st
      | 2%nat => if String.eqb kind "cwd" then exec hear [EPush (CommandsScreen (fidx f) 0)] st else exec hear [EPush tree] st
      | 3%nat => if String.eqb kind "cwd" then exec hear [EPush tree] st else st
      | _ => st
      end
  end.

Definition form_key (st : state) (f : mform) (k : string) : state :=
  let at_cursor n := with_top st (FormScreen (mkMForm (fidx f) (creating f) n (pendingKind f))) in
  if is_up k then at_cursor (pred (fcursor f))
  else if is_down k then at_cursor (if (fcursor f <? maxCursor (cfg st) f)%nat then S (fcursor f) else fcursor f)
  else if String.eqb k "enter" then activate st f
  else if String.eqb k "esc" then form_esc st f
  else st.

(** ** The list *)

Definition createNewMapping (st : state) : state :=
  let c := with_mappings (cfg st) (Mappings (cfg st) ++ [empty_mapping]) in
  exec hear [EPush (FormScreen (mkMForm (length (Mappings c) - 1) true 0 EmptyString))] (with_cfg st c).

Definition list_key (st : state) (cursor : nat) (k : string) : state :=
  let n := length (Mappings (cfg st)) in
  match list_nav (S n) cursor k with
  | (_, Close) => exec hear [EPop] st
  | (_, Entered) =>
      match cursor with
      | O => createNewMapping st
      | S idx => if (idx <? n)%nat then exec hear [EPush (MappingMenu idx 0)] st else st
      end
  | (cur, _) => with_top st (ListScreen cur)
  end.

Definition mapping_choice (st : state) (idx : nat) (choice : string) : state :=
  if String.eqb choice "Edit" then exec hear [EPop; EPush (FormScreen (mkMForm idx false 0 EmptyString))] st
  else if String.eqb choice "Delete" then exec hear [EPush (MappingDelete idx 0)] st
  else exec hear [EPop] st.

(** Yes on the prompt; the slice expression has the index checked. *)
Definition mapping_delete (st : state) (idx : nat) : state :=
  exec hear [EPop; EPop; EDirty; EChanged MappingChanged; EStatus (Plain "removed mapping")] (with_cfg st (remove_mapping (cfg st) idx)).

(** ** The commands *)

Definition hasCommand (cmds : list string) (name : string) : bool := existsb (String.eqb name) cmds.

(** staticPrefix: what comes before the first wildcard, up to its last separator. *)
Fixpoint before_wildcard (p : string) : string * bool :=
  match p with
  | EmptyString => (EmptyString, false)
  | String a rest =>
      if Ascii.eqb a "*"%char || Ascii.eqb a "?" || Ascii.eqb a "[" then (EmptyString, true)
      else let '(s, w) := before_wildcard rest in (String a s, w)
  end.
Definition is_sep (a : ascii) : bool := Ascii.eqb a "/" || Ascii.eqb a "\".
Fixpoint last_sep (s : string) : option nat :=
  match s with
  | EmptyString => None
  | String a rest => match last_sep rest with Some i => Some (S i) | None => if is_sep a then Some 0%nat else None end
  end.
Definition staticPrefix (pattern : string) : string :=
  let '(prefix, wild) := before_wildcard pattern in
  if negb wild then pattern
  else match last_sep prefix with Some i => str_take i prefix | None => EmptyString end.

Definition resolveCwdGlobToFolder (p : string) : string :=
  let p := staticPrefix p in
  if str_empty p then EmptyString
  else
    let p := if String.eqb p "~" || has_prefix p "~/" || has_prefix p "~\"
             then match home with Some h => GoPath.Join [h; str_drop 1 p] | None => p end else p in
    if (1 <? String.length p)%nat then trim_right is_sep p else p.

Definition openDiscoverList (st : state) (cidx : nat) (folder : string) : state :=
  let sugs := scan folder in
  exec hear [EPush (DiscoverScreen cidx sugs ((fun _ : string => true) <$> sugs) 0)] st.

Definition openDiscoverFolder (st : state) (cidx : nat) : state :=
  match Mappings (cfg st) !! cidx with
  | Some m => if negb (str_empty (CwdGlob m)) then openDiscoverList st cidx (resolveCwdGlobToFolder (CwdGlob m))
              else exec hear [EPush PickerScreen] st
  | None => exec hear [EPush PickerScreen] st
  end.

(** A folder comes back from the picker; a mapping without a target takes it. *)
Definition commands_picked (st : state) (cidx : nat) (path : string) : state :=
  match Mappings (cfg st) !! cidx with
  | Some m =>
      if str_empty (CwdGlob m) then
        openDiscoverList (exec hear [EDirty] (with_cfg st (set_mapping (cfg st) cidx
          (fun m => mkMapping (Path m) (Glob m) path (Commands m) (Vars m))))) cidx path
      else openDiscoverList st cidx path
  | None => openDiscoverList st cidx path
  end.

(** appendDiscovered: the commands after it, and how many are new. *)
Definition append_new (cmds picked : list string) : list string * nat :=
  fold_left (fun acc x =>
    let x := trim_space x in
    if str_empty x || hasCommand acc.1 x then acc else (acc.1 ++ [x], S acc.2)) picked (cmds, 0%nat).

Definition picked_of (sugs : list string) (checked : list bool) : list string :=
  omap (fun sb : string * bool => if sb.2 then Some sb.1 else None) (zip sugs checked).

Definition discover_confirm (st : state) (cidx : nat) (sugs : list string) (checked : list bool) : state :=
  match Mappings (cfg st) !! cidx with
  | None => exec hear [EPop; EStatus (Plain "nothing to add (all already present)")] st
  | Some m =>
      let '(cmds, added) := append_new (Commands m) (picked_of sugs checked) in
      let st := with_cfg st (set_mapping (cfg st) cidx (set_commands cmds)) in
      if (0 <? added)%nat then
        exec hear [EPop; EDirty; EChanged CommandsChanged; EStatus (Plain ("added " +:+ itoa (N.of_nat added) +:+ " command(s)"))] st
      else exec hear [EPop; EStatus (Plain "nothing to add (all already present)")] st
  end.

Definition discover_key (st : state) (cidx : nat) (sugs : list string) (checked : list bool) (cursor : nat) (k : string) : state :=
  let flip := with_top st (DiscoverScreen cidx sugs (alter negb cursor checked) cursor) in
  if String.eqb k " " || String.eqb k "space" then if (cursor <? length sugs)%nat then flip else st
  else match list_nav (S (length sugs)) cursor k with
       | (_, Close) => exec hear [EPop] st
       | (_, Entered) => if (cursor =? length sugs)%nat then discover_confirm st cidx sugs checked else flip
       | (cur, _) => with_top st (DiscoverScreen cidx sugs checked cur)
       end.

Definition command_added (st : state) (cidx : nat) (val : string) : state :=
  let v := trim_space val in
  if str_empty v then exec hear [EError (Plain "command name required")] st
  else match Mappings (cfg st) !! cidx with
       | None => exec hear [EPop] st
       | Some m =>
           if hasCommand (Commands m) v then exec hear [EError (AlreadyInList v)] st
           else exec hear [EPop; EDirty; EChanged CommandsChanged; EStatus (Plain "command added")]
                  (with_cfg st (set_mapping (cfg st) cidx (set_commands (Commands m ++ [v]))))
       end.

Definition command_edited (st : state) (cidx entry : nat) (val : string) : state :=
  let v := trim_space val in
  if str_empty v then exec hear [EError (Plain "command name required")] st
  else match Mappings (cfg st) !! cidx with
       | None => exec hear [EPop] st
       | Some m =>
           match Commands m !! entry with
           | None => exec hear [EPop] st
           | Some old =>
               if String.eqb v old then exec hear [EPop; EPop] st
               else if hasCommand (Commands m) v then exec hear [EError (AlreadyInList v)] st
               else exec hear [EPop; EPop; EDirty; EChanged CommandsChanged; EStatus (Plain "command updated")]
                      (with_cfg st (set_mapping (cfg st) cidx (set_commands (<[entry := v]> (Commands m)))))
           end
       end.

Definition command_deleted (st : state) (cidx entry : nat) : state :=
  match Mappings (cfg st) !! cidx with
  | None => exec hear [EPop] st
  | Some m =>
      let cmds := if (entry <? length (Commands m))%nat then take entry (Commands m) ++ drop (S entry) (Commands m) else Commands m in
      exec hear [EPop; EPop; EDirty; EChanged CommandsChanged; EStatus (Plain "command removed")]
        (with_cfg st (set_mapping (cfg st) cidx (set_commands cmds)))
  end.

Definition commands_key (st : state) (cidx cursor : nat) (k : string) : state :=
  match Mappings (cfg st) !! cidx with
  | None => st
  | Some m =>
      match list_nav (length (Commands m) + numSentinels) cursor k with
      | (_, Close) => exec hear [EPop] st
      | (_, Entered) =>
          match cursor with
          | O => openDiscoverFolder st cidx
          | 1%nat => exec hear [EPush (CommandAdd cidx (newInputScreen EmptyString false false false "Add" "Back"))] st
          | S (S entry) => if (entry <? length (Commands m))%nat then exec hear [EPush (CommandMenu cidx entry 0)] st else st
          end
      | (cur, _) => with_top st (CommandsScreen cidx cur)
      end
  end.

Definition command_choice (st : state) (cidx entry : nat) (choice : string) : state :=
  if String.eqb choice "Edit" then
    let current := default EmptyString ((Mappings (cfg st) !! cidx) ≫= (fun m => Commands m !! entry)) in
    exec hear [EPush (CommandEdit cidx entry (newInputScreen current false false false "Apply" "Back"))] st
  else if String.eqb choice "Delete" then exec hear [EPush (CommandDelete cidx entry 0)] st
  else exec hear [EPop] st.

(** ** A key *)

Definition key (st : state) (k : string) : state :=
  match stack st with
  | [] => st
  | ListScreen cur :: _ => list_key st cur k
  | FormScreen f :: _ => form_key st f k
  | MappingMenu idx cur :: _ => popup hear st ["Edit"; "Delete"; "Back"] cur k (MappingMenu idx) (mapping_choice st idx)
  | MappingDelete idx cur :: _ =>
      prompt hear st 2 cur k (MappingDelete idx) (fun n => match n with O => mapping_delete st idx | _ => exec hear [EPop] st end)
  | KindMenu cur :: _ => popup hear st ["path"; "glob"; "cwd"; "Back"] cur k KindMenu (kind_chosen st)
  | TargetInput kind i :: _ => input hear typed Plain (Some PickerScreen) st i k (TargetInput kind) (target_entered st kind)
  | PartialConfirm cur :: _ => prompt hear st 2 cur k PartialConfirm (fun n => partial_chosen st (negb (n =? 0)%nat))
  | CommandsScreen i cur :: _ => commands_key st i cur k
  | CommandAdd i inp :: _ => input hear typed Plain (Some PickerScreen) st inp k (CommandAdd i) (command_added st i)
  | CommandMenu i e cur :: _ => popup hear st ["Edit"; "Delete"; "Back"] cur k (CommandMenu i e) (command_choice st i e)
  | CommandEdit i e inp :: _ => input hear typed Plain (Some PickerScreen) st inp k (CommandEdit i e) (command_edited st i e)
  | CommandDelete i e cur :: _ =>
      prompt hear st 2 cur k (CommandDelete i e) (fun n => match n with O => command_deleted st i e | _ => exec hear [EPop] st end)
  | DiscoverScreen i sugs checked cur :: _ => discover_key st i sugs checked cur k
  | PickerScreen :: _ => if String.eqb k "esc" then exec hear [EPop] st else st
  | TreeScreen t :: _ =>
      let '(c, t', a, changed) := tree_update (cfg st) t k in
      let st' := with_top (with_cfg st c) (TreeScreen t') in
      match a with
      | Close => exec hear [EPop] st'
      | _ => if changed then exec hear [EDirty; EChanged MappingChanged] st' else st'
      end
  end.

(** What arrives besides keys: a picked path, and the bags of the remote sources. *)
Inductive event := Key (k : string) | Picked (path : string) | AsyncBags (results : list sourceBagsResult).

Definition step (st : state) (e : event) : state :=
  match e with
  | Key k => key st k
  | Picked path =>
      match stack st with
      | PickerScreen :: _ =>
          let st := exec hear [EPop] st in
          match stack st with
          | TargetInput kind i :: _ => with_top st (TargetInput kind (path_picked i path))
          | CommandsScreen i _ :: _ => commands_picked st i path
          | _ => st
          end
      | _ => st
      end
  | AsyncBags results =>
      match stack st with
      | TreeScreen t :: _ => with_top st (TreeScreen (loaded (cfg st) t results))
      | _ => st
      end
  end.
End Machine.

(** ** Mappings under edit *)

(** What no edit through the screens breaks: one target, and commands with a directory only. *)
Definition settled (m : Mapping) : Prop := count_set m = 1%nat /\ (CwdGlob m = "" -> Commands m = []).

(** The mapping of an open form; before it has a target its kind is the form's. *)
Record under_edit (f : mform) (m : Mapping) : Prop := {
  ue_target : (count_set m <= 1)%nat;
  ue_commands : Path m <> "" \/ Glob m <> "" -> Commands m = [];
  ue_pending : no_target m = true -> Commands m <> [] -> pendingKind f = "cwd";
  ue_old : creating f = false -> no_target m = false
}.

Lemma no_target_count m : no_target m = true <-> count_set m = 0%nat.
Proof. unfold no_target, count_set. destruct (str_empty (Path m)), (str_empty (Glob m)), (str_empty (CwdGlob m)); cbn; split; done. Qed.

Lemma under_edit_settled f m : under_edit f m -> no_target m = false -> settled m.
Proof.
  intros [Ht Hc _ _] Hn. assert (Hs : count_set m <> 0%nat) by (intros H0; apply no_target_count in H0; congruence).
  split; [lia|]. intros Hg. apply Hc. unfold no_target in Hn. rewrite Hg in Hn. cbn in Hn. rewrite andb_true_r in Hn.
  apply andb_false_iff in Hn as [Hn|Hn]; apply str_empty_false in Hn; auto.
Qed.

Lemma settled_under_edit i cur k m : settled m -> under_edit (mkMForm i false cur k) m.
Proof.
  intros [Hc Hg]. assert (Hn : no_target m = false) by (apply not_true_is_false; intros H0; apply no_target_count in H0; lia).
  split; [lia| |congruence|done]. intros Hp. apply Hg. unfold count_set in Hc.
  destruct (str_empty (CwdGlob m)) eqn:He; [by apply str_empty_spec|].
  destruct Hp as [Hp|Hp]; apply str_empty_false in Hp; rewrite Hp in Hc; destruct (str_empty _) in Hc; cbn in Hc; lia.
Qed.

Lemma empty_under_edit i cur : under_edit (mkMForm i true cur "") empty_mapping.
Proof. split; cbn; [lia|by intros [?|?]|done|done]. Qed.

(** The kind a form shows is the one its target has. *)
Lemma kind_cwd_target c f m :
  mp c f = Some m -> under_edit f m -> effectiveKind c f <> "cwd" -> Commands m = [].
Proof.
  intros Hm Hu. unfold effectiveKind. rewrite Hm. intros Hk.
  destruct (decide (Commands m = [])) as [|Hne]; [done|]. exfalso. unfold Kind in Hk.
  destruct (str_empty (Path m)) eqn:Hp; cbn [negb] in Hk; [|apply str_empty_false in Hp; apply Hne, (ue_commands f m Hu); auto].
  destruct (str_empty (Glob m)) eqn:Hg; cbn [negb] in Hk; [|apply str_empty_false in Hg; apply Hne, (ue_commands f m Hu); auto].
  destruct (str_empty (CwdGlob m)) eqn:Hc; cbn [negb] in Hk; [|by cbn in Hk].
  assert (Hn : no_target m = true) by (unfold no_target; by rewrite Hp, Hg, Hc).
  rewrite (ue_pending f m Hu Hn Hne) in Hk. by cbn in Hk.
Qed.

Lemma kind_cwd_no_other c f m :
  mp c f = Some m -> under_edit f m -> effectiveKind c f = "cwd" -> Path m = "" /\ Glob m = "".
Proof.
  intros Hm _. unfold effectiveKind. rewrite Hm. unfold Kind.
  destruct (str_empty (Path m)) eqn:Hp; cbn [negb]; [|done]. destruct (str_empty (Glob m)) eqn:Hg; cbn [negb]; [|done].
  intros _. by apply str_empty_spec in Hp, Hg.
Qed.

Lemma set_target_fields kind v m :
  Commands (set_target kind v m) = Commands m /\ Vars (set_target kind v m) = Vars m
  /\ (count_set (set_target kind v m) <= 1)%nat /\ (v <> "" -> no_target (set_target kind v m) = false)
  /\ (kind = "cwd" -> Path (set_target kind v m) = "" /\ Glob (set_target kind v m) = "").
Proof.
  unfold set_target. destruct (String.eqb_spec kind "glob") as [->|]; [|destruct (String.eqb_spec kind "cwd") as [->|]]; cbn.
  all: split; [done|split; [done|split; [unfold count_set; cbn; destruct (str_empty v); lia|split; [|done]]]].
  all: intros Hv; apply str_empty_false in Hv; unfold no_target; cbn; by rewrite Hv.
Qed.

Lemma set_target_edit c f m v :
  mp c f = Some m -> under_edit f m -> v <> "" -> under_edit f (set_target (effectiveKind c f) v m).
Proof.
  intros Hm Hu Hv. destruct (set_target_fields (effectiveKind c f) v m) as (Hc & _ & Ht & Hn & Hk).
  split; [done| |rewrite (Hn Hv); done|intros _; by apply Hn]. rewrite Hc. intros Hp.
  destruct (decide (effectiveKind c f = "cwd")) as [He|He]; [|by eapply kind_cwd_target].
  destruct (Hk He) as [? ?]. tauto.
Qed.

Lemma prev_target_ne m : no_target m = false -> prev_target m <> "".
Proof.
  unfold no_target, prev_target. intros Hn.
  destruct (str_empty (Glob m)) eqn:Hg; cbn [negb]; [|by apply str_empty_false in Hg].
  destruct (str_empty (CwdGlob m)) eqn:Hc; cbn [negb]; [|by apply str_empty_false in Hc].
  intros Hp. rewrite Hp in Hn. by cbn in Hn.
Qed.

(** Changing the kind carries the target over. *)
Lemma set_kind_edit i cr cur cur' pk kind m :
  under_edit (mkMForm i cr cur pk) m -> under_edit (mkMForm i cr cur' kind) (set_kind kind m).
Proof.
  intros Hu. destruct (set_target_fields kind (prev_target m) m) as (Hc & _ & Ht & Hn & Hk).
  assert (Hold : cr = false -> no_target (set_kind kind m) = false).
  { intros ->. pose proof (Hn (prev_target_ne m (ue_old _ _ Hu eq_refl))) as Hx. unfold set_kind. by destruct (String.eqb kind "cwd"). }
  unfold set_kind in *. destruct (String.eqb_spec kind "cwd") as [->|Hne].
  - split; cbn [pendingKind creating]; [done| |done|done]. destruct (Hk eq_refl) as [-> ->]. by intros [?|?].
  - split; cbn; [exact Ht|done|done|done].
Qed.

Lemma set_commands_edit c f m cmds :
  mp c f = Some m -> under_edit f m -> effectiveKind c f = "cwd" -> under_edit f (set_commands cmds m).
Proof.
  intros Hm Hu Hk. destruct (kind_cwd_no_other c f m Hm Hu Hk) as [Hp Hg]. split; cbn.
  - exact (ue_target f m Hu).
  - rewrite Hp, Hg. by intros [?|?].
  - intros Hn _. unfold effectiveKind in Hk. rewrite Hm in Hk. unfold no_target in Hn. cbn in Hn.
    apply andb_true_iff in Hn as [Hn Hn3]. apply andb_true_iff in Hn as [Hn1 Hn2].
    unfold Kind in Hk. rewrite Hn1, Hn2, Hn3 in Hk. cbn in Hk. destruct (str_empty (pendingKind f)); [done|]. exact Hk.
  - exact (ue_old f m Hu).
Qed.

(** ** The invariant *)

(** The configuration while a form is open, and while none is. *)
Record editing (c0 c : Config) (d : bool) (f : mform) : Prop := {
  ed_at : exists m, mp c f = Some m /\ under_edit f m;
  ed_rest : forall j x, j <> fidx f -> Mappings c !! j = Some x -> settled x;
  ed_last : creating f = true -> S (fidx f) = length (Mappings c);
  ed_only : c = with_mappings c0 (Mappings c);
  ed_clean : d = false -> Mappings c = Mappings c0 ++ (if creating f then [empty_mapping] else [])
}.

Record listed (c0 c : Config) (d : bool) : Prop := {
  li_settled : Forall settled (Mappings c);
  li_only : c = with_mappings c0 (Mappings c);
  li_clean : d = false -> c = c0
}.

Lemma set_mapping_lookup c i g j :
  Mappings (set_mapping c i g) !! j = if decide (i = j) then g <$> Mappings c !! i else Mappings c !! j.
Proof.
  unfold set_mapping. cbn. destruct (decide (i = j)) as [->|]; [apply list_lookup_alter_eq|by apply list_lookup_alter_ne].
Qed.

Lemma with_mappings_only c0 c l : c = with_mappings c0 (Mappings c) -> with_mappings c l = with_mappings c0 l.
Proof. intros ->. done. Qed.

Lemma with_mappings_same c : with_mappings c (Mappings c) = c.
Proof. by destruct c. Qed.

Lemma editing_set c0 c d f f' g :
  editing c0 c d f -> fidx f' = fidx f -> creating f' = creating f ->
  (forall m, mp c f = Some m -> under_edit f m -> under_edit f' (g m)) ->
  editing c0 (set_mapping c (fidx f) g) true f'.
Proof.
  intros [(m & Hm & Hu) Hr Hl Ho _] Hi Hc Hg. split.
  - exists (g m). split; [|by apply Hg]. unfold mp in *. rewrite Hi, set_mapping_lookup, decide_True by done. by rewrite Hm.
  - intros j x Hj. rewrite Hi in Hj. rewrite set_mapping_lookup, decide_False by done. by apply Hr.
  - rewrite Hi, Hc. unfold set_mapping. cbn. rewrite length_alter. done.
  - unfold set_mapping. cbn. by apply with_mappings_only.
  - done.
Qed.

Lemma editing_dirty c0 c d f : editing c0 c d f -> editing c0 c true f.
Proof. intros [Ha Hr Hl Ho _]. by split. Qed.

Lemma editing_form c0 c d f f' :
  editing c0 c d f -> fidx f' = fidx f -> creating f' = creating f -> pendingKind f' = pendingKind f -> editing c0 c d f'.
Proof.
  intros [(m & Hm & [H1 H2 H3 H4]) Hr Hl Ho Hcl] Hi Hc Hp. split; rewrite ?Hi, ?Hc; try done.
  exists m. split; [unfold mp in *; by rewrite Hi|]. split; rewrite ?Hc, ?Hp; done.
Qed.

(** Esc on a form whose mapping has a target. *)
Lemma editing_leave c0 c d f :
  editing c0 c d f -> (forall m, mp c f = Some m -> no_target m = false) -> listed c0 c d.
Proof.
  intros [(m & Hm & Hu) Hr Hl Ho Hcl] Hn. pose proof (Hn m Hm) as Hnm. split; [|done|].
  - apply Forall_lookup. intros j x Hx. destruct (decide (j = fidx f)) as [->|Hj]; [|by eapply Hr].
    unfold mp in Hm. rewrite Hm in Hx. injection Hx as <-. by eapply under_edit_settled.
  - intros Hd. specialize (Hcl Hd). destruct (creating f) eqn:Hc.
    + exfalso. specialize (Hl eq_refl). unfold mp in Hm. rewrite Hcl in Hl, Hm. rewrite length_app in Hl. cbn in Hl.
      rewrite lookup_app_r in Hm by lia. replace (fidx f - length (Mappings c0))%nat with 0%nat in Hm by lia.
      cbn in Hm. injection Hm as <-. by cbn in Hnm.
    + rewrite app_nil_r in Hcl. rewrite Ho, Hcl. apply with_mappings_same.
Qed.

(** Discarding a new mapping. *)
Lemma editing_discard c0 c d f :
  editing c0 c d f -> creating f = true -> listed c0 (remove_mapping c (fidx f)) d.
Proof.
  intros [(m & Hm & Hu) Hr Hl Ho Hcl] Hc. specialize (Hl Hc). rewrite Hc in Hcl.
  unfold remove_mapping. replace (fidx f <? length (Mappings c))%nat with true by (symmetry; apply Nat.ltb_lt; lia).
  assert (Ht : drop (S (fidx f)) (Mappings c) = []) by (apply drop_ge; lia). rewrite Ht, app_nil_r. split; cbn.
  - apply Forall_lookup. intros j x Hx. apply lookup_take_Some in Hx as [Hx Hj]. eapply Hr; [|done]. lia.
  - by apply with_mappings_only.
  - intros Hd. specialize (Hcl Hd). rewrite (with_mappings_only c0 c _ Ho).
    assert (Hlen : length (Mappings c) = S (length (Mappings c0))) by (rewrite Hcl, length_app; cbn; lia).
    rewrite Hcl, take_app_length' by lia. apply with_mappings_same.
Qed.

(** ** The stacks that occur *)

Inductive cmds_over (cidx : nat) : list screen -> Prop :=
| co_nil : cmds_over cidx []
| co_pick : cmds_over cidx [PickerScreen]
| co_discover sugs checked cur : cmds_over cidx [DiscoverScreen cidx sugs checked cur]
| co_add i : has_browse i = false -> cmds_over cidx [CommandAdd cidx i]
| co_menu e cur : cmds_over cidx [CommandMenu cidx e cur]
| co_edit e i cur : has_browse i = false -> cmds_over cidx [CommandEdit cidx e i; CommandMenu cidx e cur]
| co_delete e n cur : cmds_over cidx [CommandDelete cidx e n; CommandMenu cidx e cur].

Inductive form_over (c : Config) (f : mform) : list screen -> Prop :=
| fo_nil : form_over c f []
| fo_kind cur : form_over c f [KindMenu cur]
| fo_target i : allowBlnk i = false -> form_over c f [TargetInput (effectiveKind c f) i]
| fo_pick i : allowBlnk i = false -> form_over c f [PickerScreen; TargetInput (effectiveKind c f) i]
| fo_partial cur : creating f = true -> form_over c f [PartialConfirm cur]
| fo_tree t : mappingIdx t = fidx f -> form_over c f [TreeScreen t]
| fo_commands l cur : effectiveKind c f = "cwd" -> cmds_over (fidx f) l -> form_over c f (l ++ [CommandsScreen (fidx f) cur]).

Inductive list_over (n : nat) : list screen -> Prop :=
| lo_nil : list_over n []
| lo_menu idx cur : (idx < n)%nat -> list_over n [MappingMenu idx cur]
| lo_delete idx k cur : (idx < n)%nat -> list_over n [MappingDelete idx k; MappingMenu idx cur].

Inductive inv (c0 : Config) : state -> Prop :=
| inv_closed c d s : listed c0 c d -> inv c0 (mkState c d [] s)
| inv_list c d l cur s : listed c0 c d -> list_over (length (Mappings c)) l -> inv c0 (mkState c d (l ++ [ListScreen cur]) s)
| inv_form c d l f cur s : editing c0 c d f -> form_over c f l -> inv c0 (mkState c d (l ++ [FormScreen f; ListScreen cur]) s).

Lemma inv_list0 c0 c d cur s : listed c0 c d -> inv c0 (mkState c d [ListScreen cur] s).
Proof. intros Hl. apply (inv_list c0 c d []); [done|constructor]. Qed.

Lemma inv_form0 c0 c d f cur s : editing c0 c d f -> inv c0 (mkState c d [FormScreen f; ListScreen cur] s).
Proof. intros He. apply (inv_form c0 c d []); [done|constructor]. Qed.

Lemma inv_commands c0 c d l n f cur s :
  editing c0 c d f -> effectiveKind c f = "cwd" -> cmds_over (fidx f) l ->
  inv c0 (mkState c d (l ++ [CommandsScreen (fidx f) n; FormScreen f; ListScreen cur]) s).
Proof.
  intros He Hk Hl.
  change (l ++ [CommandsScreen (fidx f) n; FormScreen f; ListScreen cur]) with (l ++ [CommandsScreen (fidx f) n] ++ [FormScreen f; ListScreen cur]).
  rewrite app_assoc. apply inv_form; [done|]. by constructor.
Qed.

(** ** Every key keeps it *)

Definition input_keeps (i : inputScreen) (r : inputScreen * answer) : Prop :=
  allowBlnk r.1 = allowBlnk i /\ has_browse r.1 = has_browse i
  /\ (forall v, r.2 = Committed v -> allowBlnk i = true \/ trim_space v <> "")
  /\ (forall v, r.2 = BrowseFrom v -> has_browse i = true).

Lemma input_facts typed i k i' a :
  input_update typed i k = (i', a) ->
  input_keeps i (i', a).
Proof.
  assert (Hc : input_keeps i (input_commit i)).
  { destruct (input_commit_spec i) as (_ & _ & Hco). unfold input_keeps, input_commit in *.
    destruct (str_empty (trim_space (value i)) && negb (allowBlnk i)); cbn in *; repeat split; try done.
    intros v Hv. by destruct (Hco v Hv). }
  intros <-. unfold input_keeps in *.
  unfold input_update. destruct (ifocus i) as [b|].
  all: repeat match goal with
    | |- allowBlnk (input_commit _).1 = _ /\ _ => exact Hc
    | |- context [if ?x then _ else _] => destruct x eqn:?
    | |- context [match ?x with O => _ | S _ => _ end] => destruct x
    end; repeat split; done.
Qed.

Lemma effectiveKind_ext c c' f m m' :
  mp c f = Some m -> mp c' f = Some m' -> Kind m' = Kind m -> effectiveKind c' f = effectiveKind c f.
Proof. unfold effectiveKind. by intros -> -> ->. Qed.

Lemma set_commands_kind cmds m : Kind (set_commands cmds m) = Kind m.
Proof. done. Qed.

(** An edit of the commands of the open mapping. *)
Lemma commands_set c0 c d f cmds :
  editing c0 c d f -> effectiveKind c f = "cwd" ->
  editing c0 (set_mapping c (fidx f) (set_commands cmds)) true f
  /\ effectiveKind (set_mapping c (fidx f) (set_commands cmds)) f = "cwd".
Proof.
  intros He Hk. split.
  - apply (editing_set c0 c d f f); try done. intros m Hm Hu. by eapply set_commands_edit.
  - destruct (ed_at _ _ _ _ He) as (m & Hm & _). rewrite <- Hk. apply (effectiveKind_ext _ _ _ m (set_commands cmds m)); [done| |done].
    unfold mp in *. rewrite set_mapping_lookup, decide_True by done. by rewrite Hm.
Qed.

Lemma set_same c i m cmds : Mappings c !! i = Some m -> cmds = Commands m -> set_mapping c i (set_commands cmds) = c.
Proof.
  intros Hm ->. unfold set_mapping. replace (alter (set_commands (Commands m)) i (Mappings c)) with (Mappings c); [apply with_mappings_same|].
  apply list_eq. intros j. destruct (decide (j = i)) as [->|Hj]; [|by rewrite list_lookup_alter_ne].
  rewrite list_lookup_alter_eq, Hm. by destruct m.
Qed.

Lemma append_new_none cmds picked : (append_new cmds picked).2 = 0%nat -> (append_new cmds picked).1 = cmds.
Proof.
  intros Hz. unfold append_new in *. assert (Hg : forall acc : list string * nat,
    let r := fold_left (fun acc x => let x := trim_space x in
      if str_empty x || hasCommand acc.1 x then acc else (acc.1 ++ [x], S acc.2)) picked acc in
    (acc.2 <= r.2)%nat /\ (r.2 = acc.2 -> r = acc)); [|exact (f_equal fst (proj2 (Hg (cmds, 0%nat)) Hz))].
  clear Hz. induction picked as [|x l IH]; intros acc; [done|]. cbn zeta. cbn [fold_left].
  destruct (str_empty (trim_space x) || hasCommand acc.1 (trim_space x)); [apply IH|].
  destruct (IH (acc.1 ++ [trim_space x], S acc.2)) as [Hle Heq]. cbn [snd] in Hle, Heq.
  split; [lia|]. intros Hx. lia.
Qed.

Section Steps.
Context `{MapRange} (scan : string -> list string) (home : option string) (typed : string -> string -> string).
Context (c0 : Config).
Notation step := (step scan home typed).
#[local] Arguments Nat.ltb : simpl never.
#[local] Arguments set_mapping : simpl never.

Lemma list_step c d cur s k : listed c0 c d -> inv c0 (list_key (mkState c d [ListScreen cur] s) cur k).
Proof.
  intros Hl. unfold list_key. cbn [cfg]. destruct (list_nav _ cur k) as [n a]. destruct a; cbn; try by apply inv_list0.
  - by apply inv_closed.
  - destruct cur as [|idx].
    + apply inv_form0. destruct Hl as [Hs Ho Hcl]. cbn. rewrite length_app. cbn. split; cbn [fidx creating].
      * exists empty_mapping. split; [|apply empty_under_edit]. unfold mp. cbn. rewrite lookup_app_r by lia.
        by replace (length (Mappings c) + 1 - 1 - length (Mappings c))%nat with 0%nat by lia.
      * cbn. intros j x Hj Hx. apply lookup_app_Some in Hx as [Hx|[Hle Hx]]; [by eapply Forall_lookup in Hs|].
        destruct (j - length (Mappings c))%nat eqn:He; [lia|]. by destruct n0.
      * intros _. cbn. rewrite length_app. cbn. lia.
      * cbn. by apply with_mappings_only.
      * intros Hd. cbn. by rewrite (Hcl Hd).
    + destruct (idx <? length (Mappings c))%nat eqn:Hi; [|by apply inv_list0]. apply Nat.ltb_lt in Hi.
      apply (inv_list c0 c d [MappingMenu idx 0]); [done|by constructor].
Qed.

Lemma open_existing c d cur idx s :
  listed c0 c d -> (idx < length (Mappings c))%nat -> inv c0 (mkState c d [FormScreen (mkMForm idx false 0 ""); ListScreen cur] s).
Proof.
  intros [Hs Ho Hcl] Hi. apply inv_form0. apply lookup_lt_is_Some in Hi as [m Hm].
  pose proof (proj1 (Forall_lookup _ _) Hs) as Hs'. split; cbn; try done.
  - exists m. split; [done|]. apply settled_under_edit. by eapply Hs'.
  - intros j x _ Hx. by eapply Hs'.
  - intros Hd. rewrite app_nil_r. by rewrite (Hcl Hd).
Qed.

Lemma delete_listed c d idx : listed c0 c d -> listed c0 (remove_mapping c idx) true.
Proof.
  intros [Hs Ho _]. unfold remove_mapping. destruct (_ <? _)%nat; [|by split].
  split; cbn; [|by apply with_mappings_only|done]. apply Forall_app. split; [by apply Forall_take|by apply Forall_drop].
Qed.

Lemma list_over_step c d l cur s k :
  listed c0 c d -> list_over (length (Mappings c)) l -> inv c0 (key scan home typed (mkState c d (l ++ [ListScreen cur]) s) k).
Proof.
  intros Hl [|idx pc Hi|idx n pc Hi]; cbn [app key stack].
  - by apply list_step.
  - unfold popup. destruct (popup_update _ pc k) as [n a]. destruct a; cbn; try (apply (inv_list c0 c d [_]); [done|by constructor]).
    + by apply inv_list0.
    + unfold mapping_choice. destruct (String.eqb choice "Edit"); [by apply open_existing|].
      destruct (String.eqb choice "Delete"); cbn; [|by apply inv_list0].
      apply (inv_list c0 c d [_; _]); [done|by constructor].
  - unfold prompt. destruct (prompt_key 2 n k) as [n' a]. destruct a; cbn;
      try (apply (inv_list c0 c d [_; _]); [done|by constructor]).
    + apply (inv_list c0 c d [_]); [done|by constructor].
    + destruct n' as [|n']; cbn; [|apply (inv_list c0 c d [_]); [done|by constructor]].
      apply inv_list0. by eapply delete_listed.
Qed.

(** The form itself. *)
Lemma form_step c d f cur s k :
  editing c0 c d f -> inv c0 (form_key (mkState c d [FormScreen f; ListScreen cur] s) f k).
Proof.
  intros He. unfold form_key. destruct (ed_at _ _ _ _ He) as (m & Hm & Hu).
  destruct (is_up k); [cbn; apply inv_form0; by eapply editing_form|].
  destruct (is_down k); [cbn; apply inv_form0; by eapply editing_form|].
  destruct (String.eqb k "enter"); [|destruct (String.eqb k "esc"); [|by apply inv_form0]].
  - unfold activate. cbn [cfg]. rewrite Hm.
    destruct (fcursor f) as [|[|[|[|n]]]]; cbn.
    + apply (inv_form c0 c d [_]); [done|constructor].
    + apply (inv_form c0 c d [_]); [done|by constructor].
    + destruct (String.eqb_spec (effectiveKind c f) "cwd") as [Hk|Hk]; cbn.
      * apply (inv_commands c0 c d []); [done|done|constructor].
      * apply (inv_form c0 c d [_]); [done|by constructor].
    + destruct (String.eqb _ "cwd"); cbn; [apply (inv_form c0 c d [_]); [done|by constructor]|by apply inv_form0].
    + by apply inv_form0.
  - unfold form_esc. cbn [cfg]. rewrite Hm. destruct (creating f && isEmpty m) eqn:Hce; cbn.
    { apply andb_true_iff in Hce as [Hc _]. apply inv_list0. by apply editing_discard. }
    destruct (creating f && isPartial m) eqn:Hcp; cbn.
    { apply andb_true_iff in Hcp as [Hc _]. apply (inv_form c0 c d [_]); [done|by constructor]. }
    apply inv_list0. eapply editing_leave; [done|]. intros m' Hm'. rewrite Hm in Hm'. injection Hm' as <-.
    destruct (creating f) eqn:Hc; [|by apply (ue_old f m Hu)]. cbn in Hce, Hcp. unfold isEmpty, isPartial in *.
    destruct (no_target m); [|done]. destruct (no_vars m); done.
Qed.

(** The screens above the form. *)
Lemma mp_fresh (c : Config) (f : mform) g m : mp c f = Some m -> mp (set_mapping c (fidx f) g) f = Some (g m).
Proof. unfold mp. intros Hm. rewrite set_mapping_lookup, decide_True by done. by rewrite Hm. Qed.

Lemma kind_step c d f cur n s choice :
  editing c0 c d f -> inv c0 (kind_chosen (mkState c d [KindMenu n; FormScreen f; ListScreen cur] s) choice).
Proof.
  intros He. unfold kind_chosen. cbn [stack owner_form cfg]. destruct (ed_at _ _ _ _ He) as (m & Hm & Hu). rewrite Hm.
  destruct (is_kind choice); cbn; [|by apply inv_form0]. apply inv_form0. apply (editing_set c0 c d f); try done.
  intros m' Hm' Hu'. destruct f as [i cr fc pk]. by eapply set_kind_edit.
Qed.

Lemma target_step c d f cur i s v :
  editing c0 c d f -> trim_space v <> "" ->
  inv c0 (target_entered (mkState c d [TargetInput (effectiveKind c f) i; FormScreen f; ListScreen cur] s) (effectiveKind c f) v).
Proof.
  intros He Hv. unfold target_entered. cbn [stack owner_form cfg]. destruct (ed_at _ _ _ _ He) as (m & Hm & Hu). rewrite Hm. cbn.
  apply inv_form0. apply (editing_set c0 c d f f); try done. intros m' Hm' Hu'. by apply set_target_edit.
Qed.

Lemma partial_step c d f cur n s discard :
  editing c0 c d f -> creating f = true ->
  inv c0 (partial_chosen (mkState c d [PartialConfirm n; FormScreen f; ListScreen cur] s) discard).
Proof.
  intros He Hc. unfold partial_chosen. cbn [stack owner_form]. destruct discard; cbn; [|by apply inv_form0].
  apply inv_list0. by apply editing_discard.
Qed.

Lemma tree_step c d f cur t s k :
  editing c0 c d f -> mappingIdx t = fidx f ->
  inv c0 (key scan home typed (mkState c d [TreeScreen t; FormScreen f; ListScreen cur] s) k).
Proof.
  intros He Ht. cbn [key stack cfg]. unfold tree_update.
  assert (Hst : forall c' d' t', editing c0 c' d' f -> mappingIdx t' = fidx f ->
    inv c0 (mkState c' d' [TreeScreen t'; FormScreen f; ListScreen cur] s)).
  { intros c' d' t' He' Ht'. apply (inv_form c0 c' d' [_]); [done|by constructor]. }
  destruct (String.eqb k " " || String.eqb k "enter").
  - destruct (flatRows (bags t) !! tcursor t) as [r|]; [|by apply Hst]. destruct (toggle (bags t) r) as [b|]; [|by apply Hst].
    cbn. apply Hst; [|done]. rewrite Ht. destruct (ed_at _ _ _ _ He) as (m & Hm & Hu). unfold mapping_vars.
    unfold mp in Hm. rewrite Hm. cbn. unfold set_vars.
    apply (editing_set c0 c d f f _); try done. intros m' _ [H1 H2 H3 H4]. by split.
  - destruct (list_nav _ _ k) as [n a]. destruct a; cbn; try by apply Hst. by apply inv_form0.
Qed.

Lemma form_over_step c d l f cur s k :
  editing c0 c d f -> form_over c f l -> (forall x, ~ (exists l', l = l' ++ [CommandsScreen (fidx f) x])) ->
  inv c0 (key scan home typed (mkState c d (l ++ [FormScreen f; ListScreen cur]) s) k).
Proof.
  intros He [|n|i Hi|i Hi|n Hc|t Ht|l' n Hk Hl] Hno; cbn [app].
  - by apply form_step.
  - cbn [key stack]. unfold popup. destruct (popup_update _ n k) as [n' a]. destruct a; cbn;
      try (apply (inv_form c0 c d [_]); [done|constructor]); [by apply inv_form0|]. exact (kind_step c d f cur n s choice He).
  - cbn [key stack]. unfold input. destruct (input_update typed i k) as [i' a] eqn:Hu. apply input_facts in Hu as (Hb & _ & Hco & _).
    cbn in Hb, Hco. rewrite Hi in Hb. destruct a; cbn; try (apply (inv_form c0 c d [_]); [done|by constructor]).
    + by apply inv_form0.
    + apply (target_step c d f cur i s val He). destruct (Hco val eq_refl) as [Hx|]; [|done]. by rewrite Hi in Hx.
    + apply (inv_form c0 c d [_; _]); [done|by constructor].
  - cbn [key stack]. destruct (String.eqb k "esc"); cbn.
    + apply (inv_form c0 c d [_]); [done|by apply fo_target].
    + apply (inv_form c0 c d [_; _]); [done|by apply fo_pick].
  - cbn [key stack]. unfold prompt. destruct (prompt_key 2 n k) as [n' a]. destruct a; cbn;
      try (apply (inv_form c0 c d [_]); [done|by constructor]); [by apply inv_form0|].
    exact (partial_step c d f cur n s _ He Hc).
  - by apply tree_step.
  - exfalso. apply (Hno n). by exists l'.
Qed.

(** ** The commands *)

Lemma discover_opened c d f cur n s folder :
  editing c0 c d f -> effectiveKind c f = "cwd" ->
  inv c0 (openDiscoverList scan (mkState c d [CommandsScreen (fidx f) n; FormScreen f; ListScreen cur] s) (fidx f) folder).
Proof. intros He Hk. cbn. apply (inv_commands c0 c d [_]); [done|done|constructor]. Qed.

Lemma commands_step c d l n f cur s k :
  editing c0 c d f -> effectiveKind c f = "cwd" -> cmds_over (fidx f) l ->
  inv c0 (key scan home typed (mkState c d (l ++ [CommandsScreen (fidx f) n; FormScreen f; ListScreen cur]) s) k).
Proof.
  intros He Hk Hl. destruct (ed_at _ _ _ _ He) as (m & Hm & Hu). pose proof Hm as Hm0. unfold mp in Hm0.
  assert (Hset : forall cmds n' s', inv c0 (mkState (set_mapping c (fidx f) (set_commands cmds)) true
    [CommandsScreen (fidx f) n'; FormScreen f; ListScreen cur] s')).
  { intros cmds n' s'. destruct (commands_set c0 c d f cmds He Hk) as [He' Hk'].
    apply (inv_commands c0 _ true []); [done|done|constructor]. }
  assert (Hover : forall l' s', cmds_over (fidx f) l' ->
    inv c0 (mkState c d (l' ++ [CommandsScreen (fidx f) n; FormScreen f; ListScreen cur]) s')) by (intros; by apply inv_commands).
  assert (Hbase : forall n' s', inv c0 (mkState c d [CommandsScreen (fidx f) n'; FormScreen f; ListScreen cur] s')).
  { intros n' s'. apply (inv_commands c0 c d []); [done|done|constructor]. }
  destruct Hl as [| |sugs checked dc|i Hi|e mc|e i mc Hi|e dn mc]; cbn [app key stack].
  - unfold commands_key. cbn [cfg]. rewrite Hm0. destruct (list_nav _ n k) as [n' a]. destruct a; cbn; try by apply Hbase.
    + by apply inv_form0.
    + destruct n as [|[|e]]; cbn.
      * unfold openDiscoverFolder. cbn [cfg]. rewrite Hm0. destruct (negb (str_empty (CwdGlob m))); [by apply discover_opened|].
        apply (Hover [_]); by constructor.
      * apply (Hover [_]); by constructor.
      * destruct (e <? length (Commands m))%nat; cbn; [apply (Hover [_]); by constructor|by apply Hbase].
  - destruct (String.eqb k "esc"); cbn; [by apply Hbase|]. apply (Hover [_]); by constructor.
  - unfold discover_key. destruct (String.eqb k " " || String.eqb k "space").
    { destruct (dc <? length sugs)%nat; cbn; apply (Hover [_]); by constructor. }
    destruct (list_nav _ dc k) as [n' a]. destruct a; cbn; try (by apply Hbase); try (apply (Hover [_]); by constructor).
    destruct (dc =? length sugs)%nat; cbn; [|apply (Hover [_]); by constructor].
    unfold discover_confirm. cbn [cfg]. rewrite Hm0. destruct (append_new (Commands m) _) as [cmds added] eqn:Ha.
    destruct (0 <? added)%nat eqn:Hadd; cbn; [|].
    + rewrite set_mapping_lookup, decide_True by done. rewrite Hm0. cbn. by apply Hset.
    + assert (Hz : added = 0%nat) by (apply Nat.ltb_ge in Hadd; lia).
      pose proof (append_new_none (Commands m) (picked_of sugs checked)) as Hn. rewrite Ha in Hn.
      rewrite (set_same c (fidx f) m cmds Hm0 (Hn Hz)). by apply Hbase.
  - unfold input. destruct (input_update typed i k) as [i' a] eqn:Hin. apply input_facts in Hin as (_ & Hb & _ & Hbr). cbn in Hb, Hbr.
    rewrite Hi in Hb, Hbr. destruct a; cbn; try (by apply Hbase); try (apply (Hover [_]); by constructor).
    + unfold command_added. destruct (str_empty (trim_space val)); cbn; [apply (Hover [_]); by constructor|]. rewrite Hm0.
      destruct (hasCommand (Commands m) (trim_space val)); cbn; [apply (Hover [_]); by constructor|].
      rewrite set_mapping_lookup, decide_True by done. rewrite Hm0. cbn. by apply Hset.
    + by specialize (Hbr _ eq_refl).
  - unfold popup. destruct (popup_update _ mc k) as [n' a]. destruct a; cbn; try (by apply Hbase); try (apply (Hover [_]); by constructor).
    unfold command_choice. destruct (String.eqb choice "Edit"); cbn; [apply (Hover [_; _]); by constructor|].
    destruct (String.eqb choice "Delete"); cbn; [apply (Hover [_; _]); by constructor|by apply Hbase].
  - unfold input. destruct (input_update typed i k) as [i' a] eqn:Hin. apply input_facts in Hin as (_ & Hb & _ & Hbr). cbn in Hb, Hbr.
    rewrite Hi in Hb, Hbr.
    assert (Hmenu : forall s', inv c0 (mkState c d [CommandMenu (fidx f) e mc; CommandsScreen (fidx f) n; FormScreen f; ListScreen cur] s')).
    { intros s'. apply (Hover [_]). constructor. }
    destruct a; cbn; try exact (Hmenu _); try (apply (Hover [_; _]); by constructor).
    + unfold command_edited. destruct (str_empty (trim_space val)); cbn; [apply (Hover [_; _]); by constructor|]. rewrite Hm0.
      destruct (Commands m !! e) as [old|]; [|exact (Hmenu _)]. destruct (String.eqb (trim_space val) old); [by apply Hbase|].
      destruct (hasCommand (Commands m) (trim_space val)); cbn; [apply (Hover [_; _]); by constructor|].
      rewrite set_mapping_lookup, decide_True by done. rewrite Hm0. cbn. by apply Hset.
    + by specialize (Hbr _ eq_refl).
  - unfold prompt. destruct (prompt_key 2 dn k) as [n' a]. destruct a; cbn; try (apply (Hover [_; _]); by constructor); try (apply (Hover [_]); by constructor).
    destruct n' as [|n']; cbn; [|apply (Hover [_]); by constructor]. unfold command_deleted. cbn [cfg]. rewrite Hm0. cbn.
    rewrite set_mapping_lookup, decide_True by done. rewrite Hm0. cbn. by apply Hset.
Qed.

(** A picked folder, and the bags of the remote sources. *)
Lemma picked_commands_step c d f cur n s path :
  editing c0 c d f -> effectiveKind c f = "cwd" ->
  inv c0 (commands_picked scan (mkState c d [CommandsScreen (fidx f) n; FormScreen f; ListScreen cur] s) (fidx f) path).
Proof.
  intros He Hk. destruct (ed_at _ _ _ _ He) as (m & Hm & Hu). pose proof Hm as Hm0. unfold mp in Hm0.
  unfold commands_picked. cbn [cfg]. rewrite Hm0. destruct (str_empty (CwdGlob m)) eqn:Hg; [|by apply discover_opened].
  destruct (kind_cwd_no_other c f m Hm Hu Hk) as [Hp Hgl]. cbn [exec fold_left exec1 with_cfg stack status cfg].
  assert (Hn : no_target m = true) by (unfold no_target; by rewrite Hp, Hgl, Hg).
  apply discover_opened.
  - apply (editing_set c0 c d f f); try done. intros m' Hm' _. rewrite Hm in Hm'. injection Hm' as <-. split; cbn.
    + unfold count_set. cbn. rewrite Hp, Hgl. destruct (str_empty path); cbn; lia.
    + rewrite Hp, Hgl. by intros [?|?].
    + intros _ Hc. by apply (ue_pending f m Hu).
    + intros Hc. by rewrite (ue_old f m Hu Hc) in Hn.
  - unfold effectiveKind in *. rewrite (mp_fresh c f _ m Hm). rewrite Hm in Hk. unfold Kind in *. cbn.
    rewrite Hp, Hgl in *. rewrite Hg in Hk. cbn in *. by destruct (str_empty path).
Qed.

Lemma inv_step st e : inv c0 st -> inv c0 (step st e).
Proof.
  intros [c d s Hl|c d l cur s Hl Ho|c d l f cur s He Hf].
  - destruct e; cbn; by apply inv_closed.
  - destruct e as [k|path|results]; [by apply list_over_step| |]; destruct Ho as [|idx pc Hi|idx n pc Hi]; cbn;
      try (apply (inv_list c0 c d [_]); [done|by constructor]); try (apply (inv_list c0 c d [_; _]); [done|by constructor]);
      by apply inv_list0.
  - assert (Hcmd : forall n l', effectiveKind c f = "cwd" -> cmds_over (fidx f) l' ->
      inv c0 (step (mkState c d (l' ++ [CommandsScreen (fidx f) n; FormScreen f; ListScreen cur]) s) e)).
    { intros n l' Hk Hl'. destruct e as [k|path|results]; [by apply commands_step| |].
      - destruct Hl'; cbn; try (by apply (inv_commands c0 c d [_]); [..|constructor]);
          try (by apply (inv_commands c0 c d [_; _]); [..|constructor]).
        + apply (inv_commands c0 c d []); [done|done|constructor].
        + by apply picked_commands_step.
      - destruct Hl'; cbn; try (by apply (inv_commands c0 c d [_]); [..|constructor]);
          try (by apply (inv_commands c0 c d [_; _]); [..|constructor]).
        apply (inv_commands c0 c d []); [done|done|constructor]. }
    destruct Hf as [|n|i Hi|i Hi|n Hc|t Ht|l' n Hk Hl'].
    7: { rewrite <- app_assoc. by apply Hcmd. }
    all: destruct e as [k|path|results].
    all: try (apply form_over_step; [done|by constructor|intros x [l' Hx]; destruct l' as [|? [|? [|? l']]]; discriminate Hx]).
    all: cbn; try (apply (inv_form c0 c d [_]); [done|by constructor]); try (by apply inv_form0).
    + apply (inv_form c0 c d [_]); [done|]. apply fo_target. unfold path_picked. by destruct (str_empty path).
    + apply (inv_form c0 c d [_; _]); [done|by apply fo_pick].
Qed.

Definition start (cur : nat) : state := mkState c0 false [ListScreen cur] (Plain EmptyString).
Definition run (es : list event) (st : state) : state := fold_left step es st.

Lemma inv_run cur es : Forall settled (Mappings c0) -> inv c0 (run es (start cur)).
Proof.
  intros Hs. assert (Hi : inv c0 (start cur)).
  { apply inv_list0. split; [done| |done]. symmetry. apply with_mappings_same. }
  revert Hi. generalize (start cur). induction es as [|e es IH]; intros st Hi; [done|]. apply IH. by apply inv_step.
Qed.
End Steps.

(** C22.  The mapping screens never leave a mapping behind that they did not mean to.  From a
    configuration whose mappings each have one target, and commands with a directory only,
    whatever keys are pressed, paths picked and bags loaded: nothing but the mappings
    changes; an open form always has its mapping; back on the list every mapping still has
    one target, and commands with a directory only; and while nothing has marked the
    configuration as changed, it is the one the session started with, so leaving without a
    prompt loses nothing. *)
Theorem mappings_settle `{MapRange} scan home typed c0 cur es :
  Forall settled (Mappings c0) ->
  let st := run scan home typed es (start c0 cur) in
  cfg st = with_mappings c0 (Mappings (cfg st))
  /\ (forall f, owner_form (stack st) = Some f -> is_Some (mp (cfg st) f))
  /\ (owner_form (stack st) = None -> Forall settled (Mappings (cfg st)) /\ (dirty st = false -> cfg st = c0)).
Proof.
  intros Hs. pose proof (inv_run scan home typed c0 cur es Hs) as Hi. cbn zeta. revert Hi. generalize (run scan home typed es (start c0 cur)).
  intros st [c d s Hl|c d l lc s Hl Ho|c d l f lc s He Hf]; cbn [cfg stack dirty].
  - destruct Hl. split; [done|]. by split.
  - destruct Hl. split; [done|]. destruct Ho; cbn; by split.
  - split; [by apply (ed_only _ _ _ _ He)|]. assert (Ho : owner_form (l ++ [FormScreen f; ListScreen lc]) = Some f).
    { destruct Hf as [| | | | | |l' n Hk [| | | | | |]]; done. }
    rewrite Ho. split; [|done]. intros f' [= <-]. destruct (ed_at _ _ _ _ He) as (m & Hm & _). by eexists.
Qed.

(** What the form calls complete. *)
Definition complete (m : Mapping) : Prop :=
  no_target m = false /\ Vars m <> [] /\ (CwdGlob m <> "" -> Commands m <> []).

Lemma complete_spec m : isEmpty m = false -> isPartial m = false -> complete m.
Proof.
  unfold isEmpty, isPartial, complete. destruct (no_target m); cbn; [by destruct (no_vars m)|].
  unfold no_vars. case_bool_decide as Hv; [done|]. intros _ Hc. split; [done|]. split; [done|]. intros Hg.
  apply str_empty_false in Hg. rewrite Hg in Hc. cbn in Hc. by apply bool_decide_eq_false in Hc.
Qed.

(** Esc on a new mapping: it is complete and stays, or it is the empty one and goes, or the
    user is asked. *)
Lemma esc_on_new st f l m :
  stack st = [FormScreen f; ListScreen l] -> creating f = true -> mp (cfg st) f = Some m ->
  let st' := form_esc st f in
  (complete m /\ stack st' = [ListScreen l] /\ cfg st' = cfg st)
  \/ (isEmpty m = true /\ (exists l', stack st' = [ListScreen l']) /\ Mappings (cfg st') = delete (fidx f) (Mappings (cfg st)))
  \/ (~ complete m /\ stack st' = PartialConfirm 0 :: stack st /\ cfg st' = cfg st).
Proof.
  intros Hst Hc Hm. unfold form_esc. rewrite Hm, Hc. cbn [andb]. destruct (isEmpty m) eqn:He.
  - right. left. split; [done|]. unfold discardMapping, remove_mapping. unfold mp in Hm. apply lookup_lt_Some in Hm.
    apply Nat.ltb_lt in Hm. rewrite Hm. cbn. rewrite Hst. cbn. split; [by eexists|]. symmetry. apply delete_take_drop.
  - destruct (isPartial m) eqn:Hp.
    + right. right. split; [|done]. intros (Hn & Hv & Hcmd). unfold isPartial in Hp. rewrite Hn in Hp. cbn in Hp.
      unfold no_vars in Hp. rewrite bool_decide_eq_false_2 in Hp by done. apply andb_true_iff in Hp as [Hg Hx].
      apply negb_true_iff, str_empty_false in Hg. apply bool_decide_eq_true in Hx. by apply Hcmd.
    + left. split; [by apply complete_spec|]. cbn. by rewrite Hst.
Qed.

(** ** Some sessions *)

#[local] Existing Instance map_range_default.

#[local] Abbreviation ex_run es :=
  (run (fun _ => ["npm"]) (Some "/h") (fun k v => v +:+ k) es (start TuiTree.ex_plain 0)).

(** A new mapping: its path, then a whole bag. *)
Definition ex_new : list event :=
  Key <$> ["enter"; "down"; "enter"; "/bin/tool"; "enter"; "down"; "enter"; "enter"; "esc"; "esc"].

Lemma mappings_settle_witness :
  Mappings (cfg (ex_run ex_new)) = [mkMapping "/bin/tool" "" "" [] [mkVar "" "local" "app" "" ∅ ""]]
  /\ Forall settled (Mappings (cfg (ex_run ex_new))).
Proof.
  split; [vm_compute; reflexivity|].
  assert (Hn : owner_form (stack (ex_run ex_new)) = None) by (vm_compute; reflexivity).
  destruct (mappings_settle (fun _ => ["npm"]) (Some "/h") (fun k v => v +:+ k) TuiTree.ex_plain 0 ex_new (Forall_nil_2 settled)) as (_ & _ & Hl).
  exact (proj1 (Hl Hn)).
Defined.

(** Backing out leaves nothing; a change of kind keeps the target; a directory discovers its commands. *)
Example backing_out : let st := ex_run (Key <$> ["enter"; "esc"]) in cfg st = TuiTree.ex_plain /\ dirty st = false.
Proof. vm_compute. auto. Qed.

Definition ex_kinds : state :=
  ex_run (Key <$> ["enter"; "down"; "enter"; "~/w/**"; "enter"; "up"; "enter"; "down"; "down"; "enter"; "down"; "down"; "enter";
                   "enter"; "down"; "enter"]).
Example kinds : Mappings (cfg ex_kinds) = [mkMapping "" "" "~/w/**" ["npm"] []].
Proof. vm_compute. reflexivity. Qed.

(** ** What the counts do not agree on *)

(** A named var of a local bag without a key is one variable to the list of mappings and
    as many as the bag has keys to the form. *)
Definition ex_counted : Mapping := mkMapping "/bin/tool" "" "" [] [mkVar "ALL" "local" "app" "" ∅ ""].
Example counts_disagree :
  expandedVarCount TuiTree.ex_plain ex_counted = (1%nat, true) /\ localVarCount TuiTree.ex_plain ex_counted = 2%nat.
Proof. vm_compute. auto. Qed.

(** A brace is a wildcard to the matcher and none to the folder that discovery scans. *)
Example brace_scanned : resolveCwdGlobToFolder (Some "/h") "~/{a,b}/x" = "/h/{a,b}/x"
  /\ resolveCwdGlobToFolder (Some "/h") "~/work/**" = "/h/work".
Proof. vm_compute. auto. Qed.
End TuiMappings.
