(* ===== verification/FilePicker.v ===== *)
(** * The file picker of the editor (src/internal/tui/file_picker_screen.go)

    Where the picker starts for a half-typed path, and the screen around the picker of the
    widget library, which is an interface: the fields the code sets, and what an update and
    a selection are. *)

From S2P Require Import Prelude GoString GoPath Fs ConfigPath TuiMappings.
Import Fs.

Module FilePicker.

(** ** Where it starts *)

Section Start.
Context `{Os}.

Definition is_dir (p : string) : M FErr bool := r ← attempt (stat p); mret (match r with Ok NDir => true | _ => false end).

(** Up to the first directory there is; [None]: none. *)
Fixpoint climb (n : nat) (v : string) : M FErr (option string) :=
  match n with
  | O => mret None
  | S n' =>
      let parent := GoPath.Dir v in
      if String.eqb parent v then mret None
      else d ← is_dir parent; if d : bool then mret (Some parent) else climb n' parent
  end.

Definition or_home : string := default "." ConfigPath.UserHomeDir.

Definition expand (v : string) : string :=
  if has_prefix v "~" then match ConfigPath.UserHomeDir with Some h => h +:+ trim_prefix v "~" | None => v end else v.

Definition pickerStartDir (currentVal : string) : M FErr string :=
  let v := TuiMappings.staticPrefix (trim_space currentVal) in
  if str_empty v then mret or_home
  else
    let v := expand v in
    info ← attempt (stat v);
    match info with
    | Ok NDir => mret v
    | Ok _ => mret (GoPath.Dir v)
    | Err _ => up ← climb (S (S (String.length v))) v; mret (default or_home up)
    end.
End Start.

(** ** The screen *)

Inductive pickerMode := pickFile | pickDir.
#[export] Instance pickerMode_eq_dec : EqDecision pickerMode.
Proof. solve_decision. Defined.

(** The picker's own fields that the code sets; the rest of it is [I]. *)
Record picker (I : Type) := mkPicker {
  AutoHeight : bool;
  Height : nat;
  CurrentDirectory : string;
  ShowHidden : bool;
  FileAllowed : bool;
  DirAllowed : bool;
  BackKeys : list string;
  internal : I
}.
Arguments mkPicker {I}. Arguments AutoHeight {I}. Arguments Height {I}. Arguments CurrentDirectory {I}. Arguments ShowHidden {I}.
Arguments FileAllowed {I}. Arguments DirAllowed {I}. Arguments BackKeys {I}. Arguments internal {I}.

(** The library: a fresh picker, what it does with a message, the selection a message is,
    and its drawing. *)
Class Picker (I Msg : Type) := {
  New : picker I;
  fpUpdate : picker I -> Msg -> picker I;
  DidSelectFile : picker I -> Msg -> option string;
  fpView : picker I -> string;
  key_of : Msg -> option string
}.

Section Screen.
Context {I Msg : Type} `{!Picker I Msg} (dimText : string -> string).

Record filePickerScreen := mkScreen { fp : picker I; mode : pickerMode; prompt : string }.

Definition newFilePickerScreen (m : pickerMode) (startDir : string) : filePickerScreen :=
  let allow_file := match m with pickDir => false | pickFile => true end in
  mkScreen
    (mkPicker false 15 startDir false allow_file (negb allow_file) ["h"; "left"; "backspace"] (internal New))
    m
    (match m with
     | pickFile => "Navigate with arrow keys / hjkl, enter to pick, esc to cancel. Press . to toggle hidden files."
     | pickDir => "Navigate into a directory to pick it. Arrow keys / hjkl, enter to pick, esc to cancel. Press . to toggle hidden files."
     end).

Definition Title (s : filePickerScreen) : string := match mode s with pickDir => "pick a directory" | pickFile => "pick a file" end.

(** What follows an update: nothing but what the library asked for, the directory read anew,
    the screen gone, or the screen gone and the path told to the one below. *)
Inductive outcome := Goes | Rereads | Cancels | Picks (path : string).

Definition toggle_hidden (p : picker I) : picker I :=
  mkPicker (AutoHeight p) (Height p) (CurrentDirectory p) (negb (ShowHidden p)) (FileAllowed p) (DirAllowed p) (BackKeys p) (internal p).

Definition Update (s : filePickerScreen) (msg : Msg) : filePickerScreen * outcome :=
  let k := key_of msg in
  if bool_decide (k = Some "esc") then (s, Cancels)
  else if bool_decide (k = Some ".") then (mkScreen (toggle_hidden (fp s)) (mode s) (prompt s), Rereads)
  else
    let p := fpUpdate (fp s) msg in
    (mkScreen p (mode s) (prompt s), match DidSelectFile p msg with Some path => Picks path | None => Goes end).

Definition View (s : filePickerScreen) : string :=
  (if str_empty (prompt s) then EmptyString else dimText (prompt s) +:+ str1 LF +:+ str1 LF) +:+ fpView (fp s).
End Screen.

(** ** What they promise *)

Section Promises.
Context `{Os}.

(** The climb ends for want of a further parent, never for want of fuel. *)
Lemma climb_enough n v w :
  (S (String.length v) < n)%nat \/ v = "." /\ (0 < n)%nat -> forall m, climb (n + m) v w = climb n v w.
Proof.
  revert v w. induction n as [|n IH]; intros v w Hn m; [lia|]. cbn [Nat.add climb].
  destruct (String.eqb_spec (GoPath.Dir v) v) as [He|Hne]; [done|].
  destruct Hn as [Hn|[-> _]]; [|by destruct Hne].
  unfold mbind, M_bind. destruct (is_dir (GoPath.Dir v) w) as [[d|e] w1]; [|done]. destruct d; [done|]. apply IH.
  destruct (GoPath.Dir_progress v) as [He|[Hl|Hd]]; [done|left; lia|right; split; [done|lia]].
Qed.

Lemma is_dir_spec p w : exists d w1, is_dir p w = (Ok d, w1) /\ fs w1 = fs w /\ (d = true -> exists w0, fs w0 = fs w /\ (stat p w0).1 = Ok NDir).
Proof.
  unfold is_dir, attempt, mbind, M_bind. destruct (stat p w) as [r w1] eqn:Hs. eexists _, w1. split; [done|].
  split; [by apply reads_fs, (stat_reads p w r)|]. intros Hd. exists w. split; [done|]. rewrite Hs. by destruct r as [[]|].
Qed.

(** What the climb finds is a directory above the path. *)
Lemma climb_spec n v w : exists o w1, climb n v w = (Ok o, w1) /\ fs w1 = fs w
  /\ forall p, o = Some p -> (exists w0, fs w0 = fs w /\ (stat p w0).1 = Ok NDir) /\ exists k, p = Nat.iter (S k) GoPath.Dir v.
Proof.
  revert v w. induction n as [|n IH]; intros v w; cbn [climb]; [by eexists _, _|].
  destruct (String.eqb _ _); [by eexists _, _|]. destruct (is_dir_spec (GoPath.Dir v) w) as (d & w1 & Hd & Hf & Hok).
  unfold mbind, M_bind. rewrite Hd. destruct d.
  - eexists _, _. split; [done|]. split; [done|]. intros p [= <-]. split; [by apply Hok|]. by exists 0%nat.
  - destruct (IH (GoPath.Dir v) w1) as (o & w2 & Hc & Hf2 & Hp). rewrite Hc. eexists _, _. split; [done|].
    split; [congruence|]. intros p Hop. destruct (Hp p Hop) as [(w0 & Hw0 & Hs) (k & ->)]. split; [exists w0; split; [congruence|done]|]. exists (S k).
    by rewrite (Nat.iter_succ_r (S k)).
Qed.

(** The picker always starts somewhere and nothing is written: at the home directory or the
    current one, at a directory there is, or next to what the path names. *)
Lemma pickerStartDir_spec current w :
  exists p w1, pickerStartDir current w = (Ok p, w1) /\ fs w1 = fs w
  /\ (p = or_home \/ (exists w0, fs w0 = fs w /\ (stat p w0).1 = Ok NDir)
      \/ exists v w0 n, fs w0 = fs w /\ (stat v w0).1 = Ok n /\ p = GoPath.Dir v).
Proof.
  unfold pickerStartDir. destruct (str_empty _); [by eexists _, _; auto|]. set (v := expand _).
  unfold attempt, mbind, M_bind. destruct (stat v w) as [r w1] eqn:Hs. pose proof (reads_fs _ _ (stat_reads _ _ _ _ Hs)) as Hf.
  assert (Hs1 : (stat v w).1 = r) by by rewrite Hs.
  destruct r as [n|e].
  - destruct n; eexists _, _; (split; [done|]); (split; [done|]); right; [right; eexists _, w, _; eauto..|].
    left. by exists w.
  - destruct (climb_spec (S (S (String.length v))) v w1) as (o & w2 & Hc & Hf2 & Hp). rewrite Hc. eexists _, _. split; [done|].
    split; [congruence|]. destruct o as [p|]; [|by left]. destruct (Hp p eq_refl) as [(w0 & Hw0 & ?) _].
    right. left. exists w0. split; [congruence|done].
Qed.
End Promises.

(** A pattern below the root starts at home, not at the root. *)
Definition home_os : Os := {| fails _ := false; partial _ := 0%nat; temp_rand _ _ := ""; clock _ := 0%Z;
  getenv k := if String.eqb k "HOME" then Some "/home/u" else None |}.
Definition some_files : files := list_to_map [("/", NDir); ("/home", NDir); ("/home/u", NDir); ("/home/u/w", NDir); ("/home/u/w/a.sh", NFile "" 420 0)].
Example start_dirs :
  (fun v => (@pickerStartDir home_os v (start some_files)).1) <$> ["~/w/**/*.sh"; "/home/u/w/a.sh"; "/home/u/gone/x/y"; ""; "/*.sh"]
  = [Ok "/home/u/w"; Ok "/home/u/w"; Ok "/home/u"; Ok "/home/u"; Ok "/home/u"].
Proof. vm_compute. reflexivity. Qed.

(** A picker for files never offers directories, nor the other way round, as long as the
    library leaves alone the two fields the screen has set. *)
Lemma picker_mode {I Msg} `{!Picker I Msg} :
  (forall p m, FileAllowed (fpUpdate p m) = FileAllowed p /\ DirAllowed (fpUpdate p m) = DirAllowed p) ->
  forall (m : pickerMode) dir msgs, let s := fold_left (fun s msg => (Update s msg).1) msgs (newFilePickerScreen m dir) in
    mode s = m /\ FileAllowed (fp s) = bool_decide (m = pickFile) /\ DirAllowed (fp s) = bool_decide (m = pickDir).
Proof.
  intros Hl m dir msgs. cbn zeta.
  assert (Hs : forall s, mode s = m /\ FileAllowed (fp s) = bool_decide (m = pickFile) /\ DirAllowed (fp s) = bool_decide (m = pickDir) ->
      let t := fold_left (fun s msg => (Update s msg).1) msgs s in
      mode t = m /\ FileAllowed (fp t) = bool_decide (m = pickFile) /\ DirAllowed (fp t) = bool_decide (m = pickDir)).
  { induction msgs as [|x msgs IH]; intros s Hs; [done|]. apply IH. unfold Update.
    destruct (bool_decide (key_of x = Some "esc")); [done|]. destruct (bool_decide (key_of x = Some ".")); [done|]. cbn. by destruct (Hl (fp s) x) as [-> ->]. }
  apply Hs. by destruct m.
Qed.
End FilePicker.
