(* ===== verification/TuiSecrets.v ===== *)
(** * Bags and keys in the editor (src/internal/tui/secrets_screen.go, bag_bulk_import.go)

    What adding and deleting bags and keys does to the configuration in memory, the
    key-and-value editor, and the bulk import with its preview.  Renames and the commit of
    the editor are TuiRefs's.  What the screens draw is in TuiView. *)

From S2P Require Import Prelude GoString Dotenv ConfigModel Edit Bag TuiRefs TuiWidgets TuiTree.
Import Config Edit TuiRefs TuiWidgets.

Module TuiSecrets.

Section Secrets.
Context `{MapRange}.

(** ** Bags *)

Definition ensureLocalSourceExists (c : Config) : Config :=
  if existsb (fun ns => String.eqb (Type_ ns.2) "local") (map_range 100 (Sources c)) then c
  else with_sources c (<["local" := mkSource "local" ∅]> (Sources c)).

(** The callback of newAddBagScreen. *)
Definition add_bag (c : Config) (val : string) : typed :=
  let name := trim_space val in
  if str_empty name then NameRequired
  else match Secrets c !! name with
       | Some _ => Exists
       | None => Done (ensureLocalSourceExists (with_secrets c (<[name := ∅]> (Secrets c))))
       end.

Definition delete_bag (c : Config) (bag : string) : Config := with_secrets c (delete bag (Secrets c)).
Definition delete_key (c : Config) (bag key : string) : Config := with_secrets c (alter (delete key) bag (Secrets c)).

Definition selectedBag (bags : list string) (cursor : nat) : string :=
  match cursor with O => EmptyString | S i => nth i bags EmptyString end.

(** Two rows stand above the keys. *)
Definition secretDetailSentinelCount : nat := 2.
Definition selectedKey (keys : list string) (cursor : nat) : string :=
  if (cursor <? secretDetailSentinelCount)%nat then EmptyString else nth (cursor - secretDetailSentinelCount) keys EmptyString.

(** *** The two lists: their rows after a change, and their keys *)

Record rows := mkRows { names : list string; cursor : nat }.

Definition secrets_refresh (c : Config) (s : rows) : rows :=
  let bags := TuiTree.bagNames c in mkRows bags (clamp (cursor s) (length bags)).
Definition detail_refresh (c : Config) (bag : string) (s : rows) : rows :=
  let keys := TuiTree.sortedBagKeys c bag in mkRows keys (clamp (cursor s) (length keys + secretDetailSentinelCount - 1)).

Definition newSecretsListScreen (c : Config) : rows := secrets_refresh c (mkRows [] 0).
Definition newSecretDetailScreen (c : Config) (bag : string) : rows := detail_refresh c bag (mkRows [] 0).

(** What a key opens. *)
Inductive destination :=
| Nothing | Leave
| AddBag | BagMenu (bag : string)
| NewKey | BulkImport | KeyMenu (key : string) | ToggleReveal (key : string).

Definition unless_blank (s : string) (o : string -> destination) : destination := if str_empty s then Nothing else o s.

Definition secrets_list_update (s : rows) (k : string) : rows * destination :=
  let '(c, a) := list_nav (length (names s) + 1) (cursor s) k in
  (mkRows (names s) c,
   match a with
   | Entered => match cursor s with O => AddBag | _ => unless_blank (selectedBag (names s) (cursor s)) BagMenu end
   | Close => Leave
   | _ => Nothing
   end).

Definition secret_detail_update (s : rows) (k : string) : rows * destination :=
  let '(c, a) := list_nav (length (names s) + secretDetailSentinelCount) (cursor s) k in
  (mkRows (names s) c,
   if String.eqb k "r" then unless_blank (selectedKey (names s) (cursor s)) ToggleReveal
   else match a with
        | Entered => match cursor s with
                     | O => NewKey
                     | 1%nat => BulkImport
                     | _ => unless_blank (selectedKey (names s) (cursor s)) KeyMenu
                     end
        | Close => Leave
        | _ => Nothing
        end).

(** ** The key-and-value editor *)

Record kvEditScreen := mkKv {
  kvBag : string;
  existingKey : string;
  keyIn : string;
  valIn : string;
  kfield : bool;                   (* false: the key, true: the value *)
  kfocus : option nat;
  kbuttons : list string;
  masked : bool;
  kerr : string
}.

(** [fits] is what a text field makes of a value it is given, within its limit. *)
Definition newKeyValueEditor (fits : string -> string) (c : Config) (bag existing : string) : kvEditScreen :=
  let buttons := ["Apply"; "Reveal"; "Back"] in
  if str_empty existing then mkKv bag EmptyString EmptyString EmptyString false None buttons true EmptyString
  else mkKv bag existing (fits existing) (fits (default EmptyString (default ∅ (Secrets c !! bag) !! existing))) true None buttons true EmptyString.

Definition kv_at (s : kvEditScreen) (fld : bool) (b : option nat) : kvEditScreen :=
  mkKv (kvBag s) (existingKey s) (keyIn s) (valIn s) fld b (kbuttons s) (masked s) (kerr s).
Definition kv_text (s : kvEditScreen) (k v : string) : kvEditScreen :=
  mkKv (kvBag s) (existingKey s) k v (kfield s) (kfocus s) (kbuttons s) (masked s) (kerr s).
Definition kv_echo (s : kvEditScreen) (m : bool) (b : nat) (label : string) : kvEditScreen :=
  mkKv (kvBag s) (existingKey s) (keyIn s) (valIn s) (kfield s) (kfocus s) (<[b := label]> (kbuttons s)) m (kerr s).

Definition advance (s : kvEditScreen) (forward : bool) : kvEditScreen :=
  let n := length (kbuttons s) in
  if forward then
    match kfocus s with
    | None => if kfield s then kv_at s true (Some 0%nat) else kv_at s true None
    | Some b => if (b <? n - 1)%nat then kv_at s (kfield s) (Some (S b)) else kv_at s false None
    end
  else
    match kfocus s with
    | Some (S b) => kv_at s (kfield s) (Some b)
    | Some O => kv_at s true None
    | None => if kfield s then kv_at s false None else kv_at s false (Some (n - 1)%nat)
    end.

(** Enter in a field commits; what a key does otherwise. *)
Definition kv_update (typed : string -> string -> string) (s : kvEditScreen) (k : string) : kvEditScreen * answer :=
  let text := match kfocus s with
              | Some _ => (s, Stay)
              | None => (if kfield s then kv_text s (keyIn s) (typed k (valIn s)) else kv_text s (typed k (keyIn s)) (valIn s), Stay)
              end in
  if String.eqb k "esc" then (s, Close)
  else if String.eqb k "tab" then (advance s true, Stay)
  else if String.eqb k "shift+tab" then (advance s false, Stay)
  else if String.eqb k "down" then
    (match kfocus s with None => if kfield s then kv_at s true (Some 0%nat) else kv_at s true None | Some _ => s end, Stay)
  else if String.eqb k "up" then
    (match kfocus s with Some _ => kv_at s true None | None => kv_at s false None end, Stay)
  else if String.eqb k "left" then match kfocus s with Some (S b) => (kv_at s (kfield s) (Some b), Stay) | _ => text end
  else if String.eqb k "right" then
    match kfocus s with
    | Some b => if (b <? length (kbuttons s) - 1)%nat then (kv_at s (kfield s) (Some (S b)), Stay) else (s, Stay)
    | None => text
    end
  else if String.eqb k "enter" then
    match kfocus s with
    | None => (s, Entered)
    | Some b =>
        let label := nth b (kbuttons s) EmptyString in
        if String.eqb label "Apply" then (s, Entered)
        else if String.eqb label "Reveal" then
          (if masked s then kv_echo s false b "Hide" else kv_echo s true b "Reveal", Stay)
        else if String.eqb label "Hide" then (kv_echo s true b "Reveal", Stay)
        else (s, Close)
    end
  else text.

(** kvEditScreen.commit and kvEditVerb. *)
Definition kv_commit (c : Config) (s : kvEditScreen) : typed := commit_key c (kvBag s) (existingKey s) (keyIn s) (valIn s).

Definition kvEditVerb (existing key : string) : string :=
  if str_empty existing then "added key " +:+ key
  else if negb (String.eqb key existing) then "renamed key to " +:+ key
  else "edited key " +:+ key.

(** ** Bulk import *)

Record bulkScreen := mkBulk {
  bbag : string;
  preview : bool;
  area : string;
  bfocus : option nat;
  parseErrs : list Dotenv.ParseError;
  pairs : list Dotenv.Pair;
  collisions : list string
}.

Definition newBulk (bag : string) : bulkScreen := mkBulk bag false EmptyString None [] [] [].

(** The pairs that stay: the last of each key, in place. *)
Definition kept (l : list Dotenv.Pair) : list Dotenv.Pair :=
  omap (fun ip => if bool_decide (Bag.last_index l !! Dotenv.Key ip.2 = Some ip.1) then Some ip.2 else None) (imap pair l).

Definition runParse (c : Config) (s : bulkScreen) (input : string) : bulkScreen :=
  let (l, errs) := Dotenv.Parse input in
  match errs with
  | _ :: _ => mkBulk (bbag s) (preview s) (area s) (bfocus s) errs [] []
  | [] =>
      match l with
      | [] => mkBulk (bbag s) (preview s) (area s) (bfocus s) [] [] []
      | _ =>
          let existing := default ∅ (Secrets c !! bbag s) in
          let ps := kept l in
          mkBulk (bbag s) true (area s) (Some 0%nat) [] ps
            (sort_strings (omap (fun p => match existing !! Dotenv.Key p with Some _ => Some (Dotenv.Key p) | None => None end) ps))
      end
  end.

(** loadFromFile: [None] when the file cannot be read; the text area holds what the framework's
    widget makes of the contents, the parser gets the contents. *)
Definition loadFromFile (shown : string -> string) (c : Config) (s : bulkScreen) (data : option string) : bulkScreen :=
  match data with
  | None => s
  | Some d => runParse c (mkBulk (bbag s) (preview s) (shown d) (bfocus s) (parseErrs s) (pairs s) (collisions s)) d
  end.

Definition merge_step (overwrite : bool) (acc : gmap string string * Bag.upsertStats) (p : Dotenv.Pair)
    : gmap string string * Bag.upsertStats :=
  let '(bag, st) := acc in
  match bag !! Dotenv.Key p with
  | Some _ =>
      if negb overwrite then (bag, Bag.mkStats (Bag.Added st) (Bag.Overwritten st) (S (Bag.Skipped st)))
      else (<[Dotenv.Key p := Dotenv.Value p]> bag, Bag.mkStats (Bag.Added st) (S (Bag.Overwritten st)) (Bag.Skipped st))
  | None => (<[Dotenv.Key p := Dotenv.Value p]> bag, Bag.mkStats (S (Bag.Added st)) (Bag.Overwritten st) (Bag.Skipped st))
  end.

(** added, replaced and skipped, for the status line *)
Definition commitMerge (c : Config) (s : bulkScreen) (overwrite : bool) : Config * Bag.upsertStats :=
  let '(bag, st) := fold_left (merge_step overwrite) (pairs s) (default ∅ (Secrets c !! bbag s), Bag.mkStats 0 0 0) in
  (with_secrets c (<[bbag s := bag]> (Secrets c)), st).

(** apply: at once, or after a question. *)
Inductive applied := Merged (r : Config * Bag.upsertStats) | AskPolicy (n : nat).
Definition apply (c : Config) (s : bulkScreen) : applied :=
  match collisions s with [] => Merged (commitMerge c s true) | l => AskPolicy (length l) end.

(** The answer: Overwrite all, Skip all, Back. *)
Definition policy_chosen (c : Config) (s : bulkScreen) (choice : string) : option (Config * Bag.upsertStats) :=
  if String.eqb choice "Overwrite all" then Some (commitMerge c s true)
  else if String.eqb choice "Skip all" then Some (commitMerge c s false)
  else None.

Definition edit_buttons : list string := ["Parse"; "Load from file"; "Back"].
Definition preview_buttons : list string := ["Apply"; "Back to edit"].

Definition bulk_advance (s : bulkScreen) (forward : bool) : bulkScreen :=
  let n := length edit_buttons in
  let at_ b := mkBulk (bbag s) (preview s) (area s) b (parseErrs s) (pairs s) (collisions s) in
  if forward then
    match bfocus s with
    | None => at_ (Some 0%nat)
    | Some b => if (b <? n - 1)%nat then at_ (Some (S b)) else at_ None
    end
  else match bfocus s with
       | None => at_ (Some (n - 1)%nat)
       | Some (S b) => at_ (Some b)
       | Some O => at_ None
       end.

Definition updatePreview (s : bulkScreen) (k : string) : bulkScreen * answer :=
  let at_ b := mkBulk (bbag s) (preview s) (area s) (Some b) (parseErrs s) (pairs s) (collisions s) in
  let n := length preview_buttons in
  let b := default 0%nat (bfocus s) in
  if String.eqb k "esc" then (s, Close)
  else if String.eqb k "tab" || String.eqb k "right" then (at_ (if (b <? n - 1)%nat then S b else 0)%nat, Stay)
  else if String.eqb k "shift+tab" || String.eqb k "left" then (at_ (if (0 <? b)%nat then pred b else n - 1)%nat, Stay)
  else if String.eqb k "enter" then
    match b with
    | O => (s, Entered)
    | _ => (mkBulk (bbag s) false (area s) None (parseErrs s) (pairs s) (collisions s), Stay)
    end
  else (s, Stay).

Definition updateEdit (typed : string -> string -> string) (c : Config) (s : bulkScreen) (k : string) : bulkScreen * answer :=
  let text := match bfocus s with
              | None => (mkBulk (bbag s) (preview s) (typed k (area s)) None (parseErrs s) (pairs s) (collisions s), Stay)
              | Some _ => (s, Stay)
              end in
  if String.eqb k "esc" then (s, Close)
  else if String.eqb k "tab" then (bulk_advance s true, Stay)
  else if String.eqb k "shift+tab" then (bulk_advance s false, Stay)
  else if String.eqb k "enter" then
    match bfocus s with
    | None => text
    | Some O => (runParse c s (area s), Stay)
    | Some 1%nat => (s, BrowseFrom EmptyString)
    | Some _ => (s, Close)
    end
  else text.

Definition bulk_update (typed : string -> string -> string) (c : Config) (s : bulkScreen) (k : string) : bulkScreen * answer :=
  if preview s then updatePreview s k else updateEdit typed c s k.
End Secrets.

(** ** The editor and the command line import alike *)

Lemma kept_dedupe l : (fun p => Bag.mkPair (Dotenv.Key p) (Dotenv.Value p)) <$> kept l = Bag.dedupePairs l.
Proof.
  unfold kept, Bag.dedupePairs. generalize (imap pair l). intros ips. generalize (Bag.last_index l). intros m.
  induction ips as [|ip ips IH]; [done|]. cbn. case_bool_decide; cbn; [by f_equal|done].
Qed.

Definition policy_of (overwrite : bool) : Bag.collisionPolicy := if overwrite then Bag.collisionOverwrite else Bag.collisionSkip.

Lemma merge_upsert overwrite l bag st :
  fold_left (Bag.upsert_step (policy_of overwrite) None) ((fun p => Bag.mkPair (Dotenv.Key p) (Dotenv.Value p)) <$> l) (bag, st, [])
  = (fold_left (merge_step overwrite) l (bag, st), []).
Proof.
  revert bag st. induction l as [|p l IH]; intros bag st; [done|]. cbn [fmap list_fmap fold_left]. unfold Bag.upsert_step at 2, merge_step at 2.
  cbn [Bag.Key Bag.Value]. destruct (bag !! Dotenv.Key p); [|apply IH]. destruct overwrite; cbn; apply IH.
Qed.

Lemma commitMerge_upsert c s overwrite :
  Bag.bagUpsert c (bbag s) ((fun p => Bag.mkPair (Dotenv.Key p) (Dotenv.Value p)) <$> pairs s) (policy_of overwrite) None
  = (commitMerge c s overwrite, []).
Proof.
  unfold Bag.bagUpsert, commitMerge. rewrite merge_upsert. by destruct (fold_left _ (pairs s) _) as [bag st].
Qed.

(** The questions are about the keys that are there. *)
Lemma elem_of_collisions c s input k :
  preview (runParse c s input) = true -> preview s = false ->
  k ∈ collisions (runParse c s input) <->
  is_Some (default ∅ (Secrets c !! bbag s) !! k) /\ exists p, p ∈ pairs (runParse c s input) /\ Dotenv.Key p = k.
Proof.
  unfold runParse. destruct (Dotenv.Parse input) as [l [|e es]]; [|cbn; congruence]. destruct l as [|p0 l]; [cbn; congruence|].
  intros _ _. cbn [collisions pairs]. rewrite TuiTree.sort_strings_perm, list_elem_of_omap. split.
  - intros (p & Hp & Hk). destruct (_ !! Dotenv.Key p) as [v|] eqn:Hv; [|done]. injection Hk as <-. split; [by eexists|eauto].
  - intros [[v Hv] (p & Hp & <-)]. exists p. split; [done|]. by rewrite Hv.
Qed.

(** Without collisions the policy does not matter. *)
Lemma merge_no_collision l bag st :
  NoDup (Dotenv.Key <$> l) -> (forall p, p ∈ l -> bag !! Dotenv.Key p = None) ->
  fold_left (merge_step true) l (bag, st) = fold_left (merge_step false) l (bag, st).
Proof.
  revert bag st. induction l as [|p l IH]; intros bag st Hnd Hn; [done|]. cbn [fold_left]. unfold merge_step at 2 4.
  rewrite (Hn p) by apply list_elem_of_here. cbn in Hnd. apply NoDup_cons in Hnd as [Hp Hnd]. apply IH; [done|]. intros q Hq.
  rewrite lookup_insert_ne; [apply Hn; by apply list_elem_of_further|]. intros Heq. apply Hp. rewrite Heq. by apply list_elem_of_fmap_2.
Qed.

Lemma kept_NoDup l : NoDup (Dotenv.Key <$> kept l).
Proof.
  assert (Hk : Dotenv.Key <$> kept l = Bag.Key <$> Bag.dedupePairs l) by (rewrite <- kept_dedupe, <- list_fmap_compose; done).
  rewrite Hk. apply Bag.dedupe_NoDup.
Qed.


(** ** Other edits *)

Section Laws.
Context `{MapRange}.

(** Whatever a list screen offers is there: its rows are the names of the configuration
    since the last refresh, and a menu opens on one of them. *)
Definition rows_of_bags (c : Config) (s : rows) : Prop := names s = TuiTree.bagNames c /\ (cursor s <= length (names s))%nat.
Definition rows_of_keys (c : Config) (bag : string) (s : rows) : Prop :=
  names s = TuiTree.sortedBagKeys c bag /\ (cursor s < length (names s) + secretDetailSentinelCount)%nat.

Lemma bagNames_spec c b : b ∈ TuiTree.bagNames c <-> is_Some (Secrets c !! b).
Proof. apply TuiTree.elem_of_sorted_range. Qed.

Lemma sortedBagKeys_spec c bag k : k ∈ TuiTree.sortedBagKeys c bag <-> is_Some (default ∅ (Secrets c !! bag) !! k).
Proof. apply TuiTree.elem_of_sorted_range. Qed.

Lemma secrets_rows c s k :
  rows_of_bags c (newSecretsListScreen c)
  /\ (rows_of_bags c s -> rows_of_bags c (secrets_list_update s k).1
      /\ forall b, (secrets_list_update s k).2 = BagMenu b -> is_Some (Secrets c !! b)).
Proof.
  split; [split; [done|]; cbn; lia|]. intros [Hn Hc]. unfold secrets_list_update.
  pose proof (list_nav_bound (length (names s) + 1) (cursor s) k ltac:(lia)) as Hk.
  destruct (list_nav (length (names s) + 1) (cursor s) k) as [c' a]. cbn [fst snd] in *. split.
  - split; [done|]. cbn. lia.
  - intros b. destruct a; try done. destruct (cursor s) as [|i] eqn:Hi; [done|]. unfold unless_blank, selectedBag.
    destruct (str_empty _); [done|]. intros [= <-]. apply bagNames_spec. rewrite <- Hn.
    apply list_elem_of_In, nth_In. lia.
Qed.

Lemma detail_rows c bag s k :
  rows_of_keys c bag (newSecretDetailScreen c bag)
  /\ (rows_of_keys c bag s -> rows_of_keys c bag (secret_detail_update s k).1
      /\ forall key, (secret_detail_update s k).2 = KeyMenu key -> is_Some (default ∅ (Secrets c !! bag) !! key)).
Proof.
  split; [split; [done|]; unfold newSecretDetailScreen, detail_refresh, clamp, secretDetailSentinelCount; cbn [names cursor]; lia|].
  intros [Hn Hc]. unfold secret_detail_update, secretDetailSentinelCount in *.
  pose proof (list_nav_bound (length (names s) + 2) (cursor s) k ltac:(lia)) as Hk.
  destruct (list_nav (length (names s) + 2) (cursor s) k) as [c' a]. cbn [fst snd] in *. split.
  - split; [done|]. unfold secretDetailSentinelCount. cbn [names cursor] in *. lia.
  - intros key. destruct (String.eqb k "r"); [unfold unless_blank; by destruct (str_empty _)|].
    destruct a; try done. destruct (cursor s) as [|[|i]] eqn:Hi; try done. unfold unless_blank, selectedKey, secretDetailSentinelCount.
    destruct (Nat.ltb_spec (S (S i)) 2); [lia|]. destruct (str_empty _); [done|]. intros [= <-]. apply sortedBagKeys_spec. rewrite <- Hn.
    apply list_elem_of_In, nth_In. lia.
Qed.

(** A new bag is empty, and some local source is there to serve it. *)
Lemma add_bag_spec c val c' :
  add_bag c val = Done c' ->
  Secrets c' = <[trim_space val := ∅]> (Secrets c) /\ Secrets c !! trim_space val = None
  /\ exists n sc, Sources c' !! n = Some sc /\ Type_ sc = "local".
Proof.
  unfold add_bag. destruct (str_empty _); [done|]. destruct (Secrets c !! trim_space val) eqn:Hn; [done|]. intros [= <-].
  unfold ensureLocalSourceExists. cbn [Sources with_secrets].
  destruct (existsb _ (map_range 100 (Sources c))) eqn:He.
  - split; [done|]. split; [done|]. apply existsb_exists in He as ([n sc] & Hin & Ht). exists n, sc.
    apply list_elem_of_In, elem_of_map_range in Hin. split; [done|]. by apply String.eqb_eq.
  - split; [done|]. split; [done|]. exists "local", (mkSource "local" ∅). cbn. split; [apply lookup_insert_eq|done].
Qed.

(** Deleting a bag or a key is invisible to the validation, although mappings may name it. *)
Lemma delete_not_flagged c bag key :
  Validate (delete_key c bag key) = Validate c /\ Validate (delete_bag c bag) = Validate c.
Proof. done. Qed.

(** The focus of the editor stays on a field or on a button. *)
Definition kv_ok (s : kvEditScreen) : Prop :=
  length (kbuttons s) = 3%nat /\ match kfocus s with Some b => (b < 3)%nat | None => True end.

Lemma kv_update_ok typed s k : kv_ok s -> kv_ok (kv_update typed s k).1.
Proof.
  unfold kv_ok, kv_update, advance. intros [Hl Hf]. rewrite Hl. destruct (kfocus s) as [b|] eqn:Hb.
  all: repeat match goal with
    | |- context [if ?x then _ else _] => destruct x eqn:?
    | |- context [match ?x with O => _ | S _ => _ end] => destruct x
    end; cbn; rewrite ?length_insert, ?Hb; split; try done.
  all: repeat match goal with Hx : (_ <? _)%nat = true |- _ => apply Nat.ltb_lt in Hx end; lia.
Qed.

(** Applying an untouched value stores what the field made of it. *)
Lemma edit_value_untouched fits c bag key v m :
  Secrets c !! bag = Some m -> m !! key = Some v -> key <> "" -> trim_space (fits key) = key ->
  kv_commit c (newKeyValueEditor fits c bag key) = Done (with_secrets c (<[bag := <[key := fits v]> m]> (Secrets c))).
Proof.
  intros Hb Hk Hne Hf. unfold newKeyValueEditor. apply str_empty_false in Hne. rewrite Hne, Hb. cbn [default from_option id]. rewrite Hk. cbn [default from_option id].
  unfold kv_commit, commit_key. cbn [kvBag existingKey keyIn valIn]. rewrite Hf, Hne, Hb. cbn [default from_option id]. by rewrite String.eqb_refl.
Qed.
End Laws.

(** ** A small bag *)

#[local] Existing Instance map_range_default.

Definition ex_bulk : bulkScreen := newBulk "app".
Definition ex_input : string := "A=9" +:+ str1 LF +:+ "C=3" +:+ str1 LF +:+ "C=4".


(** A remote source that is named local is replaced by the local one with its first bag. *)
Definition ex_named : Config :=
  with_sources TuiTree.ex_plain {["local" := mkSource "vault" {["address" := AStr "https://v"]}]}.
Example first_bag_takes_local :
  match add_bag ex_named "new" with
  | Done c => (fun sc => (Type_ sc, Params sc !! "address")) <$> Sources c !! "local"
  | _ => None
  end = Some ("local", None).
Proof. vm_compute. reflexivity. Qed.
End TuiSecrets.
