(* ===== verification/TuiDraw.v ===== *)
(** * How the editor draws (src/internal/tui/layout.go, widgets.go, popup_menu.go, confirm.go,
    input_screen.go, form.go, mappings_screen.go:truncate, arn_list_screen.go:arnDisplayName,
    secrets_screen.go:maskValue, src/internal/version)

    The pieces that the screens' View functions are made of: padding and cutting text, rows
    with a cursor, buttons, the frame around the body, the footer and the window of a long
    list.  Colours, borders and padding are the drawing library's: an interface, of which
    only the number of lines is ever assumed. *)

From S2P Require Import Prelude GoString TuiWidgets.
Import TuiWidgets.

Module TuiDraw.

(** ** Text *)

(** The size of the first rune; a byte that starts none counts as one. *)
Definition byte_in (lo hi : nat) (s : string) (i : nat) : bool :=
  match String.get i s with Some a => (lo <=? byte_val a)%nat && (byte_val a <=? hi)%nat | None => false end.
Definition rune_size (s : string) : nat :=
  let tail_ok lo hi n := byte_in lo hi s 1 && forallb (byte_in 128 191 s) (seq 2 (n - 2)) in
  let sized lo hi n := if tail_ok lo hi n then n else 1%nat in
  if byte_in 194 223 s 0 then sized 128 191 2
  else if byte_in 224 224 s 0 then sized 160 191 3
  else if byte_in 237 237 s 0 then sized 128 159 3
  else if byte_in 225 239 s 0 then sized 128 191 3
  else if byte_in 240 240 s 0 then sized 144 191 4
  else if byte_in 241 243 s 0 then sized 128 191 4
  else if byte_in 244 244 s 0 then sized 128 143 4
  else 1%nat.

Fixpoint rune_count_fuel (fuel : nat) (s : string) : nat :=
  match fuel with
  | O => 0
  | S n => if str_empty s then 0 else S (rune_count_fuel n (str_drop (rune_size s) s))
  end%nat.
Definition rune_count (s : string) : nat := rune_count_fuel (String.length s) s.

Fixpoint repeat_str (s : string) (n : nat) : string := match n with O => EmptyString | S n => s +:+ repeat_str s n end.

(** The verb %-ns of package fmt, which counts runes. *)
Definition pad (n : nat) (s : string) : string := s +:+ repeat_str " " (n - rune_count s).

Definition truncate (s : string) (maxLen : nat) : string :=
  if (String.length s <=? maxLen)%nat then s
  else if (maxLen <=? 3)%nat then str_take maxLen s
  else str_take (maxLen - 1) s +:+ "…".

Definition is_alnum (c : ascii) : bool := is_lower c || is_upper c || is_digit c.

(** The name between the marker and the six random characters. *)
Definition arnDisplayName (arn : string) : string :=
  match index_str arn ":secret:" with
  | None => arn
  | Some i =>
      let name := str_drop (i + 8) arn in
      let n := String.length name in
      if (7 <? n)%nat && bool_decide (String.get (n - 7) name = Some "-"%char) && forall_bytes is_alnum (str_drop (n - 6) name)
      then str_take (n - 7) name else name
  end.

(** version.Format *)
Definition version_format (version commit date : string) : string :=
  "jitenv " +:+ version +:+
  (if negb (str_empty commit) && negb (str_empty date) then " (commit " +:+ commit +:+ ", built " +:+ date +:+ ")"
   else if negb (str_empty commit) then " (commit " +:+ commit +:+ ")" else EmptyString).

(** ** The drawing library *)

Inductive style :=
| Label | Item | ItemFocused | ButtonStyle | ButtonFocused | Hint | HelpText | ErrorStyle | OkStyle | WarnStyle | Muted | MaskedStyle
| Accent | StatusBar | Copyright | Panel | Modal.

(** [render] draws text, [sized] draws it to a width, [width] is its width on a terminal;
    [field] is a text field (hidden or not, its placeholder, its value), [areaView] the
    text area. *)
Class Lipgloss := {
  render : style -> string -> string;
  sized : style -> Z -> string -> string;
  width : string -> Z;
  field : bool -> string -> string -> string;
  areaView : string -> string
}.

Definition newline : string := str1 LF.
Definition line (s : string) : string := s +:+ newline.
Definition dquote (s : string) : string := str1 DQUOTE +:+ s +:+ str1 DQUOTE.

Section Draw.
Context `{Lipgloss}.

Definition dimText (s : string) : string := render Muted s.

Definition renderButtonRow (buttons : list string) (focused : option nat) : string :=
  String.concat "  " (imap (fun i b => render (if bool_decide (focused = Some i) then ButtonFocused else ButtonStyle) (" " +:+ b +:+ " ")) buttons).

Definition renderHelpKeys (pairs : list (string * string)) : string :=
  String.concat "  " ((fun p => render Accent p.1 +:+ ": " +:+ render Muted p.2) <$> pairs).

(** A row of a list, under the cursor or not, and the rows from the [base]-th one on. *)
Definition list_row (focused : bool) (s : string) : string :=
  line (if focused then " " +:+ render Label "▶ " +:+ render ItemFocused s else "   " +:+ render Item s).
Definition list_rows (cursor base : nat) (l : list string) : string :=
  String.concat EmptyString (imap (fun i s => list_row ((base + i =? cursor)%nat) s) l).

Definition heading (s : string) : string := render Label s +:+ newline +:+ newline.

Definition maskValue (s : string) : string :=
  if str_empty s then dimText "(empty)" else render MaskedStyle (repeat_str "•" (Nat.min (String.length s) 12)).

(** The box of the two kinds of popup, indented. *)
Definition modal (inner : string) : string :=
  newline +:+ newline +:+ String.concat EmptyString ((fun l => line ("    " +:+ l)) <$> split_byte LF (render Modal inner)).

(** popupMenuScreen.View, with the hint of the choice under the cursor, if any. *)
Definition popup_view (head : string) (choices : list string) (hints : list (string * string)) (cursor : nat) : string :=
  modal ((if str_empty head then EmptyString else heading head)
         +:+ String.concat EmptyString (imap (fun i c => line (render (if (i =? cursor)%nat then ItemFocused else Item) (" " +:+ c +:+ " "))) choices)
         +:+ match choices !! cursor ≫= fun c => List.find (fun h => String.eqb h.1 c) hints with
             | Some (_, hint) => if str_empty hint then EmptyString else newline +:+ dimText hint
             | None => EmptyString
             end).

Definition confirm_view (prompt : string) (choices : list string) (cursor : nat) : string :=
  modal (render Label prompt +:+ newline +:+ newline +:+ renderButtonRow choices (Some cursor)).

Definition input_view (prompt placeholder : string) (s : inputScreen) : string :=
  (if str_empty prompt then EmptyString else prompt +:+ newline +:+ newline)
  +:+ render (match ifocus s with Some _ => Muted | None => Label end) "value" +:+ newline +:+ "  "
  +:+ field (hidden s) placeholder (value s) +:+ newline +:+ newline
  +:+ (if str_empty (ierr s) then EmptyString else render ErrorStyle (ierr s) +:+ newline +:+ newline)
  +:+ renderButtonRow (buttons s) (ifocus s) +:+ newline.

(** form.View; [help] and the placeholder of a field come with its schema. *)
Definition form_view (help : ParamField -> string) (placeholder : ParamField -> string) (f : form) : string :=
  match fields f with
  | [] => dimText "(no fields)"
  | fs =>
      String.concat EmptyString (imap (fun i x =>
        let focused := (i =? fcursor f)%nat in
        let p := TuiWidgets.field x in
        let label := or_default (FLabel p) (FKey p) in
        render (if focused then Label else Muted) (if FRequired p then label +:+ " *" else label)
        +:+ (if FSensitive p then "  " +:+ render MaskedStyle "(sensitive)" else EmptyString)
        +:+ newline +:+ "  " +:+ field (FSensitive p && negb (revealed x)) (placeholder p) (finput x) +:+ newline
        +:+ (if negb (str_empty (help p)) && focused then "  " +:+ render Hint (help p) +:+ newline else EmptyString)
        +:+ newline) fs)
  end.

(** ** The frame *)

Definition footerSegments : list string := ["jitenv"; "© 2026 Gal Villaret"; "MIT"].
Definition footerSeparator : string := " | ".

Definition renderFooter (version : string) (w : Z) : string :=
  let w := Z.max w 4 in
  let full := String.concat footerSeparator (footerSegments ++ [version]) in
  if negb (str_empty version) && (width full <=? w - 2)%Z then sized Copyright w full
  else sized Copyright w (String.concat footerSeparator footerSegments).

Definition decor : Z := 4.

(** The body with [n] lines: cut from below, or filled up. *)
Definition clip (n : nat) (l : list string) : list string := take n l ++ replicate (n - length l) EmptyString.

Definition renderApp (version : string) (w h : Z) (body status : string) : string :=
  let w := Z.max w 4 in let h := Z.max h 4 in
  let statusLine := sized StatusBar w status in
  let footerLine := renderFooter version w in
  let contentH := (h - 2)%Z in
  let innerH := (contentH - decor)%Z in
  if (innerH <? 1)%Z then repeat_str newline (Z.to_nat contentH) +:+ statusLine +:+ newline +:+ footerLine
  else
    let innerW := Z.max (w - decor)%Z 1 in
    let bodyStr := String.concat newline (clip (Z.to_nat innerH) (split_byte LF body)) in
    sized Panel (innerW + decor)%Z bodyStr +:+ newline +:+ statusLine +:+ newline +:+ footerLine.
End Draw.

(** The window of a list. *)
Definition scrollOffset (off cursor total visible : Z) : Z :=
  (let visible := if visible <? 1 then 1 else visible in
   if total <=? visible then 0
   else
     let off := if cursor <? off then cursor else if off + visible <=? cursor then cursor - visible + 1 else off in
     let off := if total - visible <? off then total - visible else off in
     if off <? 0 then 0 else off)%Z.

(** ** What they promise *)

(** The cursor is in the window, the window is in the list, and it moves only when it must. *)
Lemma scrollOffset_spec off cursor total visible :
  (0 <= cursor < total)%Z ->
  let v := Z.max visible 1 in
  let off' := scrollOffset off cursor total visible in
  (0 <= off' <= Z.max (total - v) 0 /\ off' <= cursor < off' + v
   /\ (0 <= off <= total - v -> off <= cursor < off + v -> off' = off))%Z.
Proof.
  intros Hc. cbn zeta. unfold scrollOffset.
  replace (if (visible <? 1)%Z then 1%Z else visible) with (Z.max visible 1) by (destruct (Z.ltb_spec visible 1); lia).
  assert (Hv : (1 <= Z.max visible 1)%Z) by lia. revert Hv. generalize (Z.max visible 1). intros v Hv.
  destruct (Z.leb_spec total v); [lia|]. destruct (Z.ltb_spec cursor off), (Z.leb_spec (off + v) cursor); try lia;
    repeat match goal with
      | |- context [Z.ltb ?a ?b] => lazymatch a with context [Z.ltb _ _] => fail | _ => destruct (Z.ltb_spec a b) end
      end; lia.
Qed.

(** ** Lines *)

Fixpoint newlines (s : string) : nat :=
  match s with EmptyString => 0 | String a s' => if Ascii.eqb a LF then S (newlines s') else newlines s' end%nat.

Lemma newlines_app s t : newlines (s +:+ t) = (newlines s + newlines t)%nat.
Proof.
  induction s as [|a s IH]; [done|].
  change (newlines (String a s +:+ t)) with (if Ascii.eqb a LF then S (newlines (s +:+ t)) else newlines (s +:+ t)).
  rewrite IH. cbn [newlines]. by destruct (Ascii.eqb a LF).
Qed.

Lemma newlines_repeat n : newlines (repeat_str newline n) = n.
Proof. induction n as [|n IH]; [done|]. cbn [repeat_str]. by rewrite newlines_app, IH. Qed.

Lemma split_lines s : Forall (fun l => newlines l = 0%nat) (split_byte LF s) /\ length (split_byte LF s) = S (newlines s).
Proof.
  induction s as [|a s [IH1 IH2]]; [split; [by repeat constructor|done]|]. cbn [split_byte newlines].
  destruct (Ascii.eqb_spec a LF) as [->|Hn]; [split; [by constructor|cbn; by rewrite IH2]|].
  destruct (split_byte LF s) as [|l ls]; [done|]. apply Forall_cons in IH1 as [Hl Hls]. split; [|done]. constructor; [|done]. cbn.
  destruct (Ascii.eqb_spec a LF); done.
Qed.

Lemma newlines_concat l : Forall (fun x => newlines x = 0%nat) l -> newlines (String.concat newline l) = (length l - 1)%nat.
Proof.
  induction l as [|x [|y l] IH]; intros Hl; [done|apply Forall_cons in Hl as [Hx _]; cbn; by rewrite Hx|].
  apply Forall_cons in Hl as [Hx Hl]. specialize (IH Hl). cbn [String.concat] in *. rewrite !newlines_app, Hx.
  change (newlines newline) with 1%nat. cbn [length] in *. lia.
Qed.

Lemma clip_lines n s : (0 < n)%nat -> newlines (String.concat newline (clip n (split_byte LF s))) = (n - 1)%nat.
Proof.
  intros Hn. destruct (split_lines s) as [Hs _]. rewrite newlines_concat.
  - unfold clip. rewrite length_app, length_take, length_replicate. f_equal. lia.
  - apply Forall_app. split; [by apply Forall_take|]. by apply Forall_replicate.
Qed.

(** A text that begins with lines. *)
Lemma split_line x rest : newlines x = 0%nat -> split_byte LF (line x +:+ rest) = x :: split_byte LF rest.
Proof.
  unfold line. induction x as [|a x IH]; intros Hx; [done|]. cbn [newlines] in Hx.
  change (split_byte LF (String a ((x +:+ newline) +:+ rest)) = String a x :: split_byte LF rest). cbn [split_byte].
  destruct (Ascii.eqb a LF); [done|]. by rewrite (IH Hx).
Qed.

Lemma split_all l rest :
  Forall (fun x => newlines x = 0%nat) l -> split_byte LF (String.concat EmptyString (line <$> l) +:+ rest) = l ++ split_byte LF rest.
Proof.
  induction 1 as [|x l Hx _ IH]; [done|]. destruct l as [|y l]; [by apply split_line|].
  change (split_byte LF ((line x +:+ String.concat EmptyString (line <$> y :: l)) +:+ rest) = x :: ((y :: l) ++ split_byte LF rest)).
  by rewrite <- str_app_assoc, split_line, IH.
Qed.

(** The application fills the terminal, from four lines on, and overflows it never - as long
    as the library does not wrap: the status line and the footer are one line each, and the
    frame adds its four lines to the body. *)
Lemma renderApp_lines `{Lipgloss} version w h body status :
  newlines (sized StatusBar (Z.max w 4) status) = 0%nat -> newlines (renderFooter version (Z.max w 4)) = 0%nat ->
  (forall w' s, newlines (sized Panel w' s) = newlines s + 4)%nat ->
  Z.of_nat (S (newlines (renderApp version w h body status))) = Z.max h 4.
Proof.
  intros Hs Hf Hp. unfold renderApp, decor. destruct (Z.ltb_spec (Z.max h 4 - 2 - 4) 1).
  - rewrite !newlines_app, newlines_repeat, Hs, Hf. change (newlines newline) with 1%nat. lia.
  - rewrite !newlines_app, Hp, clip_lines, Hs, Hf by lia. change (newlines newline) with 1%nat. lia.
Qed.

(** A terminal without colours, whose hidden fields show a star for each character. *)
Definition plain : Lipgloss := {|
  render _ s := s;
  sized _ _ s := s;
  width s := Z.of_nat (rune_count s);
  field hide _ s := if hide then repeat_str "*" (rune_count s) else s;
  areaView s := s
|}.

(** ** What a library that wraps makes of it *)

(** Every line of the framed text cut to the width, as the library documents it of a width. *)
Fixpoint chunks (fuel w : nat) (s : string) : list string :=
  match fuel with
  | O => []
  | S n => if (String.length s <=? w)%nat then [s] else str_take w s :: chunks n w (str_drop w s)
  end.
Definition wrapping : Lipgloss := {|
  render _ s := s;
  sized st w s :=
    let inner := String.concat newline (split_byte LF s ≫= fun l => chunks (S (String.length l)) (Z.to_nat (w - 4)) l) in
    match st with Panel => newline +:+ newline +:+ inner +:+ newline +:+ newline | _ => s end;
  width s := Z.of_nat (rune_count s);
  field _ _ s := s;
  areaView s := s
|}.

(** The body is cut to the height before the frame wraps it to the width, so one line that is
    wider than the frame pushes the top of the screen off the terminal. *)
Example wrapped_line_overflows :
  newlines (@renderApp wrapping "dev" 20 12 "aaaaaaaaaaaaaaaaaaaaaaaaaaaaaaaaaaaaaaaa" "status") = 13%nat.
Proof. vm_compute. reflexivity. Qed.

(** A cut label can end inside a character. *)
Example truncate_splits_rune : truncate "aaaé" 5 = "aaaé" /\ rune_size (str_drop 3 (truncate "aaaéb" 5)) = 1%nat.
Proof. vm_compute. auto. Qed.

Example arn_names : arnDisplayName "arn:aws:secretsmanager:eu-west-1:1:secret:prod/db-AbCdEf" = "prod/db"
  /\ arnDisplayName "arn:aws:secretsmanager:eu-west-1:1:secret:my-secret" = "my".
Proof. vm_compute. auto. Qed.
End TuiDraw.
