(* ===== verification/TuiBags.v ===== *)
(** * The bag screens as one machine (src/internal/tui/secrets_screen.go, bag_bulk_import.go)

    The list of bags, the keys of one bag, the key editor and the bulk import, with the
    popups, prompts and inputs in front of them, driven by keys.  What each screen does
    with a key is TuiSecrets's; here are the callbacks, the order of the messages they
    send and the stack they leave. *)

From S2P Require Import Prelude GoString Dotenv ConfigModel Edit Bag TuiRefs TuiWidgets TuiStack TuiTree TuiSecrets.
Import Config Edit TuiRefs TuiWidgets TuiStack TuiSecrets.

Module TuiBags.

Inductive screen :=
| BagList (s : rows)
| BagPopup (bag : string) (cursor : nat)
| BagDelete (bag : string) (cursor : nat)
| BagAdd (i : inputScreen)
| BagRename (bag : string) (i : inputScreen)
| BagDetail (bag : string) (s : rows) (reveal : gmap string bool)
| KeyPopup (bag key : string) (cursor : nat)
| KeyDelete (bag key : string) (cursor : nat)
| KeyEditor (s : kvEditScreen)
| BulkImport_ (s : bulkScreen)
| BulkPolicy (s : bulkScreen) (cursor : nat)
| FilePicker.

Inductive text := Plain (s : string) | CannotRead (path : string).
Inductive change := SecretChanged.

#[local] Abbreviation state := (TuiStack.state screen text).

Section Machine.
Context `{MapRange}.

Definition hear (c : Config) (_ : change) (s : screen) : screen :=
  match s with
  | BagList r => BagList (secrets_refresh c r)
  | BagDetail bag r v => BagDetail bag (detail_refresh c bag r) v
  | _ => s
  end.

Definition error (st : state) (msg : string) : state := exec hear [EError (Plain msg)] st.

(** A key in a text field, what a field makes of a value, and what the text area makes of a file. *)
Context (typed : string -> string -> string) (fits shown : string -> string).

(** ** The list of bags *)

Definition bag_list_key (st : state) (r : rows) (k : string) : state :=
  let '(r', d) := secrets_list_update r k in
  let st := with_top st (BagList r') in
  match d with
  | Leave => exec hear [EPop] st
  | AddBag => exec hear [EPush (BagAdd (newInputScreen EmptyString false false false "Create" EmptyString))] st
  | BagMenu bag => exec hear [EPush (BagPopup bag 0)] st
  | _ => st
  end.

Definition bag_choice (st : state) (bag choice : string) : state :=
  if String.eqb choice "Edit" then exec hear [EPop; EPush (BagDetail bag (newSecretDetailScreen (cfg st) bag) ∅)] st
  else if String.eqb choice "Rename" then
    exec hear [EPop; EPush (BagRename bag (newInputScreen bag false false false "Rename" EmptyString))] st
  else if String.eqb choice "Delete" then exec hear [EPush (BagDelete bag 0)] st
  else exec hear [EPop] st.

Definition bag_deleted (st : state) (bag : string) : state :=
  exec hear [EPop; EPop; EDirty; EChanged SecretChanged; EStatus (Plain ("removed bag " +:+ bag))]
    (with_cfg st (delete_bag (cfg st) bag)).

Definition bag_added (st : state) (val : string) : state :=
  match add_bag (cfg st) val with
  | NameRequired => error st "name required"
  | Exists => error st "bag already exists"
  | Unchanged => st
  | Done c =>
      let name := trim_space val in
      exec hear [EPop; EDirty; EChanged SecretChanged; EStatus (Plain ("created bag " +:+ name));
                 EPush (BagDetail name (newSecretDetailScreen c name) ∅)] (with_cfg st c)
  end.

Definition bag_renamed (st : state) (bag val : string) : state :=
  match rename_bag (cfg st) bag val with
  | NameRequired => error st "name required"
  | Unchanged => exec hear [EPop] st
  | Exists => error st "bag already exists"
  | Done c =>
      exec hear [EPop; EDirty; EChanged SecretChanged; EStatus (Plain ("renamed bag to " +:+ trim_space val))] (with_cfg st c)
  end.

(** ** The keys of a bag *)

Definition detail_key (st : state) (bag : string) (r : rows) (reveal : gmap string bool) (k : string) : state :=
  let '(r', d) := secret_detail_update r k in
  let st := with_top st (BagDetail bag r' reveal) in
  match d with
  | Leave => exec hear [EPop] st
  | NewKey => exec hear [EPush (KeyEditor (newKeyValueEditor fits (cfg st) bag EmptyString))] st
  | BulkImport => exec hear [EPush (BulkImport_ (newBulk bag))] st
  | KeyMenu key => exec hear [EPush (KeyPopup bag key 0)] st
  | ToggleReveal key => with_top st (BagDetail bag r' (<[key := negb (default false (reveal !! key))]> reveal))
  | _ => st
  end.

Definition key_choice (st : state) (bag key choice : string) : state :=
  if String.eqb choice "Edit" then exec hear [EPop; EPush (KeyEditor (newKeyValueEditor fits (cfg st) bag key))] st
  else if String.eqb choice "Delete" then exec hear [EPush (KeyDelete bag key 0)] st
  else exec hear [EPop] st.

Definition key_deleted (st : state) (bag key : string) : state :=
  exec hear [EPop; EPop; EDirty; EChanged SecretChanged; EStatus (Plain ("removed key " +:+ key))]
    (with_cfg st (delete_key (cfg st) bag key)).

(** commit of the editor, with the error it shows in place. *)
Definition with_err (s : kvEditScreen) (e : string) : kvEditScreen :=
  mkKv (kvBag s) (existingKey s) (keyIn s) (valIn s) (kfield s) (kfocus s) (kbuttons s) (masked s) e.

Definition key_committed (st : state) (s : kvEditScreen) : state :=
  let refuse e := error (with_top st (KeyEditor (with_err s e))) e in
  match kv_commit (cfg st) s with
  | NameRequired => refuse "key required"
  | Exists => refuse "key already exists"
  | Unchanged => st
  | Done c =>
      exec hear [EPop; EDirty; EChanged SecretChanged; EStatus (Plain (kvEditVerb (existingKey s) (trim_space (keyIn s))))]
        (with_cfg st c)
  end.

Definition editor_key (st : state) (s : kvEditScreen) (k : string) : state :=
  let '(s', a) := kv_update typed s k in
  let st := with_top st (KeyEditor s') in
  match a with
  | Close => exec hear [EPop] st
  | Entered => key_committed st s'
  | _ => st
  end.

(** ** Bulk import *)

(** What runParse says when it does not get to the preview. *)
Definition parse_flash (st : state) (s : bulkScreen) : state :=
  let st := with_top st (BulkImport_ s) in
  if preview s then st
  else match parseErrs s with
       | [] => error st ("nothing to import " +:+ utf8 [226; 128; 148]%nat +:+ " input is empty")
       | errs => error st (itoa (N.of_nat (length errs)) +:+ " parse error(s) " +:+ utf8 [226; 128; 148]%nat +:+ " fix and retry")
       end.

Definition merged (st : state) (pops : nat) (r : Config * Bag.upsertStats) : state :=
  let n x := itoa (N.of_nat x) in
  exec hear (replicate pops EPop ++ [EDirty; EChanged SecretChanged;
    EStatus (Plain ("bulk import: " +:+ n (Bag.Added r.2) +:+ " added, " +:+ n (Bag.Overwritten r.2) +:+ " overwritten, "
                    +:+ n (Bag.Skipped r.2) +:+ " skipped"))]) (with_cfg st r.1).

Definition bulk_apply (st : state) (s : bulkScreen) : state :=
  match apply (cfg st) s with
  | Merged r => merged st 1 r
  | AskPolicy _ => exec hear [EPush (BulkPolicy s 0)] st
  end.

Definition bulk_key (st : state) (s : bulkScreen) (k : string) : state :=
  let '(s', a) := bulk_update typed (cfg st) s k in
  let st := with_top st (BulkImport_ s') in
  match a with
  | Close => exec hear [EPop] st
  | BrowseFrom _ => exec hear [EPush FilePicker] st
  | Entered => bulk_apply st s'
  | _ => if negb (preview s) && String.eqb k "enter" && bool_decide (bfocus s = Some 0%nat) then parse_flash st s' else st
  end.

Definition policy_choices : list string := ["Overwrite all"; "Skip all"; "Back"].

Definition policy_answered (st : state) (s : bulkScreen) (n : nat) : state :=
  match policy_chosen (cfg st) s (nth n policy_choices EmptyString) with
  | Some r => merged st 2 r
  | None => exec hear [EPop] st
  end.

(** ** A key, a picked file, a save *)

Definition key (st : state) (k : string) : state :=
  match stack st with
  | [] => st
  | BagList r :: _ => bag_list_key st r k
  | BagPopup bag cur :: _ => popup hear st ["Edit"; "Rename"; "Delete"; "Back"] cur k (BagPopup bag) (bag_choice st bag)
  | BagDelete bag cur :: _ =>
      prompt hear st 2 cur k (BagDelete bag) (fun n => match n with O => bag_deleted st bag | _ => exec hear [EPop] st end)
  | BagAdd i :: _ => input hear typed Plain None st i k BagAdd (bag_added st)
  | BagRename bag i :: _ => input hear typed Plain None st i k (BagRename bag) (bag_renamed st bag)
  | BagDetail bag r v :: _ => detail_key st bag r v k
  | KeyPopup bag ky cur :: _ => popup hear st ["Edit"; "Delete"; "Back"] cur k (KeyPopup bag ky) (key_choice st bag ky)
  | KeyDelete bag ky cur :: _ =>
      prompt hear st 2 cur k (KeyDelete bag ky) (fun n => match n with O => key_deleted st bag ky | _ => exec hear [EPop] st end)
  | KeyEditor s :: _ => editor_key st s k
  | BulkImport_ s :: _ => bulk_key st s k
  | BulkPolicy s cur :: _ => prompt hear st 3 cur k (BulkPolicy s) (policy_answered st s)
  | FilePicker :: _ => if String.eqb k "esc" then exec hear [EPop] st else st
  end.

(** The file that the picker names, with its contents if it can be read. *)
Definition picked (st : state) (path : string) (data : option string) : state :=
  match stack st with
  | FilePicker :: _ =>
      let st := exec hear [EPop] st in
      match stack st with
      | BulkImport_ s :: _ =>
          if preview s then st
          else match data with
               | None => exec hear [EError (CannotRead path)] st
               | Some _ => parse_flash st (loadFromFile shown (cfg st) s data)
               end
      | _ => st
      end
  | _ => st
  end.

Inductive event := Key (k : string) | Picked (path : string) (data : option string) | Saved (nm : option NameMap) (msg : string).

Definition step (st : state) (e : event) : state :=
  match e with
  | Key k => if root_key k then st else key st k
  | Picked path data => picked st path data
  | Saved nm msg => saved st nm (Plain msg)
  end.

Definition run (es : list event) (st : state) : state := fold_left step es st.
End Machine.

(** ** What the edits leave alone *)

Definition fixed (v : VarRef) : string * string * gmap string string * string := (Name v, Source v, Extra v, Value v).
Definition outline (m : Mapping) := (Path m, Glob m, CwdGlob m, Commands m, fixed <$> Vars m).

(** [c'] is a valid configuration if [c] is, with the mappings of [c] up to the bag and key
    that their vars name, and the sources of [c] but for the one called local. *)
Record edits `{MapRange} (c c' : Config) : Prop := {
  ed_valid : Validate c = None -> Validate c' = None;
  ed_outline : outline <$> Mappings c' = outline <$> Mappings c;
  ed_sources : forall n, n <> "local" -> Sources c' !! n = Sources c !! n;
  ed_rest : CVersion c' = CVersion c /\ CMeta c' = CMeta c /\ CAgent c' = CAgent c
}.

#[export] Instance edits_preorder `{MapRange} : PreOrder edits.
Proof.
  split; [by intros c; split|]. intros c1 c2 c3 [V1 O1 S1 (E1 & E2 & E3)] [V2 O2 S2 (F1 & F2 & F3)]. split; [auto|congruence| |by rewrite F1, F2, F3].
  intros n Hn. rewrite S2 by done. auto.
Qed.

Section Edits.
Context `{MapRange}.

Lemma bags_edits_idmap c nm : edits c (with_idmap c nm).
Proof. by split. Qed.

Lemma edits_secrets c m : edits c (with_secrets c m).
Proof. by split. Qed.

(** A rewrite of the vars that keeps what [fixed] looks at. *)
Lemma edits_vars f c c' :
  keeps f -> (forall v, Source (f v) = Source v) -> Mappings c' = Mappings (map_vars f c) ->
  Sources c' = Sources c -> CVersion c' = CVersion c /\ CMeta c' = CMeta c /\ CAgent c' = CAgent c -> edits c c'.
Proof.
  intros Hk Hs Hm HS HR. split; [|rewrite Hm|by intros n _; rewrite HS|done].
  - apply (secrets_validate f); try done. apply HR.
  - unfold map_vars, with_mappings. cbn [Mappings]. rewrite <- list_fmap_compose. apply list_fmap_ext. intros _ m _.
    unfold outline, compose. cbn [Path Glob CwdGlob Commands Vars]. f_equal.
    rewrite <- list_fmap_compose. apply list_fmap_ext. intros _ v _. unfold fixed, compose. rewrite Hs. by destruct (Hk v) as (-> & -> & -> & _).
Qed.

Lemma edits_add_bag c val c' : add_bag c val = Done c' -> edits c c'.
Proof.
  unfold add_bag. destruct (str_empty _); [done|]. destruct (Secrets c !! _); [done|]. intros [= <-].
  transitivity (with_secrets c (<[trim_space val := ∅]> (Secrets c))); [apply edits_secrets|].
  unfold ensureLocalSourceExists. destruct (existsb _ _); [done|]. set (c1 := with_secrets c _). split; [|done| |done].
  - intros [[Hver Hsrc Hmap] Hres]%Validate_None. apply Validate_None. split; [split|]; [done| |done|].
    + intros n sc. cbn. rewrite lookup_insert_Some. intros [[<- <-]|[_ Hn]]; [by split|by eapply Hsrc].
    + eapply Forall_impl; [exact Hres|]. intros m Hm. eapply Forall_impl; [exact Hm|]. intros v [Hv|[sc Hsc]]; [by left|right].
      cbn. destruct (decide (Source v = "local")) as [->|Hn]; [rewrite lookup_insert_eq; by eexists|].
      rewrite lookup_insert_ne by done. by eexists.
  - intros n Hn. cbn. by rewrite lookup_insert_ne.
Qed.

Lemma edits_rename_bag c old val c' : old <> "" -> rename_bag c old val = Done c' -> edits c c'.
Proof.
  intros Hne. unfold rename_bag. set (new_ := trim_space val).
  destruct (str_empty new_) eqn:He; [done|]. apply str_empty_false in He. destruct (String.eqb new_ old); [done|].
  destruct (Secrets c !! new_); [done|]. intros [= <-]. set (c1 := with_secrets c _).
  transitivity c1; [apply edits_secrets|]. unfold renameIDMapBag. transitivity (rewriteLocalBagRefs c1 old new_).
  - apply (edits_vars (bag_ref (Sources c1) old new_)); try done; [by apply bag_ref_keeps|].
    intros v. unfold bag_ref. destruct (negb _); [done|]. by destruct (is_local _ v).
  - destruct (IDMap _); [apply bags_edits_idmap|done].
Qed.

Lemma edits_commit_key c bag old typedKey val c' : commit_key c bag old typedKey val = Done c' -> edits c c'.
Proof.
  unfold commit_key. set (new_ := trim_space typedKey). destruct (str_empty new_) eqn:He; [done|]. apply str_empty_false in He.
  destruct (str_empty old) eqn:Ho; [destruct (_ !! new_); [done|]; intros [= <-]; apply edits_secrets|]. apply str_empty_false in Ho.
  destruct (negb (String.eqb new_ old)); [|intros [= <-]; apply edits_secrets]. destruct (_ !! new_); [done|]. intros [= <-].
  set (c1 := with_secrets c _). transitivity c1; [apply edits_secrets|]. transitivity (rewriteLocalKeyRefs c1 bag old new_).
  - apply (edits_vars (key_ref (Sources c1) bag old new_)); try done; [by apply key_ref_keeps|].
    intros v. unfold key_ref. destruct (_ || _); [done|]. by destruct (is_local _ v).
  - unfold renameIDMapKey. destruct (IDMap _) as [nm|]; [|done]. destruct (List.find _ _) as [[i b]|]; [|done].
    destruct (str_empty i); [done|]. destruct (NKeys nm !! i); [apply bags_edits_idmap|done].
Qed.

Lemma edits_merge c s o : edits c (commitMerge c s o).1.
Proof. unfold commitMerge. destruct (fold_left _ _ _). apply edits_secrets. Qed.
End Edits.

(** ** What is on the screens is there *)

Definition lists_bags (c : Config) (r : rows) : Prop :=
  (forall b, b ∈ names r <-> is_Some (Secrets c !! b)) /\ (cursor r <= length (names r))%nat.
Definition has_key (c : Config) (bag k : string) : Prop := is_Some (default ∅ (Secrets c !! bag) !! k).
Definition lists_keys (c : Config) (bag : string) (r : rows) : Prop :=
  (forall k, k ∈ names r <-> has_key c bag k) /\ (cursor r < length (names r) + secretDetailSentinelCount)%nat.
Definition has_bag (c : Config) (bag : string) : Prop := is_Some (Secrets c !! bag).

Definition shows (c : Config) (s : screen) : Prop :=
  match s with
  | BagList r => lists_bags c r
  | BagPopup bag _ | BagDelete bag _ | BagRename bag _ => has_bag c bag
  | BagDetail bag r _ => has_bag c bag /\ lists_keys c bag r
  | KeyPopup bag k _ | KeyDelete bag k _ => has_key c bag k
  | KeyEditor s => has_bag c (kvBag s) /\ (existingKey s <> "" -> has_key c (kvBag s) (existingKey s))
  | BulkImport_ s | BulkPolicy s _ => has_bag c (bbag s)
  | BagAdd _ | FilePicker => True
  end.

(** What can stand in front of the list and in front of the keys of [bag]. *)
Inductive over_list (c : Config) : list screen -> Prop :=
| ol_none : over_list c []
| ol_popup bag n : bag <> "" -> has_bag c bag -> over_list c [BagPopup bag n]
| ol_delete bag n m : bag <> "" -> has_bag c bag -> over_list c [BagDelete bag m; BagPopup bag n]
| ol_add i : over_list c [BagAdd i]
| ol_rename bag i : bag <> "" -> has_bag c bag -> over_list c [BagRename bag i].

Inductive over_detail (c : Config) (bag : string) : list screen -> Prop :=
| od_none : over_detail c bag []
| od_popup k n : k <> "" -> has_key c bag k -> over_detail c bag [KeyPopup bag k n]
| od_delete k n m : k <> "" -> has_key c bag k -> over_detail c bag [KeyDelete bag k m; KeyPopup bag k n]
| od_editor s : kvBag s = bag -> (existingKey s <> "" -> has_key c bag (existingKey s)) -> over_detail c bag [KeyEditor s]
| od_bulk s : bbag s = bag -> over_detail c bag [BulkImport_ s]
| od_policy s n : bbag s = bag -> over_detail c bag [BulkPolicy s n; BulkImport_ s]
| od_pick s : bbag s = bag -> over_detail c bag [FilePicker; BulkImport_ s].

Inductive shape (c : Config) : list screen -> Prop :=
| sh_closed : shape c []
| sh_list l r : over_list c l -> lists_bags c r -> shape c (l ++ [BagList r])
| sh_detail l bag r v r' :
    over_detail c bag l -> has_bag c bag -> lists_keys c bag r -> lists_bags c r' ->
    shape c (l ++ [BagDetail bag r v; BagList r']).

Lemma bags_shape_shows c l : shape c l -> Forall (shows c) l.
Proof.
  intros [|l' r Hl Hr|l' bag r v r' Hl Hb Hk Hr]; [constructor| |]; apply Forall_app; split.
  - destruct Hl; rewrite ?Forall_cons; cbn; auto.
  - rewrite Forall_cons. auto.
  - destruct Hl as [| | |s <- He|s <-|s n <-|s <-]; rewrite ?Forall_cons; cbn; auto.
  - rewrite !Forall_cons. cbn. auto.
Qed.

Lemma nth_nonempty i (l : list string) : nth i l "" <> "" -> nth i l "" ∈ l.
Proof. intros Hn. destruct (nth_in_or_default i l "") as [Hi|Hd]; [by apply list_elem_of_In|by rewrite Hd in Hn]. Qed.

Section Rows.
Context `{MapRange}.

Lemma refresh_lists_bags c r : lists_bags c (secrets_refresh c r).
Proof. split; [intros b; apply bagNames_spec|]. cbn. unfold clamp. lia. Qed.

Lemma refresh_lists_keys c bag r : lists_keys c bag (detail_refresh c bag r).
Proof. split; [intros k; apply sortedBagKeys_spec|]. cbn. unfold clamp, secretDetailSentinelCount. lia. Qed.

(** Rows stay what they are while the names of the bags do. *)
Lemma lists_bags_dom c c' r : (forall b, has_bag c' b <-> has_bag c b) -> lists_bags c r -> lists_bags c' r.
Proof. intros Hd [Hn Hc]. split; [|done]. intros b. rewrite Hn. symmetry. apply Hd. Qed.

Lemma secrets_list_facts c r k r' d :
  lists_bags c r -> secrets_list_update r k = (r', d) ->
  lists_bags c r' /\ forall b, d = BagMenu b -> b <> "" /\ has_bag c b.
Proof.
  intros [Hn Hc]. unfold secrets_list_update. pose proof (list_nav_bound (length (names r) + 1) (cursor r) k ltac:(lia)) as Hb.
  destruct (list_nav _ _ k) as [c' a]. cbn in Hb. intros [= <- <-]. split; [split; [done|cbn; lia]|].
  intros b. destruct a; try done. destruct (cursor r) as [|i]; [done|]. unfold unless_blank, selectedBag.
  destruct (str_empty _) eqn:He; [done|]. intros [= <-]. apply str_empty_false in He. split; [done|]. by apply Hn, nth_nonempty.
Qed.

Lemma secret_detail_facts c bag r k r' d :
  lists_keys c bag r -> secret_detail_update r k = (r', d) ->
  lists_keys c bag r' /\ forall b, d = KeyMenu b -> b <> "" /\ has_key c bag b.
Proof.
  intros [Hn Hc]. unfold secret_detail_update. pose proof (list_nav_bound _ (cursor r) k Hc) as Hb.
  destruct (list_nav _ _ k) as [c' a]. cbn in Hb. intros [= <- <-]. split; [done|].
  intros b. destruct (String.eqb k "r"); [unfold unless_blank; by destruct (str_empty _)|]. destruct a; try done.
  destruct (cursor r) as [|[|i]]; try done. unfold unless_blank, selectedKey.
  destruct (_ <? _)%nat; [done|]. destruct (str_empty _) eqn:He; [done|]. intros [= <-]. apply str_empty_false in He.
  split; [done|]. by apply Hn, nth_nonempty.
Qed.
End Rows.

(** ** What the operations do to the bags *)

Lemma kv_update_fixed typed s k : kvBag (kv_update typed s k).1 = kvBag s /\ existingKey (kv_update typed s k).1 = existingKey s.
Proof.
  unfold kv_update, advance. destruct (kfocus s) as [b|].
  all: repeat match goal with
    | |- context [if ?x then _ else _] => destruct x
    | |- context [match ?x with O => _ | S _ => _ end] => destruct x
    end; done.
Qed.

Lemma runParse_fixed c s i : bbag (runParse c s i) = bbag s.
Proof. unfold runParse. destruct (Dotenv.Parse i) as [[|p l] [|e es]]; done. Qed.

Lemma bulk_update_fixed typed c s k : bbag (bulk_update typed c s k).1 = bbag s.
Proof.
  unfold bulk_update, updatePreview, updateEdit, bulk_advance. destruct (preview s), (bfocus s) as [b|].
  all: repeat match goal with
    | |- context [if ?x then _ else _] => destruct x
    | |- context [match ?x with O => _ | S _ => _ end] => destruct x
    end; cbn; rewrite ?runParse_fixed; done.
Qed.

Section Bags.
Context `{MapRange}.

Lemma delete_bag_lists c bag b : has_bag (delete_bag c bag) b <-> has_bag c b /\ b <> bag.
Proof.
  unfold has_bag. cbn. destruct (decide (b = bag)) as [->|Hn]; [rewrite lookup_delete_eq; split; [by intros [? ?]|by intros [_ []]]|].
  rewrite lookup_delete_ne by done. naive_solver.
Qed.

Lemma delete_key_has_bag c bag k b : has_bag (delete_key c bag k) b <-> has_bag c b.
Proof. unfold has_bag. cbn. rewrite lookup_alter_is_Some. done. Qed.

(** A bag that is there keeps the names of all bags when its contents are written. *)
Lemma put_has_bag c bag m b : has_bag c bag -> has_bag (with_secrets c (<[bag := m]> (Secrets c))) b <-> has_bag c b.
Proof.
  unfold has_bag. cbn. intros Hb. destruct (decide (b = bag)) as [->|Hn]; [rewrite lookup_insert_eq; by split|by rewrite lookup_insert_ne].
Qed.

Lemma commit_key_has_bag c bag old k v c' b : has_bag c bag -> commit_key c bag old k v = Done c' -> has_bag c' b <-> has_bag c b.
Proof.
  intros Hb. unfold commit_key. destruct (str_empty (trim_space k)); [done|].
  destruct (str_empty old); [destruct (_ !! trim_space k); [done|]; intros [= <-]; by apply put_has_bag|].
  destruct (negb _); [|intros [= <-]; by apply put_has_bag]. destruct (_ !! trim_space k); [done|]. intros [= <-].
  match goal with |- has_bag (renameIDMapKey ?c1 ?a ?o ?n) b <-> _ => destruct (rename_key_fields c1 a o n) as (_ & HS & _) end.
  unfold has_bag at 1. rewrite HS. by apply (put_has_bag c).
Qed.

Lemma merge_has_bag c s o b : has_bag c (bbag s) -> has_bag (commitMerge c s o).1 b <-> has_bag c b.
Proof. intros Hb. unfold commitMerge. destruct (fold_left _ _ _). by apply put_has_bag. Qed.

Lemma add_bag_has c val c' : add_bag c val = Done c' -> has_bag c' (trim_space val).
Proof. intros (HS & _)%add_bag_spec. unfold has_bag. by rewrite HS, lookup_insert_eq. Qed.

Lemma key_committed_unchanged c s : kv_commit c s <> Unchanged.
Proof.
  unfold kv_commit, commit_key. destruct (str_empty _); [done|]. destruct (str_empty _); [by destruct (_ !! _)|].
  destruct (negb _); [by destruct (_ !! _)|done].
Qed.
End Bags.

Section Steps.
Context `{MapRange} (typed : string -> string -> string) (fits shown : string -> string) (c0 sv : Config).

Definition inv (st : TuiStack.state screen text) : Prop :=
  edits c0 (cfg st) /\ (dirty st = false -> cfg st = sv) /\ shape (cfg st) (stack st).

Section At.
Context (c : Config) (d : bool) (Hc : edits c0 c) (Hd : d = false -> c = sv).

Lemma bags_inv_closed s : inv (mkState c d [] s).
Proof. split; [done|]. split; [done|constructor]. Qed.

Lemma bags_inv_list l r s : over_list c l -> lists_bags c r -> inv (mkState c d (l ++ [BagList r]) s).
Proof. split; [done|]. split; [done|by constructor]. Qed.

Lemma inv_detail l bag r v r' s :
  over_detail c bag l -> has_bag c bag -> lists_keys c bag r -> lists_bags c r' ->
  inv (mkState c d (l ++ [BagDetail bag r v; BagList r']) s).
Proof. split; [done|]. split; [done|by constructor]. Qed.
End At.

(** After an edit that came from the list, and from in front of the keys of a bag. *)
Lemma bags_inv_list_edited c c' r s : edits c0 c -> edits c c' -> inv (mkState c' true [BagList (secrets_refresh c' r)] s).
Proof. intros H1 H2. apply (bags_inv_list c' true) with (l := []); [by etransitivity|done|constructor|apply refresh_lists_bags]. Qed.

Lemma inv_detail_edited c c' bag r v r' s :
  edits c0 c -> edits c c' -> (forall b, has_bag c' b <-> has_bag c b) -> has_bag c bag -> lists_bags c r' ->
  inv (mkState c' true [BagDetail bag (detail_refresh c' bag r) v; BagList r'] s).
Proof.
  intros H1 H2 Hb Hbag Hr. apply (inv_detail c' true) with (l := []); [by etransitivity|done|constructor|by apply Hb|apply refresh_lists_keys|].
  by apply (lists_bags_dom c).
Qed.

Lemma bags_list_step c d l r s k :
  edits c0 c -> (d = false -> c = sv) -> over_list c l -> lists_bags c r ->
  inv (key typed fits (mkState c d (l ++ [BagList r]) s) k).
Proof.
  intros Hc Hd Hl Hr. pose proof (bags_inv_list c d Hc Hd) as Hinv.
  assert (Hbase : forall s', inv (mkState c d [BagList r] s')) by (intros; by apply (Hinv [] r); [constructor|]).
  destruct Hl as [|bag n Hne Hb|bag n m Hne Hb|i|bag i Hne Hb]; cbn [app key stack].
  - unfold bag_list_key. destruct (secrets_list_update r k) as [r' a] eqn:Hu. destruct (secrets_list_facts c r k r' a Hr Hu) as [Hr' Hm].
    destruct a as [| | |bag| | | |]; cbn; try (by apply (Hinv [] r'); [constructor|]).
    + by apply bags_inv_closed.
    + apply (Hinv [_] r'); [constructor|done].
    + destruct (Hm bag eq_refl). apply (Hinv [_] r'); [by constructor|done].
  - unfold popup. destruct (popup_update _ n k) as [n' a]. destruct a; cbn; try (by apply Hbase); try (by apply (Hinv [_]); [constructor|]).
    unfold bag_choice. destruct (String.eqb choice "Edit"); cbn.
    { apply (inv_detail c d Hc Hd []); [constructor|done|apply refresh_lists_keys|done]. }
    destruct (String.eqb choice "Rename"); cbn; [by apply (Hinv [_]); [constructor|]|].
    destruct (String.eqb choice "Delete"); cbn; [by apply (Hinv [_; _]); [constructor|]|by apply Hbase].
  - unfold prompt. destruct (prompt_key 2 m k) as [n' a]. destruct a; cbn; try (by apply (Hinv [_; _]); [constructor|]);
      try (by apply (Hinv [_]); [constructor|]).
    destruct n'; cbn; [|by apply (Hinv [_]); [constructor|]]. apply (bags_inv_list_edited c); [done|apply edits_secrets].
  - unfold input. destruct (input_update typed i k) as [i' a]. destruct a; cbn; try (by apply Hbase); try (by apply (Hinv [_]); [constructor|]).
    unfold bag_added. cbn [cfg]. destruct (add_bag c val) as [| | |c'] eqn:Ha; cbn; try (by apply (Hinv [_]); [constructor|]).
    assert (He : edits c0 c') by (etransitivity; [done|by eapply edits_add_bag]).
    apply (inv_detail c' true) with (l := []); [done|done|constructor|by eapply add_bag_has|apply refresh_lists_keys|apply refresh_lists_bags].
  - unfold input. destruct (input_update typed i k) as [i' a]. destruct a; cbn; try (by apply Hbase); try (by apply (Hinv [_]); [constructor|]).
    unfold bag_renamed. cbn [cfg]. destruct (rename_bag c bag val) as [| | |c'] eqn:Ha; cbn; try (by apply Hbase); try (by apply (Hinv [_]); [constructor|]).
    apply (bags_inv_list_edited c); [done|by eapply edits_rename_bag].
Qed.

Lemma merged_step c d bag r v r' l s b o :
  edits c0 c -> has_bag c bag -> lists_bags c r' -> bbag b = bag ->
  inv (merged (mkState c d (l ++ [BagDetail bag r v; BagList r']) s) (length l) (commitMerge c b o)).
Proof.
  intros Hc Hb Hr Hbb. unfold merged. rewrite <- Hbb in Hb. pose proof (edits_merge c b o) as He.
  pose proof (fun x => merge_has_bag c b o x Hb) as Hh. destruct (commitMerge c b o) as [c' st]. cbn [fst snd] in *.
  rewrite exec_pops. cbn [with_cfg cfg dirty stack status]. rewrite drop_app_length. cbn. subst bag. by apply (inv_detail_edited c).
Qed.

Lemma detail_step c d l bag r v r' s k :
  edits c0 c -> (d = false -> c = sv) -> over_detail c bag l -> has_bag c bag -> lists_keys c bag r -> lists_bags c r' ->
  inv (key typed fits (mkState c d (l ++ [BagDetail bag r v; BagList r']) s) k).
Proof.
  intros Hc Hd Hl Hb Hk Hr.
  assert (Hover : forall l' s', over_detail c bag l' -> inv (mkState c d (l' ++ [BagDetail bag r v; BagList r']) s')) by (intros; by apply inv_detail).
  assert (Hbase : forall s', inv (mkState c d [BagDetail bag r v; BagList r'] s')) by (intros; apply (Hover []); constructor).
  destruct Hl as [|ky n Hne Hky|ky n m Hne Hky|e Heb Hee|b Hbb|b n Hbb|b Hbb]; cbn [app key stack].
  - unfold detail_key. destruct (secret_detail_update r k) as [r1 a] eqn:Hu.
    destruct (secret_detail_facts c bag r k r1 a Hk Hu) as [Hr1 Hm].
    pose proof (fun l' v' s' Hl' => inv_detail c d Hc Hd l' bag r1 v' r' s' Hl' Hb Hr1 Hr) as Hover1.
    destruct a as [| | | | | |ky|ky]; cbn; try (apply (Hover1 []); constructor).
    + by apply (bags_inv_list c d Hc Hd []); [constructor|].
    + apply (Hover1 [_]). by constructor.
    + apply (Hover1 [_]). by constructor.
    + destruct (Hm ky eq_refl). apply (Hover1 [_]). by constructor.
  - unfold popup. destruct (popup_update _ n k) as [n' a]. destruct a; cbn; try (by apply Hbase); try (apply (Hover [_]); by constructor).
    unfold key_choice. destruct (String.eqb choice "Edit"); cbn.
    { apply (Hover [_]). unfold newKeyValueEditor. apply str_empty_false in Hne. rewrite Hne. by constructor. }
    destruct (String.eqb choice "Delete"); cbn; [apply (Hover [_; _]); by constructor|by apply Hbase].
  - unfold prompt. destruct (prompt_key 2 m k) as [n' a]. destruct a; cbn; try (apply (Hover [_; _]); by constructor); try (apply (Hover [_]); by constructor).
    destruct n'; cbn; [|apply (Hover [_]); by constructor].
    apply (inv_detail_edited c); [done|apply edits_secrets|intros b0; apply delete_key_has_bag|done|done].
  - unfold editor_key. pose proof (kv_update_fixed typed e k) as [Hf1 Hf2]. destruct (kv_update typed e k) as [e' a]. cbn [fst] in Hf1, Hf2.
    assert (He : forall s', inv (mkState c d [KeyEditor e'; BagDetail bag r v; BagList r'] s')).
    { intros s'. apply (Hover [_]). constructor; [congruence|by rewrite Hf2]. }
    destruct a; cbn; try (by apply He); [by apply Hbase|].
    unfold key_committed. cbn [with_top cfg]. destruct (kv_commit c e') as [| | |c'] eqn:Hcm; cbn; try (by apply He).
    1, 2: apply (Hover [_]); constructor; [by cbn; congruence|cbn; by rewrite Hf2].
    assert (Hkb : kvBag e' = bag) by congruence. pose proof Hcm as Hcm'. unfold kv_commit in Hcm'. rewrite Hkb in Hcm'.
    apply (inv_detail_edited c); [done|by eapply edits_commit_key| |done|done]. intros b0. by eapply commit_key_has_bag.
  - unfold bulk_key. cbn [cfg]. pose proof (bulk_update_fixed typed c b k) as Hf. destruct (bulk_update typed c b k) as [b' a]. cbn [fst] in Hf.
    assert (Hb' : forall s', inv (mkState c d [BulkImport_ b'; BagDetail bag r v; BagList r'] s')).
    { intros s'. apply (Hover [_]). constructor. congruence. }
    destruct a; cbn; try (destruct (negb (preview b) && _ && _); [|by apply Hb']; unfold parse_flash; destruct (preview b'); [by apply Hb'|];
      destruct (parseErrs b'); by apply Hb'); [by apply Hbase|apply (Hover [_; _]); constructor; congruence|].
    unfold bulk_apply, apply. cbn [with_top cfg]. destruct (collisions b') eqn:Hcol.
    + assert (Hbb' : bbag b' = bag) by congruence.
      exact (merged_step c d bag r v r' [BulkImport_ b'] s b' true Hc Hb Hr Hbb').
    + apply (Hover [_; _]). constructor. congruence.
  - unfold prompt. destruct (prompt_key 3 n k) as [n' a]. destruct a; cbn; try (apply (Hover [_; _]); by constructor); try (apply (Hover [_]); by constructor).
    unfold policy_answered, policy_chosen. cbn [with_top cfg].
    destruct (String.eqb _ "Overwrite all"); [exact (merged_step c d bag r v r' [BulkPolicy b n; BulkImport_ b] s b true Hc Hb Hr Hbb)|].
    destruct (String.eqb _ "Skip all"); [exact (merged_step c d bag r v r' [BulkPolicy b n; BulkImport_ b] s b false Hc Hb Hr Hbb)|].
    apply (Hover [_]). by constructor.
  - destruct (String.eqb k "esc"); cbn; [apply (Hover [_]); by constructor|apply (Hover [_; _]); by constructor].
Qed.

Lemma picked_step st path data : inv st -> inv (picked shown st path data).
Proof.
  destruct st as [c d stk s]. intros (Hc & Hd & Hs). cbn [cfg dirty stack] in *. unfold picked. cbn [stack].
  destruct Hs as [|l r Hl Hr|l bag r v r' Hl Hb Hk Hr]; [by apply bags_inv_closed| |].
  { destruct Hl; cbn; first [by apply (bags_inv_list c d Hc Hd []); [constructor|]|by apply (bags_inv_list c d Hc Hd [_]); [constructor|]
      |by apply (bags_inv_list c d Hc Hd [_; _]); [constructor|]]. }
  assert (Hover : forall l' s', over_detail c bag l' -> inv (mkState c d (l' ++ [BagDetail bag r v; BagList r']) s')) by (intros; by apply inv_detail).
  destruct Hl as [|ky n Hne Hky|ky n m Hne Hky|e Heb Hee|b Hbb|b n Hbb|b Hbb]; cbn.
  all: try first [apply (Hover []); by constructor|apply (Hover [_]); by constructor|apply (Hover [_; _]); by constructor].
  destruct (preview b); [apply (Hover [_]); by constructor|]. destruct data as [x|]; cbn; [|apply (Hover [_]); by constructor].
  unfold parse_flash. match goal with |- context [runParse c ?b0 x] => pose proof (runParse_fixed c b0 x) as Hf; set (b' := runParse c b0 x) in * end.
  destruct (preview b'); [|destruct (parseErrs b')]; cbn; apply (Hover [_]); constructor; by rewrite Hf.
Qed.

Lemma bags_event_step st e : (forall nm msg, e <> Saved nm msg) -> inv st -> inv (step typed fits shown st e).
Proof.
  intros Hns Hi. destruct e as [k|path data|nm msg]; [|by apply picked_step|by destruct (Hns nm msg)]. cbn.
  destruct (root_key k); [done|]. destruct st as [c d stk s]. destruct Hi as (Hc & Hd & Hs). cbn [cfg dirty stack] in *.
  destruct Hs; [by apply bags_inv_closed|by apply bags_list_step|by apply detail_step].
Qed.
End Steps.

Lemma shape_secrets c c' l : Secrets c' = Secrets c -> shape c l -> shape c' l.
Proof.
  intros HS. assert (Hb : forall b, has_bag c b -> has_bag c' b) by (intros b; unfold has_bag; by rewrite HS).
  assert (Hk : forall b k, has_key c b k -> has_key c' b k) by (intros b k; unfold has_key; by rewrite HS).
  assert (Hlb : forall r, lists_bags c r -> lists_bags c' r) by (intros r; unfold lists_bags; by rewrite HS).
  assert (Hlk : forall b r, lists_keys c b r -> lists_keys c' b r) by (intros b r; unfold lists_keys, has_key; by rewrite HS).
  intros [|l' r Hl Hr|l' bag r v r' Hl ? ? ?]; constructor; auto; destruct Hl; constructor; auto.
Qed.

Section Session.
Context `{MapRange} (typed : string -> string -> string) (fits shown : string -> string).

(** The state, and the configuration of the last save, which is the one of the start before
    the first save. *)
Definition saved_step (ss : TuiStack.state screen text * Config) (e : event) : TuiStack.state screen text * Config :=
  let st := step typed fits shown ss.1 e in (st, match e with Saved _ _ => cfg st | _ => ss.2 end).
Definition session (es : list event) (ss : TuiStack.state screen text * Config) := fold_left saved_step es ss.

Definition start (c : Config) : TuiStack.state screen text :=
  mkState c false [BagList (newSecretsListScreen c)] (Plain EmptyString).

Lemma bags_saved_step_inv c0 ss e : inv c0 ss.2 ss.1 -> let ss' := saved_step ss e in inv c0 ss'.2 ss'.1.
Proof.
  destruct ss as [st sv]. cbn. destruct e as [k|path data|nm msg]; try (by apply bags_event_step). intros (Hc & _ & Hs). split; [|split].
  - etransitivity; [exact Hc|apply bags_edits_idmap].
  - done.
  - by apply (shape_secrets (cfg st)).
Qed.

Lemma bags_session_inv c0 es ss : inv c0 ss.2 ss.1 -> inv c0 (session es ss).2 (session es ss).1.
Proof.
  unfold session. revert ss. induction es as [|e es IH]; intros ss Hi; [done|]. cbn [fold_left]. by apply IH, bags_saved_step_inv.
Qed.

Lemma bags_start_inv c : inv c c (start c).
Proof. apply (bags_inv_list c c c false) with (l := []); [done|done|constructor|apply refresh_lists_bags]. Qed.

End Session.

(** ** Some sessions *)

#[local] Existing Instance map_range_default.

#[local] Abbreviation ex_session es :=
  (session (fun k v => v +:+ k) (fun v => v) (fun v => v) es (start TuiTree.ex_plain, TuiTree.ex_plain)).

(** A new bag with a key, typed letter by letter, saved; then the bag is renamed and the
    rename is not saved. *)
Definition ex_events : list event :=
  (Key <$> ["enter"; "x"; "enter"; "enter"; "K"; "down"; "1"; "enter"]) ++ [Saved None "saved"]
  ++ (Key <$> ["esc"; "down"; "down"; "enter"; "down"; "enter"; "y"; "enter"]).

Example ex_bags :
  let '(st, last) := ex_session ex_events in
  Secrets last !! "x" = Some {["K" := "1"]} /\ Secrets (cfg st) !! "xy" = Some {["K" := "1"]}
  /\ Secrets (cfg st) !! "x" = None /\ dirty st = true.
Proof. vm_compute. auto. Qed.

(** A key, once revealed, is shown again when a key of that name comes back: the marks of the
    screen outlive the key. *)
Definition ex_reveal : list event :=
  Key <$> ["down"; "enter"; "enter"; "down"; "down"; "r"; "enter"; "down"; "enter"; "enter"; "up"; "up"; "enter"; "A"; "down"; "n"; "enter"].
Example reveal_outlives_key :
  match stack (ex_session ex_reveal).1 with
  | BagDetail bag _ reveal :: _ => (bag, reveal !! "A", default ∅ (Secrets (cfg (ex_session ex_reveal).1) !! bag) !! "A")
  | _ => ("", None, None)
  end = ("app", Some true, Some "n").
Proof. vm_compute. reflexivity. Qed.
End TuiBags.
