(* ===== verification/TuiRemotes.v ===== *)
(** * The source screens as one machine (src/internal/tui/sources_screen.go, arn_list_screen.go)

    The list of remote sources, adding one (its type, its name, its parameters), the
    parameters form, the list of ARNs and the popups, prompts and inputs in front of them,
    driven by keys.  What each does to the configuration is TuiSources's and TuiRefs's; here
    are the callbacks, the order of the messages they send and the stack they leave. *)

From S2P Require Import Prelude GoString ConfigModel Edit Resolver TuiRefs TuiWidgets TuiStack Aws TuiSources TuiTree TuiSecrets.
Import Config Edit TuiRefs TuiWidgets TuiStack TuiSources.

Module TuiRemotes.

Record picker := mkPicker { ptypes : list string; pcursor : nat; pfocus : option nat }.
Record arnList := mkArnList { aname : string; acursor : nat; arns : list string }.

Inductive screen :=
| SourceList (names : list string) (cursor : nat)
| SourcePopup (name : string) (cursor : nat)
| SourceDelete (name : string) (cursor : nat)
| SourceRename (name : string) (i : inputScreen)
| TypePicker (p : picker)
| NameInput (typeName : string) (i : inputScreen)
| ParamsScreen (s : sourceParamsScreen)
| ArnListScreen (l : arnList)
| ArnAdd (name : string) (i : inputScreen)
| ArnPopup (name : string) (idx : nat) (current : string) (cursor : nat)
| ArnEdit (name : string) (idx : nat) (i : inputScreen)
| ArnDelete (name : string) (idx : nat) (cursor : nat)
| StubScreen (title body : string).

Inductive change := SourceSaved | ArnsChanged.

#[local] Abbreviation state := (TuiStack.state screen string).

Section Machine.
Context `{MapRange}.

(** The two lists and what refreshes them. *)
Definition source_refresh (c : Config) (cursor : nat) : screen :=
  let names := source_rows c in SourceList names (clamp cursor (length names)).
Definition arn_refresh (c : Config) (l : arnList) : screen :=
  let next := readARNs c (aname l) in ArnListScreen (mkArnList (aname l) (clamp (acursor l) (length next)) next).

Definition hear (c : Config) (ch : change) (s : screen) : screen :=
  match ch, s with
  | SourceSaved, SourceList _ cur => source_refresh c cur
  | ArnsChanged, ArnListScreen l => arn_refresh c l
  | _, _ => s
  end.

Definition error (st : state) (msg : string) : state := exec hear [EError msg] st.

(** The registered types with their schemas, a key in a text field, what a field makes of a value. *)
Context (types : list string) (Schema : string -> list ParamField).
Context (typed : string -> string -> string) (fits : string -> string).

(** ** The list of sources *)

Definition newSourcesListScreen (c : Config) : screen := source_refresh c 0.

Definition newTypePicker : screen := TypePicker (mkPicker (remoteSourceTypes types) 0 None).

Definition source_list_key (st : state) (names : list string) (cursor : nat) (k : string) : state :=
  let '(cur, a) := list_nav (length names + 1) cursor k in
  let st := with_top st (SourceList names cur) in
  match a with
  | Close => exec hear [EPop] st
  | Entered =>
      match cursor with
      | O => exec hear [EPush newTypePicker] st
      | _ => let name := selectedName names cursor in
             if str_empty name then st else exec hear [EPush (SourcePopup name 0)] st
      end
  | _ => st
  end.

Definition paramsForEdit (c : Config) (name : string) : screen :=
  match newSourceParamsScreenForEdit Schema fits c name with
  | Some s => ParamsScreen s
  | None => StubScreen "sources" "(source vanished)"
  end.

Definition source_choice (st : state) (name choice : string) : state :=
  if String.eqb choice "Edit" then exec hear [EPop; EPush (paramsForEdit (cfg st) name)] st
  else if String.eqb choice "Rename" then
    exec hear [EPop; EPush (SourceRename name (newInputScreen name false false false "Rename" EmptyString))] st
  else if String.eqb choice "Delete" then exec hear [EPush (SourceDelete name 0)] st
  else exec hear [EPop] st.

Definition source_deleted (st : state) (name : string) : state :=
  exec hear [EPop; EPop; EDirty; EChanged SourceSaved; EStatus ("removed source " +:+ name)]
    (with_cfg st (delete_source (cfg st) name)).

Definition source_renamed (st : state) (name val : string) : state :=
  match rename_source (cfg st) name val with
  | NameRequired => error st "name required"
  | Unchanged => exec hear [EPop] st
  | Exists => error st "source already exists"
  | Done c => exec hear [EPop; EDirty; EChanged SourceSaved; EStatus ("renamed source to " +:+ trim_space val)] (with_cfg st c)
  end.

(** ** A new source *)

Definition picker_buttons : list string := ["Next"; "Back"].

Definition tab_focus (f : option nat) (buttons : nat) : option nat :=
  let z := picker_tab (match f with Some b => Z.of_nat b | None => -1 end) (Z.of_nat buttons) in
  if (z <? 0)%Z then None else Some (Z.to_nat z).

Definition newSourceNameScreen (c : Config) (typeName : string) : screen :=
  NameInput typeName (newInputScreen (proposeSourceName c typeName) false false false EmptyString EmptyString).

Definition picker_key (st : state) (p : picker) (k : string) : state :=
  let n := length picker_buttons in
  let at_ cur f := with_top st (TypePicker (mkPicker (ptypes p) cur f)) in
  if is_up k then
    match pfocus p with Some _ => at_ (pcursor p) None | None => at_ (pred (pcursor p)) None end
  else if is_down k then
    match pfocus p with
    | None => if (pcursor p <? length (ptypes p) - 1)%nat then at_ (S (pcursor p)) None else at_ (pcursor p) (Some 0%nat)
    | f => at_ (pcursor p) f
    end
  else if String.eqb k "tab" then at_ (pcursor p) (tab_focus (pfocus p) n)
  else if String.eqb k "left" || String.eqb k "h" then
    at_ (pcursor p) (match pfocus p with Some (S b) => Some b | f => f end)
  else if String.eqb k "right" || String.eqb k "l" then
    at_ (pcursor p) (match pfocus p with Some b => if (b <? n - 1)%nat then Some (S b) else Some b | None => None end)
  else if String.eqb k "enter" then
    let next := match pfocus p with None => true | Some b => String.eqb (nth b picker_buttons EmptyString) "Next" end in
    if next then
      match ptypes p with
      | [] => error st "no source types compiled in"
      | ts => exec hear [EPush (newSourceNameScreen (cfg st) (nth (pcursor p) ts EmptyString))] st
      end
    else exec hear [EPop] st
  else if String.eqb k "esc" then exec hear [EPop] st
  else st.

Definition source_named (st : state) (typeName val : string) : state :=
  match name_source Schema fits (cfg st) typeName val with
  | NNameRequired => error st "name required"
  | NExists name => error st ("source " +:+ name +:+ " already exists")
  | NParams s => exec hear [EPop; EPop; EPush (ParamsScreen s)] st
  end.

(** ** The parameters *)

Definition missing_msg (l : list string) : string := "missing required: " +:+ String.concat ", " l.

Definition with_err (s : sourceParamsScreen) (e : string) : sourceParamsScreen :=
  mkParams (sname s) (stypeName s) (creating s) (sform s) (sfocus s) e.

Definition params_chosen (st : state) (s : sourceParamsScreen) (label : string) : state :=
  if String.eqb label "Apply" then
    match TuiSources.save (cfg st) s with
    | inl l => error (with_top st (ParamsScreen (with_err s (missing_msg l)))) (missing_msg l)
    | inr (c, verb) => exec hear [EPop; EDirty; EChanged SourceSaved; EStatus (verb +:+ " source " +:+ sname s)] (with_cfg st c)
    end
  else if String.eqb label "Test" then
    match MissingRequired (sform s) with
    | [] => st                               (* the answer comes later *)
    | l => error st (missing_msg l)
    end
  else if String.eqb label "ARNs" then
    let c := openARNs (cfg st) s in
    exec hear [EPush (arn_refresh c (mkArnList (sname s) 0 []))] (with_cfg st c)
  else st.

Definition params_key (st : state) (s : sourceParamsScreen) (k : string) : state :=
  let '(s', a) := params_update typed s k in
  let st := with_top st (ParamsScreen s') in
  match a with
  | Close => exec hear [EPop] st
  | Chosen label => params_chosen st s' label
  | _ => st
  end.

(** ** The ARNs *)

Definition arn_list_key (st : state) (l : arnList) (k : string) : state :=
  let '(cur, a) := list_nav (length (arns l) + 1) (acursor l) k in
  let st := with_top st (ArnListScreen (mkArnList (aname l) cur (arns l))) in
  match a with
  | Close => exec hear [EPop] st
  | Entered =>
      match acursor l with
      | O => exec hear [EPush (ArnAdd (aname l) (newInputScreen EmptyString false false false "Add" "Back"))] st
      | S idx => match arns l !! idx with
                 | Some current => exec hear [EPush (ArnPopup (aname l) idx current 0)] st
                 | None => st
                 end
      end
  | _ => st
  end.

(** The answers of the two inputs, which close [pops] screens. *)
Definition arn_answer (st : state) (pops : nat) (msg : string) (r : arn_result) : state :=
  match r with
  | ARNRequired => error st "ARN required"
  | NotAnARN => error st "not an AWS Secrets Manager ARN"
  | ARNDone c => exec hear (replicate pops EPop ++ [EDirty; EChanged ArnsChanged; EStatus msg]) (with_cfg st c)
  end.

Definition arn_choice (st : state) (name : string) (idx : nat) (current choice : string) : state :=
  if String.eqb choice "Edit" then exec hear [EPush (ArnEdit name idx (newInputScreen current false false false "Apply" "Back"))] st
  else if String.eqb choice "Delete" then exec hear [EPush (ArnDelete name idx 0)] st
  else exec hear [EPop] st.

Definition arn_deleted (st : state) (name : string) (idx : nat) : state :=
  exec hear [EPop; EPop; EDirty; EChanged ArnsChanged; EStatus "ARN removed"] (with_cfg st (arn_delete (cfg st) name idx)).

(** ** A key, the answer of a test, a save *)

Definition is_stub_key (k : string) : bool := String.eqb k "esc" || String.eqb k "q" || String.eqb k "left" || String.eqb k "h".

Definition key (st : state) (k : string) : state :=
  match stack st with
  | [] => st
  | SourceList names cur :: _ => source_list_key st names cur k
  | SourcePopup name cur :: _ => popup hear st ["Edit"; "Rename"; "Delete"; "Back"] cur k (SourcePopup name) (source_choice st name)
  | SourceDelete name cur :: _ =>
      prompt hear st 2 cur k (SourceDelete name) (fun n => match n with O => source_deleted st name | _ => exec hear [EPop] st end)
  | SourceRename name i :: _ => input hear typed (fun m => m) None st i k (SourceRename name) (source_renamed st name)
  | TypePicker p :: _ => picker_key st p k
  | NameInput t i :: _ => input hear typed (fun m => m) None st i k (NameInput t) (source_named st t)
  | ParamsScreen s :: _ => params_key st s k
  | ArnListScreen l :: _ => arn_list_key st l k
  | ArnAdd name i :: _ =>
      input hear typed (fun m => m) None st i k (ArnAdd name) (fun v => arn_answer st 1 "ARN added" (arn_add (cfg st) name v))
  | ArnPopup name idx cur n :: _ => popup hear st ["Edit"; "Delete"; "Back"] n k (ArnPopup name idx cur) (arn_choice st name idx cur)
  | ArnEdit name idx i :: _ =>
      input hear typed (fun m => m) None st i k (ArnEdit name idx)
        (fun v => arn_answer st 2 "ARN updated" (arn_edit (cfg st) name idx v))
  | ArnDelete name idx n :: _ =>
      prompt hear st 2 n k (ArnDelete name idx) (fun n => match n with O => arn_deleted st name idx | _ => exec hear [EPop] st end)
  | StubScreen _ _ :: _ => if is_stub_key k then exec hear [EPop] st else st
  end.

Inductive event := Key (k : string) | Tested (msg : string) | Saved (nm : option NameMap) (msg : string).

Definition step (st : state) (e : event) : state :=
  match e with
  | Key k => if root_key k then st else key st k
  | Tested msg => exec hear [EStatus msg] st
  | Saved nm msg => saved st nm msg
  end.
End Machine.

(** ** What the edits leave alone *)

Definition fixed (v : VarRef) : string * string * string * gmap string string * string := (Name v, Ref v, Config.Key v, Extra v, Value v).
Definition outline (m : Mapping) := (Path m, Glob m, CwdGlob m, Commands m, fixed <$> Vars m).

(** [c'] has the bags of [c] and its mappings up to the source that their vars name, and is
    as well formed as [c]; whether every var has its source is for the check of the save. *)
Record edits (c c' : Config) : Prop := {
  ed_structure : structure_ok c -> structure_ok c';
  ed_secrets : Secrets c' = Secrets c;
  ed_outline : outline <$> Mappings c' = outline <$> Mappings c;
  ed_rest : CVersion c' = CVersion c /\ CMeta c' = CMeta c /\ CAgent c' = CAgent c
}.

#[export] Instance edits_preorder : PreOrder edits.
Proof.
  split; [by intros c; split|]. intros c1 c2 c3 [V1 S1 O1 (E1 & E2 & E3)] [V2 S2 O2 (F1 & F2 & F3)].
  split; [auto|congruence|congruence|by rewrite F1, F2, F3].
Qed.

Definition has_source (c : Config) (name : string) : Prop := is_Some (Sources c !! name).
Definition is_aws (c : Config) (name : string) : Prop := exists sc, Sources c !! name = Some sc /\ Type_ sc = "aws".
Definition type_ok (t : string) : Prop := t <> "" /\ t <> "github".

Lemma remotes_edits_idmap c nm : edits c (with_idmap c nm).
Proof. split; try done. by intros [? ? ?]. Qed.

(** New sources, each with a type that may stand in the file. *)
Lemma edits_sources c srcs :
  (structure_ok c -> map_Forall (fun _ sc => type_ok (Type_ sc)) srcs) -> edits c (with_sources c srcs).
Proof. intros Ht. split; try done. intros Hok. specialize (Ht Hok). destruct Hok. by split. Qed.

Lemma edits_put c name sc : (structure_ok c -> type_ok (Type_ sc)) -> edits c (with_sources c (<[name := sc]> (Sources c))).
Proof. intros Ht. apply edits_sources. intros Hok. apply map_Forall_insert_2; [auto|by destruct Hok]. Qed.

Lemma edits_delete c name : edits c (delete_source c name).
Proof. apply edits_sources. intros [_ Hs _]. intros n sc [_ Hn]%lookup_delete_Some. by eapply Hs. Qed.

Lemma edits_rename c old val c' : old <> "" -> has_source c old -> rename_source c old val = Done c' -> edits c c'.
Proof.
  intros Hne [sc Hsc]. unfold rename_source. set (new_ := trim_space val).
  destruct (str_empty new_) eqn:He; [done|]. apply str_empty_false in He. destruct (String.eqb new_ old); [done|].
  destruct (Sources c !! new_); [done|]. intros [= <-]. rewrite Hsc. cbn [default]. set (c1 := with_sources c _).
  transitivity c1.
  { apply edits_sources. intros [_ Hs _]. intros n s [_ Hn]%lookup_delete_Some. apply lookup_insert_Some in Hn as [[_ <-]|[_ Hn]]; by eapply Hs. }
  transitivity (rewriteSourceRefs c1 old new_).
  - pose proof (source_ref_keeps old new_ Hne He) as Hk. split; try done.
    + intros [? ? Hm]. split; try done. by apply map_vars_ok.
    + unfold rewriteSourceRefs, map_vars, with_mappings. cbn [Mappings]. rewrite <- list_fmap_compose. apply list_fmap_ext. intros _ m _.
      unfold outline, compose. cbn [Path Glob CwdGlob Commands Vars]. f_equal. rewrite <- list_fmap_compose. apply list_fmap_ext. intros _ v _.
      unfold fixed, compose, source_ref. by destruct (String.eqb _ _).
  - unfold renameIDMapSource. destruct (IDMap _); [apply remotes_edits_idmap|done].
Qed.

Section Commit.
Context `{MapRange}.

Definition sound_params (c : Config) (s : sourceParamsScreen) : Prop :=
  if creating s then type_ok (stypeName s) else exists sc, Sources c !! sname s = Some sc /\ Type_ sc = stypeName s.

Lemma edits_commit c s : sound_params c s -> edits c (commit_form c s).
Proof.
  intros Hs. apply edits_put. intros [_ Hok _]. cbn. unfold sound_params in Hs. destruct (creating s); [done|].
  destruct Hs as (sc & Hsc & <-). by eapply Hok.
Qed.

Lemma sound_commit c s : sound_params c s -> sound_params (commit_form c s) s.
Proof.
  unfold sound_params. destruct (creating s); [done|]. intros _. cbn. rewrite lookup_insert_eq. eexists. by split.
Qed.

Lemma commit_has c s n : has_source c n -> has_source (commit_form c s) n.
Proof.
  unfold has_source. cbn. destruct (decide (n = sname s)) as [->|Hn]; [by rewrite lookup_insert_eq|by rewrite lookup_insert_ne].
Qed.

Lemma commit_aws c s : stypeName s = "aws" -> is_aws (commit_form c s) (sname s).
Proof. intros Ht. unfold is_aws. cbn. rewrite lookup_insert_eq. eexists. by split. Qed.

Lemma edits_write c name l : is_aws c name -> edits c (writeARNs c name l).
Proof. intros (sc & Hsc & Ht). apply edits_put. rewrite Hsc. cbn. intros _. by rewrite Ht. Qed.

Lemma write_aws c name l n : is_aws c n -> is_aws (writeARNs c name l) n.
Proof.
  intros (sc & Hsc & Ht). unfold is_aws. cbn. destruct (decide (n = name)) as [->|Hn].
  - rewrite lookup_insert_eq. eexists. split; [done|]. by rewrite Hsc.
  - rewrite lookup_insert_ne by done. by exists sc.
Qed.

Lemma write_has c name l n : has_source c n -> has_source (writeARNs c name l) n.
Proof. unfold has_source. cbn. destruct (decide (n = name)) as [->|Hn]; [by rewrite lookup_insert_eq|by rewrite lookup_insert_ne]. Qed.

Lemma write_type c name l n sc :
  is_aws c name -> Sources c !! n = Some sc -> exists sc', Sources (writeARNs c name l) !! n = Some sc' /\ Type_ sc' = Type_ sc.
Proof.
  intros (sa & Hsa & Ht) Hn. cbn. destruct (decide (n = name)) as [->|Hne].
  - rewrite lookup_insert_eq. eexists. split; [done|]. rewrite Hn. done.
  - rewrite lookup_insert_ne by done. by exists sc.
Qed.

(** Both inputs and the deletion end in one write. *)
Lemma arn_add_write c name v c' : arn_add c name v = ARNDone c' -> exists l, c' = writeARNs c name l.
Proof.
  unfold arn_add, check_arn. destruct (str_empty _); [done|]. destruct (negb _); [done|]. intros [= <-]. by eexists.
Qed.

Lemma arn_edit_write c name idx v c' :
  (idx < length (readARNs c name))%nat -> arn_edit c name idx v = ARNDone c' -> exists l, c' = writeARNs c name l.
Proof.
  intros Hi. unfold arn_edit, check_arn. destruct (str_empty _); [done|]. destruct (negb _); [done|]. intros [= <-].
  apply Nat.ltb_lt in Hi. rewrite Hi. by eexists.
Qed.

Lemma arn_delete_write c name idx : (idx < length (readARNs c name))%nat -> exists l, arn_delete c name idx = writeARNs c name l.
Proof. intros Hi. unfold arn_delete. apply Nat.ltb_lt in Hi. rewrite Hi. by eexists. Qed.
End Commit.

(** ** What is on the screens is there *)

Definition lists_sources (c : Config) (names : list string) (cursor : nat) : Prop :=
  Forall (has_source c) names /\ (cursor <= length names)%nat.
Definition lists_arns (c : Config) (l : arnList) : Prop :=
  is_aws c (aname l) /\ arns l = readARNs c (aname l) /\ (acursor l <= length (arns l))%nat.
Definition has_arn (c : Config) (name : string) (idx : nat) : Prop := is_aws c name /\ (idx < length (readARNs c name))%nat.
Definition picks (p : picker) : Prop :=
  (ptypes p = [] \/ (pcursor p < length (ptypes p))%nat) /\ match pfocus p with Some b => (b < 2)%nat | None => True end.

Definition shows (c : Config) (s : screen) : Prop :=
  match s with
  | SourceList names cur => lists_sources c names cur
  | SourcePopup name _ | SourceDelete name _ | SourceRename name _ => has_source c name
  | TypePicker p => picks p
  | NameInput _ _ => True
  | ParamsScreen s => sound_params c s
  | ArnListScreen l => lists_arns c l
  | ArnAdd name _ => is_aws c name
  | ArnPopup name idx current _ => is_aws c name /\ readARNs c name !! idx = Some current
  | ArnEdit name idx _ | ArnDelete name idx _ => has_arn c name idx
  | StubScreen _ _ => False
  end.

Lemma lists_arns_has c l idx current : lists_arns c l -> arns l !! idx = Some current -> has_arn c (aname l) idx.
Proof. intros (Ha & -> & _) Hi%lookup_lt_Some. by split. Qed.

Inductive over_list (types : list string) (c : Config) : list screen -> Prop :=
| ol_none : over_list types c []
| ol_popup name n : name <> "" -> has_source c name -> over_list types c [SourcePopup name n]
| ol_delete name n m : name <> "" -> has_source c name -> over_list types c [SourceDelete name m; SourcePopup name n]
| ol_rename name i : name <> "" -> has_source c name -> over_list types c [SourceRename name i]
| ol_picker p : ptypes p = remoteSourceTypes types -> picks p -> over_list types c [TypePicker p]
| ol_name t i p : t ∈ remoteSourceTypes types -> ptypes p = remoteSourceTypes types -> picks p -> over_list types c [NameInput t i; TypePicker p]
| ol_params s : sound_params c s -> over_list types c [ParamsScreen s].

(** In front of a form: the ARNs of its source, and what they open. *)
Inductive over_arns (c : Config) (name : string) : list screen -> Prop :=
| oa_none : over_arns c name []
| oa_add i : over_arns c name [ArnAdd name i]
| oa_popup idx current n : readARNs c name !! idx = Some current -> over_arns c name [ArnPopup name idx current n]
| oa_edit idx current n i : readARNs c name !! idx = Some current -> over_arns c name [ArnEdit name idx i; ArnPopup name idx current n]
| oa_delete idx current n m : readARNs c name !! idx = Some current -> over_arns c name [ArnDelete name idx m; ArnPopup name idx current n].

Inductive shape (types : list string) (c : Config) : list screen -> Prop :=
| sh_closed : shape types c []
| sh_list l names cur : over_list types c l -> lists_sources c names cur -> shape types c (l ++ [SourceList names cur])
| sh_arns l a s names cur :
    over_arns c (aname a) l -> lists_arns c a -> sound_params c s -> lists_sources c names cur ->
    shape types c (l ++ [ArnListScreen a; ParamsScreen s; SourceList names cur]).

Lemma remotes_shape_shows types c l : shape types c l -> Forall (shows c) l.
Proof.
  intros [|l' names cur Hl Hr|l' a s names cur Hl Ha Hs Hr]; [constructor| |]; apply Forall_app; split.
  - destruct Hl; rewrite ?Forall_cons; cbn; auto.
  - rewrite Forall_cons. auto.
  - assert (Hh : forall idx current, readARNs c (aname a) !! idx = Some current -> has_arn c (aname a) idx).
    { intros idx current Hi%lookup_lt_Some. destruct Ha. by split. }
    destruct Ha as (Haws & _). destruct Hl; rewrite ?Forall_cons; cbn; eauto 10.
  - rewrite !Forall_cons. cbn. auto.
Qed.

Lemma params_update_fixed typed s k s' a :
  params_update typed s k = (s', a) ->
  (sname s' = sname s /\ stypeName s' = stypeName s /\ creating s' = creating s)
  /\ forall label, a = Chosen label -> label = "" \/ label ∈ paramButtonsForType (stypeName s).
Proof.
  unfold params_update. set (btns := paramButtonsForType (stypeName s)).
  assert (Hnth : forall b, nth b btns "" = "" \/ nth b btns "" ∈ btns).
  { intros b. destruct (nth_in_or_default b btns "") as [Hi|Hd]; [right; by apply list_elem_of_In|by left]. }
  destruct (sfocus s) as [b|] eqn:Hf.
  all: repeat match goal with
    | |- context [if ?x then _ else _] => destruct x
    | |- context [match ?x with O => _ | S _ => _ end] => destruct x
    end; intros [= <- <-]; (split; [done|]); intros label; try done.
  all: intros [= <-]; apply Hnth.
Qed.

Lemma arns_button s : "ARNs" ∈ paramButtonsForType (stypeName s) -> stypeName s = "aws".
Proof. unfold paramButtonsForType. destruct (String.eqb_spec (stypeName s) "aws"); [done|]. intros Hi. exfalso. set_solver. Qed.

Section Rows.
Context `{MapRange}.

Lemma refresh_lists_sources c cur : exists names cur', source_refresh c cur = SourceList names cur' /\ lists_sources c names cur'.
Proof.
  eexists _, _. split; [done|]. split; [|unfold clamp; lia]. apply Forall_forall. intros n. unfold source_rows, sort_strings.
  rewrite merge_sort_Permutation, list_elem_of_fmap. intros ([n' sc] & -> & Hin). cbn. apply list_elem_of_In, filter_In in Hin as [Hin _].
  apply list_elem_of_In, elem_of_map_range in Hin. by eexists.
Qed.

Lemma refresh_lists_arns c l : is_aws c (aname l) -> exists l', arn_refresh c l = ArnListScreen l' /\ aname l' = aname l /\ lists_arns c l'.
Proof. intros Ha. eexists. split; [done|]. split; [done|]. split; [done|]. cbn. split; [done|]. unfold clamp. lia. Qed.

Lemma selectedName_has c names cur : lists_sources c names cur -> selectedName names cur <> "" -> has_source c (selectedName names cur).
Proof.
  intros [Hn _]. unfold selectedName. destruct cur as [|i]; [done|]. intros Hne. rewrite Forall_forall in Hn. apply Hn.
  destruct (nth_in_or_default i names "") as [Hi|Hd]; [by apply list_elem_of_In|by rewrite Hd in Hne].
Qed.
End Rows.

Lemma lists_sources_has c c' names cur :
  (forall n, has_source c n -> has_source c' n) -> lists_sources c names cur -> lists_sources c' names cur.
Proof. intros Hh [Hn Hc]. split; [|done]. by eapply Forall_impl. Qed.

(** What an open ARN list may have changed without a mark: sources of type aws. *)
Definition unmarked (saved c : Config) : Prop :=
  with_sources c (Sources saved) = saved /\ forall n, Sources c !! n = Sources saved !! n \/ is_aws c n.

Lemma unmarked_same c : unmarked c c.
Proof. split; [by destruct c|by left]. Qed.

Section Steps.
Context `{MapRange} (types : list string) (Schema : string -> list ParamField).
Context (typed : string -> string -> string) (fits : string -> string) (c0 sv : Config).
Hypothesis Htypes : Forall type_ok types.

Definition inv (st : TuiStack.state screen string) : Prop :=
  edits c0 (cfg st) /\ (dirty st = false -> unmarked sv (cfg st)) /\ shape types (cfg st) (stack st).

Section At.
Context (c : Config) (d : bool) (Hc : edits c0 c) (Hd : d = false -> unmarked sv c).

Lemma remotes_inv_closed s : inv (mkState c d [] s).
Proof. split; [done|]. split; [done|constructor]. Qed.

Lemma remotes_inv_list l names cur s : over_list types c l -> lists_sources c names cur -> inv (mkState c d (l ++ [SourceList names cur]) s).
Proof. split; [done|]. split; [done|by constructor]. Qed.

Lemma inv_arns l a p names cur s :
  over_arns c (aname a) l -> lists_arns c a -> sound_params c p -> lists_sources c names cur ->
  inv (mkState c d (l ++ [ArnListScreen a; ParamsScreen p; SourceList names cur]) s).
Proof. split; [done|]. split; [done|by constructor]. Qed.
End At.

Lemma remotes_inv_list_edited c c' cur s : edits c0 c -> edits c c' -> inv (mkState c' true [source_refresh c' cur] s).
Proof.
  intros H1 H2. destruct (refresh_lists_sources c' cur) as (names & cur' & -> & Hl).
  apply (remotes_inv_list c' true) with (l := []); [by etransitivity|done|constructor|done].
Qed.

Lemma inv_arns_edited c c' a p names cur s l :
  edits c0 c -> is_aws c (aname a) -> sound_params c p -> lists_sources c names cur -> c' = writeARNs c (aname a) l ->
  inv (mkState c' true [arn_refresh c' a; ParamsScreen p; SourceList names cur] s).
Proof.
  intros Hc Ha Hp Hl ->. pose proof (write_aws c (aname a) l (aname a) Ha) as Ha'.
  destruct (refresh_lists_arns _ a Ha') as (a' & -> & Hn & Hl').
  apply (inv_arns _ true) with (l := []); [etransitivity; [exact Hc|by apply edits_write]|done|constructor|done| |].
  - unfold sound_params in *. destruct (creating p); [done|]. destruct Hp as (sc & Hsc & <-). by apply write_type.
  - eapply lists_sources_has; [|done]. intros n. apply write_has.
Qed.

Lemma remote_type_ok t : t ∈ remoteSourceTypes types -> type_ok t.
Proof.
  intros Hi%list_elem_of_In. apply filter_In in Hi as [Hi _]. rewrite Forall_forall in Htypes. by apply Htypes, list_elem_of_In.
Qed.

Lemma picker_step c d p names cur s k :
  edits c0 c -> (d = false -> unmarked sv c) -> lists_sources c names cur -> ptypes p = remoteSourceTypes types -> picks p ->
  inv (key types Schema typed fits (mkState c d [TypePicker p; SourceList names cur] s) k).
Proof.
  intros Hc Hd Hl Ht Hp. pose proof (remotes_inv_list c d Hc Hd) as Hinv. cbn [key stack]. unfold picker_key. cbn [length picker_buttons].
  assert (Hat : forall cu f s', picks (mkPicker (ptypes p) cu f) ->
    inv (mkState c d [TypePicker (mkPicker (ptypes p) cu f); SourceList names cur] s')).
  { intros cu f s' Hk. apply (Hinv [_]); [by constructor|done]. }
  destruct p as [ts cu f]. cbn [ptypes pcursor pfocus] in *. destruct Hp as [Hcu Hf]. cbn [ptypes pcursor pfocus] in Hcu, Hf.
  assert (Hmv : forall g, match g with Some b => (b < 2)%nat | None => True end -> picks (mkPicker ts cu g)) by (by split).
  destruct (is_up k).
  { destruct f; cbn; apply Hat; [by apply Hmv|]. split; [|done]. destruct Hcu as [?|?]; [by left|right; cbn; lia]. }
  destruct (is_down k).
  { cbn [pfocus pcursor ptypes]. destruct f as [b|]; [apply Hat, Hmv, Hf|].
    destruct (cu <? length ts - 1)%nat eqn:Hlt; apply Hat; [|apply Hmv; lia].
    apply Nat.ltb_lt in Hlt. split; [right; cbn; lia|done]. }
  destruct (String.eqb k "tab"); [apply Hat, Hmv; destruct f as [[|[|b]]|]; [done|vm_compute; lia|exfalso; lia|vm_compute; lia]|].
  destruct (String.eqb k "left" || String.eqb k "h"); [apply Hat, Hmv; destruct f as [[|b]|]; cbn in Hf |- *; lia|].
  destruct (String.eqb k "right" || String.eqb k "l").
  { apply Hat, Hmv. cbn [pfocus]. destruct f as [b|]; [|done]. destruct (b <? 2 - 1)%nat eqn:Hlt; [apply Nat.ltb_lt in Hlt; lia|done]. }
  destruct (String.eqb k "enter").
  - cbn [pfocus ptypes pcursor]. match goal with |- context [if ?b then _ else _] => destruct b end.
    + destruct ts as [|t ts]; [by apply Hat|]. destruct Hcu as [?|Hcu]; [done|]. unfold newSourceNameScreen.
      refine (Hinv [_; _] names cur s _ Hl). constructor; [|done|by split; [right|]]. rewrite <- Ht. by apply list_elem_of_In, nth_In.
    + by apply (Hinv []); [constructor|].
  - destruct (String.eqb k "esc"); cbn; [by apply (Hinv []); [constructor|]|by apply Hat].
Qed.

(** Opening the ARNs commits the form without a mark. *)
Lemma arns_opened c d p names cur s :
  edits c0 c -> (d = false -> unmarked sv c) -> sound_params c p -> lists_sources c names cur -> stypeName p = "aws" ->
  inv (params_chosen (mkState c d [ParamsScreen p; SourceList names cur] s) p "ARNs").
Proof.
  intros Hc Hd Hp Hl Ht. unfold params_chosen. cbn [String.eqb Ascii.eqb Bool.eqb cfg]. unfold openARNs.
  pose proof (commit_aws c p Ht) as Ha. set (c' := commit_form c p) in *.
  destruct (refresh_lists_arns c' (mkArnList (sname p) 0 []) Ha) as (a & Heq & _ & Hla).
  cbn [exec fold_left exec1 with_cfg cfg dirty stack status]. rewrite Heq.
  apply (inv_arns c' d) with (l := []); [etransitivity; [exact Hc|by apply edits_commit]| |constructor|done|by apply sound_commit|].
  - intros Hdf. destruct (Hd Hdf) as [Hr Hs]. split; [exact Hr|]. intros n. destruct (decide (n = sname p)) as [->|Hn]; [by right|].
    unfold is_aws, c', commit_form. cbn. rewrite lookup_insert_ne by done. apply Hs.
  - eapply lists_sources_has; [|done]. intros n. apply commit_has.
Qed.

Lemma params_step c d p names cur s k :
  edits c0 c -> (d = false -> unmarked sv c) -> sound_params c p -> lists_sources c names cur ->
  inv (key types Schema typed fits (mkState c d [ParamsScreen p; SourceList names cur] s) k).
Proof.
  intros Hc Hd Hp Hl. pose proof (remotes_inv_list c d Hc Hd) as Hinv. cbn [key stack]. unfold params_key.
  destruct (params_update typed p k) as [p' a] eqn:Hu. destruct (params_update_fixed typed p k p' a Hu) as [(Hn & Ht & Hcr) Hlab].
  assert (Hp' : sound_params c p') by (unfold sound_params in *; by rewrite Hn, Ht, Hcr).
  assert (Hstay : forall p1 s', sound_params c p1 -> inv (mkState c d [ParamsScreen p1; SourceList names cur] s')) by (intros; by apply (Hinv [_]); [constructor|]).
  destruct a as [| |label|v|v|m|]; cbn [with_top cfg dirty stack status]; try (by apply Hstay).
  { by apply (Hinv []); [constructor|]. }
  destruct (String.eqb_spec label "ARNs") as [->|Hne].
  { apply arns_opened; try done. rewrite Ht. destruct (Hlab _ eq_refl) as [?|Hi]; [done|by apply arns_button]. }
  unfold params_chosen. cbn [cfg]. destruct (String.eqb label "Apply").
  - unfold TuiSources.save. destruct (MissingRequired (sform p')) as [|m ms].
    + cbn. apply (remotes_inv_list_edited c); [done|by apply edits_commit].
    + apply Hstay. done.
  - destruct (String.eqb label "Test"); [destruct (MissingRequired (sform p')); by apply Hstay|].
    destruct (String.eqb_spec label "ARNs"); [done|by apply Hstay].
Qed.

Lemma remotes_list_step c d l names cur s k :
  edits c0 c -> (d = false -> unmarked sv c) -> over_list types c l -> lists_sources c names cur ->
  inv (key types Schema typed fits (mkState c d (l ++ [SourceList names cur]) s) k).
Proof.
  intros Hc Hd Hl Hr. pose proof (remotes_inv_list c d Hc Hd) as Hinv.
  assert (Hbase : forall s', inv (mkState c d [SourceList names cur] s')) by (intros; by apply (Hinv []); [constructor|]).
  destruct Hl as [|name n Hne Hb|name n m Hne Hb|name i Hne Hb|p Ht Hp|t i p Hin Ht Hp|p Hp]; cbn [app].
  - cbn [key stack]. unfold source_list_key. destruct Hr as [Hn Hcu].
    pose proof (list_nav_bound (length names + 1) cur k ltac:(lia)) as Hb. destruct (list_nav _ cur k) as [cur' a]. cbn [fst] in Hb.
    assert (Hr' : lists_sources c names cur') by (split; [done|lia]).
    assert (Hst : forall s', inv (mkState c d [SourceList names cur'] s')) by (intros; by apply (Hinv []); [constructor|]).
    destruct a; cbn [with_top cfg dirty stack status]; try (by apply Hst); [by apply remotes_inv_closed|].
    destruct cur as [|j].
    + apply (Hinv [_] names cur' s); [|done]. constructor; [done|]. unfold newTypePicker, picks. cbn. split; [|done].
      destruct (remoteSourceTypes types); [by left|right; cbn; lia].
    + destruct (str_empty _) eqn:He; [by apply Hst|]. apply str_empty_false in He. refine (Hinv [_] names cur' s _ Hr'). constructor; [done|].
      by apply selectedName_has.
  - cbn [key stack]. unfold popup. destruct (popup_update _ n k) as [n' a]. destruct a; cbn; try (by apply Hbase); try (by apply (Hinv [_]); [constructor|]).
    unfold source_choice. destruct (String.eqb choice "Edit").
    { cbn. unfold paramsForEdit, newSourceParamsScreenForEdit. destruct Hb as [sc Hsc]. rewrite Hsc. cbn. apply (Hinv [_]); [|done]. constructor.
      unfold sound_params. cbn. by exists sc. }
    destruct (String.eqb choice "Rename"); cbn; [by apply (Hinv [_]); [constructor|]|].
    destruct (String.eqb choice "Delete"); cbn; [by apply (Hinv [_; _]); [constructor|]|by apply Hbase].
  - cbn [key stack]. unfold prompt. destruct (prompt_key 2 m k) as [n' a]. destruct a; cbn; try (by apply (Hinv [_; _]); [constructor|]);
      try (by apply (Hinv [_]); [constructor|]).
    destruct n'; cbn; [|by apply (Hinv [_]); [constructor|]]. apply (remotes_inv_list_edited c); [done|apply edits_delete].
  - cbn [key stack]. unfold input. destruct (input_update typed i k) as [i' a]. destruct a; cbn; try (by apply Hbase); try (by apply (Hinv [_]); [constructor|]).
    unfold source_renamed. cbn [cfg]. destruct (rename_source c name val) as [| | |c'] eqn:Ha; cbn; try (by apply Hbase); try (by apply (Hinv [_]); [constructor|]).
    apply (remotes_inv_list_edited c); [done|by eapply edits_rename].
  - by apply picker_step.
  - cbn [key stack]. unfold input. destruct (input_update typed i k) as [i' a]. destruct a; cbn; try (by apply (Hinv [_; _]); [by constructor|]);
      try (by apply (Hinv [_]); [by constructor|]).
    unfold source_named, name_source. cbn [cfg]. destruct (str_empty _); cbn; [by apply (Hinv [_; _]); [by constructor|]|].
    destruct (exists_source _ _); cbn; [by apply (Hinv [_; _]); [by constructor|]|].
    apply (Hinv [_]); [|done]. constructor. cbn. by apply remote_type_ok.
  - by apply params_step.
Qed.

Lemma arns_step c d l a p names cur s k :
  edits c0 c -> (d = false -> unmarked sv c) -> over_arns c (aname a) l -> lists_arns c a -> sound_params c p -> lists_sources c names cur ->
  inv (key types Schema typed fits (mkState c d (l ++ [ArnListScreen a; ParamsScreen p; SourceList names cur]) s) k).
Proof.
  intros Hc Hd Hl Ha Hp Hr. pose proof Ha as (Haws & Hread & Hcu).
  assert (Hover : forall l' s', over_arns c (aname a) l' ->
    inv (mkState c d (l' ++ [ArnListScreen a; ParamsScreen p; SourceList names cur]) s')) by (intros; by apply inv_arns).
  assert (Hbase : forall s', inv (mkState c d [ArnListScreen a; ParamsScreen p; SourceList names cur] s')) by (intros; apply (Hover []); constructor).
  assert (Hed : forall c' s', (exists l', c' = writeARNs c (aname a) l') -> inv (mkState c' true [arn_refresh c' a; ParamsScreen p; SourceList names cur] s')).
  { intros c' s' [l' Hl']. by eapply inv_arns_edited. }
  destruct Hl as [|i|idx current n Hi|idx current n i Hi|idx current n m Hi]; cbn [app key stack].
  - unfold arn_list_key. pose proof (list_nav_bound (length (arns a) + 1) (acursor a) k ltac:(lia)) as Hb.
    destruct (list_nav _ _ k) as [cur' x]. cbn [fst] in Hb.
    assert (Ha' : lists_arns c (mkArnList (aname a) cur' (arns a))) by (split; [done|]; split; [done|cbn; lia]).
    assert (Hov : forall l' s', over_arns c (aname a) l' ->
      inv (mkState c d (l' ++ [ArnListScreen (mkArnList (aname a) cur' (arns a)); ParamsScreen p; SourceList names cur]) s')) by (intros; by apply inv_arns).
    destruct x; cbn [with_top cfg dirty stack status]; try (apply (Hov []); constructor).
    + by apply (remotes_inv_list c d Hc Hd [_]); [constructor|].
    + destruct (acursor a) as [|idx]; [apply (Hov [_]); constructor|]. destruct (arns a !! idx) as [current|] eqn:Hi; [|apply (Hov []); constructor].
      apply (Hov [_]). constructor. by rewrite <- Hread.
  - unfold input. destruct (input_update typed i k) as [i' x]. destruct x; cbn; try (by apply Hbase); try (apply (Hover [_]); by constructor).
    destruct (arn_add c (aname a) val) as [| |c'] eqn:Hadd; cbn; try (apply (Hover [_]); by constructor). apply Hed. by eapply arn_add_write.
  - unfold popup. destruct (popup_update _ n k) as [n' x]. destruct x; cbn; try (by apply Hbase); try (apply (Hover [_]); by econstructor).
    unfold arn_choice. destruct (String.eqb choice "Edit"); cbn; [apply (Hover [_; _]); by econstructor|].
    destruct (String.eqb choice "Delete"); cbn; [apply (Hover [_; _]); by econstructor|by apply Hbase].
  - unfold input. destruct (input_update typed i k) as [i' x]. destruct x; cbn; try (apply (Hover [_; _]); by econstructor); try (apply (Hover [_]); by econstructor).
    destruct (arn_edit c (aname a) idx val) as [| |c'] eqn:Hadd; cbn; try (apply (Hover [_; _]); by econstructor). apply Hed.
    eapply arn_edit_write; [|done]. by eapply lookup_lt_Some.
  - unfold prompt. destruct (prompt_key 2 m k) as [n' x]. destruct x; cbn; try (apply (Hover [_; _]); by econstructor); try (apply (Hover [_]); by econstructor).
    destruct n'; cbn; [|apply (Hover [_]); by econstructor]. apply Hed, arn_delete_write. by eapply lookup_lt_Some.
Qed.

Lemma remotes_event_step st e : (forall nm msg, e <> Saved nm msg) -> inv st -> inv (step types Schema typed fits st e).
Proof.
  intros Hns Hi. destruct e as [k|msg|nm msg]; [|by destruct st|by destruct (Hns nm msg)]. cbn.
  destruct (root_key k); [done|]. destruct st as [c d stk s]. destruct Hi as (Hc & Hd & Hs). cbn [cfg dirty stack] in *.
  destruct Hs; [by apply remotes_inv_closed|by apply remotes_list_step|by apply arns_step].
Qed.
End Steps.

Lemma shape_sources types c c' l : Sources c' = Sources c -> shape types c l -> shape types c' l.
Proof.
  intros HS. assert (Hb : forall b, has_source c b -> has_source c' b) by (intros b; unfold has_source; by rewrite HS).
  assert (Ha : forall b, is_aws c b -> is_aws c' b) by (intros b; unfold is_aws; by rewrite HS).
  assert (Hrd : forall n, readARNs c' n = readARNs c n) by (intros n; unfold readARNs; by rewrite HS).
  assert (Hp : forall p, sound_params c p -> sound_params c' p) by (intros p; unfold sound_params; by rewrite HS).
  assert (Hl : forall names cur, lists_sources c names cur -> lists_sources c' names cur).
  { intros names cur. by apply lists_sources_has. }
  intros [|l' names cur Ho Hr|l' a p names cur Ho (Hx & Hy & Hz) ? ?]; constructor; auto.
  - destruct Ho; constructor; auto.
  - destruct Ho; econstructor; rewrite ?Hrd; eauto.
  - split; [auto|]. by rewrite Hrd.
Qed.

Section Session.
Context `{MapRange} (types : list string) (Schema : string -> list ParamField).
Context (typed : string -> string -> string) (fits : string -> string).

(** The state, and the configuration of the last save, which is the one of the start before
    the first save. *)
Definition saved_step (ss : TuiStack.state screen string * Config) (e : event) : TuiStack.state screen string * Config :=
  let st := step types Schema typed fits ss.1 e in (st, match e with Saved _ _ => cfg st | _ => ss.2 end).
Definition session (es : list event) (ss : TuiStack.state screen string * Config) := fold_left saved_step es ss.

Definition start (c : Config) : TuiStack.state screen string := mkState c false [newSourcesListScreen c] EmptyString.

Section Inv.
Hypothesis Htypes : Forall type_ok types.

Lemma remotes_saved_step_inv c0 ss e : inv types c0 ss.2 ss.1 -> let ss' := saved_step ss e in inv types c0 ss'.2 ss'.1.
Proof.
  destruct ss as [st sv]. cbn. destruct e as [k|msg|nm msg]; try (by apply remotes_event_step). intros (Hc & _ & Hs). split; [|split].
  - etransitivity; [exact Hc|apply remotes_edits_idmap].
  - intros _. apply unmarked_same.
  - by apply (shape_sources types (cfg st)).
Qed.

Lemma remotes_session_inv c0 es ss : inv types c0 ss.2 ss.1 -> inv types c0 (session es ss).2 (session es ss).1.
Proof.
  unfold session. revert ss. induction es as [|e es IH]; intros ss Hi; [done|]. cbn [fold_left]. by apply IH, remotes_saved_step_inv.
Qed.

Lemma remotes_start_inv c : inv types c c (start c).
Proof.
  unfold start, newSourcesListScreen. destruct (refresh_lists_sources c 0) as (names & cur & -> & Hl).
  apply (remotes_inv_list types c c c false) with (l := []); [done|intros _; apply unmarked_same|constructor|done].
Qed.
End Inv.

(**  The source screens tell the truth and touch nothing else.  Whatever keys are pressed,
    connections tested and saves made from a configuration on, with registered types that may
    stand in a file: the bags are the old ones, the mappings are up to the source that a var
    names, and the configuration is still well formed if it was; without an unsaved mark it
    is the one of the last save but for sources of type aws, the only ones the screens
    change behind the mark's back; and on the whole stack no row, popup, prompt or form is
    about a source that is gone or of another type, the ARNs are the ones the source
    has, and the form never says that its source vanished. *)
Theorem remotes_settle c0 es :
  Forall type_ok types ->
  let '(st, last) := session es (start c0, c0) in
  edits c0 (cfg st) /\ (dirty st = false -> unmarked last (cfg st)) /\ Forall (shows (cfg st)) (stack st).
Proof.
  intros Ht. pose proof (remotes_session_inv Ht c0 es (start c0, c0) (remotes_start_inv c0)) as Hi. destruct (session es (start c0, c0)) as [st sv].
  destruct Hi as (Hc & Hd & Hs). split; [done|]. split; [done|]. by eapply remotes_shape_shows.
Qed.
End Session.

(** ** Some sessions *)

#[local] Existing Instance map_range_default.

Definition ex_types : list string := ["aws"; "local"; "vault"].
Definition ex_schema (t : string) : list ParamField :=
  if String.eqb t "aws" then [mkField "region" "AWS region" true false] else [mkField "address" "Address" true false].

#[local] Abbreviation ex_session c es :=
  (session ex_types ex_schema (fun k v => v +:+ k) (fun v => v) es (start c, c)).

(** A new source of type aws: its type and proposed name are taken, the region typed, then the
    ARNs opened and closed, and the form left with Escape. *)
Definition ex_arns : list event := Key <$> ["enter"; "enter"; "enter"; "eu"; "tab"; "right"; "right"; "enter"; "esc"; "esc"].

Lemma remotes_settle_witness :
  unmarked TuiTree.ex_plain (cfg (ex_session TuiTree.ex_plain ex_arns).1) /\ dirty (ex_session TuiTree.ex_plain ex_arns).1 = false.
Proof.
  split; [|vm_compute; reflexivity].
  assert (Ht : Forall type_ok ex_types) by (repeat constructor; discriminate).
  pose proof (remotes_settle ex_types ex_schema (fun k v => v +:+ k) (fun v => v) TuiTree.ex_plain ex_arns Ht) as Hr.
  assert (Hd : dirty (ex_session TuiTree.ex_plain ex_arns).1 = false) by (vm_compute; reflexivity).
  assert (Hl : (ex_session TuiTree.ex_plain ex_arns).2 = TuiTree.ex_plain) by (vm_compute; reflexivity).
  destruct (session ex_types ex_schema (fun k v => v +:+ k) (fun v => v) ex_arns (start TuiTree.ex_plain, TuiTree.ex_plain)) as [st sv].
  cbn in Hd, Hl. subst sv. exact (proj1 (proj2 Hr) Hd).
Defined.

(** The form was left without applying it, but the source is there; there is no unsaved mark,
    so leaving the editor drops it without a question; and the list does not show it. *)
Example arns_commit_unmarked :
  let st := (ex_session TuiTree.ex_plain ex_arns).1 in
  (fun sc => Type_ sc) <$> Sources (cfg st) !! "aws" = Some "aws"
  /\ Sources TuiTree.ex_plain !! "aws" = None /\ dirty st = false
  /\ stack st = [SourceList ["v"] 0].
Proof. vm_compute. auto. Qed.
End TuiRemotes.
