(* ===== verification/TuiView.v ===== *)
(** * What the bag screens show (the View functions of src/internal/tui/secrets_screen.go and
    bag_bulk_import.go)

    The screens that hold secrets, drawn from the configuration, and what of a secret can be
    read off them. *)

From S2P Require Import Prelude GoString Dotenv ConfigModel Edit TuiRefs TuiWidgets TuiStack TuiTree TuiSecrets TuiDraw TuiBags.
Import Config TuiWidgets TuiSecrets TuiDraw TuiBags.

Module TuiView.

Section Views.
Context `{Lipgloss}.

Definition bag_of (c : Config) (bag : string) : gmap string string := default ∅ (Secrets c !! bag).
Definition value_of (c : Config) (bag k : string) : string := default EmptyString (bag_of c bag !! k).

Definition bag_list_view (c : Config) (r : rows) : string :=
  heading "Encrypted local bags"
  +:+ list_row (cursor r =? 0)%nat "< Create New Bag >"
  +:+ (match names r with
       | [] => newline +:+ line (dimText "No bags yet — pick the row above to add one. A bag is a named")
               +:+ line (dimText "group of KEY = value pairs encrypted at rest with the master key.")
               +:+ line (dimText "Press ? for the full help.")
       | _ => EmptyString
       end)
  +:+ list_rows (cursor r) 1 ((fun n =>
        pad 24 n +:+ "  " +:+ dimText ("(" +:+ itoa (N.of_nat (size (bag_of c n))) +:+ " keys)")) <$> names r).

(** Masked, unless the key is revealed. *)
Definition shown_value (reveal : gmap string bool) (k v : string) : string :=
  if default false (reveal !! k) then v else maskValue v.

Definition detail_view (c : Config) (bag : string) (r : rows) (reveal : gmap string bool) : string :=
  heading ("Keys in " +:+ bag)
  +:+ list_rows (cursor r) 0 ["< Create New Key >"; "< Bulk Import (paste KEY=VALUE) >"]
  +:+ list_rows (cursor r) secretDetailSentinelCount
        ((fun k => pad 24 k +:+ " = " +:+ shown_value reveal k (value_of c bag k)) <$> names r).

Definition kv_view (s : kvEditScreen) : string :=
  let at_ f := match kfocus s with Some _ => false | None => Bool.eqb (kfield s) f end in
  render (if at_ false then Label else Muted) "key" +:+ newline +:+ "  " +:+ field false "KEY_NAME" (keyIn s) +:+ newline +:+ newline
  +:+ render (if at_ true then Label else Muted) "value" +:+ newline +:+ "  " +:+ field (masked s) "value" (valIn s) +:+ newline +:+ newline
  +:+ (if str_empty (kerr s) then EmptyString else render ErrorStyle (kerr s) +:+ newline +:+ newline)
  +:+ renderButtonRow (kbuttons s) (kfocus s) +:+ newline.

(** The wording of a parse error is the parser's. *)
Definition viewEdit (say : Dotenv.ParseError -> string) (s : bulkScreen) : string :=
  line (render Label ("Paste KEY=VALUE pairs to import into " +:+ bbag s))
  +:+ line (dimText ("Supported: KEY=value, KEY=" +:+ dquote "quoted" +:+ ", KEY='single', export KEY=value, # comments."))
  +:+ line (dimText "Tab moves to the buttons. Parse validates the paste, or Load from file picks a .env. Then Apply to merge.") +:+ newline
  +:+ areaView (area s) +:+ newline +:+ newline
  +:+ (match parseErrs s with
       | [] => EmptyString
       | errs => line (render ErrorStyle (itoa (N.of_nat (length errs)) +:+ " parse error(s):"))
                 +:+ String.concat EmptyString ((fun e => line ("  " +:+ render ErrorStyle (say e))) <$> errs) +:+ newline
       end)
  +:+ renderButtonRow edit_buttons (bfocus s) +:+ newline.

Definition preview_row (c : Config) (bag : string) (p : Dotenv.Pair) : string :=
  let hit := match bag_of c bag !! Dotenv.Key p with Some _ => true | None => false end in
  line ((if hit then render WarnStyle "⚠ " else "  ") +:+ pad 24 (if hit then render WarnStyle (Dotenv.Key p) else Dotenv.Key p)
        +:+ " = " +:+ maskValue (Dotenv.Value p)).

Definition viewPreview (c : Config) (s : bulkScreen) : string :=
  heading ("Preview — " +:+ itoa (N.of_nat (length (pairs s))) +:+ " key(s) to import into " +:+ bbag s)
  +:+ String.concat EmptyString (preview_row c (bbag s) <$> pairs s)
  +:+ (match collisions s with
       | [] => newline +:+ line (render OkStyle "No collisions — Apply will add every key.")
       | l => newline +:+ line (render WarnStyle (itoa (N.of_nat (length l)) +:+ " key(s) already exist in this bag:"))
              +:+ line ("  " +:+ dimText (String.concat ", " l))
              +:+ line (dimText "On Apply you'll be asked whether to overwrite or skip them.")
       end)
  +:+ newline +:+ renderButtonRow preview_buttons (bfocus s) +:+ newline.

Definition bulk_view (say : Dotenv.ParseError -> string) (c : Config) (s : bulkScreen) : string :=
  if preview s then viewPreview c s else viewEdit say s.

(** The file picker draws itself; [quote] is the verb %q of package fmt. *)
Context (say : Dotenv.ParseError -> string) (picker_view : string) (quote : string -> string).

Definition view (c : Config) (s : screen) : string :=
  match s with
  | BagList r => bag_list_view c r
  | BagPopup bag cur => popup_view ("Bag: " +:+ bag) ["Edit"; "Rename"; "Delete"; "Back"] [] cur
  | BagDelete bag cur => confirm_view ("Delete bag " +:+ quote bag +:+ " (and all keys)?") ["Yes"; "No"] cur
  | BagAdd i => input_view ("Pick a short identifier for the bag (e.g. " +:+ dquote "stripe" +:+ ", " +:+ dquote "db" +:+ ").") "bag-name" i
  | BagRename bag i => input_view ("Rename bag " +:+ quote bag +:+ " to:") EmptyString i
  | BagDetail bag r reveal => detail_view c bag r reveal
  | KeyPopup _ k cur => popup_view ("Key: " +:+ k) ["Edit"; "Delete"; "Back"] [] cur
  | KeyDelete _ k cur => confirm_view ("Delete key " +:+ quote k +:+ "?") ["Yes"; "No"] cur
  | KeyEditor s => kv_view s
  | BulkImport_ s => bulk_view say c s
  | BulkPolicy s cur =>
      confirm_view (itoa (N.of_nat (length (collisions s))) +:+ " existing key(s) collide. How do you want to handle them?") policy_choices cur
  | FilePicker => picker_view
  end.
End Views.

(** ** What a hidden value gives away *)

(** Two values that look the same behind a mask: both empty, or as long up to twelve. *)
Definition like (v v' : string) : Prop := Nat.min (String.length v) 12 = Nat.min (String.length v') 12.

(** Two configurations with the same bags and keys, and values that look alike. *)
Definition alike (c c' : Config) : Prop :=
  forall bag k, match bag_of c bag !! k, bag_of c' bag !! k with
                | Some v, Some v' => like v v'
                | None, None => True
                | _, _ => False
                end.

Definition alike_pair (p p' : Dotenv.Pair) : Prop := Dotenv.Key p = Dotenv.Key p' /\ like (Dotenv.Value p) (Dotenv.Value p').

(** Screens that differ in what they hide only. *)
Inductive alike_screen (c c' : Config) : screen -> screen -> Prop :=
| al_same s : match s with BagDetail _ _ _ => False | _ => True end -> alike_screen c c' s s
| al_detail bag r reveal :
    (forall k, reveal !! k = Some true -> value_of c bag k = value_of c' bag k) ->
    alike_screen c c' (BagDetail bag r reveal) (BagDetail bag r reveal)
| al_editor s v : masked s = true -> rune_count v = rune_count (valIn s) ->
    alike_screen c c' (KeyEditor s) (KeyEditor (kv_text s (keyIn s) v))
| al_preview s ps : preview s = true -> Forall2 alike_pair (pairs s) ps ->
    alike_screen c c' (BulkImport_ s)
      (BulkImport_ (mkBulk (bbag s) (preview s) (area s) (bfocus s) (parseErrs s) ps (collisions s)))
| al_policy s s' cur : length (collisions s) = length (collisions s') -> alike_screen c c' (BulkPolicy s cur) (BulkPolicy s' cur).

Section Hide.
Context `{Lipgloss}.

Lemma like_mask v v' : like v v' -> maskValue v = maskValue v'.
Proof.
  unfold like, maskValue. intros Hl. assert (He : str_empty v = str_empty v') by (by destruct v, v').
  by rewrite He, Hl.
Qed.

Lemma alike_size c c' bag : alike c c' -> size (bag_of c bag) = size (bag_of c' bag).
Proof.
  intros Ha. rewrite <- !size_dom. f_equal. apply set_eq. intros k. rewrite !elem_of_dom. specialize (Ha bag k).
  destruct (bag_of c bag !! k), (bag_of c' bag !! k); done.
Qed.

Lemma alike_value c c' bag k : alike c c' -> maskValue (value_of c bag k) = maskValue (value_of c' bag k).
Proof. intros Ha. specialize (Ha bag k). unfold value_of. destruct (bag_of c bag !! k), (bag_of c' bag !! k); try done. by apply like_mask. Qed.

Lemma bag_list_hides c c' r : alike c c' -> bag_list_view c r = bag_list_view c' r.
Proof. intros Ha. unfold bag_list_view. do 4 f_equal. apply list_fmap_ext. intros _ n _. by rewrite (alike_size c c' n Ha). Qed.

Lemma detail_hides c c' bag r reveal :
  alike c c' -> (forall k, reveal !! k = Some true -> value_of c bag k = value_of c' bag k) ->
  detail_view c bag r reveal = detail_view c' bag r reveal.
Proof.
  intros Ha Hr. unfold detail_view. do 3 f_equal. apply list_fmap_ext. intros _ k _. do 2 f_equal. unfold shown_value.
  destruct (reveal !! k) as [[]|] eqn:Hk; cbn; [by apply Hr|by apply alike_value|by apply alike_value].
Qed.

Lemma alike_pairs_refl ps : Forall2 alike_pair ps ps.
Proof. induction ps; by constructor. Qed.

Lemma preview_hides c c' s ps :
  alike c c' -> Forall2 alike_pair (pairs s) ps ->
  viewPreview c s = viewPreview c' (mkBulk (bbag s) (preview s) (area s) (bfocus s) (parseErrs s) ps (collisions s)).
Proof.
  intros Ha Hps. unfold viewPreview. cbn [bbag pairs collisions bfocus]. rewrite (Forall2_length _ _ _ Hps). f_equal. f_equal.
  f_equal. induction Hps as [|p p' l l' [Hk Hv] _ IH]; [done|]. cbn [fmap list_fmap]. f_equal; [|done].
  unfold preview_row. rewrite <- Hk, (like_mask _ _ Hv). specialize (Ha (bbag s) (Dotenv.Key p)).
  destruct (bag_of c (bbag s) !! Dotenv.Key p), (bag_of c' (bbag s) !! Dotenv.Key p); done.
Qed.
End Hide.


Definition one_bag (v w : string) : Config :=
  mkConfig Version (mkMeta "" 0 0 0 "" "" "" "") (mkAgentConfig "" "" None None) ∅ [] {["b" := {["K" := v; "L" := w]}]} None.
Definition shown (c : Config) : string :=
  @view plain (fun _ => EmptyString) EmptyString (fun q => q) c (BagDetail "b" (mkRows ["K"; "L"] 0) {["L" := true]}).

Lemma one_bag_alike : alike (one_bag "s3cret" "x") (one_bag "hunter" "x").
Proof.
  intros bag k. unfold bag_of, one_bag. cbn [Secrets].
  destruct (decide (bag = "b")) as [->|Hb]; [|by rewrite !(lookup_singleton_ne "b" bag) by done].
  rewrite !lookup_singleton_eq. cbn [default from_option id].
  destruct (decide (k = "K")) as [->|Hk]; [by vm_compute|].
  destruct (decide (k = "L")) as [->|Hl]; [by vm_compute|].
  by rewrite !(lookup_insert_ne _ "K"), !(lookup_singleton_ne "L") by done.
Qed.

End TuiView.
