(* ===== verification/TuiStart.v ===== *)
(** * Starting the editor, its settings, and leaving it (src/internal/tui/tui.go, settings_screen.go,
    src/cmd/jitenv-tui/main.go)

    From the passphrase to the first screen and from the last one to the shell, and the
    screen that edits the agent's settings and installs the shell hook.  The session in
    between is Tui's; here it starts from what the file holds. *)

From S2P Require Import Prelude GoString GoPath GoTime GoDuration Fs ConfigModel Crypto NameId Seal Store SealIds SealRoundtrip SealStable StoreInit StoreMigrate StoreSweep Edit Toys Bag.
From S2P Require Import ConfigPath Unlock Shells Hook HookInstall TuiWidgets TuiRefs Tui.
Import Fs Config Crypto NameId Seal Store SealRoundtrip StoreMigrate Edit ConfigPath Unlock Tui.

Module TuiStart.

Inductive OErr :=
| ONoTTY
| ONoHome
| OAborted
| OPassphrase (e : string)
| OStore (e : SErr)
| OSeal (e : EErr).

(** ** Opening *)

Section Open.
Context `{Os, Rand, AEAD, Toml, Argon, NameMapCodec, MapRange}.
(** The answer to the question, the new passphrase if it was typed twice alike, and the
    passphrases typed after it. *)
Context (reply : string) (new_passphrase : res string string) (answers : nat -> res SErr string).

Definition is_not_exist {A} (r : res FErr A) : bool := match r with Err (ENoEnt _) => true | _ => false end.

Definition agreed : bool :=
  let a := to_lower (trim_space reply) in String.eqb a "y" || String.eqb a "yes".

Definition offer_init (cfgPath : string) : M OErr unit :=
  if negb agreed then throw OAborted
  else
    pw ← lift (wrap_err OPassphrase new_passphrase);
    mapErr OStore (InitNew cfgPath pw).

(** The configuration, its key, and whether the file was migrated. *)
Definition loadOrInit (cfgPath : string) : M OErr (Config * string * bool) :=
  st ← attempt (stat cfgPath);
  _ ← (if is_not_exist st then offer_init cfgPath else mret tt);
  c ← mapErr OStore (Load cfgPath);
  key ← lift (wrap_err OStore (PromptAndDeriveKey answers c 0));
  migrated ← mapErr OStore (MigrateToOpaqueIDsLocked cfgPath key);
  c ← (if migrated : bool then mapErr OStore (Load cfgPath) else mret c);
  c ← lift (wrap_err OSeal (DecryptInPlace c key));
  mret (c, key, migrated).

Definition migration_toast : string :=
  "upgraded config to opaque-ID format " +:+ utf8 [226; 128; 148]%nat +:+ " pre-upgrade backup kept (see notice on exit)".

(** newRootModel and Init: the menu, and the one flash of a migration. *)
Definition opened (c : Config) (migrated : bool) (w : world) : session :=
  mkSession (mkRoot c [MenuScreen 0 None] false false (if migrated then migration_toast else EmptyString) false []) w false.

Definition Run (interactive : bool) (cfgPath : string) : M OErr (string * string * session) := fun w =>
  if negb interactive then (Err ONoTTY, w)
  else match Resolve cfgPath with
       | None => (Err ONoHome, w)
       | Some path =>
           match loadOrInit path w with
           | (Ok (c, key, migrated), w') => (Ok (path, key, opened c migrated w'), w')
           | (Err e, w') => (Err e, w')
           end
       end.

(** RunWithMappingTemplate up to the model: the key is the caller's, and the template is the
    last mapping. *)
Definition with_template (cfgPath key : string) (template : Mapping) : M OErr (Config * bool) :=
  path ← lift (of_option ONoHome (Resolve cfgPath));
  c ← mapErr OStore (Load path);
  migrated ← mapErr OStore (MigrateToOpaqueIDs path key);
  c ← (if migrated : bool then mapErr OStore (Load path) else mret c);
  c ← lift (wrap_err OSeal (DecryptInPlace c key));
  mret (with_mappings c (Mappings c ++ [template]), migrated).

(** ** Leaving *)

Inductive notice :=
| CouldNotInstall
| HookInstalled (rc activate : string).

Context (ppid : Z) (queryPwshProfilePath : string).

Definition maybeAutoInstallHook (cfgPath : string) : M OErr (list notice) :=
  l ← attempt (Load cfgPath);
  match l with
  | Err _ => mret []
  | Ok c =>
      if bool_decide (Mappings c = []) then mret []
      else
        r ← attempt (HookInstall.CurrentStatus ppid queryPwshProfilePath);
        match r with
        | Err _ => mret []
        | Ok st =>
            if str_empty (HookInstall.Shell st) || HookInstall.Installed st then mret []
            else
              rep ← attempt (HookInstall.InstallShell queryPwshProfilePath (HookInstall.Shell st));
              mret (match rep with
                    | Err _ => [CouldNotInstall]
                    | Ok rep => [HookInstalled (HookInstall.RRcPath rep) (HookInstall.ActivateCommand (HookInstall.Shell st))]
                    end)
        end
  end.

(** pingAgentReload: whether a reload was asked for, on what socket. *)
Definition pingAgentReload (uid : Z) (dir_owner dir_mode : string -> Z) : M OErr (option string) :=
  p ← attempt (Shells.DefaultPaths uid dir_owner dir_mode);
  match p with
  | Err _ => mret None
  | Ok paths =>
      st ← attempt (stat (Shells.Socket paths));
      mret (match st with Ok _ => Some (Shells.Socket paths) | Err _ => None end)
  end.

(** The end of runModel: the reload, the notice of a migration and the hook. *)
Definition after_session (uid : Z) (dir_owner dir_mode : string -> Z) (cfgPath : string) (r : rootModel) (migrated : bool)
    : M OErr (option string * bool * list notice) :=
  reloaded ← (if savedSinceLastReload r then pingAgentReload uid dir_owner dir_mode else mret None);
  hook ← maybeAutoInstallHook cfgPath;
  mret (reloaded, migrated, hook).

(** ** The settings *)

Definition with_agent (c : Config) (a : AgentConfig) : Config :=
  mkConfig (CVersion c) (CMeta c) a (Sources c) (Mappings c) (Secrets c) (IDMap c).

Definition settingsRowCount : nat := 3.

(** The callback of openIdleInput: [None] for an invalid duration. *)
Definition idle_entered (c : Config) (val : string) : option Config :=
  let v := trim_space val in
  let a := CAgent c in
  let done := Some (with_agent c (mkAgentConfig v (SocketPath a) (PreRunNotice a) (VersionCheck a))) in
  if str_empty v then done
  else match GoDuration.ParseDuration v with Some _ => done | None => None end.

(** The callback of openPreRunNoticePopup: the configuration, and whether it changed. *)
Definition notice_chosen (c : Config) (choice : string) : Config * bool :=
  let set b := with_agent c (let a := CAgent c in mkAgentConfig (IdleTimeout a) (SocketPath a) (Some b) (VersionCheck a)) in
  if String.eqb choice "Yes" then (set true, true)
  else if String.eqb choice "No" then (set false, true)
  else (c, false).

(** openHookPopup: the heading and what is offered; [None] where there is nothing to install. *)
Definition login_missing (st : HookInstall.Status) : bool :=
  String.eqb (HookInstall.Shell st) "bash" && negb (str_empty (HookInstall.SLoginPath st)) && negb (HookInstall.LoginSources st).

Definition hook_popup (st : HookInstall.Status) : option (string * list string) :=
  if str_empty (HookInstall.Shell st) then None
  else Some (if HookInstall.Installed st && negb (login_missing st) then ("Shell hook (installed)", ["Reinstall"; "Back"])
             else if HookInstall.Installed st then ("Shell hook " +:+ utf8 [226; 128; 148]%nat +:+ " login chain not wired", ["Fix login chain"; "Back"])
             else ("Shell hook", ["Install"; "Back"])).

Inductive part :=
| AddedTo (rc : string) | AlreadyIn (rc : string)
| Wired (login : string) | LoginFine (login : string)
| OpenNewShell.

Definition report_parts (shell : string) (rep : HookInstall.InstallReport) : list part :=
  (if HookInstall.RcAdded rep then [AddedTo (HookInstall.RRcPath rep)] else [AlreadyIn (HookInstall.RRcPath rep)])
  ++ (if String.eqb shell "bash" then
        if HookInstall.LoginAdded rep && negb (str_empty (HookInstall.LoginPath rep)) then [Wired (HookInstall.LoginPath rep)]
        else if HookInstall.LoginAlreadyOK rep && negb (str_empty (HookInstall.LoginPath rep)) then [LoginFine (HookInstall.LoginPath rep)]
        else []
      else [])
  ++ [OpenNewShell].

(** Its callback: [None] where nothing is done. *)
Definition hook_chosen (st : HookInstall.Status) (choice : string) : M Hook.HErr (option (list part)) :=
  if String.eqb choice "Install" || String.eqb choice "Reinstall" || String.eqb choice "Fix login chain" then
    rep ← HookInstall.InstallShell queryPwshProfilePath (HookInstall.Shell st);
    mret (Some (report_parts (HookInstall.Shell st) rep))
  else mret None.

(** Which row opens what. *)
Inductive setting := IdleInput (initial : string) | NoticePopup (enabled : bool) | HookPopup.

Definition settings_activate (c : Config) (cursor : nat) : option setting :=
  match cursor with
  | O => Some (IdleInput (IdleTimeout (CAgent c)))
  | 1%nat => Some (NoticePopup (PreRunNoticeEnabled (CAgent c)))
  | 2%nat => Some HookPopup
  | _ => None
  end.

Definition settings_key (cursor : nat) (k : string) : nat * TuiWidgets.answer := TuiWidgets.list_nav settingsRowCount cursor k.
End Open.

(** What the idle input accepts, and what the agent makes of it: a negative duration is
    accepted and counts as none. *)
Example idle_texts :
  (IdleTimeout ∘ CAgent <$> idle_entered Bag.ex_plain " 1h ") = Some "1h"
  /\ idle_entered Bag.ex_plain "soon" = None
  /\ (IdleTimeout ∘ CAgent <$> idle_entered Bag.ex_plain "-5m") = Some "-5m"
  /\ GoDuration.ParseIdle "-5m" = GoDuration.ParseIdle "" /\ GoDuration.ParseIdle "" <> 0%Z.
Proof. split_and!; [vm_compute; reflexivity..|]. vm_compute. discriminate. Qed.

(** ** The session keeps its word from the first screen on *)

Section Honest.
Context `{Os, Rand, !RandLaws, AEAD, !AEADLaws, Toml, !TomlLaws, Argon, NameMapCodec, !NameMapCodecLaws, MapRange}.
Context (reply : string) (new_passphrase : res string string) (answers : nat -> res SErr string).
Context (other_update : nat -> Msg -> nat * Cmd) (other_text : nat -> bool) (open_item : nat -> screen) (helpful : screen -> bool)
  (init : screen -> Cmd) (path : string).

(** What a session goes through: commands, and edits of the configuration, each with its
    mark. *)
Inductive life (key : string) (s0 : session) : session -> Prop :=
| life_start : life key s0 s0
| life_command fuel c s : life key s0 s -> genuine c = true ->
    life key s0 (exec other_update other_text open_item helpful init path key fuel c s)
| life_edit c s : life key s0 s -> quit s = false -> savable key c ->
    life key s0 (mkSession (with_dirty (with_cfg (root s) c)) (disk s) false).

(** A file whose dictionary has identifiers of the right form and whose decryption the
    formats can carry again. *)
Definition fit (key data : string) : Prop :=
  old_names_wf data key /\ forall c0 c1, loaded data = Some c0 -> DecryptInPlace c0 key = Ok c1 -> sealable c1.

Hypothesis Hq : quick.
Hypothesis Hname : forall rnd, temp_name (GoPath.Dir path) savePattern rnd <> path.
Hypothesis Hcodable : forall key c, codable key c.

Lemma stat_exists p w s m t r w' :
  fs w !! p = Some (NFile s m t) -> stat p w = (r, w') -> is_not_exist r = false.
Proof.
  intros Hf. unfold stat, syscall. destruct (fails (tick w)); [by intros [= <- <-]|].
  unfold link_depth. rewrite (follow_file _ _ _ _ _ _ Hf). cbn [mbind res_bind]. rewrite Hf. cbn. by intros [= <- <-].
Qed.

(** From the load on. *)
Lemma open_file data m t w c key migrated w' :
  fs w !! path = Some (NFile data m t) -> fit key data ->
  (c ← mapErr OStore (Load path);
   key ← lift (wrap_err OStore (PromptAndDeriveKey answers c 0));
   migrated ← mapErr OStore (MigrateToOpaqueIDsLocked path key);
   c ← (if migrated : bool then mapErr OStore (Load path) else mret c);
   c ← lift (wrap_err OSeal (DecryptInPlace c key));
   mret (c, key, migrated)) w = (Ok (c, key, migrated), w') ->
  holds path key c (fs w') /\ savable key c
  /\ exists c0 c1, loaded data = Some c0 /\ DecryptInPlace c0 key = Ok c1 /\ content c = content c1.
Proof.
  intros Hf Hfit Hr.
  apply M_bind_inv in Hr as [(c0 & w1 & (r0 & Hl & Hr0)%mapErr_inv & Hr)|(e & _ & ?)]; [|done].
  destruct r0 as [c0'|]; [|done]. injection Hr0 as <-. apply Load_spec in Hl as [Hrd Hl].
  pose proof (Hl _ _ _ _ Hf eq_refl) as Hl0.
  assert (Hf1 : fs w1 !! path = Some (NFile data m t)) by by rewrite (reads_fs _ _ Hrd).
  apply M_bind_inv in Hr as [(key' & w2 & [_ ->]%lift_inv & Hr)|(e & _ & ?)]; [|done].
  apply M_bind_inv in Hr as [(b & w3 & (rm & Hm & Hrm)%mapErr_inv & Hr)|(e & _ & ?)]; [|done].
  destruct rm as [b'|]; [|done]. injection Hrm as <-.
  apply M_bind_inv in Hr as [(cl & w4 & Hcl & Hr)|(e & _ & ?)]; [|done].
  apply M_bind_inv in Hr as [(d & w5 & [Hd ->]%lift_inv & Hr)|(e & _ & ?)]; [|done].
  injection Hr as <- <- <- <-. destruct Hfit as [Hwf Hsl].
  destruct (DecryptInPlace cl key') as [d'|] eqn:Hdec; [|done]. injection Hd as <-.
  destruct (Locked_safe _ _ _ _ _ _ _ _ Hq Hname Hwf Hf1 Hm) as [_ Hmig].
  destruct b.
  - destruct Hmig as (a & c1 & c2 & i & n & n' & bak & t' & Hl1 & Hd1 & Hrest).
    pose proof (Hsl _ _ Hl1 Hd1) as Hs1.
    destruct (migrated_opens path key' data m t (fs w3) a c1 ltac:(by exists a, c1, c2, i, n, n', bak, t') Hwf Hl1 Hd1 Hs1 (Hcodable _ _))
      as (data2 & t2 & Hf2 & Ho & _).
    apply mapErr_inv in Hcl as (rl & Hcl & Hrl). destruct rl as [cl'|]; [|done]. injection Hrl as <-.
    pose proof (Load_spec _ _ _ _ Hcl) as [Hrd2 _].
    destruct (opens_load _ _ _ _ _ _ _ _ _ _ Ho Hf2 Hcl eq_refl) as (d1 & nm & Hd2 & Hc & Hp & Hnm).
    assert (d1 = d) as -> by congruence.
    split; [|split].
    + apply (holds_content _ _ c1); [done|]. exists data2, 384%Z, t2. by rewrite (reads_fs _ _ Hrd2).
    + exists nm. split; [done|]. split; [done|]. split; [by apply (sealable_content c1)|apply Hcodable].
    + by exists a, c1.
  - injection Hcl as <- <-. pose proof (Decrypt_names _ _ _ Hdec) as (nm & Hnm & Hp & _).
    split; [|split].
    + exists data, m, t. split; [done|]. by eapply old_opens.
    + exists nm. split; [done|]. split; [by eapply Hwf|]. split; [by eapply Hsl|apply Hcodable].
    + by exists c0, d.
Qed.

(** A file InitNew has just written. *)
Lemma fresh_opened key salt verify :
  exists d, DecryptInPlace (fresh_config salt verify) key = Ok d /\ content d = (∅, [], ∅).
Proof.
  unfold DecryptInPlace. cbn [fresh_config CMeta NameMapEnv Sources Secrets Mappings].
  rewrite !(proj2 (map_range_nil _ _) eq_refl). cbn. by eexists.
Qed.

Lemma fresh_fit key salt verify data :
  toml_ok (fresh_config salt verify) -> toml_encode (fresh_config salt verify) = Some data ->
  loaded data = Some (fresh_config salt verify) /\ fit key data.
Proof.
  intros Hok He. assert (Hl : loaded data = Some (fresh_config salt verify)).
  { unfold loaded. by rewrite (toml_roundtrip _ _ Hok He). }
  split; [done|]. split.
  - intros c nm Hc. assert (c = fresh_config salt verify) as -> by congruence. intros [= <-]. apply SealStable.empty_names_wf.
  - intros c0 c1 Hc Hd. assert (c0 = fresh_config salt verify) as -> by congruence.
    destruct (fresh_opened key salt verify) as (d & Hd' & Hcd). assert (d = c1) as -> by congruence.
    injection Hcd as Hs Hm Hse. split; rewrite ?Hs, ?Hm, ?Hse; [apply map_Forall_empty..|constructor].
Qed.

Hypothesis Hmeta : StoreSweep.no_meta path.
Hypothesis Hfresh : forall salt verify, toml_ok (fresh_config salt verify).
Hypothesis Hanc : ~ path ∈ ancestors (String.length (GoPath.Dir path)) (GoPath.Dir path).
Hypothesis Hother : forall id m, genuine (other_update id m).2 = true.
Hypothesis Hinit : forall sc, genuine (init sc) = true.

(** What the file says before the editor opens. *)
Definition says (f : files) (key : string) (c : Config) : Prop :=
  match f !! path with
  | Some (NFile old _ _) => exists c0 c1, loaded old = Some c0 /\ DecryptInPlace c0 key = Ok c1 /\ content c = content c1
  | _ => content c = (∅, [], ∅)
  end.

Lemma loadOrInit_opens w c key migrated w' :
  loadOrInit reply new_passphrase answers path w = (Ok (c, key, migrated), w') ->
  match fs w !! path with Some (NFile old _ _) => fit key old | Some _ => False | None => True end ->
  says (fs w) key c /\ holds path key c (fs w') /\ savable key c.
Proof.
  intros Hr Hfile. unfold loadOrInit in Hr.
  apply M_bind_inv in Hr as [(st & w1 & Hst & Hr)|(e & _ & ?)]; [|done].
  unfold attempt in Hst. destruct (stat path w) as [rs ws] eqn:Hs. injection Hst as <- <-.
  pose proof (reads_fs _ _ (stat_reads _ _ _ _ Hs)) as Hfs.
  apply M_bind_inv in Hr as [([] & w2 & Ho & Hr)|(e & _ & ?)]; [|done].
  unfold says. destruct (fs w !! path) as [[old m t| |]|] eqn:Hf; try done.
  - rewrite (stat_exists _ _ _ _ _ _ _ Hf Hs) in Ho. injection Ho as <-. rewrite <- Hfs in Hf.
    destruct (open_file _ _ _ _ _ _ _ _ Hf Hfile Hr) as (? & ? & ?). done.
  - destruct (is_not_exist rs).
    + unfold offer_init in Ho. destruct (negb (agreed reply)); [done|].
      apply M_bind_inv in Ho as [(pw & w3 & [_ ->]%lift_inv & Ho)|(e & _ & ?)]; [|done].
      apply mapErr_inv in Ho as (ri & Hi & Hri). destruct ri as [[]|]; [|done]. rewrite <- Hfs in Hf.
      destruct (StoreInit.InitNew_file _ _ _ _ Hi Hf Hanc) as (salt & verify & n & n' & data & t & _ & _ & Henc & Hf2).
      destruct (fresh_fit key salt verify data (Hfresh _ _) Henc) as [Hl Hfit].
      destruct (open_file _ _ _ _ _ _ _ _ Hf2 Hfit Hr) as (Hh & Hsv & c0 & c1 & Hl0 & Hd & Hc). split; [|done].
      assert (c0 = fresh_config salt verify) as -> by congruence.
      destruct (fresh_opened key salt verify) as (d & Hd' & Hcd). by assert (d = c1) as -> by congruence; rewrite Hc.
    + injection Ho as <-. rewrite <- Hfs in Hf.
      apply M_bind_inv in Hr as [(c0 & w3 & (r0 & Hl & Hr0)%mapErr_inv & Hr)|(e & _ & ?)]; [|done]. exfalso.
      unfold Load in Hl. apply M_bind_inv in Hl as [(b & w4 & (r2 & Hrd & Hr2)%mapErr_inv & Hl)|(e & _ & ->)]; [|done].
      destruct r2; [|done]. apply syscall_inv in Hrd as [(e & ? & _)|(x & f & _ & _ & Ha & _)]; [done|].
      unfold link_depth in Ha. rewrite (StoreInit.follow_none _ _ _ Hf) in Ha. cbn [mbind res_bind] in Ha. by rewrite Hf in Ha.
Qed.

End Honest.

(** ** A first run: the file is made, a bag added, and saved *)

#[local] Existing Instances toy_aead toy_rand Toys.toy_toml Toys.toy_argon Toys.toy_codec Bag.ex_os map_range_default.

#[local] Abbreviation ex_opened reply :=
  (loadOrInit reply (Ok "pw") (fun _ => Ok "pw") "/h/config.toml" (start ∅)).
Definition ex_config : Config := match (ex_opened "Y").1 with Ok (c, _, _) => c | Err _ => Bag.ex_plain end.
Definition ex_key : string := match (ex_opened "Y").1 with Ok (_, k, _) => k | Err _ => EmptyString end.
Definition ex_shown : Config := with_secrets ex_config {["prod" := {["A" := "1"]}]}.
Definition ex_first : session := opened ex_config false (ex_opened "Y").2.
Definition ex_edited : session := mkSession (with_dirty (with_cfg (root ex_first) ex_shown)) (disk ex_first) false.
#[local] Abbreviation ex_saved :=
  (exec Tui.ex_other (fun _ => false) OtherScreen (fun _ => false) (fun _ => NoCmd) "/h/config.toml" ex_key 10 (Emit (KeyMsg "ctrl+s")) ex_edited).

Example declined : (ex_opened "no").1 = Err OAborted /\ bool_decide (fs (ex_opened "no").2 = ∅) = true.
Proof. vm_compute. done. Qed.

Lemma all_codable key c : codable key c.
Proof. intros n c2 n' _. split; [intros nm _; exact I|]. split; [exact I|intros s; exact I]. Qed.

Lemma ex_shown_savable : savable ex_key ex_shown.
Proof.
  exists empty_names. split; [vm_compute; reflexivity|]. split; [exact SealStable.empty_names_wf|]. split; [|apply all_codable].
  split; [apply (bool_decide_unpack _); vm_compute; exact I..|].
  replace (Mappings ex_shown) with (@nil Mapping) by (vm_compute; reflexivity). constructor.
Qed.

End TuiStart.
