(* ===== verification/TuiViews.v ===== *)
(** * What the other screens show (the View functions of src/internal/tui: sources_screen.go,
    arn_list_screen.go, mappings_screen.go, commands_list_screen.go,
    discover_commands_screen.go, var_tree_screen.go, menu.go, settings_screen.go,
    warnings_screen.go, help.go, screens_stub.go, model.go)

    Each body is a function of the configuration and of the screen; the root adds the status
    line and the frame.  Of all the lists only the variable tree is windowed, and of it the
    row under the cursor is shown to be drawn. *)

From S2P Require Import Prelude GoString ConfigModel HookInstall TuiRefs TuiWidgets Aws TuiSources TuiTree TuiStack TuiMappings TuiDraw TuiRemotes Tui.
Import Config TuiWidgets TuiTree TuiDraw.

Module TuiViews.

Section Views.
Context `{Lipgloss}.

(** The verb %q of package fmt. *)
Context (quote : string -> string).

Definition count (n : nat) : string := itoa (N.of_nat n).

(** A row of the screens that put the marker in front of the row. *)
Definition marked (focused : bool) (s : string) : string :=
  if focused then render Label " ▶" +:+ " " +:+ render ItemFocused s else "   " +:+ render Item s.
Definition marked_row (focused : bool) (s : string) : string := line (marked focused s).

(** ** Status lines *)

Definition renderHelpStatus : string :=
  renderHelpKeys [("↑/↓", "move"); ("Enter", "activate"); ("Esc", "back"); ("Ctrl+S", "save"); ("?", "help")].
Definition defaultListStatus : string :=
  renderHelpKeys [("↑/↓", "move"); ("Tab", "buttons"); ("Enter", "activate"); ("Esc", "back"); ("Ctrl+S", "save")].
Definition defaultFormStatus : string :=
  renderHelpKeys [("Tab", "next field"); ("Enter", "activate"); ("Esc", "back"); ("Ctrl+S", "save")].
Definition popup_status : string :=
  renderHelpKeys [("↑/↓", "move"); ("Enter", "select"); ("Esc", "close"); ("Ctrl+S", "save")].
Definition detail_status : string :=
  renderHelpKeys [("↑/↓", "move"); ("Enter", "open"); ("r", "reveal"); ("Esc", "back"); ("Ctrl+S", "save"); ("?", "help")].
Definition tree_status : string :=
  renderHelpKeys [("↑/↓", "move"); ("Space/Enter", "toggle"); ("Esc", "back"); ("Ctrl+S", "save"); ("?", "help")].

(** ** Sources *)

Definition source_list_view (c : Config) (names : list string) (cursor : nat) : string :=
  heading "Remote sources" +:+ list_row (cursor =? 0)%nat "< Create New Source >"
  +:+ list_rows cursor 1 ((fun n =>
        pad 24 n +:+ "  " +:+ dimText ("(" +:+ (match Sources c !! n with Some sc => Type_ sc | None => EmptyString end) +:+ ")")) <$> names).

Definition picker_view (Schema : string -> list ParamField) (p : TuiRemotes.picker) : string :=
  heading "Source type"
  +:+ String.concat EmptyString (imap (fun i t =>
        let hint := match Schema t with [] => "(no params)" | l => "(" +:+ count (length l) +:+ " params)" end in
        marked_row (bool_decide (TuiRemotes.pfocus p = None) && (i =? TuiRemotes.pcursor p)%nat) (pad 12 t +:+ " " +:+ dimText hint))
        (TuiRemotes.ptypes p))
  +:+ newline +:+ renderButtonRow TuiRemotes.picker_buttons (TuiRemotes.pfocus p) +:+ newline.

Definition params_view (help placeholder : ParamField -> string) (s : TuiSources.sourceParamsScreen) : string :=
  (match fields (TuiSources.sform s) with
   | [] => dimText "(no params for this source type)" +:+ newline +:+ newline
   | _ => form_view help placeholder (TuiSources.sform s)
   end)
  +:+ (if str_empty (TuiSources.serr s) then EmptyString else line (render ErrorStyle (TuiSources.serr s)))
  +:+ newline +:+ renderButtonRow (TuiSources.paramButtonsForType (TuiSources.stypeName s)) (TuiSources.sfocus s) +:+ newline.

Definition arn_list_view (l : TuiRemotes.arnList) : string :=
  heading ("ARNs (" +:+ TuiRemotes.aname l +:+ ")") +:+ list_row (TuiRemotes.acursor l =? 0)%nat "< Add ARN >"
  +:+ match TuiRemotes.arns l with
      | [] => newline +:+ line (dimText "No ARNs yet. Pick the row above to add one.")
              +:+ line (dimText "Each ARN appears as a bag in the var-tree picker; the agent only")
              +:+ line (dimText "fetches IDs you've added here.")
      | arns => String.concat EmptyString (imap (fun i a =>
          let row := truncate (TuiDraw.arnDisplayName a) 50 in
          let hint := dimText ("  " +:+ truncate a 60) in
          line ((if (S i =? TuiRemotes.acursor l)%nat then " " +:+ render Label "▶ " +:+ render ItemFocused row
                 else "   " +:+ render Item row) +:+ hint)) arns)
      end.

(** ** Mappings *)

Definition mapping_list_view (c : Config) (cursor : nat) : string :=
  heading "Mappings" +:+ list_row (cursor =? 0)%nat "< Create New Mapping >"
  +:+ (match Mappings c with
       | [] => newline +:+ line (dimText "No mappings yet — pick the row above to add one. A mapping ties")
               +:+ line (dimText "a file or glob to a set of env vars that the shell hook injects")
               +:+ line (dimText "when you run that file. Press ? for the full help.")
       | _ => EmptyString
       end)
  +:+ list_rows cursor 1 ((fun m =>
        let '(n, known) := TuiMappings.expandedVarCount c m in
        pad 44 (truncate (TuiMappings.mappingLabel m) 44) +:+ "  "
        +:+ dimText ("(" +:+ count n +:+ " " +:+ (if known : bool then "vars" else "vars+") +:+ ")")) <$> Mappings c).

(** The rows of the form: kind, target, commands of a directory, variables. *)
Definition form_rows (c : Config) (f : TuiMappings.mform) (m : Mapping) : list (string * string) :=
  let kind := TuiMappings.effectiveKind c f in
  [("kind", kind); ("target", or_default (TuiMappings.target_of kind m) (dimText "(not set)"))]
  ++ (if String.eqb kind "cwd" then
        [("commands", match Commands m with
                      | [] => dimText "(none — required)"
                      | cmds => truncate (String.concat ", " cmds) 48 +:+ "  " +:+ dimText ("(" +:+ count (length cmds) +:+ ")")
                      end)]
      else [])
  ++ [("variables", count (TuiMappings.localVarCount c m) +:+ " selected")].

Definition mapping_form_view (c : Config) (f : TuiMappings.mform) : string :=
  match TuiMappings.mp c f with
  | None => render ErrorStyle "(mapping vanished)"
  | Some m => list_rows (TuiMappings.fcursor f) 0 ((fun r => pad 12 (r.1 +:+ ":") +:+ " " +:+ r.2) <$> form_rows c f m)
  end.

Definition commands_view (c : Config) (idx cursor : nat) : string :=
  match Mappings c !! idx with
  | None => render ErrorStyle "(mapping vanished)"
  | Some m =>
      heading (if str_empty (CwdGlob m) then "Commands" else "Commands (cwd_glob: " +:+ CwdGlob m +:+ ")")
      +:+ list_rows cursor 0 ["< Discover from folder… >"; "< Add command >"]
      +:+ match Commands m with
          | [] => newline +:+ line (dimText "No commands yet. Add one, or discover them from a folder above.")
                  +:+ line (dimText "Each command is wrapped by a per-shell symlink while you're")
                  +:+ line (dimText "inside the matching cwd; running it routes through jitenv run.")
          | cmds => list_rows cursor TuiMappings.numSentinels ((fun x => truncate x 60) <$> cmds)
          end
  end.

(** Each suggestion with its reason. *)
Definition discover_view (folder : string) (sugs : list (string * string)) (checked : list bool) (cursor : nat) : string :=
  line (render Label "Suggested commands") +:+ line (dimText ("from " +:+ truncate folder 56)) +:+ newline
  +:+ (match sugs with
       | [] => line (dimText "No known project markers found in that folder.")
               +:+ line (dimText "Pick a folder containing e.g. package.json, go.mod, a Dockerfile, …") +:+ newline
       | _ => EmptyString
       end)
  +:+ list_rows cursor 0 (imap (fun i s =>
        (if nth i checked false then render OkStyle "[✓]" else "[ ]") +:+ "  " +:+ pad 16 s.1 +:+ " " +:+ dimText ("(" +:+ s.2 +:+ ")")) sugs)
  +:+ newline +:+ list_row (cursor =? length sugs)%nat "< Confirm >"
  +:+ newline +:+ line (dimText "Space/Enter toggle · already-listed commands are skipped on confirm.").

(** ** The variable tree *)

Definition renderRow (t : list treeBag) (r : treeRow) : string :=
  match t !! bagIdx r with
  | None => EmptyString
  | Some b =>
      match keyIdx r with
      | None =>
          let box := if bagSel b then render OkStyle "[✓]" else "[ ]" in
          let meta := if loading b then dimText "(loading…)"
                      else if negb (str_empty (loadErr b)) then render WarnStyle "(error)" +:+ "  " +:+ dimText (truncate (loadErr b) 40)
                      else dimText ("(" +:+ count (length (keys b)) +:+ " keys)") in
          let src := if String.eqb (sourceType b) "local" then EmptyString
                     else "  " +:+ dimText ("[" +:+ sourceType b +:+ ":" +:+ sourceName b +:+ "]") in
          box +:+ "  " +:+ displayName b +:+ "  " +:+ meta +:+ src
      | Some ki =>
          match keys b !! ki with
          | None => EmptyString
          | Some k =>
              let box := if bagSel b then render Muted "[•]" else if ksel k then render OkStyle "[✓]" else "[ ]" in
              "    " +:+ box +:+ "  " +:+ (if bagSel b then render Muted (kname k) else kname k)
          end
      end
  end.

(** The rows that fit a terminal of [h] lines, and the body with the offset it leaves. *)
Definition tree_visible (h : Z) : Z := Z.max (h - 6 - 2 - 2 - 2) 1.

Definition tree_view (h off : Z) (s : varTreeScreen) : string * Z :=
  let title := heading "Select variables" in
  match bags s with
  | [] => (title +:+ line (dimText "No bags yet. Add a Local secrets bag, or add ARNs to an AWS source."), off)
  | t =>
      let rows := flatRows t in
      let n := Z.of_nat (length rows) in
      let visible := tree_visible h in
      let off := scrollOffset off (Z.of_nat (tcursor s)) n visible in
      let start := Z.to_nat off in
      let stop := Z.to_nat (Z.min (off + visible) n) in
      (title
       +:+ (if (0 <? start)%nat then line (dimText ("  ↑ " +:+ count start +:+ " more")) else EmptyString)
       +:+ String.concat EmptyString (imap (fun i r => marked_row ((start + i =? tcursor s)%nat) (renderRow t r)) (take (stop - start) (drop start rows)))
       +:+ (if (stop <? length rows)%nat then line (dimText ("  ↓ " +:+ count (length rows - stop) +:+ " more")) else EmptyString)
       +:+ newline +:+ line (dimText "Tip: ticking a bag includes every key (including future ones)."), off)
  end.

(** ** The menu, the settings, the warnings, the help *)

Definition menu_rows `{MapRange} (c : Config) : list (string * string) :=
  [("Mappings", count (length (Mappings c)) +:+ " defined"); ("Local secrets", count (size (Secrets c)) +:+ " bags");
   ("Remote Sources", count (TuiSources.countRemoteSources c) +:+ " configured"); ("Settings", EmptyString)].

Definition menu_view `{MapRange} (c : Config) (cursor : nat) (focus : option nat) : string :=
  heading "Choose a section"
  +:+ String.concat EmptyString (imap (fun i r =>
        marked_row (bool_decide (focus = None) && (i =? cursor)%nat)
          (pad 16 r.1 +:+ (if str_empty r.2 then EmptyString else "  " +:+ dimText ("(" +:+ r.2 +:+ ")")))) (menu_rows c))
  +:+ newline +:+ renderButtonRow ["Save"; "Quit"] focus +:+ newline.

Definition hook_value (st : HookInstall.Status) : string :=
  let installed := HookInstall.Installed st in
  if str_empty (HookInstall.Shell st) then dimText "(unsupported shell — only bash and zsh)"
  else if negb installed then render WarnStyle "not installed" +:+ "  " +:+ dimText ("(" +:+ HookInstall.SRcPath st +:+ ")")
  else if String.eqb (HookInstall.Shell st) "bash" && negb (str_empty (HookInstall.SLoginPath st)) && negb (HookInstall.LoginSources st) then
    render WarnStyle "interactive only" +:+ "  " +:+ dimText ("(login chain " +:+ HookInstall.SLoginPath st +:+ " doesn't source ~/.bashrc)")
  else render OkStyle "installed" +:+ "  " +:+ dimText ("(" +:+ HookInstall.SRcPath st +:+ ")").

Definition settings_view (c : Config) (st : HookInstall.Status) (cursor : nat) : string :=
  list_rows cursor 0 ((fun r => pad 22 (r.1 +:+ ":") +:+ " " +:+ r.2) <$>
    [("agent idle timeout", or_default (IdleTimeout (CAgent c)) (dimText "(default 30m)"));
     ("pre-run notice", if PreRunNoticeEnabled (CAgent c) then render OkStyle "yes" else dimText "no");
     ("shell hook", hook_value st)]).

Definition origin_text (o : origin) : string := match o with Literal => "literal value" | FromSource s => "source " +:+ quote s end.

Definition warning_text (w : Warning) : string :=
  let a := count (VarIdxA w) in let b := count (VarIdxB w) in
  "mapping[" +:+ count (MappingIdx w) +:+ "]: env var " +:+ quote (WName w) +:+ " is set twice (vars[" +:+ a +:+ "]"
  +:+ (if Duplicate w
       then " and vars[" +:+ b +:+ "] from " +:+ origin_text (EffectiveSource w) +:+ ") — vars[" +:+ b +:+ "] is a redundant duplicate; delete one"
       else " from " +:+ origin_text (ShadowedSource w) +:+ ", vars[" +:+ b +:+ "] from " +:+ origin_text (EffectiveSource w)
            +:+ ") — vars[" +:+ b +:+ "] wins at fetch time").

Definition warnings_view (ws : list Warning) : string :=
  render WarnStyle "These vars collide within a mapping — the save still succeeded, but the later var wins at fetch time:" +:+ newline +:+ newline
  +:+ String.concat EmptyString ((fun w => line ("  • " +:+ warning_text w)) <$> ws)
  +:+ newline
  +:+ line (dimText "Same-name vars across different sources are allowed (a fallback chain), so this is a warning, not an error. If unintended, remove or rename one var.").

Definition commonNavKeys : list (string * string) :=
  [("↑/↓ or k/j", "move"); ("Enter", "activate"); ("Esc", "back"); ("Tab / Shift-Tab", "next / previous control");
   ("Ctrl-S", "save to disk (any screen)"); ("Ctrl-C", "quit (prompts on unsaved changes)")].

Definition help_view (body : string) (keys : list (string * string)) : string :=
  (if str_empty body then EmptyString else String.concat EmptyString (line <$> split_byte LF (trim_space body)) +:+ newline)
  +:+ match keys with
      | [] => EmptyString
      | _ =>
          let maxKey := foldr (fun e n => Nat.max (String.length e.1) n) 0%nat keys in
          line (render Label "Keys")
          +:+ String.concat EmptyString ((fun e =>
                line ("  " +:+ render Label e.1 +:+ repeat_str " " (maxKey - String.length e.1) +:+ "   " +:+ dimText e.2)) <$> keys)
      end.

Definition stub_view (body : string) : string := body +:+ newline +:+ newline +:+ render HelpText "[esc] back".

(** ** The root *)

Definition status_line (hint : string) (top_status : string) (r : Tui.rootModel) : string :=
  let tag := if Tui.dirty r then render WarnStyle "● unsaved" else render OkStyle "● saved" in
  let status :=
    if str_empty (Tui.flash r) then top_status +:+ "    " +:+ tag
    else render (if Tui.flashErr r then ErrorStyle else OkStyle) ("» " +:+ Tui.flash r) +:+ "    " +:+ dimText top_status +:+ "    " +:+ tag in
  if str_empty hint then status else dimText hint +:+ "    " +:+ status.

Definition root_view (version : string) (w h : Z) (hint : string) (body top_status : Tui.screen -> string) (r : Tui.rootModel) : string :=
  match Tui.stack r with
  | [] => EmptyString
  | s :: _ => renderApp version w h (body s) (status_line hint (top_status s) r)
  end.

(** The lines of a body that the frame of a terminal of [h] lines keeps. *)
Definition kept_lines (h : Z) (body : string) : list string := clip (Z.to_nat (Z.max h 4 - 6)) (split_byte LF body).
End Views.

(** The editor's copy of the name of an ARN is the source's. *)
Lemma arnDisplayName_copy arn : TuiDraw.arnDisplayName arn = Aws.arnDisplayName arn.
Proof.
  unfold TuiDraw.arnDisplayName, Aws.arnDisplayName. destruct (index_str arn ":secret:") as [i|]; [|done]. cbn zeta.
  assert (Hg : forall n s, String.get n s = Aws.str_at n s).
  { unfold Aws.str_at. induction n as [|n IH]; intros [|a s]; cbn; try done. }
  rewrite <- Hg. done.
Qed.

(** ** The cursor stays on the screen *)

Section Window.
Context `{Lipgloss}.
Hypothesis Hrender : forall st t, newlines t = 0%nat -> newlines (render st t) = 0%nat.

Lemma marked_line b t : newlines t = 0%nat -> newlines (marked b t) = 0%nat.
Proof. intros Ht. unfold marked. destruct b; rewrite !newlines_app; by rewrite ?Hrender. Qed.

Lemma split_opt (b : bool) x rest :
  newlines x = 0%nat -> split_byte LF ((if b then line x else EmptyString) +:+ rest) = (if b then [x] else []) ++ split_byte LF rest.
Proof. intros Hx. destruct b; [by apply split_line|done]. Qed.

(** What the window holds. *)
Definition window_rows (start stop : nat) (s : varTreeScreen) : list string :=
  imap (fun i r => marked ((start + i =? tcursor s)%nat) (renderRow (bags s) r)) (take (stop - start) (drop start (flatRows (bags s)))).

Lemma count_oneline n : newlines (count n) = 0%nat.
Proof.
  unfold count. pose proof (itoa_digits (N.of_nat n)) as Hd. induction (itoa (N.of_nat n)) as [|a s IH]; [done|].
  cbn [forall_bytes newlines] in *. apply andb_prop in Hd as [Ha Hs]. destruct (Ascii.eqb_spec a LF) as [->|_]; [done|by apply IH].
Qed.

Lemma tree_lines h off s :
  (forall r, r ∈ flatRows (bags s) -> newlines (renderRow (bags s) r) = 0%nat) -> bags s <> [] ->
  let off' := (tree_view h off s).2 in
  let n := length (flatRows (bags s)) in
  let start := Z.to_nat off' in
  let stop := Z.to_nat (Z.min (off' + tree_visible h) (Z.of_nat n)) in
  off' = scrollOffset off (Z.of_nat (tcursor s)) (Z.of_nat n) (tree_visible h)
  /\ exists u d tip, split_byte LF (tree_view h off s).1
     = [render Label "Select variables"; EmptyString] ++ (if (0 <? start)%nat then [u] else [])
       ++ window_rows start stop s ++ (if (stop <? n)%nat then [d] else []) ++ [EmptyString; tip; EmptyString].
Proof.
  intros Hr Hb. unfold tree_view, window_rows. destruct (bags s) as [|b t] eqn:Hs; [done|]. cbn [fst snd]. split; [done|].
  set (n := length (flatRows (b :: t))). set (off' := scrollOffset _ _ _ _).
  set (start := Z.to_nat off'). set (stop := Z.to_nat _). eexists _, _, _.
  change (heading "Select variables" +:+ ?x) with ((render Label "Select variables" +:+ newline +:+ newline) +:+ x).
  replace (render Label "Select variables" +:+ newline +:+ newline) with (line (render Label "Select variables") +:+ line EmptyString)
    by (unfold line; by rewrite <- str_app_assoc).
  rewrite <- str_app_assoc, split_line by by apply Hrender. rewrite split_line by done.
  rewrite split_opt by (apply Hrender; rewrite !newlines_app, count_oneline; done).
  replace (imap (fun i r => marked_row ((start + i =? tcursor s)%nat) (renderRow (b :: t) r)) (take (stop - start) (drop start (flatRows (b :: t)))))
    with (line <$> imap (fun i r => marked ((start + i =? tcursor s)%nat) (renderRow (b :: t) r)) (take (stop - start) (drop start (flatRows (b :: t)))))
    by by rewrite fmap_imap.
  rewrite split_all.
  - rewrite split_opt by (apply Hrender; rewrite !newlines_app, count_oneline; done).
    change (newline +:+ ?x) with (line EmptyString +:+ x). rewrite split_line by done.
    rewrite <- (str_app_nil_r (line _)), split_line by by apply Hrender. done.
  - apply Forall_lookup. intros i x. rewrite list_lookup_imap. intros (r & Hi & ->)%fmap_Some. apply marked_line, Hr.
    apply list_elem_of_lookup_2 in Hi. eapply elem_of_subseteq; [apply subseteq_drop|]. eapply elem_of_subseteq; [apply subseteq_take|]. done.
Qed.

(** A line among the first of a body is kept. *)
Lemma kept_line h body i l :
  split_byte LF body !! i = Some l -> (Z.of_nat i < Z.max h 4 - 6)%Z -> l ∈ kept_lines h body.
Proof.
  intros Hl Hi. unfold kept_lines, clip. apply elem_of_app. left. apply (list_elem_of_lookup_2 _ i).
  rewrite lookup_take. destruct (decide (i < Z.to_nat (Z.max h 4 - 6))%nat); [done|lia].
Qed.

(** C26.  The cursor of the variable tree is always on the screen: on a terminal of ten lines
    or more, wherever the window was before and whatever the tree holds - as long as no row
    breaks the line, and drawing adds no lines -, the row under the cursor is one of the
    lines that the frame keeps, drawn with its marker.  From thirteen lines on nothing of the
    screen is cut at all, the hints above and below and the tip included.  And the window
    stays where it was while the cursor moves inside it. *)
Theorem tree_cursor_visible h off s :
  (forall r, r ∈ flatRows (bags s) -> newlines (renderRow (bags s) r) = 0%nat) ->
  (tcursor s < length (flatRows (bags s)))%nat -> (10 <= h)%Z ->
  let '(body, off') := tree_view h off s in
  (exists r, flatRows (bags s) !! tcursor s = Some r /\ marked true (renderRow (bags s) r) ∈ kept_lines h body)
  /\ ((13 <= h)%Z -> Z.of_nat (newlines body) <= h - 6)%Z
  /\ ((0 <= off <= Z.of_nat (length (flatRows (bags s))) - tree_visible h)%Z ->
      (off <= Z.of_nat (tcursor s) < off + tree_visible h)%Z -> off' = off).
Proof.
  intros Hr Hc Hh. assert (Hb : bags s <> []) by (intros Hb; rewrite Hb in Hc; cbn in Hc; lia).
  destruct (tree_lines h off s Hr Hb) as (Hoff & u & d & tip & Hl).
  destruct (tree_view h off s) as [body off']. cbn [fst snd] in *.
  destruct (scrollOffset_spec off (Z.of_nat (tcursor s)) (Z.of_nat (length (flatRows (bags s)))) (tree_visible h)) as (H1 & H2 & H3); [lia|].
  rewrite <- Hoff in H1, H2, H3. assert (Hv : tree_visible h = Z.max (h - 12) 1) by (unfold tree_visible; lia). rewrite Hv in *.
  replace (Z.max (Z.max (h - 12) 1) 1) with (Z.max (h - 12) 1) in * by lia.
  set (n := length (flatRows (bags s))) in *. set (stop := Z.to_nat (Z.min _ _)) in *. set (start := Z.to_nat off') in *.
  assert (Hst : Z.of_nat start = off') by (unfold start; lia).
  assert (Hsp : Z.of_nat stop = Z.min (off' + Z.max (h - 12) 1) (Z.of_nat n)) by (unfold stop; lia). clearbody start stop.
  assert (Hw : length (window_rows start stop s) = (stop - start)%nat)
    by (unfold window_rows; rewrite length_imap, length_take, length_drop; lia).
  split_and!; [|intros Hh13|by intros; apply H3].
  - destruct (lookup_lt_is_Some_2 (flatRows (bags s)) (tcursor s) Hc) as [r Hrow]. exists r. split; [done|].
    set (up := if (0 <? start)%nat then [u] else []) in *.
    assert (Hup : (length up <= 1)%nat) by (unfold up; destruct (0 <? start)%nat; cbn; lia).
    apply (kept_line _ _ (2 + length up + (tcursor s - start))); [|lia]. rewrite Hl.
    rewrite lookup_app_r by (cbn; lia). cbn [length]. rewrite lookup_app_r by lia. rewrite lookup_app_l by lia.
    replace (2 + length up + (tcursor s - start) - 2 - length up)%nat with (tcursor s - start)%nat by lia.
    unfold window_rows. rewrite list_lookup_imap, lookup_take, lookup_drop.
    destruct (decide (tcursor s - start < stop - start)%nat); [|lia].
    replace (start + (tcursor s - start))%nat with (tcursor s) by lia. rewrite Hrow. cbn [fmap option_fmap option_map].
    by rewrite Nat.eqb_refl.
  - destruct (split_lines body) as [_ Hn]. rewrite Hl in Hn. rewrite !length_app, Hw in Hn. cbn [length] in Hn.
    destruct (0 <? start)%nat, (stop <? n)%nat; cbn [length] in Hn; lia.
Qed.
End Window.

Definition tall_tree (n : nat) : varTreeScreen :=
  mkTree 0 [mkTBag "local" "local" "b" "b" false (replicate n (mkTKey "K" true)) false EmptyString] 9.

(** On ten lines one row is shown, the one under the cursor. *)
Lemma tree_cursor_visible_witness :
  let '(body, off') := @tree_view plain 10 3 (tall_tree 12) in
  (exists r, flatRows (bags (tall_tree 12)) !! 9%nat = Some r
             /\ @marked plain true (@renderRow plain (bags (tall_tree 12)) r) ∈ @kept_lines 10 body)
  /\ @kept_lines 10 body = ["Select variables"; ""; "  ↑ 9 more"; " ▶     [✓]  K"].
Proof.
  assert (Hr : Forall (fun r => newlines (@renderRow plain (bags (tall_tree 12)) r) = 0%nat) (flatRows (bags (tall_tree 12))))
    by (vm_compute; repeat constructor).
  pose proof (@tree_cursor_visible plain ltac:(done) 10 3 (tall_tree 12) (proj1 (Forall_forall _ _) Hr) ltac:(vm_compute; lia) ltac:(lia)) as Ht.
  split; [exact (proj1 Ht)|vm_compute; reflexivity].
Defined.

(** The other lists are not windowed: on a terminal of twelve lines the cursor on the eighth
    mapping is below what the frame keeps. *)
Definition long_list : Config :=
  mkConfig Version (mkMeta "" 0 0 0 "" "" "" "") (mkAgentConfig "" "" None None) ∅ (replicate 9 (mkMapping "/a" "" "" [] [])) ∅ None.
Example list_cursor_lost :
  let body := @mapping_list_view plain long_list 8 in
  existsb (fun l => has_prefix l " ▶") (split_byte LF body) = true
  /\ existsb (fun l => has_prefix l " ▶") (@kept_lines 12 body) = false.
Proof. vm_compute. auto. Qed.

(** The column of the help is padded by bytes, so the rows with arrows are out of line. *)
Example help_column :
  rune_count "↑/↓ or k/j" = 10%nat /\ String.length "↑/↓ or k/j" = 14%nat
  /\ @help_view plain "" [("↑/↓ or k/j", "move"); ("Tab / Shift-Tab", "next")]
     = "Keys" +:+ newline +:+ "  ↑/↓ or k/j    move" +:+ newline +:+ "  Tab / Shift-Tab   next" +:+ newline.
Proof. vm_compute. auto. Qed.
End TuiViews.
