(* ===== verification/TuiWizard.v ===== *)
(** * The wizard for one variable (src/internal/tui/var_wizard.go)

    Source, then bag, mode and key for the local source, or reference and sub-key for any
    other, then the name.  No screen of this build opens it (the code says so); the steps
    are here as they are written, with what they draw, and what they hand over is a
    variable that validates. *)

From S2P Require Import Prelude GoString ConfigModel TuiWidgets TuiTree TuiRemotes TuiSecrets TuiMappings TuiDraw TuiViews.
Import Config TuiWidgets.

Module TuiWizard.

(** A list with two buttons below it. *)
Record choice := mkChoice { names : list string; cursor : nat; btn : option nat }.
Definition wizard_buttons : list string := ["Next"; "Back"].

Inductive step :=
| StubStep (title body : string)
| PickSource (l : choice) (ref : VarRef)
| PickBag (l : choice) (ref : VarRef)
| PickMode (l : choice) (ref : VarRef)
| PickKey (l : choice) (ref : VarRef)
| GenericRef (typeName : string) (i : inputScreen) (ref : VarRef)
| GenericKey (i : inputScreen) (ref : VarRef)
| EnvName (i : inputScreen) (ref : VarRef).

Definition set_source (s : string) (v : VarRef) : VarRef := mkVar (Name v) s (Ref v) (Key v) (Extra v) (Value v).
Definition set_ref (r : string) (v : VarRef) : VarRef := mkVar (Name v) (Source v) r (Key v) (Extra v) (Value v).
Definition set_key (k : string) (v : VarRef) : VarRef := mkVar (Name v) (Source v) (Ref v) k (Extra v) (Value v).
Definition set_name (n : string) (v : VarRef) : VarRef := mkVar n (Source v) (Ref v) (Key v) (Extra v) (Value v).

(** The cursor on the first row that is the current one, else on the first row. *)
Fixpoint position (x : string) (l : list string) : option nat :=
  match l with [] => None | y :: l' => if String.eqb y x then Some 0%nat else S <$> position x l' end.
Definition at_current (l : list string) (x : string) : choice := mkChoice l (default 0%nat (position x l)) None.

Definition pickInitial (existing fallback : string) : string := if str_empty existing then fallback else existing.
Definition newEnvNameStep (ref : VarRef) (defaultName : string) : step :=
  EnvName (newInputScreen (pickInitial (Name ref) defaultName) false false false "Done" "Back") ref.
Definition newGenericKeyStep (ref : VarRef) : step := GenericKey (newInputScreen (Key ref) false true false "Next" "Back") ref.
Definition newGenericRefStep (ref : VarRef) (typeName : string) : step :=
  GenericRef typeName (newInputScreen (Ref ref) false false false "Next" "Back") ref.

Section Wizard.
Context `{MapRange} (typed : string -> string -> string) (c : Config).

Definition configuredSourceNames : list string := sort_strings (map_range 107 (Sources c)).*1.

Definition newPickSourceStep (ref : VarRef) : step :=
  match configuredSourceNames with
  | [] => StubStep "no sources" ("You haven't configured any sources yet." +:+ str1 LF +:+ "Go to Sources first and add one.")
  | l => PickSource (at_current l (Source ref)) ref
  end.
Definition newPickBagStep (ref : VarRef) : step :=
  match TuiTree.bagNames c with
  | [] => StubStep "no bags" ("No local secret bags yet." +:+ str1 LF +:+ "Go to Local secrets first and add one.")
  | l => PickBag (at_current l (Ref ref)) ref
  end.
Definition mode_rows : list string := ["all"; "one"].
Definition newPickLocalModeStep (ref : VarRef) : step :=
  PickMode (mkChoice mode_rows (if str_empty (Key ref) then 0%nat else 1%nat) None) ref.
Definition newPickBagKeyStep (ref : VarRef) : step :=
  match TuiTree.sortedBagKeys c (Ref ref) with
  | [] => StubStep "empty bag" "This bag has no keys yet."
  | l => PickKey (at_current l (Key ref)) ref
  end.

Definition dispatchByType (ref : VarRef) : step :=
  match Sources c !! Source ref with
  | None => StubStep "(error)" "source vanished"
  | Some sc => if String.eqb (Type_ sc) "local" then newPickBagStep ref else newGenericRefStep ref (Type_ sc)
  end.

(** ** The machine *)

(** The screens of the wizard with the top first, and what was handed over so far. *)
Record wizard := mkWizard { steps : list step; handed : list VarRef }.

Definition pop (w : wizard) : wizard := mkWizard (tail (steps w)) (handed w).
Definition push (w : wizard) (top : step) (above : list step) : wizard := mkWizard (above ++ top :: tail (steps w)) (handed w).
Definition stay (w : wizard) (top : step) : wizard := push w top [].
Definition finishVar (w : wizard) (ref : VarRef) (top : step) : wizard := mkWizard (top :: tail (steps w)) (handed w ++ [ref]).

Inductive list_answer := Moved (l : choice) | Next (row : string) | Leave | Ignored.
Definition list_step_key (l : choice) (k : string) : list_answer :=
  match wizardListNav (cursor l) (length (names l)) (btn l) (length wizard_buttons) k with
  | Some (cur, b) => Moved (mkChoice (names l) cur b)
  | None =>
      if String.eqb k "enter" then
        if match btn l with None => true | Some b => String.eqb (nth b wizard_buttons EmptyString) "Next" end
        then Next (nth (cursor l) (names l) EmptyString) else Leave
      else if String.eqb k "esc" then Leave else Ignored
  end.

Definition on_list (w : wizard) (l : choice) (k : string) (keep : choice -> step) (next : string -> wizard) : wizard :=
  match list_step_key l k with
  | Moved l' => stay w (keep l')
  | Next row => next row
  | Leave => pop w
  | Ignored => w
  end.

Definition on_input (w : wizard) (i : inputScreen) (k : string) (keep : inputScreen -> step) (commit : inputScreen -> string -> wizard) : wizard :=
  match input_update typed i k with
  | (_, Close) => pop w
  | (i', Committed v) => commit i' v
  | (i', _) => stay w (keep i')
  end.

Definition source_key (w : wizard) (l : choice) (ref : VarRef) (k : string) : wizard :=
  on_list w l k (fun l => PickSource l ref) (fun n =>
    let ref := set_source n ref in push w (PickSource l ref) [dispatchByType ref]).
Definition bag_key (w : wizard) (l : choice) (ref : VarRef) (k : string) : wizard :=
  on_list w l k (fun l => PickBag l ref) (fun n =>
    let ref := set_ref n ref in push w (PickBag l ref) [newPickLocalModeStep ref]).
Definition mode_key (w : wizard) (l : choice) (ref : VarRef) (k : string) : wizard :=
  on_list w l k (fun l => PickMode l ref) (fun _ =>
    if (cursor l =? 0)%nat then let ref := set_name "" (set_key "" ref) in finishVar w ref (PickMode l ref)
    else push w (PickMode l ref) [newPickBagKeyStep ref]).
Definition key_key (w : wizard) (l : choice) (ref : VarRef) (k : string) : wizard :=
  on_list w l k (fun l => PickKey l ref) (fun n =>
    let ref := set_key n ref in push w (PickKey l ref) [newEnvNameStep ref (Key ref)]).

(** The callbacks of the three inputs. *)
Definition ref_entered (w : wizard) (t : string) (ref : VarRef) (i : inputScreen) (v : string) : wizard :=
  let ref := set_ref (trim_space v) ref in push w (GenericRef t i ref) [newGenericKeyStep ref].
Definition subkey_entered (w : wizard) (ref : VarRef) (i : inputScreen) (v : string) : wizard :=
  let ref := set_key (trim_space v) ref in
  push w (GenericKey i ref) [newEnvNameStep ref (if str_empty (Key ref) then Name ref else Key ref)].
Definition name_entered (w : wizard) (ref : VarRef) (i : inputScreen) (v : string) : wizard :=
  let ref := set_name (trim_space v) ref in finishVar w ref (EnvName i ref).

Definition wizard_key (w : wizard) (k : string) : wizard :=
  match steps w with
  | [] => w
  | StubStep _ _ :: _ => if TuiRemotes.is_stub_key k then pop w else w
  | PickSource l ref :: _ => source_key w l ref k
  | PickBag l ref :: _ => bag_key w l ref k
  | PickMode l ref :: _ => mode_key w l ref k
  | PickKey l ref :: _ => key_key w l ref k
  | GenericRef t i ref :: _ => on_input w i k (fun i => GenericRef t i ref) (ref_entered w t ref)
  | GenericKey i ref :: _ => on_input w i k (fun i => GenericKey i ref) (subkey_entered w ref)
  | EnvName i ref :: _ => on_input w i k (fun i => EnvName i ref) (name_entered w ref)
  end.

Definition startVarWizard (initial : VarRef) : wizard := mkWizard [newPickSourceStep initial] [].

(** ** What it draws *)

Context `{Lipgloss : TuiDraw.Lipgloss}.

Definition step_title (s : step) : string :=
  match s with
  | StubStep t _ => t
  | PickSource _ _ => "var: pick source" | PickBag _ _ => "var: pick bag"
  | PickMode _ _ => "var: bag mode" | PickKey _ _ => "var: pick key"
  | GenericRef _ _ _ => "reference" | GenericKey _ _ => "sub-key (optional)" | EnvName _ _ => "env var name"
  end.

Definition choice_view (head : string) (l : choice) (row : nat -> string -> string) : string :=
  TuiDraw.heading head
  +:+ String.concat EmptyString (imap (fun i n =>
        TuiViews.marked_row (bool_decide (btn l = None) && (i =? cursor l)%nat) (row i n)) (names l))
  +:+ TuiDraw.newline +:+ TuiDraw.renderButtonRow wizard_buttons (btn l) +:+ TuiDraw.newline.

Definition source_row (n : string) : string :=
  TuiDraw.pad 20 n +:+ "  " +:+ TuiDraw.dimText ("(" +:+ (match Sources c !! n with Some sc => Type_ sc | None => EmptyString end) +:+ ")").
Definition bag_row (n : string) : string :=
  TuiDraw.pad 20 n +:+ "  " +:+ TuiDraw.dimText ("(" +:+ itoa (N.of_nat (size (default ∅ (Secrets c !! n)))) +:+ " keys)").
Definition mode_row (bag : string) (i : nat) : string :=
  if (i =? 0)%nat
  then "Inject ALL keys from this bag  " +:+ TuiDraw.dimText ("(" +:+ itoa (N.of_nat (length (TuiTree.sortedBagKeys c bag))) +:+ " env vars)")
  else "Pick ONE key from this bag".

Definition pick_source_view (l : choice) : string := choice_view "Pick source" l (fun _ => source_row).
Definition pick_bag_view (l : choice) : string := choice_view "Pick bag" l (fun _ => bag_row).
Definition pick_mode_view (l : choice) (ref : VarRef) : string := choice_view ("Bag mode: " +:+ Ref ref) l (fun i _ => mode_row (Ref ref) i).
Definition pick_key_view (l : choice) (ref : VarRef) : string := choice_view ("Pick key in " +:+ Ref ref) l (fun _ k => k).
Definition ref_placeholder (t : string) : string :=
  if String.eqb t "aws" then "prod/myapp/db" else if String.eqb t "noop" then "anything" else EmptyString.

Context (quote : string -> string).
Definition step_view (s : step) : string :=
  match s with
  | StubStep _ body => TuiViews.stub_view body
  | PickSource l _ => pick_source_view l
  | PickBag l _ => pick_bag_view l
  | PickMode l ref => pick_mode_view l ref
  | PickKey l ref => pick_key_view l ref
  | GenericRef t i ref =>
      TuiDraw.input_view ("Identifier for source " +:+ quote (Source ref) +:+ " (type=" +:+ t +:+ ")") (ref_placeholder t) i
  | GenericKey i _ => TuiDraw.input_view "JSON key inside the secret. Leave blank to take the whole value." "url" i
  | EnvName i _ => TuiDraw.input_view "Name of the environment variable to inject." "DATABASE_URL" i
  end.

Definition summariseVar (v : VarRef) : string :=
  let src := Sources c !! Source v in
  let srcDesc := match src with Some _ => Source v | None => Source v +:+ "?" end in
  let is_local := match src with Some sc => String.eqb (Type_ sc) "local" | None => false end in
  if is_local && str_empty (Key v) && str_empty (Name v) then "ALL keys from local/" +:+ Ref v
  else if is_local then Name v +:+ " ← local/" +:+ Ref v +:+ "." +:+ Key v
  else
    let extra := if str_empty (Key v) then Ref v else Ref v +:+ "." +:+ Key v in
    if str_empty (Name v) then "ALL keys from " +:+ srcDesc +:+ "/" +:+ extra
    else Name v +:+ " ← " +:+ srcDesc +:+ "/" +:+ extra.
End Wizard.

(** ** What it hands over *)

Section Handed.
Context `{MapRange} (typed : string -> string -> string) (c : Config) (r0 : VarRef).

(** The cursor is on a row and the focus on a button, if on any. *)
Definition on_rows (l : choice) : Prop :=
  (cursor l < length (names l))%nat /\ forall b, btn l = Some b -> (b < length wizard_buttons)%nat.

(** What the wizard never touches. *)
Definition kept (v : VarRef) : Prop := Extra v = Extra r0 /\ Value v = Value r0.
Definition of_type (v : VarRef) (local : bool) : Prop :=
  exists sc, Sources c !! Source v = Some sc /\ String.eqb (Type_ sc) "local" = local.
Definition has_bag (v : VarRef) : Prop := is_Some (Secrets c !! Ref v).
Definition has_key (v : VarRef) : Prop := is_Some (default ∅ (Secrets c !! Ref v) !! Key v).

(** What is known once the reference is complete but for its name. *)
Definition located (v : VarRef) : Prop := of_type v true /\ has_bag v /\ has_key v \/ of_type v false /\ Ref v <> "".

Definition step_ok (s : step) : Prop :=
  match s with
  | StubStep _ _ => True
  | PickSource l v => on_rows l /\ kept v /\ Forall (fun n => is_Some (Sources c !! n)) (names l)
  | PickBag l v => on_rows l /\ kept v /\ of_type v true /\ Forall (fun b => is_Some (Secrets c !! b)) (names l)
  | PickMode l v => on_rows l /\ kept v /\ of_type v true /\ has_bag v
  | PickKey l v => on_rows l /\ kept v /\ of_type v true /\ has_bag v /\ Forall (fun k => is_Some (default ∅ (Secrets c !! Ref v) !! k)) (names l)
  | GenericRef _ i v => kept v /\ of_type v false /\ allowBlnk i = false
  | GenericKey i v => kept v /\ of_type v false /\ Ref v <> ""
  | EnvName i v => kept v /\ located v /\ allowBlnk i = false
  end.

(** A whole bag, or a name for a key of one or for a reference. *)
Definition handed_ok (v : VarRef) : Prop :=
  kept v /\ (of_type v true /\ has_bag v /\ Name v = "" /\ Key v = "" \/ located v /\ Name v <> "").

Definition wizard_ok (w : wizard) : Prop := Forall step_ok (steps w) /\ Forall handed_ok (handed w).

Lemma position_bound x l i : position x l = Some i -> (i < length l)%nat.
Proof.
  revert i. induction l as [|y l IH]; intros i; [done|]. cbn [position length]. destruct (String.eqb y x); [intros [= <-]; lia|].
  destruct (position x l) as [j|]; [|done]. intros [= <-]. specialize (IH j eq_refl). lia.
Qed.

Lemma at_current_on_rows l x : l <> [] -> on_rows (at_current l x).
Proof.
  intros Hl. split; [|done]. cbn. destruct (position x l) as [i|] eqn:Hp; cbn; [by eapply position_bound|]. destruct l; [done|cbn; lia].
Qed.

Lemma list_step_key_spec l k :
  on_rows l ->
  match list_step_key l k with
  | Moved l' => on_rows l' /\ names l' = names l
  | Next row => row ∈ names l
  | _ => True
  end.
Proof.
  intros [Hc Hb]. unfold list_step_key.
  destruct (wizardListNav _ _ _ _ _) as [[cur b]|] eqn:Hn.
  - apply wizard_bound in Hn as [H1 H2]; [|done|cbn; lia|done]. done.
  - destruct (String.eqb k "enter"); [|by destruct (String.eqb k "esc")].
    destruct (match btn l with None => true | Some b => _ end); [|done]. apply nth_elem_of. exact Hc.
Qed.

Lemma wizard_ok_pop w : wizard_ok w -> wizard_ok (pop w).
Proof. intros [Hs Hh]. split; [|done]. cbn. by destruct Hs. Qed.

Lemma wizard_ok_push w top above : wizard_ok w -> step_ok top -> Forall step_ok above -> wizard_ok (push w top above).
Proof. intros [Hs Hh] Ht Ha. split; [|done]. cbn. apply Forall_app. split; [done|]. constructor; [done|]. by destruct Hs. Qed.

Lemma wizard_ok_finish w v top : wizard_ok w -> step_ok top -> handed_ok v -> wizard_ok (finishVar w v top).
Proof.
  intros [Hs Hh] Ht Hv. split; cbn; [|by apply Forall_app; auto]. constructor; [done|]. by destruct Hs.
Qed.

Lemma on_list_ok w l k keep next :
  wizard_ok w -> on_rows l -> (forall l', on_rows l' -> names l' = names l -> step_ok (keep l')) ->
  (forall row, row ∈ names l -> wizard_ok (next row)) -> wizard_ok (on_list w l k keep next).
Proof.
  intros Hw Hl Hk Hn. unfold on_list. pose proof (list_step_key_spec l k Hl) as Hs. destruct (list_step_key l k) as [l'|row| |].
  - destruct Hs. apply wizard_ok_push; auto.
  - auto.
  - by apply wizard_ok_pop.
  - done.
Qed.

Lemma on_input_ok w i k keep commit :
  wizard_ok w -> (forall i', allowBlnk i' = allowBlnk i -> step_ok (keep i')) ->
  (forall i' v, allowBlnk i' = allowBlnk i -> allowBlnk i = true \/ trim_space v <> "" -> wizard_ok (commit i' v)) ->
  wizard_ok (on_input typed w i k keep commit).
Proof.
  intros Hw Hk Hc. unfold on_input. destruct (input_update typed i k) as [i' a] eqn:Hi.
  destruct (TuiMappings.input_facts _ _ _ _ _ Hi) as (Hb & _ & Hv & _). cbn in Hb, Hv.
  destruct a; try (apply wizard_ok_push; auto); [by apply wizard_ok_pop|]. auto.
Qed.

Lemma env_name_ok v d : kept v -> located v -> step_ok (newEnvNameStep v d).
Proof. done. Qed.

Lemma pick_bag_ok v : kept v -> of_type v true -> step_ok (newPickBagStep c v).
Proof.
  intros Hk Ht. unfold newPickBagStep. destruct (TuiTree.bagNames c) as [|b l] eqn:Hl; [done|].
  split; [by apply at_current_on_rows|]. split; [done|]. split; [done|]. cbn [names at_current]. rewrite <- Hl. apply Forall_forall.
  intros x. apply TuiSecrets.bagNames_spec.
Qed.

Lemma pick_key_ok v : kept v -> of_type v true -> has_bag v -> step_ok (newPickBagKeyStep c v).
Proof.
  intros Hk Ht Hb. unfold newPickBagKeyStep. destruct (TuiTree.sortedBagKeys c (Ref v)) as [|b l] eqn:Hl; [done|].
  split; [by apply at_current_on_rows|]. do 3 (split; [done|]). cbn [names at_current]. rewrite <- Hl. apply Forall_forall.
  intros x. apply TuiSecrets.sortedBagKeys_spec.
Qed.

Lemma dispatch_ok v : kept v -> step_ok (dispatchByType c v).
Proof.
  intros Hk. unfold dispatchByType. destruct (Sources c !! Source v) as [sc|] eqn:Hs; [|done].
  destruct (String.eqb (Type_ sc) "local") eqn:Ht; [|split; [done|]; split; [by exists sc|done]].
  apply pick_bag_ok; [done|by exists sc].
Qed.

Lemma wizard_key_ok w k : wizard_ok w -> wizard_ok (wizard_key typed c w k).
Proof.
  intros Hw. unfold wizard_key. destruct (steps w) as [|s rest] eqn:Hst; [done|].
  assert (Hs : step_ok s) by (destruct Hw as [Hs _]; rewrite Hst in Hs; by inversion Hs).
  destruct s as [t b|l v|l v|l v|l v|t i v|i v|i v]; cbn in Hs.
  - destruct (TuiRemotes.is_stub_key k); [by apply wizard_ok_pop|done].
  - destruct Hs as (Hl & Hk & Hn). apply on_list_ok; [done..|intros l' Hl' He; cbn; by rewrite He|].
    intros row Hr. apply wizard_ok_push; [done..|]. constructor; [|done]. by apply dispatch_ok.
  - destruct Hs as (Hl & Hk & Ht & Hn). apply on_list_ok; [done..|intros l' Hl' He; cbn; by rewrite He|].
    intros row Hr. apply wizard_ok_push; [done..|]. constructor; [|done]. rewrite Forall_forall in Hn.
    split; [split; [cbn; destruct (str_empty (Key v)); lia|done]|]. split; [done|]. split; [done|]. by apply Hn.
  - destruct Hs as (Hl & Hk & Ht & Hb). apply on_list_ok; [done..|intros l' Hl' He; done|].
    intros row Hr. destruct (cursor l =? 0)%nat.
    + apply wizard_ok_finish; [done..|]. split; [done|]. by left.
    + apply wizard_ok_push; [done..|]. constructor; [|done]. by apply pick_key_ok.
  - destruct Hs as (Hl & Hk & Ht & Hb & Hn). apply on_list_ok; [done..|intros l' Hl' He; cbn; by rewrite He|].
    intros row Hr. apply wizard_ok_push; [done..|]. constructor; [|done]. rewrite Forall_forall in Hn.
    apply env_name_ok; [done|]. left. split; [done|]. split; [done|]. by apply Hn.
  - destruct Hs as (Hk & Ht & Hb). apply on_input_ok; [done|intros i' Hi; cbn; by rewrite Hi|].
    intros i' x Hi Hx. assert (Hne : trim_space x <> "") by (rewrite Hb in Hx; by destruct Hx).
    apply wizard_ok_push; [done|cbn; by rewrite Hi|]. by constructor.
  - destruct Hs as (Hk & Ht & Hr). apply on_input_ok; [done|done|]. intros i' x Hi _.
    apply wizard_ok_push; [done|done|]. constructor; [|done]. apply env_name_ok; [done|]. by right.
  - destruct Hs as (Hk & Hlo & Hb). apply on_input_ok; [done|intros i' Hi; cbn; by rewrite Hi|].
    intros i' x Hi Hx. assert (Hne : trim_space x <> "") by (rewrite Hb in Hx; by destruct Hx).
    apply wizard_ok_finish; [done|cbn; by rewrite Hi|]. split; [done|]. by right.
Qed.

Lemma wizard_keys_ok ks : wizard_ok (fold_left (wizard_key typed c) ks (startVarWizard c r0)).
Proof.
  assert (Hs : wizard_ok (startVarWizard c r0)).
  { split; [|done]. constructor; [|done]. unfold newPickSourceStep. destruct (configuredSourceNames c) as [|n l] eqn:Hl; [done|].
    split; [by apply at_current_on_rows|]. split; [done|]. cbn [names at_current]. rewrite <- Hl. apply Forall_forall.
    intros x. apply TuiTree.elem_of_sorted_range. }
  revert Hs. generalize (startVarWizard c r0). induction ks as [|k ks IH]; intros w Hw; [done|]. by apply IH, wizard_key_ok.
Qed.

(** Whatever is typed, and however often one goes back, a variable the wizard hands over for
    one that is no literal passes the validation of any slot. *)
Theorem wizard_validates ks v i j :
  Value r0 = "" -> Sources c !! "" = None -> v ∈ handed (fold_left (wizard_key typed c) ks (startVarWizard c r0)) ->
  check_var i j v = None /\ check_var_post (Sources c) i j v = None.
Proof.
  intros H0 Hno Hv. destruct (wizard_keys_ok ks) as [_ Hh]. rewrite Forall_forall in Hh. destruct (Hh v Hv) as [[_ Hval] Hok].
  rewrite H0 in Hval.
  assert (Hsrc : exists sc, Sources c !! Source v = Some sc) by (destruct Hok as [((sc & ? & _) & _)|[[((sc & ? & _) & _)|((sc & ? & _) & _)] _]]; by exists sc).
  destruct Hsrc as [sc Hsc]. unfold check_var, check_var_post. rewrite Hval, Hsc. cbn [str_empty negb]. split; [|done].
  destruct (str_empty (Source v)) eqn:He; [apply str_empty_spec in He; rewrite He in Hsc; by rewrite Hsc in Hno|].
  destruct Hok as [(_ & _ & -> & ->)|[_ Hn]]; [done|]. apply str_empty_false in Hn. by rewrite Hn.
Qed.
End Handed.

(** A local key, back to another source, and a reference: the two variables handed over. *)
#[local] Existing Instance map_range_default.
Definition wiz_config : Config :=
  mkConfig Version (mkMeta "" 0 0 0 "" "" "" "") (mkAgentConfig "" "" None None)
    {["local" := mkSource "local" ∅; "v" := mkSource "vault" ∅]} [] {["app" := {["A" := "1"; "B" := "2"]}]} None.
Definition no_var : VarRef := mkVar "" "" "" "" ∅ "".
Definition append_key (k s : string) : string := s +:+ k.
Definition wiz_keys : list string :=
  ["enter"; "enter"; "down"; "enter"; "down"; "enter"; "enter"; "esc"; "esc"; "esc"; "esc"; "down"; "enter"; "x"; "enter"; "enter"; "enter"; "N"; "enter"].
Example wizard_runs :
  handed (fold_left (wizard_key append_key wiz_config) wiz_keys (startVarWizard wiz_config no_var))
  = [mkVar "B" "local" "app" "B" ∅ ""; mkVar "N" "v" "x" "" ∅ ""].
Proof. vm_compute. reflexivity. Qed.

(** A variable that holds a literal keeps it beside the reference, which no slot allows. *)
Example wizard_keeps_literal :
  (fun v => check_var 0 0 v) <$> handed (fold_left (wizard_key append_key wiz_config) ["enter"; "enter"; "enter"]
    (startVarWizard wiz_config (mkVar "A" "" "" "" ∅ "literal")))
  = [Some (ValueNotExclusive 0 0)].
Proof. vm_compute. reflexivity. Qed.
End TuiWizard.
