(* ===== verification/Entry.v ===== *)
(** * The programs and their small commands (src/cmd/jitenv/main.go, cmd/jitenv-hook/main.go, cmd/jitenv-tui/main.go,
    internal/cli/hook.go, status.go, lock.go, sources.go, cwd_discover.go, internal/crypto/passphrase.go)

    Which program a name starts, what the hot-path binary does with its arguments, the
    commands that print what other parts answer, and the passphrase prompt. *)

From S2P Require Import Prelude GoString GoPath Fs ConfigModel Crypto NameId Seal Store StoreMigrate Toys Bag.
From S2P Require Import Mapping Protocol Resolver Shells Agent ConfigPath Unlock Shim Chpwd Reconcile Runner Hook HookInstall Discover Commands Tui TuiStart.
Import GoPath Fs Config Store ConfigPath Unlock.

Module Entry.

(** ** The name a program was started under *)

Definition program_name (argv0 : string) : string :=
  let base := Base argv0 in
  let name := trim_suffix base ".exe" in
  if str_empty name then base else name.

(** [Some name]: the program is a wrapper and goes to the shim under that name. *)
Definition wrapper_name (self argv0 : string) : option string :=
  let base := program_name argv0 in
  if negb (String.eqb base self) && negb (str_empty base) then Some base else None.

(** ** jitenv-hook *)

Inductive HookErr := HChpwd (e : Chpwd.ChErr) | HMapped (e : Commands.KErr) | HRun (e : Runner.RErr) | HShim (e : Shim.ShErr).

(** How the process ends, or what it becomes. *)
Inductive ending :=
| Exit (code : nat)
| Exec (o : Runner.outcome)
| ExecShim (e : Shim.exec).

Section Hook.
Context `{Os, Toml, MapRange}.
Context (ds_match : string -> string -> option bool) (home cwd : option string).
(** chpwd.Run, run.Run and shim.run *)
Context (chpwd_run : list string -> M Chpwd.ChErr bool) (run_run : string -> list string -> M Runner.RErr Runner.outcome)
  (shim_run : string -> list string -> M Shim.ShErr Shim.exec).

Definition hook_command (args : list string) : M HookErr ending :=
  match args with
  | [] => mret (Exit 2)
  | cmd :: rest =>
      if String.eqb cmd "__chpwd" then
        r ← attempt (chpwd_run rest); mret (Exit (Commands.chpwd_exit r))
      else if String.eqb cmd "is-mapped" then
        match rest with
        | [] => mret (Exit 2)
        | p :: _ => code ← mapErr HMapped (Commands.is_mapped ds_match home cwd p); mret (Exit code)
        end
      else if String.eqb cmd "run" then
        match rest with
        | [] => mret (Exit 2)
        | file :: args =>
            r ← attempt (run_run file args);
            mret (match r with Ok o => Exec o | Err _ => Exit 1 end)
        end
      else mret (Exit 2)
  end.

(** shim.Main: 127 when the shim fails. *)
Definition shim_main (invokedAs : string) (args : list string) : M HookErr ending :=
  r ← attempt (shim_run invokedAs args);
  mret (match r with Ok e => ExecShim e | Err _ => Exit 127 end).

Definition hook_main (argv0 : string) (args : list string) : M HookErr ending :=
  match wrapper_name "jitenv-hook" argv0 with
  | Some name => shim_main name args
  | None => hook_command args
  end.

(** main of jitenv, with the cobra commands as [execute]. *)
Definition jitenv_main (execute : list string -> M HookErr nat) (argv0 : string) (args : list string) : M HookErr ending :=
  match wrapper_name "jitenv" argv0 with
  | Some name => shim_main name args
  | None => code ← execute args; mret (Exit code)
  end.
End Hook.

(** main of jitenv-tui: the configuration the editor is started on, or the exit code. *)
Definition tui_main `{Os} (args : list string) : string + nat :=
  match args with
  | [] => inr 2%nat
  | cmd :: rest =>
      if String.eqb cmd "run" then
        let given := match rest with p :: _ => p | [] => EmptyString end in
        match Resolve (if str_empty given then env "JITENV_CONFIG" else given) with
        | Some path => inl path
        | None => inr 1%nat
        end
      else inr 2%nat
  end.

(** ** hook install, hook status *)

Definition line (s : string) : string := s +:+ str1 LF.

(** What goes to standard output and to standard error. *)
Definition install_output (captured : bool) (sh : string) (rep : HookInstall.InstallReport) : list string * list string :=
  let status :=
    (if HookInstall.RcAdded rep then [line ("added hook line to " +:+ HookInstall.RRcPath rep)]
     else [line ("hook line already present in " +:+ HookInstall.RRcPath rep)])
    ++ (if String.eqb sh "bash" then
          if HookInstall.LoginAdded rep && negb (str_empty (HookInstall.LoginPath rep)) then
            [line ("added '. ~/.bashrc' to " +:+ HookInstall.LoginPath rep +:+ " so login shells load the hook")]
          else if HookInstall.LoginAlreadyOK rep && negb (str_empty (HookInstall.LoginPath rep)) then
            [line (HookInstall.LoginPath rep +:+ " already sources ~/.bashrc " +:+ utf8 [226; 128; 148]%nat +:+ " login shells covered")]
          else []
        else []) in
  let activate := HookInstall.ActivateCommand sh in
  if captured then ([line activate], status)
  else (status ++ [line ("activate it in this shell with:" +:+ str1 LF +:+ "    " +:+ activate +:+ str1 LF +:+ "(or open a new shell)")], []).

Section HookCommands.
Context `{Os} (ppid : Z) (queryPwshProfilePath : string).

Definition hook_install (captured : bool) (shellFlag : string) : M Hook.HErr (option (list string * list string)) :=
  sh ← (if str_empty shellFlag then HookInstall.DetectShell ppid else mret shellFlag);
  if str_empty sh then mret None
  else
    rep ← HookInstall.InstallShell queryPwshProfilePath sh;
    mret (Some (install_output captured sh rep)).

Definition hook_status : M Hook.HErr (list string) :=
  st ← HookInstall.CurrentStatus ppid queryPwshProfilePath;
  mret (if str_empty (HookInstall.Shell st) then ["shell: unsupported (only bash, zsh, and PowerShell 7+)"]
        else
          ["shell:     " +:+ HookInstall.Shell st; "rc file:   " +:+ HookInstall.SRcPath st;
           if HookInstall.Installed st then "installed: yes" else "installed: no"]
          ++ (if String.eqb (HookInstall.Shell st) "bash" then
                [if str_empty (HookInstall.SLoginPath st) then "login chain: no .bash_profile / .bash_login / .profile"
                 else if HookInstall.LoginSources st then
                   "login chain: " +:+ HookInstall.SLoginPath st +:+ " sources ~/.bashrc " +:+ utf8 [226; 128; 148]%nat +:+ " login shells covered"
                 else "login chain: " +:+ HookInstall.SLoginPath st +:+ " does NOT source ~/.bashrc " +:+ utf8 [226; 128; 148]%nat
                      +:+ " login shells will skip the hook"]
              else [])
          ++ (if negb (HookInstall.Installed st) || TuiStart.login_missing st then ["to install: jitenv hook install"] else [])).
End HookCommands.

(** ** status, lock, sources types, cwd discover *)

(** [None] is the panic on an answer without a status. *)
Definition status_output (r : res Agent.CallErr (option Protocol.Status)) : option (list string) :=
  match r with
  | Err _ => Some ["agent: locked (not running)"]
  | Ok None => None
  | Ok (Some st) =>
      Some ["agent:      unlocked"; "pid:        " +:+ format_int (Protocol.SPID st); "started:    " +:+ Protocol.SStartedAt st;
            "idle for:   " +:+ Protocol.SIdleFor st; "hits:       " +:+ format_int (Protocol.SHits st);
            "sources:    " +:+ join ", " (Protocol.SSources st)]
  end.

Definition lock_output (r : res Agent.CallErr unit) : res Agent.CallErr (list string) :=
  _ ← r; Ok ["agent stopping"].

Definition sources_types (builders : gmap string Resolver.builder) : list string := Resolver.Types builders.

Definition cwd_discover {E} `{Os} (doublestar_Match : string -> string -> bool) (folder : string) : M E (list string) :=
  Discover.ScanCommands doublestar_Match folder.

(** ** The passphrase prompt *)

Inductive PromptErr := OpenTTY | ReadFailed | NoMatch | EmptyPassphrase.

(** [reads]: what the terminal gives, first to the prompt and then to the confirmation. *)
Definition PromptPassphrase (tty : bool) (reads : option string * option string) (confirm : bool) : res PromptErr string :=
  if negb tty then Err OpenTTY
  else match reads.1 with
       | None => Err ReadFailed
       | Some pw =>
           _ ← (if confirm then match reads.2 with
                                | None => Err ReadFailed
                                | Some pw2 => if bool_decide (pw = pw2) then Ok tt else Err NoMatch
                                end
                else Ok tt);
           if str_empty pw then Err EmptyPassphrase else Ok pw
       end.

(** The line read up to a newline, with whether an error came with it. *)
Fixpoint trim_newlines (fuel : nat) (s : string) : string :=
  match fuel with
  | O => s
  | S n => if has_suffix s (str1 LF) then trim_newlines n (trim_suffix s (str1 LF))
           else if has_suffix s (str1 CR) then trim_newlines n (trim_suffix s (str1 CR))
           else s
  end.

Definition PromptTTYLine (tty : bool) (read : string * bool) : res PromptErr string :=
  if negb tty then Err OpenTTY
  else if read.2 && str_empty read.1 then Err ReadFailed
  else Ok (trim_newlines (String.length read.1) read.1).

(** ** What they promise *)

Lemma PromptPassphrase_ok tty reads confirm pw :
  PromptPassphrase tty reads confirm = Ok pw ->
  pw <> EmptyString /\ reads.1 = Some pw /\ (confirm = true -> reads.2 = Some pw).
Proof.
  unfold PromptPassphrase. destruct tty; [|done]. destruct reads as [[p|] r2]; [|done]. cbn.
  destruct confirm; cbn.
  - destruct r2 as [p2|]; [|done]. case_bool_decide as Hp; [|done]. subst p2. cbn.
    destruct (str_empty p) eqn:He; [done|]. intros [= ->]. by apply str_empty_false in He.
  - destruct (str_empty p) eqn:He; [done|]. intros [= ->]. by apply str_empty_false in He.
Qed.

(** What [eval] gets from a captured hook install is the activation and nothing else. *)
Lemma captured_is_activation `{Os} ppid q sh w out err w' :
  hook_install ppid q true sh w = (Ok (Some (out, err)), w') ->
  exists s, out = [line (HookInstall.ActivateCommand s)] /\ (str_empty sh = false -> s = sh).
Proof.
  unfold hook_install. intros [(s & w1 & Hs & Hr)|(e & _ & ?)]%M_bind_inv; [|done].
  destruct (str_empty s); [done|]. apply M_bind_inv in Hr as [(rep & w2 & _ & Hr)|(e & _ & ?)]; [|done].
  injection Hr as <- _ _. exists s. split; [done|]. intros He. rewrite He in Hs. by injection Hs as <- _.
Qed.

(** A wrapper goes to the shim under the command it was made for, by its path or by its
    bare name, unless the name ends in .exe or is the program's own. *)
Lemma wrapper_starts_shim self l c :
  Forall plain_elem l -> l <> [] -> plain_elem c -> has_suffix c ".exe" = false -> c <> self ->
  wrapper_name self (Reconcile.slot l c) = Some c /\ (Base c = c -> wrapper_name self c = Some c).
Proof.
  intros Hl Hne Hc Hs Hself.
  assert (Hn : forall a, Base a = c -> wrapper_name self a = Some c).
  { intros a Ha. unfold wrapper_name, program_name. rewrite Ha. unfold trim_suffix. rewrite Hs.
    destruct (str_empty c) eqn:He; [apply str_empty_spec in He as ->; by destruct Hc as [(_ & Hc & _) _]; destruct Hc|].
    destruct (String.eqb_spec c self); [done|]. by rewrite He. }
  split; [apply Hn; by apply Reconcile.Base_slot|apply Hn].
Qed.

(** The configuration allows foo.exe as a command, and its wrapper is a link of that name;
    started through it the shim looks for foo. *)
Example exe_wrapper_is_another_command :
  Config.isValidCommandName "code.exe" = true
  /\ wrapper_name "jitenv-hook" "/run/user/1000/jitenv/shells/7/bin/code.exe" = Some "code"
  /\ wrapper_name "jitenv-hook" "jitenv" = Some "jitenv" /\ wrapper_name "jitenv" "/usr/bin/jitenv.exe" = None.
Proof. vm_compute. done. Qed.
End Entry.
